(** * Shape2XML-HFGT: the topology reviser of [AMES.py] and [SnapEdges2Grid.py]

    A shallow embedding of the clustering and revision core:
    - [np]              the NumPy array idioms the source is written with
                        ([np.where], fancy indexing, [np.delete], [np.unique],
                        [np.argmin], ...), on lists;
    - [Arith]           the numeric kernel (distance, comparisons, mean), kept
                        abstract so that the same definitions run on IEEE
                        binary64 ([Float64]) and on exact rationals ([Exact]);
    - [SnapEdges2Grid]  [snapEdges2GridRef] and [getClustMidpointsRef];
    - [AMES]            [updateTransporters], [deleteIsoNodes], [reviseCoords],
                        [joinLineSegs],
                        [addIndBuffers], [findClusterPrimary],
                        [setPipeODNames2], [linkClusterBuffers], [reviseOil].

    Sparse tables are in coordinate form, one [entry] per stored cell, in
    the order of the [row]/[col]/[data] arrays of the source; the X and the
    Y table of the source share their pattern of stored cells and are kept
    as one list of entries carrying both coordinates. *)

From Stdlib Require Import String Ascii DecimalString Floats.
From Stdlib Require Import Bool Arith ZArith QArith Qminmax Lia List Sorted.
Import ListNotations.

Set Implicit Arguments.
Close Scope Q_scope.
Open Scope nat_scope.

(* ------------------------------------------------------------------ *)
(** ** NumPy idioms on lists *)

Module np.

Section Arrays.
Variable A : Type.

(** [np.where(cond)[0]]: the positions at which the condition holds,
    ascending. *)
Fixpoint where_from (p : A -> bool) (i : nat) (l : list A) : list nat :=
  match l with
  | [] => []
  | a :: l' => if p a then i :: where_from p (S i) l' else where_from p (S i) l'
  end.

Definition where_ (p : A -> bool) (l : list A) : list nat := where_from p 0 l.

(** [arr[idx]] for an index array [idx] (the positions come from
    [np.where] and are in range; [d] is never read). *)
Definition take (d : A) (l : list A) (idx : list nat) : list A :=
  map (fun i => nth i l d) idx.

(** [arr[mask]] for a boolean mask of the same length. *)
Fixpoint select (mask : list bool) (l : list A) : list A :=
  match mask, l with
  | m :: mask', a :: l' => if m then a :: select mask' l' else select mask' l'
  | _, _ => []
  end.

Fixpoint mapi_from (f : nat -> A -> A) (i : nat) (l : list A) : list A :=
  match l with
  | [] => []
  | a :: l' => f i a :: mapi_from f (S i) l'
  end.

(** [arr[idx] = v] for an index array [idx]. *)
Definition put (l : list A) (idx : list nat) (v : A) : list A :=
  mapi_from (fun i a => if existsb (Nat.eqb i) idx then v else a) 0 l.

(** [arr[i] = v] for one position. *)
Definition set_at (l : list A) (i : nat) (v : A) : list A := put l [i] v.

Fixpoint delete_from (idx : list nat) (i : nat) (l : list A) : list A :=
  match l with
  | [] => []
  | a :: l' =>
      if existsb (Nat.eqb i) idx then delete_from idx (S i) l'
      else a :: delete_from idx (S i) l'
  end.

(** [np.delete(arr, idx)] for positions in range. *)
Definition delete (l : list A) (idx : list nat) : list A := delete_from idx 0 l.

(** [np.insert(arr, pos, values)] for one position [pos]. *)
Definition insert (l : list A) (pos : nat) (vs : list A) : list A :=
  firstn pos l ++ vs ++ skipn pos l.
End Arrays.

(** Truth value of an index array, [idx.any()] and [any(idx)]: some
    element is non-zero. *)
Definition any_nonzero (idx : list nat) : bool :=
  existsb (fun i => negb (i =? 0)) idx.

(** [np.unique] on naturals: the distinct values, ascending. *)
Fixpoint insert_sorted (x : nat) (l : list nat) : list nat :=
  match l with
  | [] => [x]
  | y :: l' =>
      if x <? y then x :: l
      else if x =? y then l
      else y :: insert_sorted x l'
  end.

Definition unique (l : list nat) : list nat := fold_right insert_sorted [] l.

(** [np.unique] on integers. *)
Fixpoint insert_sortedZ (x : Z) (l : list Z) : list Z :=
  match l with
  | [] => [x]
  | y :: l' =>
      if (x <? y)%Z then x :: l
      else if (x =? y)%Z then l
      else y :: insert_sortedZ x l'
  end.

Definition uniqueZ (l : list Z) : list Z := fold_right insert_sortedZ [] l.

Section Argmin.
Variable A : Type.
Variable lt : A -> A -> bool.

(** The scan of [np.argmin]: [best] is the smallest value so far, at
    position [bi]; a later value replaces it only when strictly
    smaller, so the first minimum wins. *)
Fixpoint argmin_from (best : A) (bi i : nat) (l : list A) : nat :=
  match l with
  | [] => bi
  | a :: l' =>
      if lt a best then argmin_from a i (S i) l'
      else argmin_from best bi (S i) l'
  end.

(** [np.argmin(arr)] of a non-empty array (position 0 for the empty one,
    where NumPy raises; the source guards every call). *)
Definition argmin (l : list A) : nat :=
  match l with
  | [] => 0
  | a :: l' => argmin_from a 0 1 l'
  end.
End Argmin.

End np.

(* ------------------------------------------------------------------ *)
(** ** The numeric kernel *)

(** What the clusterer asks of numbers. [dist x1 y1 x2 y2] is the source's
    [((x1 - x2)**2 + (y1 - y2)**2)**0.5]; [leb] is the radius test [<=];
    [ltb] is the order [np.argmin] scans with; [mean] is [np.mean] followed
    by the store into the [clustCenter] array. *)
Class Arith (F : Type) := {
  zero : F;
  dist : F -> F -> F -> F -> F;
  leb : F -> F -> bool;
  ltb : F -> F -> bool;
  mean : list F -> F;
  eps1 : F;   (* 0.001446: primary clustering radius *)
  eps2 : F;   (* 0.014465: secondary clustering radius *)
  eps3 : F;   (* 0.5075:   tertiary radius, for adding lines *)
  eps_oil : F (* 0.5075*4: radius of the oil power-plant rescue *)
}.

(** IEEE binary64, the numbers of the source. *)
Module Float64.
Local Open Scope float_scope.

Definition fdist (x1 y1 x2 y2 : float) : float :=
  PrimFloat.sqrt ((x1 - x2) * (x1 - x2) + (y1 - y2) * (y1 - y2)).

(** The eight running sums of NumPy's unrolled loop, each over every
    eighth value: [blocks] whole blocks of eight are added to [r]. *)
Fixpoint unrolled (blocks : nat) (r l : list float) : list float * list float :=
  match blocks with
  | O => (r, l)
  | S blocks' =>
      unrolled blocks' (map (fun p => fst p + snd p) (combine r (firstn 8 l)))
               (skipn 8 l)
  end.

Definition sum8 (r : list float) : float :=
  match r with
  | [r0; r1; r2; r3; r4; r5; r6; r7] =>
      ((r0 + r1) + (r2 + r3)) + ((r4 + r5) + (r6 + r7))
  | _ => 0
  end.

(** NumPy's pairwise summation of a contiguous float64 array
    ([DOUBLE_pairwise_sum]), which [np.mean] sums with: fewer than 8
    values are added one by one to 0; up to 128 values go through eight
    running sums, which are added in pairs before the values left over;
    a longer array is cut in two, the first part a multiple of 8 long.
    The cut halves the length, so [fuel] = the length is enough. *)
Fixpoint pairwise_sum (fuel : nat) (l : list float) : float :=
  let n := List.length l in
  if (n <? 8)%nat then fold_left PrimFloat.add l 0
  else if (n <=? 128)%nat then
    let '(r, rest) := unrolled (n / 8 - 1)%nat (firstn 8 l) (skipn 8 l) in
    fold_left PrimFloat.add rest (sum8 r)
  else
    match fuel with
    | O => 0
    | S fuel' =>
        let n2 := (n / 2 - (n / 2) mod 8)%nat in
        pairwise_sum fuel' (firstn n2 l) + pairwise_sum fuel' (skipn n2 l)
    end.

(** [np.add.reduce]: the pairwise sum is added to the identity 0 (so a
    sum that is a negative zero comes out as a positive zero; nothing
    the clusterer does tells the two apart). *)
Definition np_sum (l : list float) : float := 0 + pairwise_sum (List.length l) l.

(** [np.mean] of a float64 array: the sum, divided by the count. *)
Definition np_mean (l : list float) : float :=
  np_sum l / PrimFloat.of_uint63 (Uint63.of_nat (List.length l)).

(** The store of a float64 into a float32 array: the value is rounded
    to the nearest binary32 value, ties to even, and overflows to an
    infinity; read back, it is a binary64 value again. *)
Definition to_float32 (x : float) : float :=
  match Prim2SF x with
  | S754_finite s m e => SF2Prim (binary_round 24 128 s m e)
  | _ => x
  end.

(** [clustCenter[k1][0] = np.mean(...)] (lines 99-103): [clustCenter]
    has dtype float32, so what is kept of the mean, and written back to
    the table, is its binary32 rounding. *)
Definition fmean (l : list float) : float := to_float32 (np_mean l).

(** The literals of the source, as the closest binary64 values. *)
Definition f_eps1 : float := 0x1.7b0f6ad70e6f3p-10.
Definition f_eps2 : float := 0x1.d9fd36f7e3d1dp-7.
Definition f_eps3 : float := 0x1.03d70a3d70a3dp-1.
Definition f_eps_oil : float := f_eps3 * 4.

#[global] Instance arith : Arith float := {|
  zero := 0;
  dist := fdist;
  leb := PrimFloat.leb;
  ltb := PrimFloat.ltb;
  mean := fmean;
  eps1 := f_eps1;
  eps2 := f_eps2;
  eps3 := f_eps3;
  eps_oil := f_eps_oil
|}.
End Float64.

(** Exact rationals, the idealised kernel. A square root is not
    rational, so this instance compares squares: [dist] is the squared
    distance and each radius is squared, which decides the same tests on
    non-negative numbers. [mean] is the exact mean: the float32 store has
    no counterpart here. *)
Module Exact.
Local Open Scope Q_scope.

Definition qdist (x1 y1 x2 y2 : Q) : Q :=
  (x1 - x2) * (x1 - x2) + (y1 - y2) * (y1 - y2).

Definition qltb (a b : Q) : bool := negb (Qle_bool b a).

Definition qmean (l : list Q) : Q :=
  Qred (fold_left Qplus l 0 / inject_Z (Z.of_nat (List.length l))).

Definition sq (r : Q) : Q := r * r.

#[global] Instance arith : Arith Q := {|
  zero := 0;
  dist := qdist;
  leb := Qle_bool;
  ltb := qltb;
  mean := qmean;
  eps1 := sq (1446 # 1000000);
  eps2 := sq (14465 # 1000000);
  eps3 := sq (5075 # 10000);
  eps_oil := sq (4 * (5075 # 10000))
|}.
End Exact.

(* ------------------------------------------------------------------ *)
(** ** SnapEdges2Grid.py *)

Module SnapEdges2Grid.

Section Clusterer.
Context {F : Type} {AF : Arith F}.

(** One stored cell of the sparse coordinate tables: the point-row, the
    commodity column, and the X and Y values stored there. *)
Record entry := mkEntry { row : nat; col : nat; gx : F; gy : F }.

Definition entry0 : entry := mkEntry 0 0 zero zero.

(** [sp.vstack((ptsOD, ptsB))]: the endpoint cells, then the buffer
    cells with their rows moved below the [nrows] endpoint rows. *)
Definition vstack (nrows : nat) (od b : list entry) : list entry :=
  od ++ map (fun e => mkEntry (row e + nrows) (col e) (gx e) (gy e)) b.

Definition cluster_of (clusters : list (option nat)) (i : nat) : option nat :=
  nth i clusters None.

Definition clustered (clusters : list (option nat)) (i : nat) : bool :=
  match cluster_of clusters i with Some _ => true | None => false end.

Definition dist_to (p q : entry) : F := dist (gx p) (gy p) (gx q) (gy q).

(** The body of [for k2 in lineIdx] (lines 46-57). *)
Definition primary_entry (od pts : list entry)
    (st : list (option nat) * nat) (k2 : nat) : list (option nat) * nat :=
  let '(clusters, clust) := st in
  let p := nth k2 od entry0 in
  let refIdx := np.where_ (fun q => col q =? col p) pts in
  let distances := map (fun j => dist_to p (nth j pts entry0)) refIdx in
  let found := np.where_ (fun d => leb d eps1) distances in
  let foundIDX := np.take 0 refIdx found in
  if existsb (clustered clusters) foundIDX then
    let found_dist := np.take zero distances found in
    let mask := map (clustered clusters) foundIDX in
    let closest_clust := np.argmin ltb (np.select mask found_dist) in
    let extended_clust :=
      nth closest_clust (np.select mask (map (cluster_of clusters) foundIDX)) None in
    (np.put clusters (np.select (map negb mask) foundIDX) extended_clust, clust)
  else
    (np.put clusters foundIDX (Some clust), S clust).

(** The body of [for k1 in range(ptsODX.shape[0])] (lines 42-57). *)
Definition primary_row (od pts : list entry)
    (st : list (option nat) * nat) (k1 : nat) : list (option nat) * nat :=
  let lineIdx := np.where_ (fun e => row e =? k1) od in
  if existsb (clustered (fst st)) lineIdx then st
  else fold_left (primary_entry od pts) lineIdx st.

Definition primary_pass (nrows : nat) (od pts : list entry)
    : list (option nat) * nat :=
  fold_left (primary_row od pts) (seq 0 nrows)
            (repeat None (List.length pts), 0).

(** The state of the secondary pass: [clusters], [clust] and
    [resourcesToAdd]. *)
Definition sec_state : Type := list (option nat) * nat * list (nat * nat).

(** The body of [for k2 in isoNodes] (lines 65-76). *)
Definition secondary_step (od pts : list entry) (st : sec_state) (k2 : nat)
    : sec_state :=
  let '(clusters, clust, resourcesToAdd) := st in
  let p := nth k2 pts entry0 in
  let refIdx := np.where_ (fun q => col q =? col p) od in
  if negb (np.any_nonzero refIdx) then st
  else
    let distances := map (fun j => dist_to p (nth j od entry0)) refIdx in
    let nearest := np.argmin ltb distances in
    let nearestIDX := nth nearest refIdx 0 in
    if leb (nth nearest distances zero) eps2 then
      (np.set_at clusters k2 (cluster_of clusters nearestIDX), clust, resourcesToAdd)
    else if leb (nth nearest distances zero) eps3 then
      (np.set_at clusters k2 (Some clust), S clust,
       resourcesToAdd ++ [(k2, nearestIDX)])
    else st.

Definition isoNodes (clusters : list (option nat)) : list nat :=
  np.where_ (fun c => match c with None => true | Some _ => false end) clusters.

Definition secondary_pass (od pts : list entry)
    (st : list (option nat) * nat) : sec_state :=
  fold_left (secondary_step od pts) (isoNodes (fst st)) (fst st, snd st, []).

(** [np.unique(clusters[~np.equal(clusters, None)])]. *)
Definition cluster_ids (clusters : list (option nat)) : list nat :=
  np.unique (flat_map (fun c => match c with Some n => [n] | None => [] end) clusters).

Definition members (clusters : list (option nat)) (c : nat) : list nat :=
  np.where_ (fun x => match x with Some n => n =? c | None => false end) clusters.

(** The state of [getClustMidpointsRef]: [clustCenter] (filled front to
    back), [midpoint] and the table whose data it overwrites. *)
Definition mid_state : Type := list (F * F) * list (F * F) * list entry.

Definition set_xy (e : entry) (x y : F) : entry := mkEntry (row e) (col e) x y.

Fixpoint assign_xy (idx : list nat) (x y : F) (i : nat) (l : list entry)
    : list entry :=
  match l with
  | [] => []
  | e :: l' =>
      (if existsb (Nat.eqb i) idx then set_xy e x y else e)
        :: assign_xy idx x y (S i) l'
  end.

(** The body of [for k1 in range(len(clusts))] (lines 101-106). *)
Definition midpoint_step (clusters : list (option nat)) (st : mid_state)
    (c : nat) : mid_state :=
  let '(clustCenter, midpoint, pts) := st in
  let clustIDX := members clusters c in
  let cx := mean (map gx (np.take entry0 pts clustIDX)) in
  let cy := mean (map gy (np.take entry0 pts clustIDX)) in
  (clustCenter ++ [(cx, cy)],
   np.put midpoint clustIDX (cx, cy),
   assign_xy clustIDX cx cy 0 pts).

Definition getClustMidpointsRef (pts : list entry)
    (clusters : list (option nat)) : mid_state :=
  fold_left (midpoint_step clusters) (cluster_ids clusters)
            ([], repeat (zero, zero) (List.length clusters), pts).

(** What [snapEdges2GridRef] returns: [clusters], [clustCenters], [pts],
    the table with collapsed coordinates, and [resourcesToAdd]. *)
Record snapped := mkSnapped {
  s_clusters : list (option nat);
  s_clustCenters : list (F * F);
  s_pts : list (F * F);
  s_table : list entry;
  s_resourcesToAdd : list (nat * nat)
}.

Definition snapEdges2GridRef (nrows : nat) (ptsB ptsOD : list entry) : snapped :=
  let pts := vstack nrows ptsOD ptsB in
  let '(clusters, clust, resourcesToAdd) :=
    secondary_pass ptsOD pts (primary_pass nrows ptsOD pts) in
  let '(clustCenters, midpoint, table) := getClustMidpointsRef pts clusters in
  mkSnapped clusters clustCenters midpoint table resourcesToAdd.
End Clusterer.

End SnapEdges2Grid.


(* ------------------------------------------------------------------ *)
(** ** Python results and containers *)

(** The exceptions the modelled code can raise. *)
Inductive exn : Type :=
| IndexError | AttributeError | TypeError | ValueError | UnboundLocalError.

(** A computation returns or raises. *)
Inductive res (A : Type) : Type :=
| Ok (a : A)
| Raise (e : exn).

Arguments Ok {A} a.
Arguments Raise {A} e.

Definition bind {A B : Type} (m : res A) (k : A -> res B) : res B :=
  match m with
  | Ok a => k a
  | Raise e => Raise e
  end.

Notation "x <- m ;; k" := (bind m (fun x => k))
  (at level 61, m at next level, right associativity).
Notation "' p <- m ;; k" := (bind m (fun p => k))
  (at level 61, p pattern, m at next level, right associativity).

(** A [for] loop whose body may raise. *)
Fixpoint foldM {S K : Type} (f : S -> K -> res S) (l : list K) (st : S) : res S :=
  match l with
  | [] => Ok st
  | k :: l' => st' <- f st k ;; foldM f l' st'
  end.

Module py.

(** The position a Python index denotes in a sequence of length [len]:
    negative indices count from the end. *)
Definition pos (len : nat) (z : Z) : res nat :=
  if ((0 <=? z) && (z <? Z.of_nat len))%Z then Ok (Z.to_nat z)
  else if ((- Z.of_nat len <=? z) && (z <? 0))%Z then Ok (Z.to_nat (Z.of_nat len + z))
  else Raise IndexError.

(** [l[i]] for a position. *)
Definition get {A : Type} (l : list A) (i : nat) : res A :=
  match nth_error l i with
  | Some a => Ok a
  | None => Raise IndexError
  end.

(** [l[z]] for a Python index. *)
Definition getz {A : Type} (l : list A) (z : Z) : res A :=
  i <- pos (length l) z ;; get l i.

(** [arr[idx]] for an index array. *)
Fixpoint take {A : Type} (l : list A) (idx : list nat) : res (list A) :=
  match idx with
  | [] => Ok []
  | i :: idx' => a <- get l i ;; r <- take l idx' ;; Ok (a :: r)
  end.

(** [np.delete(arr, idx)]: an index out of bounds raises. *)
Definition delete {A : Type} (l : list A) (idx : list nat) : res (list A) :=
  if forallb (fun i => i <? length l) idx then Ok (np.delete l idx)
  else Raise IndexError.

(** [l[i] = v] for a position in range. *)
Definition set {A : Type} (l : list A) (i : nat) (v : A) : list A := np.set_at l i v.

(** [str(n)]. *)
Definition str (n : nat) : string := NilEmpty.string_of_uint (Nat.to_uint n).

(** [sub in s] on strings. *)
Definition contains (sub s : string) : bool :=
  match String.index 0 sub s with
  | Some _ => true
  | None => false
  end.

(** [s in l] on a list of strings. *)
Definition mem (s : string) (l : list string) : bool := existsb (String.eqb s) l.

(** [for c in cs: if c not in l: l.append(c)]. *)
Definition extend_new (l cs : list string) : list string :=
  fold_left (fun acc c => if mem c acc then acc else acc ++ [c]) cs l.

(** [list(set(a) & set(b))]: the strings in both, each once. Python
    leaves the order of a set open; this is the order of [a]. *)
Definition intersect (a b : list string) : list string :=
  nodup string_dec (filter (fun r => mem r b) a).

(** Where the slice [arr[z:]] starts in a sequence of length [len]. *)
Definition slice_start (len : nat) (z : Z) : nat :=
  if (z <? 0)%Z then Z.to_nat (Z.max 0 (Z.of_nat len + z))
  else Nat.min len (Z.to_nat z).

(** [arr[z:] = arr[z:] - d] on integers. *)
Definition shift_from (l : list Z) (z : Z) (d : Z) : list Z :=
  firstn (slice_start (length l) z) l
  ++ map (fun r => (r - d)%Z) (skipn (slice_start (length l) z) l).

(** [np.delete(arr, idx)] for Python indices. *)
Definition deletez {A : Type} (l : list A) (idx : list Z) : res (list A) :=
  ps <- foldM (fun acc z => i <- pos (length l) z ;; Ok (acc ++ [i])) idx [] ;;
  Ok (np.delete l ps).

(** [arr[idx] = v] for an index array: a position out of bounds raises. *)
Definition put {A : Type} (l : list A) (idx : list nat) (v : A) : res (list A) :=
  if forallb (fun i => i <? length l) idx then Ok (np.put l idx v)
  else Raise IndexError.

(** [l[z] = v] for a Python index. *)
Definition setz {A : Type} (l : list A) (z : Z) (v : A) : res (list A) :=
  i <- pos (length l) z ;; Ok (np.set_at l i v).

(** [max(l)] on integers. *)
Definition max (l : list Z) : res Z :=
  match l with
  | [] => Raise ValueError
  | z :: l' => Ok (fold_left Z.max l' z)
  end.

(** [np.unique] on strings. *)
Fixpoint insert_str (x : string) (l : list string) : list string :=
  match l with
  | [] => [x]
  | y :: l' =>
      if String.ltb x y then x :: l
      else if String.eqb x y then l
      else y :: insert_str x l'
  end.

Definition unique_str (l : list string) : list string := fold_right insert_str [] l.

(** A dictionary that keeps insertion order: [d[k] = v]. *)
Fixpoint dict_set {K V : Type} (eqb : K -> K -> bool) (d : list (K * V)) (k : K) (v : V)
    : list (K * V) :=
  match d with
  | [] => [(k, v)]
  | (k', v') :: d' =>
      if eqb k' k then (k', v) :: d' else (k', v') :: dict_set eqb d' k v
  end.

Fixpoint dict_get {K V : Type} (eqb : K -> K -> bool) (d : list (K * V)) (k : K)
    : option V :=
  match d with
  | [] => None
  | (k', v') :: d' => if eqb k' k then Some v' else dict_get eqb d' k
  end.
End py.

(** The one pandas idiom of the source. *)
Module pd.
(** [pd.unique]: the distinct values, in the order of first appearance. *)
Fixpoint unique (l : list Z) : list Z :=
  match l with
  | [] => []
  | x :: l' => x :: filter (fun y => negb (y =? x)%Z) (unique l')
  end.
End pd.

(* ------------------------------------------------------------------ *)
(** ** AMES.py *)

(** What a cluster field of a line or buffer holds: nothing yet, the id
    [reviseCoords] wrote, or the list [reviseOil] copies from a buffer. *)
Inductive pyclust : Type :=
| ClNone
| ClId (c : nat)
| ClList (cs : list nat).

Definition pyclust_eqb (a b : pyclust) : bool :=
  match a, b with
  | ClNone, ClNone => true
  | ClId x, ClId y => x =? y
  | ClList xs, ClList ys => if list_eq_dec Nat.eq_dec xs ys then true else false
  | _, _ => false
  end.

(** [clusters == c] on one element of the cluster array. *)
Definition id_is (c : pyclust) (x : nat) : bool :=
  match c with
  | ClId y => x =? y
  | _ => false
  end.

(** A line object. [fBus] and [tBus] start as coordinate tuples and end
    as buffer names. The fields [fuelType] and [attrib_ref] always receive
    the value of [refinement] in the modelled functions, and [fBus_gps],
    [tBus_gps], [attrib_origin] and [attrib_dest] copy coordinates that no
    modelled function reads back; they are left out. *)
Module Line.
Section Fields.
Context {F : Type}.

Inductive endpoint : Type :=
| Unset
| Gps (x y : F)
| Named (name : string).

Record t : Type := mk {
  lineName : string;
  type : string;
  refinement : list string;
  fBus : endpoint;
  tBus : endpoint;
  status : string;
  clust_origin : pyclust;
  clust_dest : pyclust;
  controller : list string
}.

Definition set_ends (l : t) (f t' : endpoint) : t :=
  mk (lineName l) (type l) (refinement l) f t' (status l)
     (clust_origin l) (clust_dest l) (controller l).
Definition set_fBus (l : t) (f : endpoint) : t := set_ends l f (tBus l).
Definition set_tBus (l : t) (t' : endpoint) : t := set_ends l (fBus l) t'.
Definition set_status (l : t) (s : string) : t :=
  mk (lineName l) (type l) (refinement l) (fBus l) (tBus l) s
     (clust_origin l) (clust_dest l) (controller l).
Definition set_clust_origin (l : t) (c : pyclust) : t :=
  mk (lineName l) (type l) (refinement l) (fBus l) (tBus l) (status l)
     c (clust_dest l) (controller l).
Definition set_clust_dest (l : t) (c : pyclust) : t :=
  mk (lineName l) (type l) (refinement l) (fBus l) (tBus l) (status l)
     (clust_origin l) c (controller l).
Definition set_controller (l : t) (cs : list string) : t :=
  mk (lineName l) (type l) (refinement l) (fBus l) (tBus l) (status l)
     (clust_origin l) (clust_dest l) cs.

(** A line as its constructor leaves it, named, typed and given its
    refinement. *)
Definition fresh (name ty : string) (refs : list string) : t :=
  mk name ty refs Unset Unset EmptyString ClNone ClNone [].
End Fields.
End Line.

(** A buffer object. [refinement] and [attrib_ref] are None where the
    class of the buffer has no such attribute (or leaves it None). *)
Module Node.
Section Fields.
Context {F : Type}.

Record t : Type := mk {
  nodeName : option string;
  nodeType : string;
  gpsX : F;
  gpsY : F;
  refinement : option (list string);
  attrib_ref : option (list string);
  fuelType : list string;
  status : string;
  cluster : option (list nat);
  controller : list string
}.

Definition set_place (n : t) (c : option (list nat)) (x y : F) : t :=
  mk (nodeName n) (nodeType n) x y (refinement n) (attrib_ref n) (fuelType n)
     (status n) c (controller n).
End Fields.
End Node.

Module AMES.

Section Reviser.
Context {F : Type} {AF : Arith F}.
Local Open Scope string_scope.
Local Open Scope list_scope.

Abbreviation Line := (@Line.t F).
Abbreviation Node := (@Node.t F).

(** The AMES object, as far as the reviser reads it: the buffers, the
    lines, the global refinement list, and the number of lines each
    subsystem holds (None where the subsystem is absent; the oil system
    holds crude pipes and refined-product pipes). *)
Record ames : Type := mkAmes {
  nodes : list Node;
  lines : list Line;
  refinements : list string;
  elecGrid : option nat;
  NGSystem : option nat;
  oilSystem : option (nat * nat);
  coalSystem : option nat
}.

Definition with_lines (self : ames) (ls : list Line) : ames :=
  mkAmes (nodes self) ls (refinements self) (elecGrid self) (NGSystem self)
         (oilSystem self) (coalSystem self).

Definition with_nodes (self : ames) (ns : list Node) : ames :=
  mkAmes ns (lines self) (refinements self) (elecGrid self) (NGSystem self)
         (oilSystem self) (coalSystem self).

(** [len(self.lines) * 2], the first buffer row. *)
Definition numEndpoints (self : ames) : Z := Z.of_nat (length (lines self)) * 2.

Definition name_end (n : Node) : @Line.endpoint F :=
  match Node.nodeName n with
  | Some s => Line.Named s
  | None => Line.Unset
  end.

(** *** findClusterPrimary *)

(** [primaryNode], [primaryNodeType], [primaryNodeIdx]. *)
Definition primary_state : Type := option Node * option string * option nat.

Definition type_is (pt : option string) (s : string) : bool :=
  match pt with
  | Some t => String.eqb t s
  | None => false
  end.

Definition pick (idx : nat) (node : Node) : primary_state :=
  (Some node, Some (Node.nodeType node), Some idx).

(** The loop of the ['ElecLine'] branch (lines 1002-1019); the first
    case is the one that breaks. *)
Fixpoint scan_ElecLine (ns : list (nat * Node)) (st : primary_state) : primary_state :=
  match ns with
  | [] => st
  | (idx, node) :: rest =>
      let ty := Node.nodeType node in
      let pt := snd (fst st) in
      if ty =? "LoadC" then (Some node, pt, Some idx)
      else if ty =? "LoadS" then scan_ElecLine rest (pick idx node)
      else if (ty =? "GenC") && negb (type_is pt "LoadS")
      then scan_ElecLine rest (pick idx node)
      else if (ty =? "GenS") && negb (type_is pt "LoadS") && negb (type_is pt "GenC")
      then scan_ElecLine rest (pick idx node)
      else scan_ElecLine rest st
  end.

(** The loop of the ['NGPipe'] branch (lines 1021-1038). *)
Fixpoint scan_NGPipe (ns : list (nat * Node)) (st : primary_state) : primary_state :=
  match ns with
  | [] => st
  | (idx, node) :: rest =>
      let ty := Node.nodeType node in
      let pt := snd (fst st) in
      if ty =? "NGReceiptDelivery" then (Some node, pt, Some idx)
      else if ty =? "NGProcessor" then scan_NGPipe rest (pick idx node)
      else if (ty =? "compressor") && negb (type_is pt "NGProcessor")
      then scan_NGPipe rest (pick idx node)
      else scan_NGPipe rest (pick idx node)
  end.

(** The loop of the ['OilRefPipe'] branch (lines 1040-1053) and, word for
    word, of the ['OilCrudePipe'] branch (lines 1055-1068). *)
Fixpoint scan_OilPipe (ns : list (nat * Node)) (st : primary_state) : primary_state :=
  match ns with
  | [] => st
  | (idx, node) :: rest =>
      let ty := Node.nodeType node in
      let pt := snd (fst st) in
      if ty =? "OilPort" then (Some node, pt, Some idx)
      else if ty =? "OilTerminal" then scan_OilPipe rest (pick idx node)
      else if (ty =? "OilRefinery") && negb (type_is pt "OilTerminal")
      then scan_OilPipe rest (pick idx node)
      else scan_OilPipe rest st
  end.

(** The loop of the ['CoalRailroad'] branch (lines 1070-1079). *)
Fixpoint scan_CoalRailroad (ns : list (nat * Node)) (st : primary_state) : primary_state :=
  match ns with
  | [] => st
  | (idx, node) :: rest =>
      let ty := Node.nodeType node in
      let pt := snd (fst st) in
      if ty =? "CoalDock" then (Some node, pt, Some idx)
      else if ty =? "CoalSource" then scan_CoalRailroad rest (pick idx node)
      else scan_CoalRailroad rest st
  end.

Definition findClusterPrimary (self : ames) (lineType : string) (nodeIdxs : list nat)
    : res (option Node * option nat) :=
  ns <- py.take (nodes self) nodeIdxs ;;
  let members := combine nodeIdxs ns in
  let st0 : primary_state := (None, None, None) in
  let st :=
    if lineType =? "ElecLine" then scan_ElecLine members st0
    else if lineType =? "NGPipe" then scan_NGPipe members st0
    else if lineType =? "OilRefPipe" then scan_OilPipe members st0
    else if (lineType =? "OilCrudePipe") || (lineType =? "oilCPipe")
            || (lineType =? "oilCrudePipe")
    then scan_OilPipe members st0
    else if lineType =? "CoalRailroad" then scan_CoalRailroad members st0
    else st0 in
  Ok (fst (fst st), snd st).

(** The buffer rows of cluster [c], as buffer indices:
    [resourceIdx[np.where(clusters == c)]], kept where at least
    [len(self.lines) * 2], less that. *)
Definition cluster_buffers (self : ames) (clusters : list nat) (resourceIdx : list Z)
    (c : nat) : res (list nat) :=
  rs <- py.take resourceIdx (np.where_ (fun x => (x =? c)%nat) clusters) ;;
  Ok (map (fun r => Z.to_nat (r - numEndpoints self))
          (filter (fun r => (numEndpoints self <=? r)%Z) rs)).

(** *** linkClusterBuffers *)

(** The loop state: the line objects created so far, the local list
    [lines] as references to them, the binding of [new_instance] (None
    before the first assignment), and the five counters. *)
Record link_state : Type := mkLink {
  objs : list Line;
  refs : list nat;
  new_instance : option nat;
  transmission_count : nat;
  NG_count : nat;
  OilRefPipe_count : nat;
  OilCrudePipe_count : nat;
  Railroad_count : nat
}.

Definition link_state0 : link_state := mkLink [] [] None 0 0 0 0 0.

(** [new_instance = Cls()] and the assignments under it. *)
Definition link_new (st : link_state) (l : Line) (t n o c r : nat) : link_state :=
  mkLink (objs st ++ [l]) (refs st) (Some (length (objs st))) t n o c r.

Definition node_refs (n : Node) : res (list string) :=
  match Node.refinement n with
  | Some rs => Ok rs
  | None => Raise AttributeError
  end.

(** The branch on [lineType] (lines 1172-1222). *)
Definition link_create (st : link_state) (lineType : string)
    (primaryNode currentNode : Node) : res link_state :=
  let t := transmission_count st in
  let n := NG_count st in
  let o := OilRefPipe_count st in
  let c := OilCrudePipe_count st in
  let r := Railroad_count st in
  if lineType =? "ElecLine" then
    cur <- node_refs currentNode ;;
    if py.mem "electric power at 132kV" cur then
      Ok (link_new st
            (Line.fresh ("Transmission Line Connector " ++ py.str (S t))%string "ElecLine"
                        ["electric power at 132kV"])
            (S t) n o c r)
    else Ok st
  else if lineType =? "NGPipe" then
    pri <- node_refs primaryNode ;; cur <- node_refs currentNode ;;
    let sharedRef := py.intersect pri cur in
    if (0 <? length sharedRef)%nat then
      Ok (link_new st
            (Line.fresh ("NG Pipeline Connector " ++ py.str (S n))%string "NGPipe" sharedRef)
            t (S n) o c r)
    else Ok st
  else if lineType =? "OilRefPipe" then
    pri <- node_refs primaryNode ;; cur <- node_refs currentNode ;;
    let sharedRef := py.intersect pri cur in
    if (0 <? length sharedRef)%nat then
      Ok (link_new st
            (Line.fresh ("Refined Oil Pipeline Connector " ++ py.str (S o))%string "OilRefPipe"
                        sharedRef)
            t n (S o) c r)
    else Ok st
  else if (lineType =? "OilCrudePipe") || (lineType =? "oilCrudePipe") then
    pri <- node_refs primaryNode ;; cur <- node_refs currentNode ;;
    let sharedRef := py.intersect pri cur in
    if (0 <? length sharedRef)%nat then
      Ok (link_new st
            (Line.fresh ("Crude Oil Pipeline Connector " ++ py.str (S c))%string "OilCrudePipe"
                        sharedRef)
            t n o (S c) r)
    else Ok st
  else if lineType =? "CoalRailroad" then
    pri <- node_refs primaryNode ;; cur <- node_refs currentNode ;;
    let sharedRef := py.intersect pri cur in
    if (0 <? length sharedRef)%nat then
      Ok (link_new st
            (Line.fresh ("Coal Railroad Connector " ++ py.str (S r))%string "CoalRailroad"
                        sharedRef)
            t n o c (S r))
    else Ok st
  else Ok st.

(** The assignments every iteration ends with (lines 1223-1236), on
    whatever object [new_instance] is bound to. *)
Definition link_finish (st : link_state) (cluster : nat)
    (primaryNode currentNode : Node) : res link_state :=
  match new_instance st with
  | None => Raise UnboundLocalError
  | Some ref =>
      l <- py.get (objs st) ref ;;
      let l1 := Line.set_status l "true" in
      let l2 := Line.set_clust_dest (Line.set_clust_origin l1 (ClId cluster)) (ClId cluster) in
      let l3 := Line.set_ends l2 (name_end primaryNode) (name_end currentNode) in
      let l4 := Line.set_controller l3
                  (py.extend_new (py.extend_new (Line.controller l3)
                                                (Node.controller primaryNode))
                                 (Node.controller currentNode)) in
      Ok (mkLink (py.set (objs st) ref l4) (refs st ++ [ref]) (new_instance st)
                 (transmission_count st) (NG_count st) (OilRefPipe_count st)
                 (OilCrudePipe_count st) (Railroad_count st))
  end.

(** The body of [for k2 in clusterResources] (lines 1169-1236). *)
Definition link_buffer (self : ames) (lineType : string) (cluster primaryNodeIdx : nat)
    (primaryNode : Node) (st : link_state) (nodeIdx : nat) : res link_state :=
  if (primaryNodeIdx =? nodeIdx)%nat then Ok st
  else
    currentNode <- py.get (nodes self) nodeIdx ;;
    st1 <- link_create st lineType primaryNode currentNode ;;
    link_finish st1 cluster primaryNode currentNode.

(** The body of [for k1 in range(len(keys))] (lines 1161-1236). *)
Definition link_cluster (self : ames) (clusters : list nat) (resourceIdx : list Z)
    (st : link_state) (entry : nat * (string * nat)) : res link_state :=
  let '(primaryNodeIdx, (lineType, cluster)) := entry in
  primaryNode <- py.get (nodes self) primaryNodeIdx ;;
  clusterResources <- cluster_buffers self clusters resourceIdx cluster ;;
  foldM (link_buffer self lineType cluster primaryNodeIdx primaryNode)
        clusterResources st.

Definition link_loop (self : ames) (clusters : list nat) (resourceIdx : list Z)
    (clusterRadialCenter : list (nat * (string * nat))) : res link_state :=
  foldM (link_cluster self clusters resourceIdx) clusterRadialCenter link_state0.

(** The local list [lines] at the end: each reference read through. *)
Definition link_lines (st : link_state) : list Line :=
  map (fun ref => nth ref (objs st) (Line.fresh "" "" [])) (refs st).

Definition linkClusterBuffers (self : ames) (clusters : list nat) (resourceIdx : list Z)
    (clusterRadialCenter : list (nat * (string * nat))) : res ames :=
  st <- link_loop self clusters resourceIdx clusterRadialCenter ;;
  Ok (with_lines self (lines self ++ link_lines st)).

(** *** setPipeODNames2 *)

(** The loop state: the pipes renamed so far, the dictionaries
    [clusterPrimary] and [clusterRadialCenter], and [delLine]. *)
Record namer_state : Type := mkNamer {
  named : list Line;
  clusterPrimary : list (nat * Node);
  clusterRadialCenter : list (nat * (string * nat));
  delLine : list Line
}.

(** The primary of the cluster at one end of a pipe of type [ty]: the
    cached one, else the one [findClusterPrimary] picks among several
    buffers, else the only buffer (lines 1102-1116 and 1121-1135). *)
Definition name_cluster (self : ames) (clusters : list nat) (resourceIdx : list Z)
    (st : namer_state) (ty : string) (c : pyclust) : res (namer_state * Node) :=
  match c with
  | ClId cid =>
      match py.dict_get Nat.eqb (clusterPrimary st) cid with
      | Some node => Ok (st, node)
      | None =>
          bufs <- cluster_buffers self clusters resourceIdx cid ;;
          if (1 <? length bufs)%nat then
            found <- findClusterPrimary self ty bufs ;;
            match found with
            | (Some node, Some idx) =>
                Ok (mkNamer (named st)
                            (py.dict_set Nat.eqb (clusterPrimary st) cid node)
                            (py.dict_set Nat.eqb (clusterRadialCenter st) idx (ty, cid))
                            (delLine st),
                    node)
            | _ => Raise AttributeError
            end
          else
            ns <- py.take (nodes self) bufs ;;
            match ns with
            | node :: _ =>
                Ok (mkNamer (named st)
                            (py.dict_set Nat.eqb (clusterPrimary st) cid node)
                            (clusterRadialCenter st) (delLine st),
                    node)
            | [] => Raise IndexError
            end
      end
  | ClNone => Raise IndexError
  | ClList _ => Raise TypeError
  end.

Definition is_str (e : @Line.endpoint F) : bool :=
  match e with
  | Line.Named _ => true
  | _ => false
  end.

(** The body of [for i, k1 in enumerate(pipes)] (lines 1099-1142). *)
Definition name_pipe (self : ames) (clusters : list nat) (resourceIdx : list Z)
    (st : namer_state) (k1 : Line) : res namer_state :=
  let k1a := Line.set_controller k1 [] in
  '(st1, pO) <- name_cluster self clusters resourceIdx st (Line.type k1)
                             (Line.clust_origin k1) ;;
  let k1b := Line.set_fBus k1a (name_end pO) in
  let k1c := Line.set_controller k1b
               (py.extend_new (Line.controller k1b) (Node.controller pO)) in
  '(st2, pD) <- name_cluster self clusters resourceIdx st1 (Line.type k1)
                             (Line.clust_dest k1) ;;
  let k1d := Line.set_tBus k1c (name_end pD) in
  let k1e := Line.set_controller k1d
               (py.extend_new (Line.controller k1d) (Node.controller pD)) in
  Ok (mkNamer (named st2 ++ [k1e]) (clusterPrimary st2) (clusterRadialCenter st2)
              (if negb (is_str (Line.fBus k1e)) || negb (is_str (Line.tBus k1e))
               then delLine st2 ++ [k1e] else delLine st2)).

Definition name_loop (self : ames) (clusters : list nat) (resourceIdx : list Z)
    : res namer_state :=
  foldM (name_pipe self clusters resourceIdx) (lines self) (mkNamer [] [] [] []).

(** [np.delete(self.lines, k3)] with a line object for an index raises;
    the loop over [delLine] is harmless only when the list is empty. *)
Definition setPipeODNames2 (self : ames) (clusters : list nat) (resourceIdx : list Z)
    : res ames :=
  st <- name_loop self clusters resourceIdx ;;
  self' <- linkClusterBuffers (with_lines self (named st)) clusters resourceIdx
                              (clusterRadialCenter st) ;;
  match delLine st with
  | [] => Ok self'
  | _ :: _ => Raise IndexError
  end.

(** *** updateTransporters *)

Record update_state : Type := mkUpdate {
  u_objs : list Line;
  u_lines : list nat;
  u_new_instance : option nat;
  u_clust : list (option nat);
  u_gps : list (F * F);
  u_rows : list nat;
  u_cols : list nat;
  u_dataX : list F;
  u_dataY : list F;
  u_count : nat;
  u_transmission : nat;
  u_NG : nat;
  u_oilRef : nat;
  u_oilCrude : nat;
  u_coal : nat;
  u_other : nat
}.

Definition update_state0 : update_state :=
  mkUpdate [] [] None [] [] [] [] [] [] 0 0 0 0 0 0 0.

(** [new_instance = Cls()], its name, refinement and type. *)
Definition update_new (st : update_state) (l : Line) (t n r c k o : nat) : update_state :=
  mkUpdate (u_objs st ++ [l]) (u_lines st) (Some (length (u_objs st)))
           (u_clust st) (u_gps st) (u_rows st) (u_cols st) (u_dataX st) (u_dataY st)
           (u_count st) t n r c k o.

(** ['Prefix ' + str(len(subsystem lines) + count)], or without the
    subsystem's lines when there is no subsystem. *)
Definition numbered (prefix : string) (held : option nat) (count : nat) : string :=
  match held with
  | Some n => (prefix ++ py.str (n + count))%string
  | None => (prefix ++ py.str count)%string
  end.

(** The branch on the refinement (lines 410-476). The last case is the
    [else] that only prints. *)
Definition update_create (self : ames) (st : update_state) (ref : string) : update_state :=
  let t := u_transmission st in
  let n := u_NG st in
  let r := u_oilRef st in
  let c := u_oilCrude st in
  let k := u_coal st in
  let o := u_other st in
  if ref =? "electric power at 132kV" then
    update_new st (Line.fresh (numbered "Transmission Line " (elecGrid self) (S t))
                              "ElecLine" [ref])
               (S t) n r c k o
  else if (ref =? "processed gas") || (ref =? "syngas") || (ref =? "raw gas") then
    update_new st (Line.fresh (numbered "NG Pipeline " (NGSystem self) (S n))
                              "NGPipe" [ref])
               t (S n) r c k o
  else if ref =? "processed oil" then
    update_new st (Line.fresh (numbered "OilR Pipeline "
                                        (option_map snd (oilSystem self)) (S r))
                              "oilRPipe" [ref])
               t n (S r) c k o
  else if (ref =? "crude oil") || (ref =? "liquid biomass feedstock")
          || (ref =? "water energy") then
    update_new st (Line.fresh (numbered "OilC Pipeline "
                                        (option_map fst (oilSystem self)) (S c))
                              "oilCrudePipe" [ref])
               t n r (S c) k o
  else if ref =? "coal" then
    update_new st (Line.fresh (numbered "coal railroad " (coalSystem self) (S k))
                              "railroad" [ref])
               t n r c (S k) o
  else if (ref =? "other") || (ref =? "solid biomass feedstock") || (ref =? "uranium") then
    update_new st (Line.fresh ("Other Pipeline " ++ py.str (S o))%string "otherPipe" [ref])
               t n r c k (S o)
  else st.

Definition of_cluster (c : option nat) : pyclust :=
  match c with
  | Some n => ClId n
  | None => ClNone
  end.

(** The body of [for i, k1 in enumerate(resourcesToAdd)] (lines 409-503);
    [k1] is (this-row, nearest-row). *)
Definition update_entry (self : ames) (clusters : list (option nat))
    (table : list (@SnapEdges2Grid.entry F))
    (st : update_state) (ik : nat * (nat * nat)) : res update_state :=
  let '(i, (k1_0, k1_1)) := ik in
  e1 <- py.get table k1_1 ;;
  ref <- py.get (refinements self) (SnapEdges2Grid.col e1) ;;
  let st1 := update_create self st ref in
  match u_new_instance st1 with
  | None => Raise UnboundLocalError
  | Some r =>
      l <- py.get (u_objs st1) r ;;
      e0 <- py.get table k1_0 ;;
      c1 <- py.get clusters k1_1 ;;
      c0 <- py.get clusters k1_0 ;;
      let l1 := Line.set_ends l
                  (Line.Gps (SnapEdges2Grid.gx e1) (SnapEdges2Grid.gy e1))
                  (Line.Gps (SnapEdges2Grid.gx e0) (SnapEdges2Grid.gy e0)) in
      let l2 := Line.set_status l1 "true" in
      let l3 := Line.set_clust_dest (Line.set_clust_origin l2 (of_cluster c1))
                                    (of_cluster c0) in
      Ok (mkUpdate (py.set (u_objs st1) r l3) (u_lines st1 ++ [r]) (Some r)
            (u_clust st1 ++ [c1; c0])
            (u_gps st1 ++ [(SnapEdges2Grid.gx e1, SnapEdges2Grid.gy e1);
                           (SnapEdges2Grid.gx e0, SnapEdges2Grid.gy e0)])
            (u_rows st1 ++ [i * 2 + length (lines self) * 2;
                            i * 2 + 1 + length (lines self) * 2])
            (u_cols st1 ++ [SnapEdges2Grid.col e1; SnapEdges2Grid.col e1])
            (u_dataX st1 ++ [SnapEdges2Grid.gx e1; SnapEdges2Grid.gx e0])
            (u_dataY st1 ++ [SnapEdges2Grid.gy e1; SnapEdges2Grid.gy e0])
            (S (u_count st1))
            (u_transmission st1) (u_NG st1) (u_oilRef st1) (u_oilCrude st1)
            (u_coal st1) (u_other st1))
  end.

Definition update_loop (self : ames) (resourcesToAdd : list (nat * nat))
    (clusters : list (option nat)) (table : list (@SnapEdges2Grid.entry F))
    : res update_state :=
  foldM (update_entry self clusters table)
        (combine (seq 0 (length resourcesToAdd)) resourcesToAdd) update_state0.

Fixpoint zip4 (rows cols : list nat) (xs ys : list F) : list (@SnapEdges2Grid.entry F) :=
  match rows, cols, xs, ys with
  | r :: rows', c :: cols', x :: xs', y :: ys' =>
      SnapEdges2Grid.mkEntry r c x y :: zip4 rows' cols' xs' ys'
  | _, _, _, _ => []
  end.

Definition updateTransporters (self : ames) (resourcesToAdd : list (nat * nat))
    (clusters : list (option nat)) (pts : list (F * F))
    (table : list (@SnapEdges2Grid.entry F))
    : res (ames * list (option nat) * list (F * F) * list (@SnapEdges2Grid.entry F)) :=
  st <- update_loop self resourcesToAdd clusters table ;;
  let new_lines := map (fun r => nth r (u_objs st) (Line.fresh "" "" [])) (u_lines st) in
  let self' := with_lines self (lines self ++ new_lines) in
  if (0 <? length (lines self))%nat && (0 <? u_count st)%nat then
    match np.where_ (fun e => (SnapEdges2Grid.row e =? length (lines self) * 2)%nat) table with
    | [] => Raise IndexError
    | linePoints :: _ =>
        let shifted :=
          firstn linePoints table
          ++ map (fun e => SnapEdges2Grid.mkEntry
                             (SnapEdges2Grid.row e + length (u_rows st))
                             (SnapEdges2Grid.col e)
                             (SnapEdges2Grid.gx e) (SnapEdges2Grid.gy e))
                 (skipn linePoints table) in
        Ok (self',
            np.insert clusters linePoints (u_clust st),
            np.insert pts linePoints (u_gps st),
            np.insert shifted linePoints
                      (zip4 (u_rows st) (u_cols st) (u_dataX st) (u_dataY st)))
    end
  else Ok (self', clusters, pts, table).

(** *** addIndBuffers *)

(** [count], [buffers], [expanded_clusts], [expanded_buffers]. *)
Record ind_state : Type := mkInd {
  i_count : nat;
  i_buffers : list Node;
  i_expanded_clusts : list nat;
  i_expanded_buffers : list Z
}.

(** The class of the junction buffer, by the first refinement family
    present (lines 853-941); None is the [else] that only prints. *)
Definition ind_class (refs : list string) : option string :=
  if py.mem "electric power at 132kV" refs then Some "Bus"
  else if py.mem "processed gas" refs || py.mem "syngas" refs || py.mem "raw gas" refs
  then Some "NGIndBuffer"
  else if py.mem "processed oil" refs || py.mem "crude oil" refs
          || py.mem "liquid biomass feedstock" refs || py.mem "water energy" refs
  then Some "OilIndBuffer"
  else if py.mem "solid biomass feedstock" refs then Some "OilIndBuffer"
  else if py.mem "coal" refs then Some "CoalIndBuffer"
  else if py.mem "other" refs then Some "Bus"
  else None.

(** The body of [for k1 in range(len(clustsU))] (lines 843-941); [kc] is
    the position [k1] and the id [clustsU[k1]]. *)
Definition ind_step (self : ames) (clusters : list nat) (clustCenters : list (F * F))
    (resourceIdx : list Z) (st : ind_state) (kc : nat * nat) : res ind_state :=
  let '(k1, c) := kc in
  rs <- py.take resourceIdx (np.where_ (fun x => (x =? c)%nat) clusters) ;;
  let resources := np.uniqueZ rs in
  if existsb (fun r => (numEndpoints self <=? r)%Z) resources then Ok st
  else
    refs <- foldM (fun acc k2 => l <- py.getz (lines self) (k2 / 2)%Z ;;
                                 Ok (acc ++ Line.refinement l))
                  resources [] ;;
    let refinements := py.unique_str refs in
    match ind_class refinements with
    | None => Ok st
    | Some cls =>
        center <- py.get clustCenters k1 ;;
        top <- py.max resourceIdx ;;
        let new_instance :=
          Node.mk (Some ("IndBuffer " ++ py.str (i_count st))%string) cls
                  (fst center) (snd center) None (Some refinements) []
                  "true" (Some [c]) [] in
        Ok (mkInd (S (i_count st)) (i_buffers st ++ [new_instance])
                  (i_expanded_clusts st ++ [c])
                  (i_expanded_buffers st
                   ++ [(top + Z.of_nat (i_count st) + 1)%Z]))
    end.

Definition addIndBuffers (self : ames) (clusters : list nat)
    (clustCenters : list (F * F)) (resourceIdx : list Z)
    : res (ames * list nat * list Z) :=
  let clustsU := np.unique clusters in
  st <- foldM (ind_step self clusters clustCenters resourceIdx)
              (combine (seq 0 (length clustsU)) clustsU) (mkInd 0 [] [] []) ;;
  Ok (with_nodes self (nodes self ++ i_buffers st),
      clusters ++ i_expanded_clusts st,
      resourceIdx ++ i_expanded_buffers st).

(** *** reviseOil *)

(** [nodeName in bus] for what an end of a line holds: a substring test
    on a name, a membership test on a coordinate tuple, an error on
    None. *)
Definition name_in (nodeName : option string) (bus : @Line.endpoint F) : res bool :=
  match bus, nodeName with
  | Line.Named s, Some n => Ok (py.contains n s)
  | Line.Named _, None => Raise TypeError
  | Line.Gps _ _, _ => Ok false
  | Line.Unset, _ => Raise TypeError
  end.

(** The loop [for k4 in range(len(processedOilLines))] with its [break]
    (lines 1475-1478). *)
Fixpoint oil_connected (nodeName : option string) (ls : list Line) : res bool :=
  match ls with
  | [] => Ok false
  | l :: ls' =>
      f <- name_in nodeName (Line.fBus l) ;;
      if f then Ok true
      else
        t' <- name_in nodeName (Line.tBus l) ;;
        if t' then Ok true else oil_connected nodeName ls'
  end.

Definition is_generator (n : Node) : bool :=
  (Node.nodeType n =? "GenC") || (Node.nodeType n =? "GenS").

Definition is_oil_buffer (n : Node) : bool :=
  (Node.nodeType n =? "OilIndBuffer") || (Node.nodeType n =? "OilPort")
  || (Node.nodeType n =? "OilTerminal").

Definition cluster_field (n : Node) : pyclust :=
  match Node.cluster n with
  | Some cs => ClList cs
  | None => ClNone
  end.

(** [oilRef_count], [self.lines], [stillIsoNode]. *)
Definition oil_state : Type := nat * list Line * list nat.

(** The body of [for k1 in range(len(isoNodes))] (lines 1497-1533). *)
Definition oil_step (self : ames) (oilOtherNodes : list nat)
    (st : oil_state) (iso : nat) : res oil_state :=
  let '(oilRef_count, ls, stillIsoNode) := st in
  plant <- py.get (nodes self) iso ;;
  others <- py.take (nodes self) oilOtherNodes ;;
  let distances :=
    map (fun o => dist (Node.gpsX plant) (Node.gpsY plant) (Node.gpsX o) (Node.gpsY o))
        others in
  let found := np.where_ (fun d => leb d eps_oil) distances in
  if np.any_nonzero found then
    let found_dist := np.take zero distances found in
    let closest_dist := np.argmin ltb found_dist in
    closest_node <- py.get oilOtherNodes (nth closest_dist found 0) ;;
    near <- py.get (nodes self) closest_node ;;
    let new_instance :=
      Line.mk (numbered "OilR Pipeline " (option_map snd (oilSystem self))
                        (S oilRef_count))
              "oilRPipe" ["processed oil"] (name_end near) (name_end plant) "true"
              (cluster_field near) (cluster_field plant)
              (py.extend_new (py.extend_new [] (Node.controller near))
                             (Node.controller plant)) in
    Ok (S oilRef_count, ls ++ [new_instance], stillIsoNode)
  else Ok (oilRef_count, ls, stillIsoNode ++ [iso]).

Definition reviseOil (self : ames) : res (ames * list nat) :=
  let oilPowerPlantIdxs :=
    np.where_ (fun n => is_generator n && py.mem "processed oil" (Node.fuelType n))
              (nodes self) in
  let oilOtherNodes :=
    np.where_ (fun n => negb (is_generator n) && is_oil_buffer n) (nodes self) in
  let processedOilLines :=
    filter (fun l => py.mem "processed oil" (Line.refinement l)) (lines self) in
  isoNodes <- foldM (fun acc k3 =>
                       plant <- py.get (nodes self) k3 ;;
                       found <- oil_connected (Node.nodeName plant) processedOilLines ;;
                       Ok (if found then acc else acc ++ [k3]))
                    oilPowerPlantIdxs [] ;;
  '(count, ls, stillIsoNode) <-
     foldM (oil_step self oilOtherNodes) isoNodes (0, lines self, []) ;;
  Ok (with_lines self ls, stillIsoNode).

(** *** reviseCoords *)

(** The state of the first loop: the buffers, the lines, [del_lines]. *)
Definition coords_state : Type := list Node * list Line * list Z.

(** The body of [for k1 in range(len(pts))] (lines 592-615). *)
Definition coords_point (numEnd : Z) (clusters : list nat) (pts : list (F * F))
    (resourceIdx : list Z) (st : coords_state) (k1 : nat) : res coords_state :=
  let '(ns, ls, del_lines) := st in
  r <- py.get resourceIdx k1 ;;
  c <- py.get clusters k1 ;;
  p <- py.get pts k1 ;;
  if (numEnd <=? r)%Z then
    pt <- py.getz ns (r - numEnd)%Z ;;
    let cl := match Node.cluster pt with
              | None => [c]
              | Some cs => cs ++ [c]
              end in
    ns' <- py.setz ns (r - numEnd)%Z (Node.set_place pt (Some cl) (fst p) (snd p)) ;;
    Ok (ns', ls, del_lines)
  else if (r mod 2 =? 0)%Z then
    pt <- py.getz ls (r / 2)%Z ;;
    ls' <- py.setz ls (r / 2)%Z (Line.set_clust_origin pt (ClId c)) ;;
    Ok (ns, ls', del_lines)
  else
    pt <- py.getz ls (r / 2)%Z ;;
    let pt' := Line.set_clust_dest pt (ClId c) in
    ls' <- py.setz ls (r / 2)%Z pt' ;;
    Ok (ns, ls',
        if pyclust_eqb (Line.clust_origin pt') (Line.clust_dest pt')
        then del_lines ++ [(r / 2)%Z] else del_lines).

(** The state of the second loop: the lines, [clusters], [resourceIdx],
    [del_buffers]. *)
Definition unloop_state : Type := list Line * list nat * list Z * list Z.

(** The body of [for k2 in np.flip(del_lines)] (lines 618-629). *)
Definition coords_unloop (st : unloop_state) (k2 : Z) : res unloop_state :=
  let '(ls, clusters, resourceIdx, del_buffers) := st in
  l <- py.getz ls k2 ;;
  let clust := Line.clust_origin l in
  ls' <- py.deletez ls [k2] ;;
  clusters' <- py.deletez clusters [(k2 * 2 + 1)%Z; (k2 * 2)%Z] ;;
  resourceIdx' <- py.deletez resourceIdx [(k2 * 2 + 1)%Z; (k2 * 2)%Z] ;;
  let resourceIdx'' := py.shift_from resourceIdx' (k2 * 2)%Z 2%Z in
  let temp := np.where_ (id_is clust) clusters' in
  let numEnd := (Z.of_nat (length ls') * 2)%Z in
  if existsb (fun t => (Z.of_nat t <? numEnd)%Z) temp
  then Ok (ls', clusters', resourceIdx'', del_buffers)
  else
    rs <- py.take resourceIdx'' temp ;;
    Ok (ls', clusters', resourceIdx'', del_buffers ++ map (fun r => (r - numEnd)%Z) rs).

(** The state of the third loop: the buffers, [clusters], [resourceIdx]. *)
Definition unbuffer_state : Type := list Node * list nat * list Z.

(** The body of [for k3 in np.flip(del_buffers)] (lines 633-637). *)
Definition coords_unbuffer (numEnd : Z) (st : unbuffer_state) (k3 : Z)
    : res unbuffer_state :=
  let '(ns, clusters, resourceIdx) := st in
  ns' <- py.deletez ns [k3] ;;
  let temp1 := np.where_ (fun r => (r =? k3 + numEnd)%Z) resourceIdx in
  clusters' <- py.delete clusters temp1 ;;
  resourceIdx' <- py.delete resourceIdx temp1 ;;
  match temp1 with
  | [] => Raise IndexError
  | t0 :: _ => Ok (ns', clusters', py.shift_from resourceIdx' (Z.of_nat t0) 1%Z)
  end.

Definition reviseCoords (self : ames) (clusters : list nat) (pts : list (F * F))
    (resourceIdx : list Z) : res (ames * list nat * list Z) :=
  '(ns, ls, del_lines) <-
     foldM (coords_point (numEndpoints self) clusters pts resourceIdx)
           (seq 0 (length pts)) (nodes self, lines self, []) ;;
  '(ls', clusters', resourceIdx', del_buffers) <-
     foldM coords_unloop (rev del_lines) (ls, clusters, resourceIdx, []) ;;
  '(ns', clusters'', resourceIdx'') <-
     foldM (coords_unbuffer (Z.of_nat (length ls') * 2)%Z)
           (rev (np.uniqueZ del_buffers)) (ns, clusters', resourceIdx') ;;
  Ok (mkAmes ns' ls' (refinements self) (elecGrid self) (NGSystem self)
             (oilSystem self) (coalSystem self),
      clusters'', resourceIdx'').

(** *** reviseCoords, the lines as objects *)

(** [self.lines] holds references to line objects, and one object can sit
    at two positions (the fall-through of [updateTransporters] appends
    the object made for the previous entry again). Here the line objects
    are a store [objs], and [slots] lists, for each position of
    [self.lines], the place of its object in the store. *)
Definition line_at (objs : list Line) (ref : nat) : Line :=
  nth ref objs (Line.fresh "" "" []).

(** [self.lines] read through: the line at each position. *)
Definition read_lines (objs : list Line) (slots : list nat) : list Line :=
  map (line_at objs) slots.

(** The body of [for k1 in range(len(pts))] (lines 592-615): a line end
    is written to the object at its position, and [self.lines[i] = pt]
    puts the same object back. *)
Definition coords_point_obj (slots : list nat) (numEnd : Z) (clusters : list nat)
    (pts : list (F * F)) (resourceIdx : list Z) (st : coords_state) (k1 : nat)
    : res coords_state :=
  let '(ns, objs, del_lines) := st in
  r <- py.get resourceIdx k1 ;;
  c <- py.get clusters k1 ;;
  p <- py.get pts k1 ;;
  if (numEnd <=? r)%Z then
    pt <- py.getz ns (r - numEnd)%Z ;;
    let cl := match Node.cluster pt with
              | None => [c]
              | Some cs => cs ++ [c]
              end in
    ns' <- py.setz ns (r - numEnd)%Z (Node.set_place pt (Some cl) (fst p) (snd p)) ;;
    Ok (ns', objs, del_lines)
  else if (r mod 2 =? 0)%Z then
    ref <- py.getz slots (r / 2)%Z ;;
    pt <- py.get objs ref ;;
    Ok (ns, py.set objs ref (Line.set_clust_origin pt (ClId c)), del_lines)
  else
    ref <- py.getz slots (r / 2)%Z ;;
    pt <- py.get objs ref ;;
    let pt' := Line.set_clust_dest pt (ClId c) in
    Ok (ns, py.set objs ref pt',
        if pyclust_eqb (Line.clust_origin pt') (Line.clust_dest pt')
        then del_lines ++ [(r / 2)%Z] else del_lines).

(** The state of the second loop: [self.lines] as positions in the
    store, [clusters], [resourceIdx], [del_buffers]. *)
Definition unloop_obj_state : Type := list nat * list nat * list Z * list Z.

(** The body of [for k2 in np.flip(del_lines)] (lines 618-629). *)
Definition coords_unloop_obj (objs : list Line) (st : unloop_obj_state) (k2 : Z)
    : res unloop_obj_state :=
  let '(slots, clusters, resourceIdx, del_buffers) := st in
  ref <- py.getz slots k2 ;;
  l <- py.get objs ref ;;
  let clust := Line.clust_origin l in
  slots' <- py.deletez slots [k2] ;;
  clusters' <- py.deletez clusters [(k2 * 2 + 1)%Z; (k2 * 2)%Z] ;;
  resourceIdx' <- py.deletez resourceIdx [(k2 * 2 + 1)%Z; (k2 * 2)%Z] ;;
  let resourceIdx'' := py.shift_from resourceIdx' (k2 * 2)%Z 2%Z in
  let temp := np.where_ (id_is clust) clusters' in
  let numEnd := (Z.of_nat (length slots') * 2)%Z in
  if existsb (fun t => (Z.of_nat t <? numEnd)%Z) temp
  then Ok (slots', clusters', resourceIdx'', del_buffers)
  else
    rs <- py.take resourceIdx'' temp ;;
    Ok (slots', clusters', resourceIdx'', del_buffers ++ map (fun r => (r - numEnd)%Z) rs).

(** [reviseCoords] on the buffers [ns], the line objects [objs] and the
    positions [slots] of [self.lines]: what it returns of the three, and
    [clusters] and [resourceIdx]. *)
Definition reviseCoords_obj (ns : list Node) (objs : list Line) (slots : list nat)
    (clusters : list nat) (pts : list (F * F)) (resourceIdx : list Z)
    : res (list Node * list Line * list nat * list nat * list Z) :=
  '(ns1, objs', del_lines) <-
     foldM (coords_point_obj slots (Z.of_nat (length slots) * 2)%Z clusters pts resourceIdx)
           (seq 0 (length pts)) (ns, objs, []) ;;
  '(slots', clusters', resourceIdx', del_buffers) <-
     foldM (coords_unloop_obj objs') (rev del_lines) (slots, clusters, resourceIdx, []) ;;
  '(ns', clusters'', resourceIdx'') <-
     foldM (coords_unbuffer (Z.of_nat (length slots') * 2)%Z)
           (rev (np.uniqueZ del_buffers)) (ns1, clusters', resourceIdx') ;;
  Ok (ns', objs', slots', clusters'', resourceIdx'').

(** *** joinLineSegs *)

(** [self.lines], [clusters], [resourceIdx], [k1], [joined]. *)
Record join_state : Type := mkJoin {
  j_lines : list Line;
  j_clusters : list nat;
  j_resourceIdx : list Z;
  j_k1 : nat;
  j_joined : nat
}.

(** What the analysis of one end of [pipe1] comes to: the two lines were
    fused and the loop continues at the same [k1]; the lines would loop
    and the loop moves on ([k1 += 1; continue]); or the cluster does not
    hold exactly two line ends and nothing else. *)
Inductive join_result : Type :=
| Fused (st : join_state)
| Looping
| NotJoinable.

Definition as_id (c : pyclust) : res nat :=
  match c with
  | ClId n => Ok n
  | _ => Raise ValueError
  end.

(** The deletion of [pipe2] once [pipe1] took over its far end (lines
    777-789 and 807-819); [side] is the row of the end of [pipe1] that
    moved and [c] the cluster it moved to. *)
Definition join_fuse (st : join_state) (side : Z) (c : pyclust) (pipe1 : Line)
    (idxPipe2 : Z) : res join_state :=
  cid <- as_id c ;;
  clusters1 <- py.put (j_clusters st)
                      (np.where_ (fun r => (r =? side)%Z) (j_resourceIdx st)) cid ;;
  let idx2Del1 := np.where_ (fun r => (r =? idxPipe2 * 2)%Z) (j_resourceIdx st) in
  clusters2 <- py.delete clusters1 idx2Del1 ;;
  resourceIdx2 <- py.delete (j_resourceIdx st) idx2Del1 ;;
  let idx2Del2 := np.where_ (fun r => (r =? idxPipe2 * 2 + 1)%Z) resourceIdx2 in
  clusters3 <- py.delete clusters2 idx2Del2 ;;
  resourceIdx3 <- py.delete resourceIdx2 idx2Del2 ;;
  top <- py.max resourceIdx3 ;;
  resourceIdx4 <-
    (if (idxPipe2 * 2 + 1 <? top)%Z then
       match np.where_ (fun r => (r =? (idxPipe2 + 1) * 2)%Z) resourceIdx3 with
       | [] => Raise IndexError
       | idx :: _ => Ok (py.shift_from resourceIdx3 (Z.of_nat idx) 2%Z)
       end
     else Ok resourceIdx3) ;;
  lines1 <- py.setz (j_lines st) (Z.of_nat (j_k1 st)) pipe1 ;;
  lines2 <- py.deletez lines1 [idxPipe2] ;;
  Ok (mkJoin lines2 clusters3 resourceIdx4 (j_k1 st) (S (j_joined st))).

(** The analysis of the origin ([at_origin]) or of the destination of
    [pipe1] (lines 762-790 and 792-820). *)
Definition join_end (st : join_state) (at_origin : bool) : res join_result :=
  pipe1 <- py.get (j_lines st) (j_k1 st) ;;
  let here := if at_origin then Line.clust_origin pipe1 else Line.clust_dest pipe1 in
  let side := (if at_origin then Z.of_nat (j_k1 st) * 2
               else Z.of_nat (j_k1 st) * 2 + 1)%Z in
  rs <- py.take (j_resourceIdx st) (np.where_ (id_is here) (j_clusters st)) ;;
  let resources := np.uniqueZ rs in
  if (length resources =? 2)%nat
     && forallb (fun r => (r <? Z.of_nat (length (j_lines st)) * 2)%Z) resources
  then
    idxPipe2 <- match filter (fun r => negb (side =? r)%Z) resources with
                | [r] => Ok (r / 2)%Z
                | _ => Raise TypeError
                end ;;
    pipe2 <- py.getz (j_lines st) idxPipe2 ;;
    let o1 := Line.clust_origin pipe1 in
    let d1 := Line.clust_dest pipe1 in
    let o2 := Line.clust_origin pipe2 in
    let d2 := Line.clust_dest pipe2 in
    if at_origin then
      if pyclust_eqb o1 d2 && negb (pyclust_eqb d1 o2) then
        st' <- join_fuse st side o2 (Line.set_clust_origin pipe1 o2) idxPipe2 ;;
        Ok (Fused st')
      else if pyclust_eqb o1 o2 && negb (pyclust_eqb d1 d2) then
        st' <- join_fuse st side d2 (Line.set_clust_origin pipe1 d2) idxPipe2 ;;
        Ok (Fused st')
      else Ok Looping
    else
      if pyclust_eqb d1 d2 && negb (pyclust_eqb o1 o2) then
        st' <- join_fuse st side o2 (Line.set_clust_dest pipe1 o2) idxPipe2 ;;
        Ok (Fused st')
      else if pyclust_eqb d1 o2 && negb (pyclust_eqb o1 d2) then
        st' <- join_fuse st side d2 (Line.set_clust_dest pipe1 d2) idxPipe2 ;;
        Ok (Fused st')
      else Ok Looping
  else Ok NotJoinable.

Definition join_advance (st : join_state) : join_state :=
  mkJoin (j_lines st) (j_clusters st) (j_resourceIdx st) (S (j_k1 st)) (j_joined st).

(** One turn of [while k1 < len(self.lines)] (lines 761-822). *)
Definition join_turn (st : join_state) : res join_state :=
  r <- join_end st true ;;
  match r with
  | Fused st' => Ok st'
  | Looping => Ok (join_advance st)
  | NotJoinable =>
      r' <- join_end st false ;;
      match r' with
      | Fused st' => Ok st'
      | Looping | NotJoinable => Ok (join_advance st)
      end
  end.

(** The [while] loop, unrolled at most [fuel] times; None when the fuel
    runs out before the loop ends. *)
Fixpoint join_loop (fuel : nat) (st : join_state) : option (res join_state) :=
  if (j_k1 st <? length (j_lines st))%nat then
    match fuel with
    | 0 => None
    | S fuel' =>
        match join_turn st with
        | Ok st' => join_loop fuel' st'
        | Raise e => Some (Raise e)
        end
    end
  else Some (Ok st).

(** Every turn moves [k1] up or removes a line, so [len(self.lines)]
    turns are enough. *)
Definition joinLineSegs (self : ames) (clusters : list nat) (resourceIdx : list Z)
    : option (res (ames * list nat * list Z)) :=
  match join_loop (length (lines self)) (mkJoin (lines self) clusters resourceIdx 0 0) with
  | None => None
  | Some (Raise e) => Some (Raise e)
  | Some (Ok st) =>
      Some (Ok (with_lines self (j_lines st), j_clusters st, j_resourceIdx st))
  end.

(** *** deleteIsoNodes *)

(** What is left of a stored cell besides its row: [col] and the X and Y
    [data], which the source deletes position by position with the row. *)
Definition cell : Type := (nat * (F * F))%type.

(** The state of [for k2 in isoPoint]: [clusters], [pts], the row array,
    the other arrays of the two tables, [connected] and [k2] itself,
    which the code reads after the loop. *)
Definition cell_state : Type :=
  (list (option nat) * list (F * F) * list Z * list cell * bool * option nat)%type.

(** The body of [for k2 in isoPoint] (lines 545-557). *)
Definition iso_cell (st : cell_state) (k2 : nat) : res cell_state :=
  let '(clusters, pts, rows, cells, connected, _) := st in
  c <- py.get clusters k2 ;;
  match c with
  | Some _ => Ok (clusters, pts, rows, cells, true, Some k2)
  | None =>
      clusters' <- py.delete clusters [k2] ;;
      pts' <- py.delete pts [k2] ;;
      rows' <- py.delete rows [k2] ;;
      cells' <- py.delete cells [k2] ;;
      Ok (clusters', pts', rows', cells', connected, Some k2)
  end.

Record iso_state : Type := mkIso {
  iso_clusters : list (option nat);
  iso_pts : list (F * F);
  iso_rows : list Z;
  iso_cells : list cell;
  iso_nodes : list Node;
  iso_count : nat;
  iso_k2 : option nat
}.

(** The body of [for k1 in isoResourcePoints] (lines 542-567); [k2] is
    whatever the last turn of an inner loop left, unbound at first. The
    [_shape] of the two tables, which the source counts down with the
    buffers, is not part of the coordinate form kept here. *)
Definition iso_row (numEnd : Z) (st : iso_state) (k1 : Z) : res iso_state :=
  let isoPoint := rev (np.where_ (fun r => (r =? k1)%Z) (iso_rows st)) in
  '(clusters, pts, rows, cells, connected, k2) <-
     foldM iso_cell isoPoint
           (iso_clusters st, iso_pts st, iso_rows st, iso_cells st, false, iso_k2 st) ;;
  if connected : bool then
    Ok (mkIso clusters pts rows cells (iso_nodes st) (iso_count st) k2)
  else
    k2v <- match k2 with
           | Some v => Ok v
           | None => Raise UnboundLocalError
           end ;;
    let rows' := if (k2v <? length rows)%nat
                 then py.shift_from rows (Z.of_nat k2v) 1%Z else rows in
    nodes' <- py.deletez (iso_nodes st) [(k1 - numEnd)%Z] ;;
    Ok (mkIso clusters pts rows' cells nodes' (S (iso_count st)) k2).

Definition is_none (c : option nat) : bool :=
  match c with None => true | Some _ => false end.

(** [deleteIsoNodes(ptsX, ptsY, pts, clusters)]: [rows] is [ptsX.row]
    (and [ptsY.row], which the code keeps equal to it), [cells] the other
    arrays of the two tables. *)
Definition deleteIsoNodes (self : ames) (rows : list Z) (cells : list cell)
    (pts : list (F * F)) (clusters : list (option nat))
    : res (ames * list Z * list cell * list (F * F) * list (option nat)) :=
  let isoPoints := np.where_ is_none clusters in
  isoRows <- py.take rows isoPoints ;;
  let isoResourcePoints := rev (pd.unique isoRows) in
  st <- foldM (iso_row (numEndpoints self)) isoResourcePoints
              (mkIso clusters pts rows cells (nodes self) 0 None) ;;
  Ok (with_nodes self (iso_nodes st),
      iso_rows st, iso_cells st, iso_pts st, iso_clusters st).
End Reviser.
End AMES.

(* ------------------------------------------------------------------ *)
(** * Facts about the array idioms *)

Unset Implicit Arguments.

Section NpFacts.
Variable A : Type.
Implicit Types (l : list A) (idx : list nat).

Lemma mem_idx_true (i : nat) idx : existsb (Nat.eqb i) idx = true <-> In i idx.
Proof.
  rewrite existsb_exists. split.
  - intros [x [Hx He]]. apply Nat.eqb_eq in He. now subst.
  - intros H. exists i. split; [assumption | apply Nat.eqb_refl].
Qed.

Lemma mem_idx_false (i : nat) idx : existsb (Nat.eqb i) idx = false <-> ~ In i idx.
Proof.
  rewrite <- mem_idx_true. destruct (existsb (Nat.eqb i) idx); split; intros; congruence.
Qed.

Lemma where_from_In (p : A -> bool) l : forall i j,
  In j (np.where_from p i l) <->
  i <= j /\ exists a, nth_error l (j - i) = Some a /\ p a = true.
Proof.
  induction l as [|a l IH]; intros i j; simpl.
  - split; [tauto|]. intros [_ [x [H _]]]. destruct (j - i); discriminate.
  - assert (Hstep : In j (np.where_from p (S i) l) <->
                    S i <= j /\ exists b, nth_error l (j - S i) = Some b /\ p b = true)
      by apply IH.
    destruct (p a) eqn:Hp; simpl; rewrite Hstep; clear Hstep IH.
    + split.
      * intros [->|[Hle [b [Hb Hpb]]]].
        -- split; [lia|]. exists a. rewrite Nat.sub_diag. auto.
        -- split; [lia|]. exists b. replace (j - i) with (S (j - S i)) by lia. auto.
      * intros [Hle [b [Hb Hpb]]].
        destruct (Nat.eq_dec i j) as [->|Hne]; [now left|right].
        split; [lia|]. exists b. replace (j - i) with (S (j - S i)) in Hb by lia. auto.
    + split.
      * intros [Hle [b [Hb Hpb]]].
        split; [lia|]. exists b. replace (j - i) with (S (j - S i)) by lia. auto.
      * intros [Hle [b [Hb Hpb]]].
        destruct (Nat.eq_dec i j) as [->|Hne].
        -- rewrite Nat.sub_diag in Hb. simpl in Hb. congruence.
        -- split; [lia|]. exists b. replace (j - i) with (S (j - S i)) in Hb by lia. auto.
Qed.

Lemma where_In (p : A -> bool) l j :
  In j (np.where_ p l) <-> exists a, nth_error l j = Some a /\ p a = true.
Proof.
  unfold np.where_. rewrite where_from_In, Nat.sub_0_r.
  split; [tauto | intros H; split; [lia | assumption]].
Qed.

Lemma where_lt (p : A -> bool) l j : In j (np.where_ p l) -> j < length l.
Proof.
  rewrite where_In. intros [a [H _]]. apply nth_error_Some. congruence.
Qed.

(** [np.where] lists positions in strictly ascending order. *)
Lemma where_from_sorted (p : A -> bool) l : forall i,
  StronglySorted lt (np.where_from p i l).
Proof.
  induction l as [|a l IH]; intros i; simpl; [constructor|].
  destruct (p a); [|apply IH].
  constructor; [apply IH|].
  apply Forall_forall. intros j Hj. apply where_from_In in Hj. lia.
Qed.

Lemma sorted_lt_NoDup (s : list nat) : StronglySorted lt s -> NoDup s.
Proof.
  induction 1 as [|x s Hs IH Hall]; constructor; [|assumption].
  intros Hin. rewrite Forall_forall in Hall. specialize (Hall _ Hin). lia.
Qed.

Lemma where_NoDup (p : A -> bool) l : NoDup (np.where_ p l).
Proof. apply sorted_lt_NoDup, where_from_sorted. Qed.

Lemma mapi_from_length (f : nat -> A -> A) l : forall i,
  length (np.mapi_from f i l) = length l.
Proof. induction l; intros; simpl; [reflexivity | now rewrite IHl]. Qed.

Lemma mapi_from_nth_error (f : nat -> A -> A) l : forall i j,
  nth_error (np.mapi_from f i l) j = option_map (f (i + j)) (nth_error l j).
Proof.
  induction l as [|a l IH]; intros i [|j]; simpl; try reflexivity.
  - now rewrite Nat.add_0_r.
  - rewrite IH. now replace (S i + j) with (i + S j) by lia.
Qed.

Lemma put_length l idx (v : A) : length (np.put l idx v) = length l.
Proof. apply mapi_from_length. Qed.

Lemma put_nth_error l idx (v : A) j :
  nth_error (np.put l idx v) j =
  option_map (fun a => if existsb (Nat.eqb j) idx then v else a) (nth_error l j).
Proof. unfold np.put. now rewrite mapi_from_nth_error. Qed.

Lemma nth_of_nth_error l (d : A) j : nth j l d =
  match nth_error l j with Some a => a | None => d end.
Proof.
  revert j. induction l as [|a l IH]; intros [|j]; simpl; auto.
Qed.

(** Reading a position after [arr[idx] = v], when [v] is what an
    unwritten position out of range would read as. *)
Lemma put_nth l idx (v d : A) j : j < length l ->
  nth j (np.put l idx v) d = if existsb (Nat.eqb j) idx then v else nth j l d.
Proof.
  intros Hj. rewrite !nth_of_nth_error, put_nth_error.
  destruct (nth_error l j) eqn:E; simpl; [reflexivity|].
  apply nth_error_None in E. lia.
Qed.

Lemma put_nth_out l idx (v d : A) j : length l <= j ->
  nth j (np.put l idx v) d = d.
Proof. intros H. apply nth_overflow. now rewrite put_length. Qed.

Lemma select_In (mask : list bool) l (a : A) :
  In a (np.select mask l) -> In a l.
Proof.
  revert l. induction mask as [|m mask IH]; intros [|b l]; simpl; try tauto.
  destruct m; simpl; intros H; [destruct H as [H|H]|]; auto.
Qed.

(** Masking by a predicate of the elements is filtering. *)
Lemma select_map_filter (p : A -> bool) l :
  np.select (map p l) l = filter p l.
Proof.
  induction l as [|a l IH]; simpl; [reflexivity|].
  destruct (p a); now rewrite IH.
Qed.
End NpFacts.

Lemma select_map_filter2 (A B : Type) (p : A -> bool) (f : A -> B) (l : list A) :
  np.select (map p l) (map f l) = map f (filter p l).
Proof.
  induction l as [|a l IH]; simpl; [reflexivity|].
  destruct (p a); simpl; now rewrite IH.
Qed.

(** [np.unique] keeps the values and drops the repetitions. *)
Lemma insert_sorted_In x y l : In y (np.insert_sorted x l) <-> y = x \/ In y l.
Proof.
  induction l as [|z l IH]; simpl; [intuition|].
  destruct (x <? z) eqn:E1; simpl; [intuition|].
  destruct (x =? z) eqn:E2; simpl.
  - apply Nat.eqb_eq in E2. subst. intuition.
  - rewrite IH. intuition.
Qed.

Lemma unique_In y l : In y (np.unique l) <-> In y l.
Proof.
  induction l as [|x l IH]; simpl; [tauto|].
  rewrite insert_sorted_In, IH. intuition.
Qed.

Lemma insert_sorted_sorted x l :
  StronglySorted lt l -> StronglySorted lt (np.insert_sorted x l).
Proof.
  induction 1 as [|z l Hs IH Hall]; simpl; [repeat constructor|].
  destruct (x <? z) eqn:E1.
  - apply Nat.ltb_lt in E1. constructor; [now constructor|].
    constructor; [assumption|].
    rewrite Forall_forall in *. intros w Hw. specialize (Hall _ Hw). lia.
  - destruct (x =? z) eqn:E2; [now constructor|].
    apply Nat.ltb_ge in E1. apply Nat.eqb_neq in E2.
    constructor; [assumption|].
    rewrite Forall_forall in *. intros w Hw.
    apply insert_sorted_In in Hw. destruct Hw as [->|Hw]; [lia | auto].
Qed.

Lemma unique_sorted l : StronglySorted lt (np.unique l).
Proof.
  induction l; simpl; [constructor | now apply insert_sorted_sorted].
Qed.

Lemma unique_NoDup l : NoDup (np.unique l).
Proof. apply sorted_lt_NoDup, unique_sorted. Qed.

(** [np.where] followed by fancy indexing is filtering. *)
Lemma where_from_map_filter (A B : Type) (p : B -> bool) (f : A -> B) (d : A)
    (pre l : list A) :
  map (fun i => nth i (pre ++ l) d) (np.where_from p (length pre) (map f l)) =
  filter (fun a => p (f a)) l.
Proof.
  revert pre. induction l as [|a l IH]; intros pre; simpl; [reflexivity|].
  assert (Hstep : map (fun i => nth i (pre ++ a :: l) d)
                      (np.where_from p (S (length pre)) (map f l)) =
                  filter (fun a => p (f a)) l).
  { specialize (IH (pre ++ [a])). rewrite <- app_assoc, length_app in IH.
    simpl in IH. now rewrite Nat.add_1_r in IH. }
  destruct (p (f a)); simpl; rewrite Hstep; [|reflexivity].
  now rewrite nth_middle.
Qed.

Lemma take_where_filter (A B : Type) (p : B -> bool) (f : A -> B) (d : A)
    (l : list A) :
  np.take d l (np.where_ p (map f l)) = filter (fun a => p (f a)) l.
Proof. exact (where_from_map_filter A B p f d [] l). Qed.

Lemma take_where_map (A B : Type) (p : B -> bool) (f : A -> B) (d : B)
    (l : list A) :
  np.take d (map f l) (np.where_ p (map f l)) = map f (filter (fun a => p (f a)) l).
Proof.
  pose proof (take_where_filter B B p (fun b => b) d (map f l)) as H.
  rewrite map_id in H. rewrite H. clear H.
  induction l as [|a l IH]; simpl; [reflexivity|].
  destruct (p (f a)); simpl; now rewrite IH.
Qed.

Lemma filter_sorted (s : list nat) (p : nat -> bool) :
  StronglySorted lt s -> StronglySorted lt (filter p s).
Proof.
  induction 1 as [|x s Hs IH Hall]; simpl; [constructor|].
  destruct (p x); [|assumption]. constructor; [assumption|].
  rewrite Forall_forall in *. intros y Hy. apply filter_In in Hy. now apply Hall.
Qed.

Lemma sorted_nth_lt (s : list nat) (d : nat) :
  StronglySorted lt s ->
  forall i j, i < j -> j < length s -> nth i s d < nth j s d.
Proof.
  induction 1 as [|x s Hs IH Hall]; intros i j Hij Hj; simpl in Hj; [lia|].
  destruct j as [|j]; [lia|]. destruct i as [|i]; simpl.
  - rewrite Forall_forall in Hall. apply Hall, nth_In. lia.
  - apply IH; lia.
Qed.

(** ** The scan of [np.argmin] *)

(** The order [np.argmin] needs to return the first smallest value: a
    strict weak order (no value is below itself; below is transitive; so
    is not-below). *)
Definition strict_weak_order {A : Type} (lt : A -> A -> bool) : Prop :=
  (forall a, lt a a = false) /\
  (forall a b c, lt a b = true -> lt b c = true -> lt a c = true) /\
  (forall a b c, lt a b = false -> lt b c = false -> lt a c = false).

(** The same laws asked only of the values in [dom]: of the values an
    array holds, when some value of the type (a NaN) is outside every
    order. *)
Definition strict_weak_order_on {A : Type} (dom : A -> Prop) (lt : A -> A -> bool)
    : Prop :=
  (forall a, dom a -> lt a a = false) /\
  (forall a b c, dom a -> dom b -> dom c ->
     lt a b = true -> lt b c = true -> lt a c = true) /\
  (forall a b c, dom a -> dom b -> dom c ->
     lt a b = false -> lt b c = false -> lt a c = false).

Lemma strict_weak_order_all {A : Type} (dom : A -> Prop) (lt : A -> A -> bool) :
  strict_weak_order lt -> strict_weak_order_on dom lt.
Proof. intros [Hirr [Htr Hneg]]. repeat split; eauto. Qed.

Section ArgminOn.
Variable A : Type.
Variable dom : A -> Prop.
Variable lt : A -> A -> bool.
Hypothesis lt_order : strict_weak_order_on dom lt.

Lemma argmin_from_spec_on (d : A) (l : list A) : forall (pre : list A) (bi : nat),
  (forall x, In x (pre ++ l) -> dom x) ->
  bi < length pre ->
  (forall x, In x pre -> lt x (nth bi pre d) = false) ->
  (forall j, j < bi -> lt (nth bi pre d) (nth j pre d) = true) ->
  let r := np.argmin_from lt (nth bi pre d) bi (length pre) l in
  r < length (pre ++ l) /\
  (forall x, In x (pre ++ l) -> lt x (nth r (pre ++ l) d) = false) /\
  (forall j, j < r -> lt (nth r (pre ++ l) d) (nth j (pre ++ l) d) = true).
Proof.
  destruct lt_order as [Hirr [Htr Hneg]].
  induction l as [|a l IH]; intros pre bi Hdom Hbi Hmin Hfirst; simpl.
  - rewrite app_nil_r. auto.
  - assert (Hlen : length (pre ++ [a]) = S (length pre))
      by (rewrite length_app; simpl; lia).
    assert (Happ : pre ++ a :: l = (pre ++ [a]) ++ l) by now rewrite <- app_assoc.
    assert (Hpre : forall x, In x pre -> dom x)
      by (intros x Hx; apply Hdom, in_or_app; now left).
    assert (Ha : dom a) by (apply Hdom, in_elt).
    assert (Hb : dom (nth bi pre d)) by (apply Hpre, nth_In; assumption).
    rewrite Happ in Hdom.
    destruct (lt a (nth bi pre d)) eqn:Ea.
    + specialize (IH (pre ++ [a]) (length pre) Hdom).
      rewrite Hlen, nth_middle in IH. rewrite Happ. apply IH; [lia| |].
      * intros x Hx. apply in_app_or in Hx.
        destruct Hx as [Hx|[<-|[]]]; [|now apply Hirr].
        destruct (lt x a) eqn:Ex; [|reflexivity].
        pose proof (Htr _ _ _ (Hpre x Hx) Ha Hb Ex Ea) as H1.
        rewrite (Hmin x Hx) in H1. discriminate.
      * intros j Hj. rewrite app_nth1 by assumption.
        destruct (lt a (nth j pre d)) eqn:Ej; [reflexivity|].
        assert (Hjb : lt (nth j pre d) (nth bi pre d) = false)
          by (apply Hmin, nth_In; assumption).
        assert (Hj' : dom (nth j pre d)) by (apply Hpre, nth_In; assumption).
        rewrite (Hneg _ _ _ Ha Hj' Hb Ej Hjb) in Ea. discriminate.
    + specialize (IH (pre ++ [a]) bi Hdom).
      rewrite Hlen, app_nth1 in IH by assumption. rewrite Happ. apply IH; [lia| |].
      * intros x Hx. apply in_app_or in Hx. destruct Hx as [Hx|[<-|[]]]; auto.
      * intros j Hj. rewrite app_nth1 by lia. auto.
Qed.

(** [np.argmin] over values of [dom] returns a position of the array; no
    value is below the one there; and every value before it is strictly
    above it. *)
Lemma argmin_spec_on (d : A) (l : list A) : l <> [] ->
  (forall x, In x l -> dom x) ->
  np.argmin lt l < length l /\
  (forall x, In x l -> lt x (nth (np.argmin lt l) l d) = false) /\
  (forall j, j < np.argmin lt l -> lt (nth (np.argmin lt l) l d) (nth j l d) = true).
Proof.
  destruct l as [|a l]; [congruence|]. intros _ Hdom.
  destruct lt_order as [Hirr _].
  apply (argmin_from_spec_on d l [a] 0); simpl.
  - exact Hdom.
  - lia.
  - intros x [<-|[]]. apply Hirr, Hdom. now left.
  - intros j Hj. lia.
Qed.
End ArgminOn.

Section ArgminFacts.
Variable A : Type.
Variable lt : A -> A -> bool.
Hypothesis lt_order : strict_weak_order lt.

(** [np.argmin] returns a position of the array; no value is below the
    one there; and every value before it is strictly above it. *)
Lemma argmin_spec (d : A) (l : list A) : l <> [] ->
  np.argmin lt l < length l /\
  (forall x, In x l -> lt x (nth (np.argmin lt l) l d) = false) /\
  (forall j, j < np.argmin lt l -> lt (nth (np.argmin lt l) l d) (nth j l d) = true).
Proof.
  intros Hne.
  apply (argmin_spec_on A (fun _ => True) lt
           (strict_weak_order_all (fun _ => True) lt lt_order) d l Hne).
  intros; exact I.
Qed.
End ArgminFacts.

Lemma argmin_from_le {A : Type} (lt : A -> A -> bool) (l : list A) :
  forall best bi i, bi < i -> np.argmin_from lt best bi i l < i + length l.
Proof.
  induction l as [|a l IH]; intros best bi i Hbi; simpl; [lia|].
  destruct (lt a best).
  - specialize (IH a i (S i)). lia.
  - specialize (IH best bi (S i)). lia.
Qed.

Lemma argmin_lt_length {A : Type} (lt : A -> A -> bool) (l : list A) :
  l <> [] -> np.argmin lt l < length l.
Proof.
  destruct l as [|a l]; [congruence|]. intros _. simpl.
  pose proof (argmin_from_le lt l a 0 1). lia.
Qed.

(* ------------------------------------------------------------------ *)
(** * The primary pass *)

Section PrimaryFacts.
Import SnapEdges2Grid.
Context {F : Type} {AF : Arith F}.
Implicit Types (od pts : list (@entry F)) (clusters : list (option nat)).

(** The distances the clusterer can compare on a table: from a cell to
    a cell. *)
Definition distances pts : list F :=
  flat_map (fun p => map (dist_to p) pts) pts.

(** The numeric kernel behaves like numbers on the table [pts] with the
    endpoint cells [od]: [<] is a strict weak order on the distances
    between its cells, and every endpoint cell is within the primary
    radius of itself. In binary64 the first asks that no distance is a
    NaN ([float_lawful_on]), and both hold on every table whose
    coordinates are finite ([finite_lawful_on]); both fail for a NaN or
    an infinite coordinate. *)
Definition lawful_on od pts : Prop :=
  strict_weak_order_on (fun x => In x (distances pts)) (ltb (F := F)) /\
  (forall p, In p od -> leb (dist_to p p) eps1 = true).

Lemma distances_In pts (p q : entry) :
  In p pts -> In q pts -> In (dist_to p q) (distances pts).
Proof.
  intros Hp Hq. unfold distances. apply in_flat_map.
  exists p. split; [assumption|]. now apply in_map.
Qed.

Lemma vstack_incl nrows od (b : list entry) : incl od (vstack nrows od b).
Proof. intros p Hp. unfold vstack. apply in_or_app. now left. Qed.

(** The candidates of endpoint cell [k2]: the cells of its commodity
    column within the primary radius of it, by ascending position. *)
Definition candidates od pts (k2 : nat) : list nat :=
  filter (fun j => leb (dist_to (nth k2 od entry0) (nth j pts entry0)) eps1)
         (np.where_ (fun q => col q =? col (nth k2 od entry0)) pts).

Lemma candidates_In od pts k2 j :
  In j (candidates od pts k2) <->
  j < length pts /\ col (nth j pts entry0) = col (nth k2 od entry0) /\
  leb (dist_to (nth k2 od entry0) (nth j pts entry0)) eps1 = true.
Proof.
  unfold candidates. rewrite filter_In, where_In. split.
  - intros [[q [Hq Hc]] Hd]. apply Nat.eqb_eq in Hc.
    assert (Hn : nth j pts entry0 = q) by now rewrite nth_of_nth_error, Hq.
    repeat split.
    + apply nth_error_Some. congruence.
    + now rewrite Hn.
    + assumption.
  - intros [Hj [Hc Hd]]. split; [|assumption].
    exists (nth j pts entry0). split.
    + now apply nth_error_nth'.
    + now apply Nat.eqb_eq.
Qed.

Lemma candidates_sorted od pts k2 : StronglySorted lt (candidates od pts k2).
Proof. apply filter_sorted, where_from_sorted. Qed.

Lemma cluster_of_put clusters idx v i :
  (forall j, In j idx -> j < length clusters) ->
  cluster_of (np.put clusters idx v) i =
  if existsb (Nat.eqb i) idx then v else cluster_of clusters i.
Proof.
  intros Hidx. unfold cluster_of.
  destruct (Nat.lt_ge_cases i (length clusters)) as [Hi|Hi].
  - now apply put_nth.
  - rewrite put_nth_out by assumption. rewrite nth_overflow by assumption.
    destruct (existsb (Nat.eqb i) idx) eqn:E; [|reflexivity].
    apply mem_idx_true, Hidx in E. lia.
Qed.

(** [primary_entry] with the index arithmetic of the source carried out:
    [foundIDX] is the candidate list, the mask selects its clustered
    members, and [np.argmin] scans their distances. *)
Lemma primary_entry_unfold od pts clusters clust k2 :
  primary_entry od pts (clusters, clust) k2 =
  let p := nth k2 od entry0 in
  let C := candidates od pts k2 in
  if existsb (clustered clusters) C then
    let CC := filter (clustered clusters) C in
    let closest := np.argmin ltb (map (fun j => dist_to p (nth j pts entry0)) CC) in
    (np.put clusters (filter (fun j => negb (clustered clusters j)) C)
            (nth closest (map (cluster_of clusters) CC) None), clust)
  else (np.put clusters C (Some clust), S clust).
Proof.
  unfold primary_entry, candidates. cbv zeta.
  set (p := nth k2 od entry0).
  set (refIdx := np.where_ (fun q => col q =? col p) pts).
  set (f := fun j => dist_to p (nth j pts entry0)).
  rewrite (take_where_filter nat F (fun d => leb d eps1) f 0 refIdx).
  rewrite (take_where_map nat F (fun d => leb d eps1) f zero refIdx).
  set (C := filter (fun a => leb (f a) eps1) refIdx).
  rewrite !select_map_filter2.
  rewrite map_map, (select_map_filter nat (fun j => negb (clustered clusters j)) C).
  reflexivity.
Qed.

Lemma nth_map_in (A B : Type) (f : A -> B) (l : list A) (n : nat) (d : B) (d' : A) :
  n < length l -> nth n (map f l) d = f (nth n l d').
Proof.
  intros Hn. rewrite (nth_indep _ d (f d')) by now rewrite length_map.
  apply map_nth.
Qed.

Lemma vstack_nth_od nrows od (b : list entry) k :
  k < length od -> nth k (vstack nrows od b) entry0 = nth k od entry0.
Proof. intros Hk. unfold vstack. now rewrite app_nth1. Qed.

Lemma vstack_length nrows od (b : list entry) :
  length (vstack nrows od b) = length od + length b.
Proof. unfold vstack. now rewrite length_app, length_map. Qed.

(** An endpoint cell is one of its own candidates. *)
Lemma candidates_self nrows od b k2 :
  lawful_on od (vstack nrows od b) -> k2 < length od ->
  In k2 (candidates od (vstack nrows od b) k2).
Proof.
  intros [_ Hself] Hk. apply candidates_In.
  rewrite vstack_nth_od by assumption. repeat split.
  - rewrite vstack_length. lia.
  - apply Hself, nth_In, Hk.
Qed.

(** When some candidate of [k2] holds a cluster-id: the clustered
    candidate [jstar] the source extends from is at the smallest distance,
    and is the first such candidate in table order; the unclustered
    candidates receive its id, every other cell keeps what it had, and no
    id is allocated. *)
Lemma primary_entry_extend od pts clusters clust k2 :
  lawful_on od pts -> incl od pts -> k2 < length od ->
  length clusters = length pts ->
  (exists j, In j (candidates od pts k2) /\ clustered clusters j = true) ->
  let d := fun j => dist_to (nth k2 od entry0) (nth j pts entry0) in
  let new := primary_entry od pts (clusters, clust) k2 in
  exists jstar,
    In jstar (candidates od pts k2) /\ clustered clusters jstar = true /\
    (forall j, In j (candidates od pts k2) -> clustered clusters j = true ->
       ltb (d j) (d jstar) = false) /\
    (forall j, In j (candidates od pts k2) -> clustered clusters j = true ->
       j < jstar -> ltb (d jstar) (d j) = true) /\
    snd new = clust /\
    (forall i, In i (candidates od pts k2) -> clustered clusters i = false ->
       cluster_of (fst new) i = cluster_of clusters jstar) /\
    (forall i, ~ (In i (candidates od pts k2) /\ clustered clusters i = false) ->
       cluster_of (fst new) i = cluster_of clusters i).
Proof.
  intros [Hord _] Hincl Hk2 Hlen Hex d new. subst new.
  rewrite primary_entry_unfold. cbv zeta.
  set (C := candidates od pts k2) in *.
  assert (Hany : existsb (clustered clusters) C = true)
    by (apply existsb_exists; exact Hex).
  rewrite Hany. fold d.
  set (CC := filter (clustered clusters) C).
  assert (Hne : map d CC <> []).
  { destruct Hex as [j [Hj Hc]].
    assert (Hin : In j CC) by (apply filter_In; auto).
    destruct CC; [contradiction | discriminate]. }
  assert (Hdom : forall x, In x (map d CC) -> In x (distances pts)).
  { intros x Hx. apply in_map_iff in Hx. destruct Hx as [j [<- Hj]].
    apply filter_In in Hj. destruct Hj as [Hj _]. apply candidates_In in Hj.
    apply distances_In; [apply Hincl, nth_In, Hk2 | apply nth_In; lia]. }
  destruct (argmin_spec_on F _ ltb Hord zero (map d CC) Hne Hdom)
    as [Hlt [Hmin Hfirst]].
  set (closest := np.argmin ltb (map d CC)) in *.
  rewrite length_map in Hlt.
  assert (Hval : nth closest (map d CC) zero = d (nth closest CC 0))
    by now apply nth_map_in.
  rewrite Hval in Hmin, Hfirst.
  assert (Hjs : In (nth closest CC 0) CC) by now apply nth_In.
  exists (nth closest CC 0).
  pose proof Hjs as Hjs'. apply filter_In in Hjs'. destruct Hjs' as [HjC Hjc].
  split; [assumption|]. split; [assumption|]. split; [|split; [|split; [|split]]].
  - intros j Hj Hc. apply Hmin, in_map, filter_In. auto.
  - intros j Hj Hc Hlt'.
    assert (Hin : In j CC) by (apply filter_In; auto).
    destruct (In_nth _ _ 0 Hin) as [m [Hm Hnm]].
    assert (Hsorted : StronglySorted lt CC)
      by (apply filter_sorted, candidates_sorted).
    assert (Hmc : m < closest).
    { destruct (Nat.lt_ge_cases m closest) as [?|Hge]; [assumption|].
      destruct (Nat.eq_dec m closest) as [->|Hne']; [lia|].
      pose proof (sorted_nth_lt CC 0 Hsorted closest m). lia. }
    specialize (Hfirst m Hmc).
    rewrite (nth_map_in _ _ d CC m zero 0 Hm), Hnm in Hfirst. exact Hfirst.
  - reflexivity.
  - intros i Hi Hc. simpl.
    rewrite cluster_of_put.
    + assert (Hmem : In i (filter (fun j => negb (clustered clusters j)) C))
        by (apply filter_In; split; [assumption | now rewrite Hc]).
      apply mem_idx_true in Hmem. rewrite Hmem.
      now apply nth_map_in.
    + intros j Hj. apply filter_In in Hj. destruct Hj as [Hj _].
      apply candidates_In in Hj. lia.
  - intros i Hi. simpl.
    rewrite cluster_of_put.
    + destruct (existsb (Nat.eqb i) (filter (fun j => negb (clustered clusters j)) C))
        eqn:E; [|reflexivity].
      apply mem_idx_true, filter_In in E. destruct E as [E1 E2].
      exfalso. apply Hi. split; [assumption|].
      now destruct (clustered clusters i).
    + intros j Hj. apply filter_In in Hj. destruct Hj as [Hj _].
      apply candidates_In in Hj. lia.
Qed.

(** When no candidate of [k2] holds a cluster-id: every candidate receives
    the fresh id [clust], every other cell keeps what it had, and the
    counter moves on. *)
Lemma primary_entry_fresh od pts clusters clust k2 :
  length clusters = length pts ->
  (forall j, In j (candidates od pts k2) -> clustered clusters j = false) ->
  let new := primary_entry od pts (clusters, clust) k2 in
  snd new = S clust /\
  (forall i, In i (candidates od pts k2) -> cluster_of (fst new) i = Some clust) /\
  (forall i, ~ In i (candidates od pts k2) ->
     cluster_of (fst new) i = cluster_of clusters i).
Proof.
  intros Hlen Hnone new. subst new.
  rewrite primary_entry_unfold. cbv zeta.
  set (C := candidates od pts k2) in *.
  assert (Hany : existsb (clustered clusters) C = false).
  { destruct (existsb (clustered clusters) C) eqn:E; [|reflexivity].
    apply existsb_exists in E. destruct E as [j [Hj Hc]].
    rewrite (Hnone j Hj) in Hc. discriminate. }
  rewrite Hany. simpl.
  assert (Hin : forall j, In j C -> j < length clusters)
    by (intros j Hj; apply candidates_In in Hj; lia).
  split; [reflexivity|]. split; intros i Hi; rewrite cluster_of_put by assumption.
  - apply mem_idx_true in Hi. now rewrite Hi.
  - apply mem_idx_false in Hi. now rewrite Hi.
Qed.

(** The rule the claim states for ties, in its words: among the clustered
    candidates at the smallest distance, the lowest cluster-id. *)
Definition claimed_extended_clust od pts clusters (k2 : nat) : option nat :=
  let d := fun j => dist_to (nth k2 od entry0) (nth j pts entry0) in
  let CC := filter (clustered clusters) (candidates od pts k2) in
  let nearest := filter (fun j => forallb (fun i => negb (ltb (d i) (d j))) CC) CC in
  match flat_map (fun j => match cluster_of clusters j with
                           | Some c => [c] | None => [] end) nearest with
  | [] => None
  | c :: cs => Some (fold_left Nat.min cs c)
  end.

(** C2, amended. On a table on which the numeric kernel behaves like
    numbers (as binary64 does when the coordinates are finite), the
    primary pass visits
    the endpoint rows in table order
    (origin, then destination, of each transporter in insertion order). A
    row that already holds a cluster-id when it is reached is skipped.
    Otherwise each of its cells [k2] is processed: its candidates are the
    cells of its commodity column within [eps1] of it, itself included. If
    some candidate holds a cluster-id, the unclustered candidates join the
    cluster of the clustered candidate at the smallest distance, ties
    going to the first such candidate in table order (not to the lowest
    cluster-id); clustered candidates keep their id. Otherwise all
    candidates receive one fresh id and the counter moves on. *)
Theorem primary_pass_rule nrows od (b : list entry) :
  lawful_on od (vstack nrows od b) ->
  let pts := vstack nrows od b in
  primary_pass nrows od pts =
    fold_left (primary_row od pts) (seq 0 nrows) (repeat None (length pts), 0) /\
  (forall st k1,
     let lineIdx := np.where_ (fun e => row e =? k1) od in
     (existsb (clustered (fst st)) lineIdx = true -> primary_row od pts st k1 = st) /\
     (existsb (clustered (fst st)) lineIdx = false ->
      primary_row od pts st k1 = fold_left (primary_entry od pts) lineIdx st)) /\
  (forall clusters clust k2,
     k2 < length od -> length clusters = length pts ->
     let C := candidates od pts k2 in
     let d := fun j => dist_to (nth k2 od entry0) (nth j pts entry0) in
     let new := primary_entry od pts (clusters, clust) k2 in
     In k2 C /\
     ((exists j, In j C /\ clustered clusters j = true) ->
      exists jstar,
        In jstar C /\ clustered clusters jstar = true /\
        (forall j, In j C -> clustered clusters j = true -> ltb (d j) (d jstar) = false) /\
        (forall j, In j C -> clustered clusters j = true -> j < jstar ->
           ltb (d jstar) (d j) = true) /\
        snd new = clust /\
        (forall i, In i C -> clustered clusters i = false ->
           cluster_of (fst new) i = cluster_of clusters jstar) /\
        (forall i, ~ (In i C /\ clustered clusters i = false) ->
           cluster_of (fst new) i = cluster_of clusters i)) /\
     ((forall j, In j C -> clustered clusters j = false) ->
      snd new = S clust /\
      (forall i, In i C -> cluster_of (fst new) i = Some clust) /\
      (forall i, ~ In i C -> cluster_of (fst new) i = cluster_of clusters i))).
Proof.
  intros Hlaw pts. split; [reflexivity|]. split.
  - intros st k1 lineIdx. unfold primary_row. fold lineIdx.
    split; intros ->; reflexivity.
  - intros clusters clust k2 Hk Hlen C d new. split; [|split].
    + now apply candidates_self.
    + intros Hex.
      exact (primary_entry_extend od pts clusters clust k2 Hlaw
               (vstack_incl nrows od b) Hk Hlen Hex).
    + intros Hnone. exact (primary_entry_fresh od pts clusters clust k2 Hlen Hnone).
Qed.
End PrimaryFacts.

(* ------------------------------------------------------------------ *)
(** * The cluster counter *)

Section CounterFacts.
Import SnapEdges2Grid.
Context {F : Type} {AF : Arith F}.
Implicit Types (od pts : list (@entry F)) (clusters : list (option nat)).

(** Every id in use lies below the counter [clust]. *)
Definition ids_below clusters (clust : nat) : Prop :=
  forall i c, cluster_of clusters i = Some c -> c < clust.

Lemma cluster_of_set_other clusters k v i :
  i <> k -> cluster_of (np.set_at clusters k v) i = cluster_of clusters i.
Proof.
  intros Hne. unfold cluster_of, np.set_at.
  rewrite !nth_of_nth_error, put_nth_error.
  destruct (nth_error clusters i); simpl; [|reflexivity].
  apply Nat.eqb_neq in Hne. now rewrite Hne.
Qed.

Lemma cluster_of_set_same clusters k v :
  k < length clusters -> cluster_of (np.set_at clusters k v) k = v.
Proof.
  intros Hk. unfold np.set_at. rewrite cluster_of_put.
  - simpl. now rewrite Nat.eqb_refl.
  - intros j [<-|[]]. assumption.
Qed.

Lemma cluster_of_lt clusters i c :
  cluster_of clusters i = Some c -> i < length clusters.
Proof.
  unfold cluster_of. intros H.
  destruct (Nat.lt_ge_cases i (length clusters)); [assumption|].
  rewrite nth_overflow in H by assumption. discriminate.
Qed.

Lemma primary_entry_length od pts st k2 :
  length (fst (primary_entry od pts st k2)) = length (fst st).
Proof.
  destruct st as [clusters clust]. rewrite primary_entry_unfold. cbv zeta.
  destruct (existsb _ _); simpl; apply put_length.
Qed.

Lemma primary_entry_below od pts st k2 :
  length (fst st) = length pts -> ids_below (fst st) (snd st) ->
  ids_below (fst (primary_entry od pts st k2)) (snd (primary_entry od pts st k2)).
Proof.
  destruct st as [clusters clust]. intros Hlen Hb. simpl in Hlen, Hb.
  rewrite primary_entry_unfold. cbv zeta.
  assert (Hin : forall j, In j (candidates od pts k2) -> j < length clusters)
    by (intros j Hj; apply candidates_In in Hj; lia).
  destruct (existsb _ _); simpl; intros i c; rewrite cluster_of_put.
  - destruct (existsb (Nat.eqb i) _); [|apply Hb].
    set (CC := filter (clustered clusters) (candidates od pts k2)).
    set (n := np.argmin _ _).
    destruct (nth_in_or_default n (map (cluster_of clusters) CC) None) as [Hn|Hn].
    + apply in_map_iff in Hn. destruct Hn as [j [Hj _]].
      rewrite <- Hj. apply Hb.
    + rewrite Hn. discriminate.
  - intros j Hj. apply filter_In in Hj. apply Hin, Hj.
  - destruct (existsb (Nat.eqb i) _).
    + intros [= <-]. lia.
    + intros H. apply Hb in H. lia.
  - assumption.
Qed.

Definition pass_inv pts (st : list (option nat) * nat) : Prop :=
  length (fst st) = length pts /\ ids_below (fst st) (snd st).

Lemma primary_entries_inv od pts (l : list nat) : forall st,
  pass_inv pts st -> pass_inv pts (fold_left (primary_entry od pts) l st).
Proof.
  induction l as [|k l IH]; intros st [Hlen Hb]; simpl; [now split|].
  apply IH. split.
  - now rewrite primary_entry_length.
  - now apply primary_entry_below.
Qed.

Lemma primary_row_inv od pts st k1 :
  pass_inv pts st -> pass_inv pts (primary_row od pts st k1).
Proof.
  intros H. unfold primary_row.
  destruct (existsb _ _); [assumption | now apply primary_entries_inv].
Qed.

Lemma primary_pass_inv nrows od pts :
  pass_inv pts (primary_pass nrows od pts).
Proof.
  unfold primary_pass.
  assert (H0 : pass_inv pts (repeat None (length pts), 0)).
  { split; simpl; [apply repeat_length|].
    intros i c. unfold cluster_of. intros H.
    destruct (nth_in_or_default i (repeat (@None nat) (length pts)) None) as [Hn|Hn].
    - apply repeat_spec in Hn. congruence.
    - congruence. }
  revert H0. generalize (repeat (@None nat) (length pts), 0).
  induction (seq 0 nrows) as [|k l IH]; intros st H; simpl; [assumption|].
  apply IH. now apply primary_row_inv.
Qed.
End CounterFacts.

(* ------------------------------------------------------------------ *)
(** * The secondary pass *)

Section SecondaryFacts.
Import SnapEdges2Grid.
Context {F : Type} {AF : Arith F}.
Implicit Types (od pts : list (@entry F)) (clusters : list (option nat)).
Implicit Types (st : sec_state).

Definition sec_clusters st : list (option nat) := fst (fst st).
Definition sec_clust st : nat := snd (fst st).
Definition sec_queue st : list (nat * nat) := snd st.

(** Every endpoint cell has another endpoint cell in its commodity
    column, as the two ends of one transporter do. *)
Definition od_pairedb od : bool :=
  forallb (fun i =>
             existsb (fun j => negb (i =? j) &&
                               (col (nth j od entry0) =? col (nth i od entry0)))
                     (seq 0 (length od)))
          (seq 0 (length od)).

(** With paired endpoints the guard [if not refIdx.any()] of the source
    skips a cell exactly when its column has no endpoint. *)
Lemma paired_any_nonzero od (c : nat) :
  od_pairedb od = true ->
  np.where_ (fun q => col q =? c) od <> [] ->
  np.any_nonzero (np.where_ (fun q => col q =? c) od) = true.
Proof.
  intros Hp Hne. unfold np.any_nonzero. apply existsb_exists.
  destruct (np.where_ (fun q => col q =? c) od) as [|i r] eqn:E; [congruence|].
  assert (Hi : In i (np.where_ (fun q => col q =? c) od)) by (rewrite E; now left).
  rewrite <- E. clear E Hne r.
  destruct (Nat.eq_dec i 0) as [->|Hi0].
  - pose proof (where_lt _ _ _ _ Hi) as Hlt.
    apply where_In in Hi. destruct Hi as [a [Ha Hc]].
    unfold od_pairedb in Hp. rewrite forallb_forall in Hp.
    specialize (Hp 0). rewrite in_seq in Hp.
    assert (H0 : 0 <= 0 < 0 + length od) by lia.
    apply Hp, existsb_exists in H0. destruct H0 as [j [Hj Hjc]].
    apply andb_true_iff in Hjc. destruct Hjc as [Hj0 Hcol].
    apply negb_true_iff, Nat.eqb_neq in Hj0. apply Nat.eqb_eq in Hcol.
    apply in_seq in Hj. exists j. split.
    + apply where_In. exists (nth j od entry0). split.
      * apply nth_error_nth'. lia.
      * rewrite Hcol. rewrite nth_of_nth_error, Ha. exact Hc.
    + apply negb_true_iff, Nat.eqb_neq. lia.
  - exists i. split; [assumption|]. now apply negb_true_iff, Nat.eqb_neq.
Qed.

Lemma cluster_of_set_cases clusters k v i c :
  cluster_of (np.set_at clusters k v) i = Some c ->
  cluster_of clusters i = Some c \/ v = Some c.
Proof.
  unfold cluster_of, np.set_at. rewrite !nth_of_nth_error, put_nth_error.
  destruct (nth_error clusters i) as [o|]; simpl; [|discriminate].
  destruct (i =? k); simpl; intros H; [right | left]; exact H.
Qed.

(** A step writes no cell but its own. *)
Lemma secondary_step_other od pts st k2 i :
  i <> k2 ->
  cluster_of (sec_clusters (secondary_step od pts st k2)) i =
  cluster_of (sec_clusters st) i.
Proof.
  intros Hne. destruct st as [[clusters clust] q]. unfold secondary_step.
  destruct (negb _); [reflexivity|]. cbv zeta.
  destruct (leb _ eps2); [now apply cluster_of_set_other|].
  destruct (leb _ eps3); [now apply cluster_of_set_other | reflexivity].
Qed.

Lemma secondary_fold_other od pts (l : list nat) i : forall st,
  ~ In i l ->
  cluster_of (sec_clusters (fold_left (secondary_step od pts) l st)) i =
  cluster_of (sec_clusters st) i.
Proof.
  induction l as [|k l IH]; intros st Hi; simpl; [reflexivity|].
  rewrite IH by (intros H; apply Hi; now right).
  apply secondary_step_other. intros ->. apply Hi. now left.
Qed.

Lemma secondary_step_below od pts st k2 :
  ids_below (sec_clusters st) (sec_clust st) ->
  ids_below (sec_clusters (secondary_step od pts st k2))
            (sec_clust (secondary_step od pts st k2)).
Proof.
  destruct st as [[clusters clust] q]. unfold sec_clusters, sec_clust. simpl.
  intros Hb. unfold secondary_step.
  destruct (negb _); [exact Hb|]. cbv zeta.
  destruct (leb _ eps2); simpl.
  - intros i c H. apply cluster_of_set_cases in H. destruct H as [H|H]; eapply Hb; eauto.
  - destruct (leb _ eps3); simpl; [|exact Hb].
    intros i c H. apply cluster_of_set_cases in H. destruct H as [H|H].
    + apply Hb in H. lia.
    + injection H as <-. lia.
Qed.

Lemma secondary_fold_below od pts (l : list nat) : forall st,
  ids_below (sec_clusters st) (sec_clust st) ->
  ids_below (sec_clusters (fold_left (secondary_step od pts) l st))
            (sec_clust (fold_left (secondary_step od pts) l st)).
Proof.
  induction l as [|k l IH]; intros st H; simpl; [assumption|].
  apply IH. now apply secondary_step_below.
Qed.

Lemma secondary_step_length od pts st k2 :
  length (sec_clusters (secondary_step od pts st k2)) = length (sec_clusters st).
Proof.
  destruct st as [[clusters clust] q]. unfold secondary_step.
  destruct (negb _); [reflexivity|]. cbv zeta.
  destruct (leb _ eps2); [apply put_length|].
  destruct (leb _ eps3); [apply put_length | reflexivity].
Qed.

Lemma secondary_fold_length od pts (l : list nat) : forall st,
  length (sec_clusters (fold_left (secondary_step od pts) l st)) =
  length (sec_clusters st).
Proof.
  induction l as [|k l IH]; intros st; simpl; [reflexivity|].
  rewrite IH. apply secondary_step_length.
Qed.

(** The queue only grows, at its end. *)
Lemma secondary_step_queue od pts st k2 :
  exists later, sec_queue (secondary_step od pts st k2) = sec_queue st ++ later.
Proof.
  destruct st as [[clusters clust] q]. unfold secondary_step, sec_queue.
  destruct (negb _); [exists []; simpl; now rewrite app_nil_r|]. cbv zeta.
  destruct (leb _ eps2); [exists []; simpl; now rewrite app_nil_r|].
  destruct (leb _ eps3); [eexists; reflexivity|].
  exists []. simpl. now rewrite app_nil_r.
Qed.

Lemma secondary_fold_queue od pts (l : list nat) : forall st,
  exists later,
    sec_queue (fold_left (secondary_step od pts) l st) = sec_queue st ++ later.
Proof.
  induction l as [|k l IH]; intros st; simpl.
  - exists []. now rewrite app_nil_r.
  - destruct (IH (secondary_step od pts st k)) as [l2 H2].
    destruct (secondary_step_queue od pts st k) as [l1 H1].
    exists (l1 ++ l2). now rewrite H2, H1, app_assoc.
Qed.

Lemma isoNodes_In clusters i :
  In i (isoNodes clusters) <-> i < length clusters /\ cluster_of clusters i = None.
Proof.
  unfold isoNodes, cluster_of. rewrite where_In, nth_of_nth_error. split.
  - intros [[c|] [Hc Hn]]; [discriminate|]. rewrite Hc. split; [|reflexivity].
    apply nth_error_Some. congruence.
  - intros [Hlt Hn]. destruct (nth_error clusters i) as [c|] eqn:E.
    + subst c. exists None. auto.
    + apply nth_error_None in E. lia.
Qed.

(** One step of the secondary pass, with the index arithmetic carried out:
    [nearestIDX] is the first endpoint cell of the column at the smallest
    distance, and the three branches are the three outcomes. *)
Lemma secondary_step_rule od pts st k2 :
  lawful_on od pts -> incl od pts -> od_pairedb od = true ->
  k2 < length pts -> k2 < length (sec_clusters st) ->
  let refIdx := np.where_ (fun q => col q =? col (nth k2 pts entry0)) od in
  let d := fun j => dist_to (nth k2 pts entry0) (nth j od entry0) in
  let st' := secondary_step od pts st k2 in
  (refIdx = [] -> st' = st) /\
  (refIdx <> [] ->
   exists nearestIDX,
     In nearestIDX refIdx /\
     (forall j, In j refIdx -> ltb (d j) (d nearestIDX) = false) /\
     (forall j, In j refIdx -> j < nearestIDX -> ltb (d nearestIDX) (d j) = true) /\
     (leb (d nearestIDX) eps2 = true ->
        cluster_of (sec_clusters st') k2 = cluster_of (sec_clusters st) nearestIDX /\
        sec_clust st' = sec_clust st /\ sec_queue st' = sec_queue st) /\
     (leb (d nearestIDX) eps2 = false -> leb (d nearestIDX) eps3 = true ->
        cluster_of (sec_clusters st') k2 = Some (sec_clust st) /\
        sec_clust st' = S (sec_clust st) /\
        sec_queue st' = sec_queue st ++ [(k2, nearestIDX)]) /\
     (leb (d nearestIDX) eps2 = false -> leb (d nearestIDX) eps3 = false ->
        st' = st)).
Proof.
  intros [Hord _] Hincl Hp Hkp Hk refIdx d st'. subst st'.
  destruct st as [[clusters clust] q]. unfold sec_clusters, sec_clust, sec_queue in *.
  simpl in Hk. unfold secondary_step. fold refIdx. fold d. split.
  - intros ->. reflexivity.
  - intros Hne.
    pose proof (paired_any_nonzero od _ Hp Hne) as Hany. fold refIdx in Hany.
    rewrite Hany. simpl negb. cbv iota zeta.
    assert (Hne' : map d refIdx <> [])
      by (destruct refIdx; [congruence | discriminate]).
    assert (Hdom : forall x, In x (map d refIdx) -> In x (distances pts)).
    { intros x Hx. apply in_map_iff in Hx. destruct Hx as [j [<- Hj]].
      apply where_In in Hj. destruct Hj as [a [Ha _]].
      apply distances_In; [now apply nth_In|].
      apply Hincl, nth_In, nth_error_Some. congruence. }
    destruct (argmin_spec_on F _ ltb Hord zero (map d refIdx) Hne' Hdom)
      as [Hlt [Hmin Hfirst]].
    set (nearest := np.argmin ltb (map d refIdx)) in *.
    rewrite length_map in Hlt.
    assert (Hval : nth nearest (map d refIdx) zero = d (nth nearest refIdx 0))
      by now apply nth_map_in.
    rewrite Hval in *.
    exists (nth nearest refIdx 0).
    split; [now apply nth_In|]. split; [|split].
    + intros j Hj. now apply Hmin, in_map.
    + intros j Hj Hlt'. destruct (In_nth _ _ 0 Hj) as [m [Hm Hnm]].
      assert (Hsorted : StronglySorted lt refIdx) by apply where_from_sorted.
      assert (Hmc : m < nearest).
      { destruct (Nat.lt_ge_cases m nearest) as [?|Hge]; [assumption|].
        destruct (Nat.eq_dec m nearest) as [->|Hne'']; [lia|].
        pose proof (sorted_nth_lt refIdx 0 Hsorted nearest m). lia. }
      specialize (Hfirst m Hmc).
      rewrite (nth_map_in _ _ d refIdx m zero 0 Hm), Hnm in Hfirst. exact Hfirst.
    + destruct (leb (d (nth nearest refIdx 0)) eps2) eqn:E2;
        [|destruct (leb (d (nth nearest refIdx 0)) eps3) eqn:E3];
        simpl; (split; [|split]); intros; try discriminate; try reflexivity.
      * split; [|split; reflexivity]. now apply cluster_of_set_same.
      * split; [|split; reflexivity]. now apply cluster_of_set_same.
Qed.

(** C1. The secondary pass, under the pairing of endpoints and the order
    laws of the numeric kernel on the table (which binary64 meets when
    the coordinates are finite). Let [k2] be a cell left unclustered by the
    primary pass, [st] the state when the loop reaches it and [st'] the
    state after its step. The cell is still unclustered in [st]; later
    steps do not touch it and only append to the queue. If its column has
    no endpoint cell nothing changes. Otherwise, with [nearestIDX] the
    first nearest endpoint cell of the column at distance [d]: if
    [d <= eps2] the cell takes the id [nearestIDX] holds; else if
    [d <= eps3] it takes the counter value, which is above every id in
    use, the counter moves on, and [(k2, nearestIDX)] is appended to the
    queue; else nothing changes and the cell stays None. *)
Theorem secondary_pass_rule nrows od (b : list entry) :
  lawful_on od (vstack nrows od b) -> od_pairedb od = true ->
  let pts := vstack nrows od b in
  let st1 := primary_pass nrows od pts in
  forall pre k2 post, isoNodes (fst st1) = pre ++ k2 :: post ->
  let st := fold_left (secondary_step od pts) pre (fst st1, snd st1, []) in
  let st' := secondary_step od pts st k2 in
  let final := secondary_pass od pts st1 in
  let refIdx := np.where_ (fun q => col q =? col (nth k2 pts entry0)) od in
  let d := fun j => dist_to (nth k2 pts entry0) (nth j od entry0) in
  cluster_of (sec_clusters st) k2 = None /\
  cluster_of (sec_clusters final) k2 = cluster_of (sec_clusters st') k2 /\
  (exists later, sec_queue final = sec_queue st' ++ later) /\
  ids_below (sec_clusters st) (sec_clust st) /\
  (refIdx = [] -> st' = st) /\
  (refIdx <> [] ->
   exists nearestIDX,
     In nearestIDX refIdx /\
     (forall j, In j refIdx -> ltb (d j) (d nearestIDX) = false) /\
     (forall j, In j refIdx -> j < nearestIDX -> ltb (d nearestIDX) (d j) = true) /\
     (leb (d nearestIDX) eps2 = true ->
        cluster_of (sec_clusters st') k2 = cluster_of (sec_clusters st) nearestIDX /\
        sec_clust st' = sec_clust st /\ sec_queue st' = sec_queue st) /\
     (leb (d nearestIDX) eps2 = false -> leb (d nearestIDX) eps3 = true ->
        cluster_of (sec_clusters st') k2 = Some (sec_clust st) /\
        sec_clust st' = S (sec_clust st) /\
        sec_queue st' = sec_queue st ++ [(k2, nearestIDX)]) /\
     (leb (d nearestIDX) eps2 = false -> leb (d nearestIDX) eps3 = false ->
        st' = st)).
Proof.
  intros Hlaw Hp pts st1 pre k2 post Hiso st st' final refIdx d.
  assert (Hnd : NoDup (pre ++ k2 :: post)) by (rewrite <- Hiso; apply where_NoDup).
  assert (Hpre : ~ In k2 pre).
  { intros H. apply NoDup_remove_2 in Hnd. apply Hnd, in_or_app. now left. }
  assert (Hpost : ~ In k2 post).
  { intros H. apply NoDup_remove_2 in Hnd. apply Hnd, in_or_app. now right. }
  assert (Hk2 : In k2 (isoNodes (fst st1))) by (rewrite Hiso; apply in_elt).
  apply isoNodes_In in Hk2. destruct Hk2 as [Hk2lt Hk2none].
  assert (Hfinal : final = fold_left (secondary_step od pts) post st').
  { unfold final, secondary_pass. rewrite Hiso, fold_left_app. reflexivity. }
  assert (Hlen : k2 < length (sec_clusters st)).
  { unfold st. rewrite secondary_fold_length. exact Hk2lt. }
  split; [|split; [|split; [|split]]].
  - unfold st. rewrite secondary_fold_other by assumption. exact Hk2none.
  - rewrite Hfinal. now apply secondary_fold_other.
  - rewrite Hfinal. apply secondary_fold_queue.
  - unfold st. apply secondary_fold_below.
    apply (primary_pass_inv nrows od pts).
  - assert (Hkp : k2 < length pts).
    { destruct (primary_pass_inv nrows od pts) as [Hl _]. fold st1 in Hl.
      now rewrite <- Hl. }
    exact (secondary_step_rule od pts st k2 Hlaw (vstack_incl nrows od b) Hp Hkp Hlen).
Qed.
End SecondaryFacts.

(* ------------------------------------------------------------------ *)
(** * The midpoint collapse *)

Section MidpointFacts.
Import SnapEdges2Grid.
Context {F : Type} {AF : Arith F}.
Implicit Types (pts table : list (@entry F)) (clusters : list (option nat)).

(** The centre the source computes for cluster [c]: the mean of the X
    and of the Y values its members have in the table. *)
Definition center_of pts clusters (c : nat) : F * F :=
  (mean (map gx (np.take entry0 pts (members clusters c))),
   mean (map gy (np.take entry0 pts (members clusters c)))).

Definition mid_centers (st : @mid_state F) : list (F * F) := fst (fst st).
Definition mid_table (st : @mid_state F) : list entry := snd st.

Lemma members_In clusters c i :
  In i (members clusters c) <-> cluster_of clusters i = Some c.
Proof.
  unfold members, cluster_of. rewrite where_In, nth_of_nth_error. split.
  - intros [[n|] [Hn Hc]]; [|discriminate].
    rewrite Hn. apply Nat.eqb_eq in Hc. now subst.
  - destruct (nth_error clusters i) as [[n|]|] eqn:E; try discriminate.
    intros [= ->]. exists (Some c). split; [reflexivity | apply Nat.eqb_refl].
Qed.

Lemma cluster_ids_In clusters c :
  In c (cluster_ids clusters) <-> exists i, cluster_of clusters i = Some c.
Proof.
  unfold cluster_ids, cluster_of. rewrite unique_In, in_flat_map. split.
  - intros [[n|] [Hin Hc]]; simpl in Hc; [|tauto].
    destruct Hc as [->|[]]. apply (In_nth _ _ None) in Hin.
    destruct Hin as [i [_ Hi]]. now exists i.
  - intros [i Hi]. exists (Some c). split; [|now left].
    destruct (Nat.lt_ge_cases i (length clusters)) as [Hlt|Hge].
    + rewrite <- Hi. now apply nth_In.
    + rewrite nth_overflow in Hi by assumption. discriminate.
Qed.

Lemma assign_xy_length idx (x y : F) table : forall i,
  length (assign_xy idx x y i table) = length table.
Proof. induction table; intros; simpl; [reflexivity | now rewrite IHtable]. Qed.

Lemma assign_xy_nth_error idx (x y : F) table : forall i j,
  nth_error (assign_xy idx x y i table) j =
  option_map (fun e => if existsb (Nat.eqb (i + j)) idx then set_xy e x y else e)
             (nth_error table j).
Proof.
  induction table as [|e table IH]; intros i [|j]; simpl; try reflexivity.
  - now rewrite Nat.add_0_r.
  - rewrite IH. now replace (S i + j) with (i + S j) by lia.
Qed.

(** What the table holds once the clusters of [done] are collapsed. *)
Definition collapsed pts clusters (done : list nat) (i : nat) (e : entry) : entry :=
  match cluster_of clusters i with
  | Some c =>
      if existsb (Nat.eqb c) done
      then set_xy e (fst (center_of pts clusters c)) (snd (center_of pts clusters c))
      else e
  | None => e
  end.

Definition mid_inv pts clusters (done : list nat) (st : @mid_state F) : Prop :=
  mid_centers st = map (center_of pts clusters) done /\
  forall i, nth_error (mid_table st) i =
            option_map (collapsed pts clusters done i) (nth_error pts i).

Lemma take_untouched pts clusters done table c :
  (forall i, nth_error table i =
             option_map (collapsed pts clusters done i) (nth_error pts i)) ->
  ~ In c done ->
  np.take entry0 table (members clusters c) = np.take entry0 pts (members clusters c).
Proof.
  intros Hinv Hc. unfold np.take. apply map_ext_in. intros i Hi.
  apply members_In in Hi. rewrite !nth_of_nth_error, Hinv.
  destruct (nth_error pts i) as [e|]; simpl; [|reflexivity].
  unfold collapsed. rewrite Hi.
  apply mem_idx_false in Hc. now rewrite Hc.
Qed.

Lemma midpoint_step_inv pts clusters done st c :
  mid_inv pts clusters done st -> ~ In c done ->
  mid_inv pts clusters (done ++ [c]) (midpoint_step clusters st c).
Proof.
  destruct st as [[centers midpoint] table]. intros [Hc Ht] Hnew.
  unfold mid_centers, mid_table in *. simpl in Hc, Ht.
  unfold midpoint_step, mid_inv, mid_centers, mid_table. simpl.
  rewrite (take_untouched pts clusters done table c Ht Hnew). split.
  - rewrite map_app, Hc. reflexivity.
  - intros i. rewrite assign_xy_nth_error, Ht. simpl.
    destruct (nth_error pts i) as [e|]; simpl; [|reflexivity]. f_equal.
    unfold collapsed.
    destruct (existsb (Nat.eqb i) (members clusters c)) eqn:Em.
    + apply mem_idx_true, members_In in Em. rewrite Em.
      apply mem_idx_false in Hnew. rewrite Hnew.
      rewrite existsb_app. simpl. rewrite Nat.eqb_refl, orb_true_r. reflexivity.
    + destruct (cluster_of clusters i) as [c'|] eqn:Ec; [|reflexivity].
      rewrite existsb_app. simpl. rewrite orb_false_r.
      assert (Hne : (c' =? c) = false).
      { apply Nat.eqb_neq. intros ->. apply members_In in Ec.
        apply mem_idx_true in Ec. congruence. }
      rewrite Hne, orb_false_r. reflexivity.
Qed.

Lemma midpoint_fold_inv pts clusters l : forall done st,
  NoDup (done ++ l) -> mid_inv pts clusters done st ->
  mid_inv pts clusters (done ++ l) (fold_left (midpoint_step clusters) l st).
Proof.
  induction l as [|c l IH]; intros done st Hnd Hinv; simpl.
  - now rewrite app_nil_r.
  - replace (done ++ c :: l) with ((done ++ [c]) ++ l) in * by now rewrite <- app_assoc.
    apply IH; [assumption|].
    apply midpoint_step_inv; [assumption|].
    rewrite <- app_assoc in Hnd. apply NoDup_remove_2 in Hnd.
    intros Hin. apply Hnd. apply in_or_app. now left.
Qed.

Lemma getClustMidpointsRef_inv pts clusters :
  mid_inv pts clusters (cluster_ids clusters) (getClustMidpointsRef pts clusters).
Proof.
  unfold getClustMidpointsRef.
  apply (midpoint_fold_inv pts clusters (cluster_ids clusters) []).
  - apply unique_NoDup.
  - split; [reflexivity|]. intros i. unfold mid_table. simpl.
    destruct (nth_error pts i) as [e|]; simpl; [|reflexivity].
    unfold collapsed. now destruct (cluster_of clusters i).
Qed.

Lemma pointwise_length (A B : Type) (f : nat -> A -> B) (l : list A) (t : list B) :
  (forall i, nth_error t i = option_map (f i) (nth_error l i)) ->
  length t = length l.
Proof.
  intros H. apply Nat.le_antisymm.
  - apply nth_error_None. rewrite H.
    assert (E : nth_error l (length l) = None) by now apply nth_error_None.
    now rewrite E.
  - apply nth_error_None.
    assert (E : nth_error t (length t) = None) by now apply nth_error_None.
    rewrite H in E. now destruct (nth_error l (length t)).
Qed.

(** Whatever the kernel's [mean] is, [getClustMidpointsRef] overwrites the
    coordinates of exactly the cells that hold a cluster-id: each such
    cell keeps its row and column and receives the centre of its cluster;
    a cell whose cluster-id is None is returned as it was; and
    [clustCenter] has one entry per distinct non-null cluster-id, the
    centre of that cluster, ids ascending. *)
Lemma midpoint_collapse_generic pts clusters :
  let st := getClustMidpointsRef pts clusters in
  length (mid_table st) = length pts /\
  (forall i e, nth_error pts i = Some e -> cluster_of clusters i = None ->
     nth_error (mid_table st) i = Some e) /\
  (forall i e c, nth_error pts i = Some e -> cluster_of clusters i = Some c ->
     nth_error (mid_table st) i =
     Some (mkEntry (row e) (col e)
                   (fst (center_of pts clusters c)) (snd (center_of pts clusters c)))) /\
  mid_centers st = map (center_of pts clusters) (cluster_ids clusters) /\
  NoDup (cluster_ids clusters) /\
  (forall c, In c (cluster_ids clusters) <-> exists i, cluster_of clusters i = Some c).
Proof.
  intros st. destruct (getClustMidpointsRef_inv pts clusters) as [Hc Ht].
  fold st in Hc, Ht. repeat split.
  - exact (pointwise_length _ _ _ _ _ Ht).
  - intros i e He Hn. rewrite Ht, He. simpl. unfold collapsed. now rewrite Hn.
  - intros i e c He Hi. rewrite Ht, He. simpl. unfold collapsed. rewrite Hi.
    assert (Hin : In c (cluster_ids clusters)) by (apply cluster_ids_In; eauto).
    apply mem_idx_true in Hin. rewrite Hin. reflexivity.
  - exact Hc.
  - apply unique_NoDup.
  - apply cluster_ids_In.
  - apply cluster_ids_In.
Qed.
End MidpointFacts.

(** The fuel of [pairwise_sum] does not run out: any fuel that covers the
    length gives the same sum. *)
Lemma pairwise_sum_fuel (fuel : nat) : forall (fuel' : nat) (l : list float),
  length l <= fuel -> length l <= fuel' ->
  Float64.pairwise_sum fuel l = Float64.pairwise_sum fuel' l.
Proof.
  induction fuel as [|fuel IH]; intros fuel' l Hl Hl'.
  - destruct l; [|simpl in Hl; lia]. now destruct fuel'.
  - destruct fuel' as [|fuel'].
    + destruct l; [reflexivity | simpl in Hl'; lia].
    + cbn [Float64.pairwise_sum].
      destruct (Nat.ltb_spec (length l) 8) as [H8|H8]; [reflexivity|].
      destruct (Nat.leb_spec (length l) 128) as [H128|H128]; [reflexivity|].
      set (n := length l) in *.
      assert (Hdiv : n / 2 <= n) by (apply Nat.Div0.div_le_upper_bound; lia).
      assert (Hhalf : 2 * (n / 2) <= n) by (apply Nat.Div0.mul_div_le).
      assert (Hbig : 64 <= n / 2) by (apply Nat.div_le_lower_bound; lia).
      assert (Hmod : (n / 2) mod 8 < 8) by (apply Nat.mod_upper_bound; lia).
      set (n2 := n / 2 - (n / 2) mod 8) in *.
      assert (H1 : length (firstn n2 l) <= fuel /\ length (firstn n2 l) <= fuel').
      { rewrite length_firstn. fold n. lia. }
      assert (H2 : length (skipn n2 l) <= fuel /\ length (skipn n2 l) <= fuel').
      { rewrite length_skipn. fold n. lia. }
      rewrite (IH fuel' (firstn n2 l)) by tauto.
      rewrite (IH fuel' (skipn n2 l)) by tauto. reflexivity.
Qed.

(** The three regimes of the summation: three values one by one; ten
    values through the eight running sums (adding them one by one gives
    0.9999999999999999); three hundred values cut in parts. *)
Example np_sum_regimes :
  Float64.np_sum (repeat 0x1.999999999999ap-4%float 3) = 0x1.3333333333334p-2%float /\
  Float64.np_sum (repeat 0x1.999999999999ap-4%float 10) = 1%float /\
  fold_left PrimFloat.add (repeat 0x1.999999999999ap-4%float 10) 0%float
    = 0x1.fffffffffffffp-1%float /\
  Float64.np_sum (repeat 0x1.999999999999ap-4%float 300) = 0x1.dffffffffffffp+4%float.
Proof. vm_compute. repeat split; reflexivity. Qed.

(** C10, amended. On the binary64 tables of the source,
    [getClustMidpointsRef] overwrites the coordinates of exactly the cells
    that hold a cluster-id: each such cell keeps its row and column, and
    its X (its Y) becomes the [np.mean] of the X (the Y) values of the
    members of its cluster, rounded to float32, the type of the
    [clustCenter] array the mean is stored in before it is written back.
    A cell whose cluster-id is None is returned as it was; and
    [clustCenter] has one entry per distinct non-null cluster-id, that
    rounded mean, ids ascending. *)
Theorem midpoint_collapse_frame (pts : list (@SnapEdges2Grid.entry float))
    (clusters : list (option nat)) :
  let st := SnapEdges2Grid.getClustMidpointsRef pts clusters in
  let xs := fun c => map SnapEdges2Grid.gx
              (np.take SnapEdges2Grid.entry0 pts (SnapEdges2Grid.members clusters c)) in
  let ys := fun c => map SnapEdges2Grid.gy
              (np.take SnapEdges2Grid.entry0 pts (SnapEdges2Grid.members clusters c)) in
  let centre := fun c => (Float64.to_float32 (Float64.np_mean (xs c)),
                          Float64.to_float32 (Float64.np_mean (ys c))) in
  length (mid_table st) = length pts /\
  (forall i e, nth_error pts i = Some e ->
     SnapEdges2Grid.cluster_of clusters i = None ->
     nth_error (mid_table st) i = Some e) /\
  (forall i e c, nth_error pts i = Some e ->
     SnapEdges2Grid.cluster_of clusters i = Some c ->
     nth_error (mid_table st) i =
     Some (SnapEdges2Grid.mkEntry (SnapEdges2Grid.row e) (SnapEdges2Grid.col e)
             (fst (centre c)) (snd (centre c)))) /\
  mid_centers st = map centre (SnapEdges2Grid.cluster_ids clusters) /\
  NoDup (SnapEdges2Grid.cluster_ids clusters) /\
  (forall c, In c (SnapEdges2Grid.cluster_ids clusters) <->
             exists i, SnapEdges2Grid.cluster_of clusters i = Some c).
Proof. exact (midpoint_collapse_generic (AF := Float64.arith) pts clusters). Qed.

(** Four cells of one column: cells 0 and 2 form cluster 0, cell 3 is
    cluster 1 and cell 1 has no cluster. *)
Definition mid_example_pts : list (@SnapEdges2Grid.entry Q) :=
  [ SnapEdges2Grid.mkEntry 0 0 (1 # 1)%Q (4 # 1)%Q;
    SnapEdges2Grid.mkEntry 1 0 (9 # 1)%Q (9 # 1)%Q;
    SnapEdges2Grid.mkEntry 2 0 (2 # 1)%Q (6 # 1)%Q;
    SnapEdges2Grid.mkEntry 3 0 (7 # 1)%Q (7 # 1)%Q ].

Definition mid_example_clusters : list (option nat) :=
  [Some 0; None; Some 0; Some 1].

(** In exact arithmetic the centres are the exact means. *)
Example mid_example_exact :
  mid_table (SnapEdges2Grid.getClustMidpointsRef mid_example_pts mid_example_clusters) =
    [ SnapEdges2Grid.mkEntry 0 0 (3 # 2)%Q (5 # 1)%Q;
      SnapEdges2Grid.mkEntry 1 0 (9 # 1)%Q (9 # 1)%Q;
      SnapEdges2Grid.mkEntry 2 0 (3 # 2)%Q (5 # 1)%Q;
      SnapEdges2Grid.mkEntry 3 0 (7 # 1)%Q (7 # 1)%Q ].
Proof. reflexivity. Qed.

(** The same layout in binary64, with longitudes 0.1 and 0.3 (as binary64
    holds them) in cluster 0 and 0.1 alone in cluster 1. *)
Definition mid_example_table : list (@SnapEdges2Grid.entry float) :=
  [ SnapEdges2Grid.mkEntry 0 0 0x1.999999999999ap-4%float 44.5%float;
    SnapEdges2Grid.mkEntry 1 0 9%float 9%float;
    SnapEdges2Grid.mkEntry 2 0 0x1.3333333333333p-2%float 44.75%float;
    SnapEdges2Grid.mkEntry 3 0 0x1.999999999999ap-4%float 40.75%float ].

(** The centres of the binary64 example: the mean of 0.1 and 0.3 is kept
    as the float32 value next to 0.2, and so is written to cells 0 and
    2; the unclustered cell 1 keeps 9. *)
Lemma midpoint_collapse_frame_witness :
  mid_centers (SnapEdges2Grid.getClustMidpointsRef mid_example_table
                 mid_example_clusters) =
    [ (0x1.99999ap-3%float, 44.625%float); (0x1.99999ap-4%float, 40.75%float) ] /\
  mid_table (SnapEdges2Grid.getClustMidpointsRef mid_example_table
               mid_example_clusters) =
    [ SnapEdges2Grid.mkEntry 0 0 0x1.99999ap-3%float 44.625%float;
      SnapEdges2Grid.mkEntry 1 0 9%float 9%float;
      SnapEdges2Grid.mkEntry 2 0 0x1.99999ap-3%float 44.625%float;
      SnapEdges2Grid.mkEntry 3 0 0x1.99999ap-4%float 40.75%float ].
Proof.
  split; [|vm_compute; reflexivity].
  etransitivity.
  - exact (proj1 (proj2 (proj2 (proj2
      (midpoint_collapse_frame mid_example_table mid_example_clusters))))).
  - vm_compute. reflexivity.
Defined.

(** C10 as stated fails. Cell 3 is the only member of cluster 1, so the
    arithmetic mean of the members is its own longitude, the binary64
    value of 0.1; the collapse leaves the float32 value of 0.1 there,
    which is another number. *)
Lemma midpoint_float32_counterexample :
  let st := SnapEdges2Grid.getClustMidpointsRef mid_example_table mid_example_clusters in
  SnapEdges2Grid.members mid_example_clusters 1 = [3] /\
  SnapEdges2Grid.gx (nth 3 mid_example_table SnapEdges2Grid.entry0) =
    0x1.999999999999ap-4%float /\
  Float64.np_mean [0x1.999999999999ap-4%float] = 0x1.999999999999ap-4%float /\
  SnapEdges2Grid.gx (nth 3 (mid_table st) SnapEdges2Grid.entry0) =
    0x1.99999ap-4%float /\
  PrimFloat.eqb 0x1.99999ap-4%float 0x1.999999999999ap-4%float = false.
Proof. vm_compute. repeat split; reflexivity. Qed.

(* ------------------------------------------------------------------ *)
(** * Two tables on which every test of the clusterer agrees *)

Lemma where_from_ext (A B : Type) (p : A -> bool) (q : B -> bool)
    (l : list A) (l' : list B) :
  map p l = map q l' -> forall i, np.where_from p i l = np.where_from q i l'.
Proof.
  revert l'. induction l as [|a l IH]; intros [|b l'] H i; simpl in *;
    try discriminate; [reflexivity|].
  injection H as Hab Hl. rewrite Hab, (IH l' Hl). reflexivity.
Qed.

Lemma where_ext (A B : Type) (p : A -> bool) (q : B -> bool)
    (l : list A) (l' : list B) :
  map p l = map q l' -> np.where_ p l = np.where_ q l'.
Proof. intros H. now apply where_from_ext. Qed.

Lemma fold_left_ext_in (S K : Type) (f g : S -> K -> S) (l : list K) :
  (forall k, In k l -> forall st, f st k = g st k) ->
  forall st, fold_left f l st = fold_left g l st.
Proof.
  induction l as [|k l IH]; intros H st; simpl; [reflexivity|].
  rewrite (H k (or_introl eq_refl)). apply IH.
  intros k' Hk'. apply H. now right.
Qed.

(** [np.argmin] only looks at how the values compare. *)
Lemma argmin_from_ext (A B K : Type) (lt : A -> A -> bool) (lt' : B -> B -> bool)
    (d : K -> A) (d' : K -> B) (l : list K) :
  forall (x : K) (bi i : nat),
  (forall a b, In a (x :: l) -> In b (x :: l) ->
               lt' (d' a) (d' b) = lt (d a) (d b)) ->
  np.argmin_from lt' (d' x) bi i (map d' l) = np.argmin_from lt (d x) bi i (map d l).
Proof.
  induction l as [|a l IH]; intros x bi i H; simpl; [reflexivity|].
  rewrite (H a x) by (simpl; auto).
  destruct (lt (d a) (d x)); apply IH; intros u v Hu Hv; apply H; simpl in *; tauto.
Qed.

Lemma argmin_ext (A B K : Type) (lt : A -> A -> bool) (lt' : B -> B -> bool)
    (d : K -> A) (d' : K -> B) (l : list K) :
  (forall a b, In a l -> In b l -> lt' (d' a) (d' b) = lt (d a) (d b)) ->
  np.argmin lt' (map d' l) = np.argmin lt (map d l).
Proof.
  destruct l as [|x l]; intros H; simpl; [reflexivity|].
  now apply argmin_from_ext.
Qed.

Section SameTests.
Import SnapEdges2Grid.
Context {F : Type} {AF : Arith F}.
Implicit Types (od pts b : list (@entry F)) (clusters : list (option nat)).

(** The two tables store the same cells: same rows, same columns. *)
Definition same_layout (pts pts' : list (@entry F)) : Prop :=
  map row pts = map row pts' /\ map col pts = map col pts'.

(** Every radius test between two cells, and every comparison of the
    distances from one cell to two others, has the same outcome on both
    tables. *)
Definition same_testsb (pts pts' : list (@entry F)) : bool :=
  let D := fun i j => dist_to (nth i pts entry0) (nth j pts entry0) in
  let D' := fun i j => dist_to (nth i pts' entry0) (nth j pts' entry0) in
  let all := seq 0 (length pts) in
  forallb (fun i =>
    forallb (fun j =>
      Bool.eqb (leb (D' i j) eps1) (leb (D i j) eps1) &&
      Bool.eqb (leb (D' i j) eps2) (leb (D i j) eps2) &&
      Bool.eqb (leb (D' i j) eps3) (leb (D i j) eps3) &&
      forallb (fun k => Bool.eqb (ltb (D' i j) (D' i k)) (ltb (D i j) (D i k))) all)
      all) all.

Lemma same_tests_spec pts pts' i j :
  same_testsb pts pts' = true -> i < length pts -> j < length pts ->
  let D := fun i j => dist_to (nth i pts entry0) (nth j pts entry0) in
  let D' := fun i j => dist_to (nth i pts' entry0) (nth j pts' entry0) in
  leb (D' i j) eps1 = leb (D i j) eps1 /\
  leb (D' i j) eps2 = leb (D i j) eps2 /\
  leb (D' i j) eps3 = leb (D i j) eps3 /\
  forall k, k < length pts -> ltb (D' i j) (D' i k) = ltb (D i j) (D i k).
Proof.
  intros H Hi Hj D D'. unfold same_testsb in H. cbv zeta in H.
  rewrite forallb_forall in H. specialize (H i).
  rewrite in_seq in H. assert (Hi' : 0 <= i < 0 + length pts) by lia.
  specialize (H Hi'). rewrite forallb_forall in H. specialize (H j).
  rewrite in_seq in H. assert (Hj' : 0 <= j < 0 + length pts) by lia.
  specialize (H Hj'). rewrite !andb_true_iff in H.
  destruct H as [[[H1 H2] H3] H4].
  apply Bool.eqb_prop in H1, H2, H3. repeat split; try assumption.
  intros k Hk. rewrite forallb_forall in H4. specialize (H4 k).
  rewrite in_seq in H4. apply Bool.eqb_prop, H4. lia.
Qed.

Lemma same_layout_length pts pts' : same_layout pts pts' -> length pts' = length pts.
Proof.
  intros [H _]. apply (f_equal (@length nat)) in H. now rewrite !length_map in H.
Qed.

Lemma same_layout_col pts pts' i :
  same_layout pts pts' -> col (nth i pts' entry0) = col (nth i pts entry0).
Proof.
  intros [_ H]. apply (f_equal (fun l => nth i l (col entry0))) in H.
  cbv beta in H. rewrite !map_nth in H. symmetry. exact H.
Qed.

Lemma same_layout_vstack nrows od od' b b' :
  same_layout od od' -> same_layout b b' ->
  same_layout (vstack nrows od b) (vstack nrows od' b').
Proof.
  intros [Hr Hc] [Hr' Hc']. unfold same_layout, vstack.
  rewrite !map_app, !map_map. simpl. rewrite Hr, Hc. split; f_equal.
  - rewrite <- (map_map row (fun r => r + nrows) b).
    rewrite <- (map_map row (fun r => r + nrows) b'). now rewrite Hr'.
  - exact Hc'.
Qed.

Section Agree.
Variables (nrows : nat) (od od' b b' : list (@entry F)).
Hypothesis Hod : same_layout od od'.
Hypothesis Hb : same_layout b b'.
Hypothesis Htests :
  same_testsb (vstack nrows od b) (vstack nrows od' b') = true.

Let pts := vstack nrows od b.
Let pts' := vstack nrows od' b'.

Lemma agree_layout : same_layout pts pts'.
Proof. now apply same_layout_vstack. Qed.

Lemma agree_od_lt k : k < length od -> k < length pts.
Proof. unfold pts. rewrite vstack_length. lia. Qed.

Lemma agree_refIdx (c : nat) k :
  np.where_ (fun q => col q =? col (nth k pts' entry0)) pts' =
  np.where_ (fun q => col q =? col (nth k pts entry0)) pts.
Proof.
  apply where_ext. rewrite (same_layout_col pts pts' k agree_layout).
  destruct agree_layout as [_ Hc].
  rewrite <- (map_map col (fun x => x =? col (nth k pts entry0)) pts').
  rewrite <- (map_map col (fun x => x =? col (nth k pts entry0)) pts).
  now rewrite Hc.
Qed.

Lemma agree_candidates k2 :
  k2 < length od -> candidates od' pts' k2 = candidates od pts k2.
Proof.
  intros Hk. unfold candidates.
  assert (Hk' : k2 < length od') by now rewrite (same_layout_length od od' Hod).
  rewrite <- (vstack_nth_od nrows od' b' k2 Hk').
  rewrite <- (vstack_nth_od nrows od b k2 Hk).
  fold pts pts'. rewrite (agree_refIdx 0 k2).
  apply filter_ext_in. intros j Hj. apply where_lt in Hj.
  apply (same_tests_spec pts pts' k2 j Htests); [now apply agree_od_lt | assumption].
Qed.

Lemma agree_primary_entry st k2 :
  k2 < length od -> primary_entry od' pts' st k2 = primary_entry od pts st k2.
Proof.
  intros Hk. destruct st as [clusters clust].
  rewrite !primary_entry_unfold. cbv zeta.
  rewrite (agree_candidates k2 Hk).
  destruct (existsb (clustered clusters) (candidates od pts k2)); [|reflexivity].
  set (CC := filter (clustered clusters) (candidates od pts k2)).
  assert (Hk' : k2 < length od') by now rewrite (same_layout_length od od' Hod).
  rewrite <- (vstack_nth_od nrows od' b' k2 Hk').
  rewrite <- (vstack_nth_od nrows od b k2 Hk). fold pts pts'.
  rewrite (argmin_ext F F nat ltb ltb
             (fun j => dist_to (nth k2 pts entry0) (nth j pts entry0))
             (fun j => dist_to (nth k2 pts' entry0) (nth j pts' entry0)) CC);
    [reflexivity|].
  intros u v Hu Hv.
  assert (Hlt : forall w, In w CC -> w < length pts).
  { intros w Hw. apply filter_In in Hw. destruct Hw as [Hw _].
    apply candidates_In in Hw. tauto. }
  apply (same_tests_spec pts pts' k2 u Htests);
    [now apply agree_od_lt | now apply Hlt | now apply Hlt].
Qed.

Lemma agree_lineIdx k1 :
  np.where_ (fun e => row e =? k1) od' = np.where_ (fun e => row e =? k1) od.
Proof.
  apply where_ext. destruct Hod as [Hr _].
  rewrite <- (map_map row (fun x => x =? k1) od').
  rewrite <- (map_map row (fun x => x =? k1) od). now rewrite Hr.
Qed.

Lemma agree_primary_row st k1 :
  primary_row od' pts' st k1 = primary_row od pts st k1.
Proof.
  unfold primary_row. rewrite agree_lineIdx.
  destruct (existsb _ _); [reflexivity|].
  apply fold_left_ext_in. intros k Hk st0.
  apply agree_primary_entry. now apply where_lt in Hk.
Qed.

Lemma agree_primary_pass :
  primary_pass nrows od' pts' = primary_pass nrows od pts.
Proof.
  unfold primary_pass. rewrite (same_layout_length pts pts' agree_layout).
  apply fold_left_ext_in. intros k _ st. apply agree_primary_row.
Qed.

Lemma agree_secondary_step st k2 :
  k2 < length pts ->
  secondary_step od' pts' st k2 = secondary_step od pts st k2.
Proof.
  intros Hk. destruct st as [[clusters clust] q]. unfold secondary_step.
  assert (Href : np.where_ (fun q0 => col q0 =? col (nth k2 pts' entry0)) od' =
                 np.where_ (fun q0 => col q0 =? col (nth k2 pts entry0)) od).
  { apply where_ext. rewrite (same_layout_col pts pts' k2 agree_layout).
    destruct Hod as [_ Hc].
    rewrite <- (map_map col (fun x => x =? col (nth k2 pts entry0)) od').
    rewrite <- (map_map col (fun x => x =? col (nth k2 pts entry0)) od).
    now rewrite Hc. }
  rewrite Href.
  set (refIdx := np.where_ (fun q0 => col q0 =? col (nth k2 pts entry0)) od).
  destruct (negb (np.any_nonzero refIdx)) eqn:Eany; [reflexivity|]. cbv zeta.
  assert (Hne : refIdx <> []).
  { intros E. rewrite E in Eany. discriminate. }
  assert (Hin : forall j, In j refIdx -> j < length od)
    by (intros j Hj; now apply where_lt in Hj).
  set (d := fun j => dist_to (nth k2 pts entry0) (nth j pts entry0)).
  set (d' := fun j => dist_to (nth k2 pts' entry0) (nth j pts' entry0)).
  assert (Hmap : map (fun j => dist_to (nth k2 pts entry0) (nth j od entry0)) refIdx
                 = map d refIdx).
  { apply map_ext_in. intros j Hj. unfold d, pts.
    now rewrite (vstack_nth_od nrows od b j (Hin j Hj)). }
  assert (Hmap' : map (fun j => dist_to (nth k2 pts' entry0) (nth j od' entry0)) refIdx
                  = map d' refIdx).
  { apply map_ext_in. intros j Hj. unfold d', pts'.
    rewrite (vstack_nth_od nrows od' b' j); [reflexivity|].
    rewrite (same_layout_length od od' Hod). now apply Hin. }
  rewrite Hmap, Hmap'.
  assert (Harg : np.argmin ltb (map d' refIdx) = np.argmin ltb (map d refIdx)).
  { apply argmin_ext. intros u v Hu Hv.
    apply (same_tests_spec pts pts' k2 u Htests);
      [assumption | apply agree_od_lt; auto | apply agree_od_lt; auto]. }
  rewrite Harg. set (nearest := np.argmin ltb (map d refIdx)).
  assert (Hlt : nearest < length refIdx).
  { unfold nearest. rewrite <- (length_map d refIdx). apply argmin_lt_length.
    destruct refIdx; [congruence | discriminate]. }
  rewrite (nth_map_in _ _ d refIdx nearest zero 0 Hlt).
  rewrite (nth_map_in _ _ d' refIdx nearest zero 0 Hlt).
  assert (Hn : nth nearest refIdx 0 < length pts)
    by (apply agree_od_lt, Hin, nth_In; assumption).
  destruct (same_tests_spec pts pts' k2 (nth nearest refIdx 0) Htests Hk Hn)
    as [_ [H2 [H3 _]]].
  unfold d, d'. rewrite H2, H3. reflexivity.
Qed.

Lemma agree_secondary_pass :
  secondary_pass od' pts' (primary_pass nrows od' pts') =
  secondary_pass od pts (primary_pass nrows od pts).
Proof.
  rewrite agree_primary_pass. unfold secondary_pass.
  apply fold_left_ext_in. intros k Hk st.
  apply agree_secondary_step. apply isoNodes_In in Hk.
  destruct (primary_pass_inv nrows od pts) as [Hlen _]. lia.
Qed.
End Agree.

Lemma snap_clusters nrows (b od : list (@entry F)) :
  s_clusters (snapEdges2GridRef nrows b od) =
  sec_clusters (secondary_pass od (vstack nrows od b)
                  (primary_pass nrows od (vstack nrows od b))).
Proof.
  unfold snapEdges2GridRef.
  destruct (secondary_pass _ _ _) as [[clusters clust] q].
  destruct (getClustMidpointsRef _ _) as [[c m] t]. reflexivity.
Qed.

Lemma snap_queue nrows (b od : list (@entry F)) :
  s_resourcesToAdd (snapEdges2GridRef nrows b od) =
  sec_queue (secondary_pass od (vstack nrows od b)
               (primary_pass nrows od (vstack nrows od b))).
Proof.
  unfold snapEdges2GridRef.
  destruct (secondary_pass _ _ _) as [[clusters clust] q].
  destruct (getClustMidpointsRef _ _) as [[c m] t]. reflexivity.
Qed.

(** Tables that store the same cells and agree on every test give the
    same clusters and the same queue. *)
Lemma snap_agree nrows (od od' b b' : list (@entry F)) :
  same_layout od od' -> same_layout b b' ->
  same_testsb (vstack nrows od b) (vstack nrows od' b') = true ->
  s_clusters (snapEdges2GridRef nrows b' od') =
    s_clusters (snapEdges2GridRef nrows b od) /\
  s_resourcesToAdd (snapEdges2GridRef nrows b' od') =
    s_resourcesToAdd (snapEdges2GridRef nrows b od).
Proof.
  intros Hod Hb Ht. rewrite !snap_clusters, !snap_queue.
  now rewrite (agree_secondary_pass nrows od od' b b' Hod Hb Ht).
Qed.
End SameTests.

(* ------------------------------------------------------------------ *)
(** * The exact kernel is lawful on every table *)

Lemma qltb_lt (a b : Q) : Exact.qltb a b = true <-> (a < b)%Q.
Proof.
  unfold Exact.qltb. rewrite negb_true_iff. split.
  - intros H. apply Qnot_le_lt. intros Hle.
    apply Qle_bool_iff in Hle. congruence.
  - intros H. destruct (Qle_bool b a) eqn:E; [|reflexivity].
    apply Qle_bool_iff in E. exfalso. exact (Qlt_not_le _ _ H E).
Qed.

Lemma qltb_ge (a b : Q) : Exact.qltb a b = false <-> (b <= a)%Q.
Proof.
  unfold Exact.qltb. rewrite negb_false_iff. apply Qle_bool_iff.
Qed.

Lemma exact_order : strict_weak_order Exact.qltb.
Proof.
  repeat split.
  - intros a. apply qltb_ge, Qle_refl.
  - intros a b c Hab Hbc. apply qltb_lt in Hab, Hbc. apply qltb_lt.
    eapply Qlt_trans; eassumption.
  - intros a b c Hab Hbc. apply qltb_ge in Hab, Hbc. apply qltb_ge.
    eapply Qle_trans; eassumption.
Qed.

Lemma exact_lawful_on (od pts : list (@SnapEdges2Grid.entry Q)) :
  lawful_on (AF := Exact.arith) od pts.
Proof.
  split; [apply strict_weak_order_all; exact exact_order|].
  intros p _. unfold SnapEdges2Grid.dist_to. simpl. apply Qle_bool_iff.
  unfold Exact.qdist.
  set (x := SnapEdges2Grid.gx p). set (y := SnapEdges2Grid.gy p).
  setoid_replace ((x - x) * (x - x) + (y - y) * (y - y))%Q with 0%Q by ring.
  discriminate.
Qed.

(* ------------------------------------------------------------------ *)
(** * The binary64 kernel is lawful on tables of finite coordinates *)

Section FloatOrder.
Local Open Scope Z_scope.

(** Where a binary64 value that is not a NaN stands in the order: its
    class (the infinities outermost, both zeros in the middle), then
    exponent and mantissa, mirrored for the negative values. *)
Definition sf_key (x : spec_float) : Z * Z * Z :=
  match x with
  | S754_nan => (0, 0, 0)
  | S754_zero _ => (0, 0, 0)
  | S754_infinity true => (-2, 0, 0)
  | S754_infinity false => (2, 0, 0)
  | S754_finite true m e => (-1, - e, Z.neg m)
  | S754_finite false m e => (1, e, Z.pos m)
  end.

Definition key_lt (a b : Z * Z * Z) : Prop :=
  fst (fst a) < fst (fst b) \/
  (fst (fst a) = fst (fst b) /\
   (snd (fst a) < snd (fst b) \/ (snd (fst a) = snd (fst b) /\ snd a < snd b))).

Lemma SFltb_key (x y : spec_float) :
  x <> S754_nan -> y <> S754_nan ->
  (SFltb x y = true <-> key_lt (sf_key x) (sf_key y)).
Proof.
  intros Hx Hy. unfold key_lt.
  destruct x as [sx|sx| |sx mx ex]; try congruence;
  destruct y as [sy|sy| |sy my ey]; try congruence;
  try (destruct sx); try (destruct sy);
  unfold SFltb, SFcompare, sf_key; cbn [fst snd];
  try (split; [intros H; first [discriminate H | lia]
              | intros H; first [reflexivity | lia]]).
  all: change (Pos.compare_cont Eq mx my) with (Pos.compare mx my).
  all: destruct (Z.compare_spec ex ey) as [He|He|He];
    [destruct (Pos.compare_spec mx my) as [Hm|Hm|Hm]; cbn [CompOpp]| |].
  all: split; [intros H; first [discriminate H | lia]
              | intros H; first [reflexivity | lia]].
Qed.

Lemma not_nan_spec (x : float) : PrimFloat.is_nan x = false -> Prim2SF x <> S754_nan.
Proof.
  unfold PrimFloat.is_nan. rewrite FloatAxioms.eqb_spec. unfold SFeqb.
  intros H E. rewrite E in H. discriminate.
Qed.

Lemma float_ltb_key (x y : float) :
  PrimFloat.is_nan x = false -> PrimFloat.is_nan y = false ->
  (PrimFloat.ltb x y = true <-> key_lt (sf_key (Prim2SF x)) (sf_key (Prim2SF y))).
Proof.
  intros Hx Hy. rewrite FloatAxioms.ltb_spec. now apply SFltb_key; apply not_nan_spec.
Qed.

(** On the binary64 values that are not NaN, [<] is a strict weak
    order. *)
Lemma float_order :
  strict_weak_order_on (fun x => PrimFloat.is_nan x = false) PrimFloat.ltb.
Proof.
  split; [|split].
  - intros a Ha. apply not_true_is_false. rewrite float_ltb_key by assumption.
    unfold key_lt. lia.
  - intros a b c Ha Hb Hc. rewrite !float_ltb_key by assumption. unfold key_lt. lia.
  - intros a b c Ha Hb Hc H1 H2. apply not_true_is_false.
    apply not_true_iff_false in H1, H2.
    rewrite float_ltb_key in * by assumption. unfold key_lt in *. lia.
Qed.
End FloatOrder.

(** The two laws on a binary64 table, as a test: no distance between two
    cells is a NaN, and every endpoint cell is within the primary radius
    of itself. *)
Definition float_lawfulb (od pts : list (@SnapEdges2Grid.entry float)) : bool :=
  forallb (fun x => negb (PrimFloat.is_nan x)) (distances (AF := Float64.arith) pts) &&
  forallb (fun p => leb (SnapEdges2Grid.dist_to p p) eps1) od.

Lemma float_lawful_on (od pts : list (@SnapEdges2Grid.entry float)) :
  float_lawfulb od pts = true -> lawful_on (AF := Float64.arith) od pts.
Proof.
  unfold float_lawfulb. rewrite andb_true_iff, !forallb_forall.
  intros [Hnan Hself]. split; [|exact Hself].
  destruct float_order as [Hirr [Htr Hneg]].
  assert (Hdom : forall x, In x (distances (AF := Float64.arith) pts) ->
                           PrimFloat.is_nan x = false).
  { intros x Hx. apply negb_true_iff. now apply Hnan. }
  split; [|split].
  - intros a Ha. apply Hirr. auto.
  - intros a b c Ha Hb Hc. apply Htr; auto.
  - intros a b c Ha Hb Hc. apply Hneg; auto.
Qed.

(** ** Finite coordinates are enough *)

Section FloatFinite.
Local Open Scope Z_scope.

(** A binary64 value that is a number: a zero or a finite value. *)
Definition sf_finite (x : spec_float) : bool :=
  match x with
  | S754_zero _ | S754_finite _ _ _ => true
  | _ => false
  end.

(** A binary64 value that is not below zero, and not a NaN: a zero, a
    positive finite value, or plus infinity. *)
Definition sf_nonneg (x : spec_float) : bool :=
  match x with
  | S754_zero _ | S754_finite false _ _ | S754_infinity false => true
  | _ => false
  end.

Definition sf_zero (x : spec_float) : bool :=
  match x with
  | S754_zero _ => true
  | _ => false
  end.

(** A value of sign [s] that is not a NaN. *)
Definition sf_signed (s : bool) (x : spec_float) : bool :=
  match x with
  | S754_zero s' | S754_finite s' _ _ | S754_infinity s' => Bool.eqb s s'
  | S754_nan => false
  end.

Lemma shr_1_nonneg (mrs : shr_record) : 0 <= shr_m mrs -> 0 <= shr_m (shr_1 mrs).
Proof.
  destruct mrs as [m r s]. cbn [shr_m]. intros H. unfold shr_1.
  destruct m as [|[p|p|]|[p|p|]]; cbn [shr_m]; lia.
Qed.

Lemma iter_pos_inv (A : Type) (P : A -> Prop) (f : A -> A) :
  (forall x, P x -> P (f x)) -> forall p x, P x -> P (SpecFloat.iter_pos f p x).
Proof.
  intros Hf. induction p as [p IH|p IH|]; intros x Hx; cbn [SpecFloat.iter_pos]; auto.
Qed.

Lemma shr_fexp_nonneg (prec emax m e : Z) (l : location) :
  0 <= m -> 0 <= shr_m (fst (shr_fexp prec emax m e l)).
Proof.
  intros Hm. unfold shr_fexp, shr.
  assert (H0 : 0 <= shr_m (shr_record_of_loc m l))
    by (destruct l as [|[| |]]; exact Hm).
  destruct (fexp prec emax (Zdigits2 m + e) - e) as [|p|p]; cbn [fst]; try exact H0.
  apply (iter_pos_inv _ (fun mrs => 0 <= shr_m mrs)); [apply shr_1_nonneg | exact H0].
Qed.

Lemma round_nearest_even_nonneg (m : Z) (l : location) :
  0 <= m -> 0 <= round_nearest_even m l.
Proof.
  intros Hm. unfold round_nearest_even.
  destruct l as [|[| |]]; try lia. destruct (Z.even m); lia.
Qed.

(** Rounding a non-negative mantissa gives a value of the sign asked
    for, never a NaN. *)
Lemma binary_round_aux_signed (prec emax : Z) (sx : bool) (mx ex : Z) (lx : location) :
  0 <= mx -> sf_signed sx (binary_round_aux prec emax sx mx ex lx) = true.
Proof.
  intros Hm. unfold binary_round_aux.
  pose proof (shr_fexp_nonneg prec emax mx ex lx Hm) as H1.
  destruct (shr_fexp prec emax mx ex lx) as [mrs' e']. cbn [fst] in H1.
  pose proof (shr_fexp_nonneg prec emax
                (round_nearest_even (shr_m mrs') (loc_of_shr_record mrs')) e' loc_Exact
                (round_nearest_even_nonneg _ _ H1)) as H2.
  destruct (shr_fexp prec emax _ e' loc_Exact) as [mrs'' e'']. cbn [fst] in H2.
  destruct (shr_m mrs'') as [|m|m]; [| |lia]; cbn [sf_signed].
  - apply eqb_reflx.
  - destruct (e'' <=? emax - prec); apply eqb_reflx.
Qed.

Lemma binary_round_signed (prec emax : Z) (sx : bool) (mx : positive) (ex : Z) :
  sf_signed sx (binary_round prec emax sx mx ex) = true.
Proof.
  unfold binary_round. destruct (shl_align mx ex _) as [mz ez].
  apply binary_round_aux_signed. lia.
Qed.

Lemma signed_not_nan (s : bool) (x : spec_float) : sf_signed s x = true -> x <> S754_nan.
Proof. intros H ->. discriminate. Qed.

Lemma signed_nonneg (x : spec_float) : sf_signed false x = true -> sf_nonneg x = true.
Proof. destruct x as [s|s| |s m e]; try destruct s; simpl; congruence. Qed.

Lemma binary_normalize_not_nan (prec emax m e : Z) (sz : bool) :
  binary_normalize prec emax m e sz <> S754_nan.
Proof.
  destruct m as [|p|p]; cbn [binary_normalize]; [discriminate| |];
    eapply signed_not_nan, binary_round_signed.
Qed.

(** The difference of two numbers is not a NaN, and that of a number
    with itself is zero. *)
Lemma SFsub_finite (prec emax : Z) (x y : spec_float) :
  sf_finite x = true -> sf_finite y = true -> SFsub prec emax x y <> S754_nan.
Proof.
  destruct x as [sx|sx| |sx mx ex]; try discriminate;
    destruct y as [sy|sy| |sy my ey]; try discriminate; intros _ _; cbn [SFsub].
  - destruct sx, sy; discriminate.
  - apply binary_normalize_not_nan.
Qed.

Lemma SFsub_self (prec emax : Z) (x : spec_float) :
  sf_finite x = true -> sf_zero (SFsub prec emax x x) = true.
Proof.
  destruct x as [sx|sx| |sx mx ex]; try discriminate; intros _; cbn [SFsub].
  - now destruct sx.
  - rewrite Z.sub_diag. reflexivity.
Qed.

(** A square is not below zero; the square of zero is zero. *)
Lemma SFmul_self (prec emax : Z) (z : spec_float) :
  z <> S754_nan -> sf_nonneg (SFmul prec emax z z) = true.
Proof.
  destruct z as [s|s| |s m e]; try congruence; intros _; cbn [SFmul].
  - reflexivity.
  - now destruct s.
  - apply signed_nonneg. rewrite xorb_nilpotent.
    apply binary_round_aux_signed. lia.
Qed.

Lemma SFmul_zero (prec emax : Z) (z : spec_float) :
  sf_zero z = true -> sf_zero (SFmul prec emax z z) = true.
Proof. destruct z; try discriminate. reflexivity. Qed.

Lemma cond_Zopp_false (m : Z) : cond_Zopp false m = m.
Proof. reflexivity. Qed.

Lemma SFadd_nonneg (prec emax : Z) (a b : spec_float) :
  sf_nonneg a = true -> sf_nonneg b = true -> sf_nonneg (SFadd prec emax a b) = true.
Proof.
  destruct a as [sa|sa| |sa ma ea]; try discriminate;
    destruct b as [sb|sb| |sb mb eb]; try discriminate;
    try (destruct sa; try discriminate); try (destruct sb; try discriminate);
    intros _ _; cbn [SFadd sf_nonneg]; try reflexivity.
  rewrite !cond_Zopp_false.
  set (u := fst (shl_align ma ea (Z.min ea eb))).
  set (v := fst (shl_align mb eb (Z.min ea eb))).
  change (Z.pos u + Z.pos v) with (Z.pos (u + v)). cbn [binary_normalize].
  apply signed_nonneg, binary_round_signed.
Qed.

Lemma SFadd_zero (prec emax : Z) (a b : spec_float) :
  sf_zero a = true -> sf_zero b = true -> sf_zero (SFadd prec emax a b) = true.
Proof.
  destruct a as [sa|sa| |sa ma ea]; try discriminate;
    destruct b as [sb|sb| |sb mb eb]; try discriminate; intros _ _.
  cbn [SFadd]. now destruct sa, sb.
Qed.

Lemma sqrtrem_nonneg (m : Z) : 0 <= fst (Z.sqrtrem m).
Proof. rewrite Z.sqrtrem_sqrt. apply Z.sqrt_nonneg. Qed.

Lemma SFsqrt_nonneg (prec emax : Z) (a : spec_float) :
  sf_nonneg a = true -> SFsqrt prec emax a <> S754_nan.
Proof.
  destruct a as [s|s| |s m e]; try discriminate; try (destruct s; try discriminate);
    intros _; cbn [SFsqrt]; try discriminate.
  unfold SFsqrt_core_binary.
  set (m' := match _ with Z0 => _ | Zpos _ => _ | Zneg _ => _ end).
  pose proof (sqrtrem_nonneg m') as Hq.
  destruct (Z.sqrtrem m') as [q r]. cbn [fst] in Hq.
  eapply signed_not_nan, binary_round_aux_signed. exact Hq.
Qed.

Lemma SFsqrt_zero (prec emax : Z) (a : spec_float) :
  sf_zero a = true -> sf_zero (SFsqrt prec emax a) = true.
Proof. destruct a; try discriminate. reflexivity. Qed.
End FloatFinite.

(** A coordinate that is a number: not a NaN, not an infinity. *)
Definition finite64 (x : float) : bool := sf_finite (Prim2SF x).

Lemma fdist_spec (x1 y1 x2 y2 : float) :
  Prim2SF (Float64.fdist x1 y1 x2 y2) =
  SF64sqrt (SF64add (SF64mul (SF64sub (Prim2SF x1) (Prim2SF x2))
                             (SF64sub (Prim2SF x1) (Prim2SF x2)))
                    (SF64mul (SF64sub (Prim2SF y1) (Prim2SF y2))
                             (SF64sub (Prim2SF y1) (Prim2SF y2)))).
Proof.
  unfold Float64.fdist. now rewrite sqrt_spec, add_spec, !mul_spec, !sub_spec.
Qed.

Lemma is_nan_spec (x : float) : Prim2SF x <> S754_nan -> PrimFloat.is_nan x = false.
Proof.
  intros H. unfold PrimFloat.is_nan. rewrite FloatAxioms.eqb_spec. unfold SFeqb.
  destruct (Prim2SF x) as [s|s| |s m e]; try congruence; cbn [SFcompare negb].
  - reflexivity.
  - now destruct s.
  - rewrite Z.compare_refl.
    change (Pos.compare_cont Eq m m) with (Pos.compare m m).
    rewrite Pos.compare_refl. now destruct s.
Qed.

(** The distance between two points with finite coordinates is not a
    NaN (it is infinite when a square overflows). *)
Lemma fdist_not_nan (x1 y1 x2 y2 : float) :
  finite64 x1 = true -> finite64 y1 = true ->
  finite64 x2 = true -> finite64 y2 = true ->
  PrimFloat.is_nan (Float64.fdist x1 y1 x2 y2) = false.
Proof.
  unfold finite64. intros Hx1 Hy1 Hx2 Hy2. apply is_nan_spec. rewrite fdist_spec.
  apply SFsqrt_nonneg, SFadd_nonneg; apply SFmul_self, SFsub_finite; assumption.
Qed.

(** The distance from a point with finite coordinates to itself is zero,
    within every radius. *)
Lemma fdist_self (x y : float) :
  finite64 x = true -> finite64 y = true ->
  PrimFloat.leb (Float64.fdist x y x y) Float64.f_eps1 = true.
Proof.
  unfold finite64. intros Hx Hy. rewrite leb_spec, fdist_spec.
  assert (Hz : sf_zero
            (SF64sqrt (SF64add (SF64mul (SF64sub (Prim2SF x) (Prim2SF x))
                                        (SF64sub (Prim2SF x) (Prim2SF x)))
                               (SF64mul (SF64sub (Prim2SF y) (Prim2SF y))
                                        (SF64sub (Prim2SF y) (Prim2SF y))))) = true).
  { apply SFsqrt_zero, SFadd_zero; apply SFmul_zero, SFsub_self; assumption. }
  destruct (SF64sqrt _) as [s|s| |s m e]; try discriminate.
  vm_compute. reflexivity.
Qed.

(** A table all of whose coordinates are finite. *)
Definition finite_table (pts : list (@SnapEdges2Grid.entry float)) : bool :=
  forallb (fun p => finite64 (SnapEdges2Grid.gx p) && finite64 (SnapEdges2Grid.gy p)) pts.

(** On a binary64 table with finite coordinates the kernel is lawful. *)
Lemma finite_lawful_on (od pts : list (@SnapEdges2Grid.entry float)) :
  finite_table pts = true -> incl od pts -> lawful_on (AF := Float64.arith) od pts.
Proof.
  unfold finite_table. rewrite forallb_forall. intros Hfin Hincl.
  assert (Hxy : forall p, In p pts ->
            finite64 (SnapEdges2Grid.gx p) = true /\ finite64 (SnapEdges2Grid.gy p) = true).
  { intros p Hp. apply andb_true_iff. now apply Hfin. }
  apply float_lawful_on. unfold float_lawfulb.
  rewrite andb_true_iff, !forallb_forall. split.
  - intros d Hd. unfold distances in Hd. apply in_flat_map in Hd.
    destruct Hd as [p [Hp Hd]]. apply in_map_iff in Hd. destruct Hd as [q [<- Hq]].
    apply negb_true_iff. unfold SnapEdges2Grid.dist_to. cbn [dist Float64.arith].
    destruct (Hxy p Hp), (Hxy q Hq). now apply fdist_not_nan.
  - intros p Hp. unfold SnapEdges2Grid.dist_to. cbn [dist leb eps1 Float64.arith].
    destruct (Hxy p (Hincl p Hp)). now apply fdist_self.
Qed.

(* ------------------------------------------------------------------ *)
(** * Worked inputs *)

Module Examples.
Import SnapEdges2Grid.

(** Three transporters of one commodity on a line, one unit being
    1/1024 degree (so that binary64 holds every coordinate exactly and
    [eps1] is 1.48 units): T0 1 -> 5, T1 4 -> 2, T2 3 -> 11. *)
Definition tie_cell {F : Type} (of_units : Z -> F) (r : nat) (x : Z) : @entry F :=
  mkEntry r 0 (of_units x) (of_units 1%Z).

Definition tie_od {F : Type} (of_units : Z -> F) : list (@entry F) :=
  [ tie_cell of_units 0 1%Z; tie_cell of_units 1 5%Z; tie_cell of_units 2 4%Z;
    tie_cell of_units 3 2%Z; tie_cell of_units 4 3%Z; tie_cell of_units 5 11%Z ].

Definition q_units (n : Z) : Q := (n # 1024)%Q.
Definition f_units (n : Z) : float := (PrimFloat.of_uint63 (Uint63.of_Z n) / 1024)%float.

(** Two transporters (1,1) -> (2,1) and (3,1) -> (4,1) and three buffers
    of the same commodity: one 0.005 from an endpoint, one 0.2 from it,
    one far from everything. *)
Definition snap_od : list (@entry Q) :=
  [ mkEntry 0 0 (1 # 1)%Q (1 # 1)%Q; mkEntry 1 0 (2 # 1)%Q (1 # 1)%Q;
    mkEntry 2 0 (3 # 1)%Q (1 # 1)%Q; mkEntry 3 0 (4 # 1)%Q (1 # 1)%Q ].

Definition snap_b : list (@entry Q) :=
  [ mkEntry 0 0 (2005 # 1000)%Q (10005 # 10000)%Q;
    mkEntry 1 0 (22 # 10)%Q (1 # 1)%Q;
    mkEntry 2 0 (10 # 1)%Q (10 # 1)%Q ].

(** The same points in binary64 (2.005, 1.0005 and 2.2 as the closest
    binary64 values). *)
Definition snap_od64 : list (@entry float) :=
  [ mkEntry 0 0 1%float 1%float; mkEntry 1 0 2%float 1%float;
    mkEntry 2 0 3%float 1%float; mkEntry 3 0 4%float 1%float ].

Definition snap_b64 : list (@entry float) :=
  [ mkEntry 0 0 0x1.00a3d70a3d70ap+1%float 0x1.0020c49ba5e35p+0%float;
    mkEntry 1 0 0x1.199999999999ap+1%float 1%float;
    mkEntry 2 0 10%float 10%float ].
End Examples.

Example snap_example_clusters :
  SnapEdges2Grid.s_clusters (SnapEdges2Grid.snapEdges2GridRef 4 Examples.snap_b Examples.snap_od)
  = [Some 0; Some 1; Some 2; Some 3; Some 1; Some 4; None] /\
  SnapEdges2Grid.s_resourcesToAdd
    (SnapEdges2Grid.snapEdges2GridRef 4 Examples.snap_b Examples.snap_od) = [(5, 1)].
Proof. split; reflexivity. Qed.

(** The binary64 example has finite coordinates; the primary pass leaves the
    three buffer cells 4, 5 and 6 unclustered. Cell 4 is 0.005 from
    endpoint cell 1, within [eps2]; cell 5 is 0.2 from it, beyond [eps2]
    and within [eps3]; cell 6 is more than 10 from every endpoint. So
    cell 4 inherits cluster 1, cell 5 opens cluster 4 and is queued with
    cell 1, and cell 6 stays None. *)
Lemma secondary_pass_rule_witness :
  let od := Examples.snap_od64 in
  let pts := SnapEdges2Grid.vstack 4 od Examples.snap_b64 in
  let d := fun k j => SnapEdges2Grid.dist_to (nth k pts SnapEdges2Grid.entry0)
                                             (nth j od SnapEdges2Grid.entry0) in
  finite_table pts = true /\
  od_pairedb od = true /\
  SnapEdges2Grid.isoNodes (fst (SnapEdges2Grid.primary_pass 4 od pts)) = [4] ++ 5 :: [6] /\
  (leb (d 4 1) eps2 = true /\
   leb (d 5 1) eps2 = false /\ leb (d 5 1) eps3 = true /\
   forallb (fun j => negb (leb (d 6 j) eps3)) [0; 1; 2; 3] = true) /\
  ids_below
    (sec_clusters
       (fold_left (SnapEdges2Grid.secondary_step od pts) [4]
          (fst (SnapEdges2Grid.primary_pass 4 od pts),
           snd (SnapEdges2Grid.primary_pass 4 od pts), [])))
    4 /\
  SnapEdges2Grid.s_clusters (SnapEdges2Grid.snapEdges2GridRef 4 Examples.snap_b64 od)
    = [Some 0; Some 1; Some 2; Some 3; Some 1; Some 4; None] /\
  SnapEdges2Grid.s_resourcesToAdd (SnapEdges2Grid.snapEdges2GridRef 4 Examples.snap_b64 od)
    = [(5, 1)].
Proof.
  cbv zeta.
  split; [vm_compute; reflexivity|]. split; [vm_compute; reflexivity|].
  split; [vm_compute; reflexivity|].
  split; [vm_compute; repeat split; reflexivity|].
  split; [|vm_compute; split; reflexivity].
  assert (Hlaw : lawful_on (AF := Float64.arith) Examples.snap_od64
                   (SnapEdges2Grid.vstack 4 Examples.snap_od64 Examples.snap_b64))
    by (apply finite_lawful_on; [vm_compute; reflexivity | apply vstack_incl]).
  exact (proj1 (proj2 (proj2 (proj2
    (secondary_pass_rule 4 Examples.snap_od64 Examples.snap_b64
       Hlaw eq_refl [4] 5 [6] eq_refl))))).
Defined.

(** The three transporters in binary64 have finite coordinates. When the loop
    reaches cell 4, its candidates are cells 2, 3 and itself; cells 2 and
    3 hold an id, so cell 4 joins a cluster and no id is allocated. *)
Lemma primary_pass_rule_witness :
  let od := Examples.tie_od Examples.f_units in
  let pts := SnapEdges2Grid.vstack 6 od [] in
  let clusters := [Some 0; Some 1; Some 1; Some 0; None; None] in
  finite_table pts = true /\
  candidates od pts 4 = [2; 3; 4] /\
  exists jstar,
    In jstar (candidates od pts 4) /\
    SnapEdges2Grid.clustered clusters jstar = true /\
    snd (SnapEdges2Grid.primary_entry od pts (clusters, 2) 4) = 2 /\
    SnapEdges2Grid.cluster_of
      (fst (SnapEdges2Grid.primary_entry od pts (clusters, 2) 4)) 4 =
    SnapEdges2Grid.cluster_of clusters jstar.
Proof.
  cbv zeta.
  split; [vm_compute; reflexivity|]. split; [vm_compute; reflexivity|].
  assert (Hlaw : lawful_on (AF := Float64.arith) (Examples.tie_od Examples.f_units)
                   (SnapEdges2Grid.vstack 6 (Examples.tie_od Examples.f_units) []))
    by (apply finite_lawful_on; [vm_compute; reflexivity | apply vstack_incl]).
  destruct (proj2 (proj2
    (primary_pass_rule 6 (Examples.tie_od Examples.f_units) [] Hlaw))
    [Some 0; Some 1; Some 1; Some 0; None; None] 2 4
    (le_S 5 5 (le_n 5)) eq_refl) as [Hself [Hext _]].
  destruct Hext as [jstar [Hj [Hc [_ [_ [Hsnd [Hjoin _]]]]]]].
  - exists 2. split; [vm_compute; auto | reflexivity].
  - exists jstar. split; [exact Hj|]. split; [exact Hc|]. split; [exact Hsnd|].
    apply Hjoin; [exact Hself | reflexivity].
Defined.

(** C2 as stated fails. When the loop reaches row 4 of the three
    transporters, cell 2 holds cluster 1 and cell 3 holds cluster 0; both
    are candidates of cell 4 at the same distance. The source extends the
    cluster of cell 2, the first in table order, and cell 4 joins
    cluster 1; the lowest cluster-id, which the claim names, is 0. *)
Lemma primary_tie_counterexample :
  let od := Examples.tie_od Examples.f_units in
  let pts := SnapEdges2Grid.vstack 6 od [] in
  let st := fold_left (SnapEdges2Grid.primary_row od pts) [0; 1; 2; 3]
                      (repeat None 6, 0) in
  fst st = [Some 0; Some 1; Some 1; Some 0; None; None] /\
  candidates od pts 4 = [2; 3; 4] /\
  SnapEdges2Grid.dist_to (nth 4 od SnapEdges2Grid.entry0) (nth 2 pts SnapEdges2Grid.entry0) =
  SnapEdges2Grid.dist_to (nth 4 od SnapEdges2Grid.entry0) (nth 3 pts SnapEdges2Grid.entry0) /\
  SnapEdges2Grid.cluster_of (fst (SnapEdges2Grid.primary_row od pts st 4)) 4 = Some 1 /\
  claimed_extended_clust od pts (fst st) 4 = Some 0.
Proof. vm_compute. repeat split; reflexivity. Qed.

(* ------------------------------------------------------------------ *)
(** * Translating the point table *)

(** Every stored (x, y) moved by the vector (tx, ty); [plus] is the
    addition of the numbers at hand. *)
Definition translate {F : Type} (plus : F -> F -> F) (tx ty : F)
    (e : @SnapEdges2Grid.entry F) : @SnapEdges2Grid.entry F :=
  SnapEdges2Grid.mkEntry (SnapEdges2Grid.row e) (SnapEdges2Grid.col e)
                         (plus (SnapEdges2Grid.gx e) tx) (plus (SnapEdges2Grid.gy e) ty).

Lemma translate_layout {F : Type} (plus : F -> F -> F) (tx ty : F)
    (l : list (@SnapEdges2Grid.entry F)) :
  same_layout l (map (translate plus tx ty) l).
Proof. split; rewrite map_map; reflexivity. Qed.

Lemma translate_vstack {F : Type} (plus : F -> F -> F) (tx ty : F) (nrows : nat)
    (od b : list (@SnapEdges2Grid.entry F)) :
  SnapEdges2Grid.vstack nrows (map (translate plus tx ty) od)
                        (map (translate plus tx ty) b) =
  map (translate plus tx ty) (SnapEdges2Grid.vstack nrows od b).
Proof.
  unfold SnapEdges2Grid.vstack. rewrite map_app, !map_map. reflexivity.
Qed.

(** In exact arithmetic a translation changes no distance. *)
Lemma exact_translate_dist (tx ty : Q) (p q : @SnapEdges2Grid.entry Q) :
  (SnapEdges2Grid.dist_to (translate Qplus tx ty p) (translate Qplus tx ty q) ==
   SnapEdges2Grid.dist_to p q)%Q.
Proof.
  unfold SnapEdges2Grid.dist_to, translate. simpl. unfold Exact.qdist. ring.
Qed.

Lemma exact_leb_comp (a a' e : Q) :
  (a == a')%Q -> leb (Arith := Exact.arith) a e = leb (Arith := Exact.arith) a' e.
Proof. intros H. simpl. now apply Qleb_comp. Qed.

Lemma exact_ltb_comp (a a' c c' : Q) :
  (a == a')%Q -> (c == c')%Q ->
  ltb (Arith := Exact.arith) a c = ltb (Arith := Exact.arith) a' c'.
Proof. intros Ha Hc. simpl. unfold Exact.qltb. f_equal. now apply Qleb_comp. Qed.

Lemma exact_translate_tests (tx ty : Q) (pts : list (@SnapEdges2Grid.entry Q)) :
  same_testsb pts (map (translate Qplus tx ty) pts) = true.
Proof.
  unfold same_testsb. cbv zeta.
  assert (Hnth : forall i, i < length pts ->
            nth i (map (translate Qplus tx ty) pts) SnapEdges2Grid.entry0 =
            translate Qplus tx ty (nth i pts SnapEdges2Grid.entry0)).
  { intros i Hi.
    rewrite (nth_indep _ SnapEdges2Grid.entry0
               (translate Qplus tx ty SnapEdges2Grid.entry0))
      by now rewrite length_map.
    apply map_nth. }
  apply forallb_forall. intros i Hi. apply in_seq in Hi.
  apply forallb_forall. intros j Hj. apply in_seq in Hj.
  rewrite !Hnth by lia.
  pose proof (exact_translate_dist tx ty (nth i pts SnapEdges2Grid.entry0)
                (nth j pts SnapEdges2Grid.entry0)) as Hij.
  rewrite !andb_true_iff. repeat split.
  - rewrite (exact_leb_comp _ _ eps1 Hij). apply Bool.eqb_reflx.
  - rewrite (exact_leb_comp _ _ eps2 Hij). apply Bool.eqb_reflx.
  - rewrite (exact_leb_comp _ _ eps3 Hij). apply Bool.eqb_reflx.
  - apply forallb_forall. intros k Hk. apply in_seq in Hk.
    rewrite !Hnth by lia.
    pose proof (exact_translate_dist tx ty (nth i pts SnapEdges2Grid.entry0)
                  (nth k pts SnapEdges2Grid.entry0)) as Hik.
    rewrite (exact_ltb_comp _ _ _ _ Hij Hik). apply Bool.eqb_reflx.
Qed.

(** C9, amended. Translating every stored (x, y) by one fixed vector
    leaves the clusters array and the synthetic transporter queue of the
    clusterer unchanged whenever the translation changes the outcome of
    no radius test and of no comparison of two distances from a common
    cell; in exact arithmetic that is so for every vector, of any
    magnitude. *)
Theorem translation_invariance :
  (forall (F : Type) (AF : Arith F) (plus : F -> F -> F) (tx ty : F)
          (nrows : nat) (od b : list (@SnapEdges2Grid.entry F)),
     same_testsb (SnapEdges2Grid.vstack nrows od b)
                 (map (translate plus tx ty) (SnapEdges2Grid.vstack nrows od b)) = true ->
     SnapEdges2Grid.s_clusters
       (SnapEdges2Grid.snapEdges2GridRef nrows (map (translate plus tx ty) b)
                                         (map (translate plus tx ty) od)) =
     SnapEdges2Grid.s_clusters (SnapEdges2Grid.snapEdges2GridRef nrows b od) /\
     SnapEdges2Grid.s_resourcesToAdd
       (SnapEdges2Grid.snapEdges2GridRef nrows (map (translate plus tx ty) b)
                                         (map (translate plus tx ty) od)) =
     SnapEdges2Grid.s_resourcesToAdd (SnapEdges2Grid.snapEdges2GridRef nrows b od)) /\
  (forall (tx ty : Q) (nrows : nat) (od b : list (@SnapEdges2Grid.entry Q)),
     SnapEdges2Grid.s_clusters
       (SnapEdges2Grid.snapEdges2GridRef nrows (map (translate Qplus tx ty) b)
                                         (map (translate Qplus tx ty) od)) =
     SnapEdges2Grid.s_clusters (SnapEdges2Grid.snapEdges2GridRef nrows b od) /\
     SnapEdges2Grid.s_resourcesToAdd
       (SnapEdges2Grid.snapEdges2GridRef nrows (map (translate Qplus tx ty) b)
                                         (map (translate Qplus tx ty) od)) =
     SnapEdges2Grid.s_resourcesToAdd (SnapEdges2Grid.snapEdges2GridRef nrows b od)).
Proof.
  assert (Hgen : forall (F : Type) (AF : Arith F) (plus : F -> F -> F) (tx ty : F)
          (nrows : nat) (od b : list (@SnapEdges2Grid.entry F)),
     same_testsb (SnapEdges2Grid.vstack nrows od b)
                 (map (translate plus tx ty) (SnapEdges2Grid.vstack nrows od b)) = true ->
     SnapEdges2Grid.s_clusters
       (SnapEdges2Grid.snapEdges2GridRef nrows (map (translate plus tx ty) b)
                                         (map (translate plus tx ty) od)) =
     SnapEdges2Grid.s_clusters (SnapEdges2Grid.snapEdges2GridRef nrows b od) /\
     SnapEdges2Grid.s_resourcesToAdd
       (SnapEdges2Grid.snapEdges2GridRef nrows (map (translate plus tx ty) b)
                                         (map (translate plus tx ty) od)) =
     SnapEdges2Grid.s_resourcesToAdd (SnapEdges2Grid.snapEdges2GridRef nrows b od)).
  { intros F AF plus tx ty nrows od b H.
    apply snap_agree; try apply translate_layout.
    now rewrite translate_vstack. }
  split; [exact Hgen|].
  intros tx ty nrows od b. apply Hgen. apply exact_translate_tests.
Qed.

(** On binary64, moving the three transporters of [Examples.tie_od] by a
    quarter unit changes no test: every sum is exact. *)
Lemma translation_invariance_witness :
  same_testsb
    (SnapEdges2Grid.vstack 6 (Examples.tie_od Examples.f_units) [])
    (map (translate PrimFloat.add (1 / 4096)%float 0%float)
         (SnapEdges2Grid.vstack 6 (Examples.tie_od Examples.f_units) [])) = true /\
  SnapEdges2Grid.s_clusters
    (SnapEdges2Grid.snapEdges2GridRef 6
       (map (translate PrimFloat.add (1 / 4096)%float 0%float) [])
       (map (translate PrimFloat.add (1 / 4096)%float 0%float)
            (Examples.tie_od Examples.f_units))) =
  SnapEdges2Grid.s_clusters
    (SnapEdges2Grid.snapEdges2GridRef 6 [] (Examples.tie_od Examples.f_units)).
Proof.
  split; [vm_compute; reflexivity|].
  refine (proj1 (proj1 translation_invariance float Float64.arith PrimFloat.add
            (1 / 4096)%float 0%float 6 (Examples.tie_od Examples.f_units) [] _)).
  vm_compute. reflexivity.
Defined.

#[local] Set Warnings "-inexact-float".

(** Two transporters along a meridian, one on each side of latitude 32,
    and a buffer between their near ends; all coordinates have four
    decimals. *)
Definition meridian_od : list (@SnapEdges2Grid.entry float) :=
  [ SnapEdges2Grid.mkEntry 0 0 (-83.5)%float 31.9802%float;
    SnapEdges2Grid.mkEntry 1 0 (-83.5)%float 31.5%float;
    SnapEdges2Grid.mkEntry 2 0 (-83.5)%float 32.0002%float;
    SnapEdges2Grid.mkEntry 3 0 (-83.5)%float 32.5%float ].

Definition meridian_b : list (@SnapEdges2Grid.entry float) :=
  [ SnapEdges2Grid.mkEntry 0 0 (-83.5)%float 31.9902%float ].

(** C9 as stated fails on binary64. The buffer is 0.01 from the near end
    of either transporter. As stored, its computed distance to cell 2 is
    the smaller one and it inherits cluster 2. After every point is moved
    north by 0.0001, less than a tenth of [eps1], the two computed
    distances are equal, [np.argmin] returns cell 0, and the buffer
    inherits cluster 0. *)
Lemma translation_counterexample :
  PrimFloat.ltb 0.0001%float (Float64.f_eps1 / 10)%float = true /\
  SnapEdges2Grid.s_clusters
    (SnapEdges2Grid.snapEdges2GridRef 4 meridian_b meridian_od) =
    [Some 0; Some 1; Some 2; Some 3; Some 2] /\
  SnapEdges2Grid.s_clusters
    (SnapEdges2Grid.snapEdges2GridRef 4
       (map (translate PrimFloat.add 0%float 0.0001%float) meridian_b)
       (map (translate PrimFloat.add 0%float 0.0001%float) meridian_od)) =
    [Some 0; Some 1; Some 2; Some 3; Some 0].
Proof. vm_compute. repeat split; reflexivity. Qed.

(* ------------------------------------------------------------------ *)
(** * The cluster primary *)

Module AmesExamples.
Local Open Scope string_scope.
Local Open Scope list_scope.

(** A buffer of the ingestion layer. *)
Definition buffer (name type : string) (x y : float) (refs fuel : list string)
    (controllers : list string) : @Node.t float :=
  Node.mk (Some name) type x y (Some refs) None fuel "true" None controllers.

Definition gas_plant : @Node.t float :=
  buffer "Plant A" "NGProcessor" (-75.1)%float 40.2%float ["processed gas"] [] ["PA"].
Definition gas_station : @Node.t float :=
  buffer "Station B" "Compressor" (-75.1)%float 40.2%float ["processed gas"] [] ["PA"].
Definition gas_store : @Node.t float :=
  buffer "Store C" "NGStorage" (-75.1)%float 40.2%float ["processed gas"] [] ["NJ"].

Definition gas_system (ns : list (@Node.t float)) : @AMES.ames float :=
  AMES.mkAmes ns [] ["processed gas"] None (Some 0) None None.
End AmesExamples.

(** Below the top type the gas scan keeps no order of types. With a
    processor discovered first and a compressor second,
    [findClusterPrimary] returns the compressor: the
    guard [primaryNodeType != 'NGProcessor'] of the compressor case sends
    it to the final [else], which takes any buffer. A storage after a
    processor displaces it the same way. *)
Lemma findClusterPrimary_NGPipe_override :
  AMES.findClusterPrimary
    (AmesExamples.gas_system [AmesExamples.gas_plant; AmesExamples.gas_station])
    "NGPipe" [0; 1]
  = Ok (Some AmesExamples.gas_station, Some 1) /\
  AMES.findClusterPrimary
    (AmesExamples.gas_system [AmesExamples.gas_plant; AmesExamples.gas_store])
    "NGPipe" [0; 1]
  = Ok (Some AmesExamples.gas_store, Some 1).
Proof. split; reflexivity. Qed.

(* ------------------------------------------------------------------ *)
(** * The transporter synthesizer *)

Module SynthExamples.
Local Open Scope string_scope.
Local Open Scope list_scope.
Import SnapEdges2Grid.

(** Two existing lines, a coal railroad and a line of a refinement the
    synthesizer has no case for, and one stray buffer of each commodity;
    the queue pairs each buffer with the nearest end of its line. *)
Definition existing (name ty ref : string) : @Line.t float :=
  Line.mk name ty [ref] Line.Unset Line.Unset "true" ClNone ClNone [].

Definition system : @AMES.ames float :=
  AMES.mkAmes [] [existing "Rail 1" "CoalRailroad" "coal"; existing "Feed 1" "otherPipe" "solar"]
              ["coal"; "solar"] None None None (Some 1).

Definition table : list (@entry float) :=
  [ mkEntry 0 0 1%float 1%float;   mkEntry 1 0 2%float 1%float;
    mkEntry 2 1 5%float 5%float;   mkEntry 3 1 6%float 5%float;
    mkEntry 4 0 2.2%float 1%float; mkEntry 5 1 6.2%float 5%float ].

Definition clusters : list (option nat) :=
  [Some 0; Some 1; Some 2; Some 3; Some 4; Some 5].

Definition pts : list (float * float) := map (fun e => (gx e, gy e)) table.

Definition summary (r : res (@AMES.ames float * list (option nat) * list (float * float)
                             * list (@entry float)))
    : res (list (string * @Line.endpoint float * @Line.endpoint float) * nat) :=
  '(self, cl, p, t) <- r ;;
  Ok (map (fun l => (Line.lineName l, Line.fBus l, Line.tBus l)) (AMES.lines self),
      length t).
End SynthExamples.

(** C7 fails on the code. The [else] of the refinement switch only
    prints: the statements after the switch still run, on the line object
    the previous entry created. For the queue [(4, 1); (5, 3)], whose
    second entry has the unhandled refinement, the railroad synthesized
    for the first entry is appended a second time and its ends are
    overwritten with the points of the second entry, and four point-rows
    are spliced into the table. When the unhandled entry comes first
    there is no such object and the call raises. *)
Lemma updateTransporters_unhandled_falls_through :
  SynthExamples.summary
    (AMES.updateTransporters SynthExamples.system [(4, 1); (5, 3)]
       SynthExamples.clusters SynthExamples.pts SynthExamples.table)
  = Ok ([ ("Rail 1"%string, Line.Unset, Line.Unset);
          ("Feed 1"%string, Line.Unset, Line.Unset);
          ("coal railroad 2"%string, Line.Gps 6%float 5%float, Line.Gps 6.2%float 5%float);
          ("coal railroad 2"%string, Line.Gps 6%float 5%float, Line.Gps 6.2%float 5%float) ],
        10) /\
  AMES.updateTransporters SynthExamples.system [(5, 3)]
    SynthExamples.clusters SynthExamples.pts SynthExamples.table
  = Raise UnboundLocalError.
Proof. split; vm_compute; reflexivity. Qed.

(* ------------------------------------------------------------------ *)
(** * Independent buffers *)

Module IndExamples.
Local Open Scope string_scope.
Local Open Scope list_scope.

(** One transmission line whose two ends are alone in their clusters. *)
Definition line (o d : nat) : @Line.t float :=
  Line.mk "Transmission Line 1" "ElecLine" ["electric power at 132kV"]
          Line.Unset Line.Unset "true" (ClId o) (ClId d) [].

Definition system (o d : nat) : @AMES.ames float :=
  AMES.mkAmes [] [line o d] ["electric power at 132kV"] (Some 1) None None None.

Definition centers : list (float * float) :=
  [ (10%float, 10%float); (20%float, 20%float); (30%float, 30%float) ].

Definition placed (r : res (@AMES.ames float * list nat * list Z))
    : res (list (option string * string * float * float * option (list nat))
           * list nat * list Z) :=
  '(self, cl, ri) <- r ;;
  Ok (map (fun n => (Node.nodeName n, Node.nodeType n, Node.gpsX n, Node.gpsY n,
                     Node.cluster n))
          (AMES.nodes self),
      cl, ri).
End IndExamples.

(** C3 fails on the code. [addIndBuffers] never counts the line ends of a
    cluster: every cluster without a buffer gets a junction buffer. For
    one line whose ends are alone in clusters 0 and 1 it synthesizes two
    buses, one per single end. The buffer is placed at
    [clustCenters[k1]], [k1] being the position of the id among the ids
    still in use: when the ends are in clusters 1 and 2 (cluster 0 is
    gone), the buffer of cluster 1 is placed at the centre of cluster 0. *)
Lemma addIndBuffers_single_endpoint :
  IndExamples.placed
    (AMES.addIndBuffers (IndExamples.system 0 1) [0; 1] IndExamples.centers [0%Z; 1%Z])
  = Ok ([ (Some "IndBuffer 0"%string, "Bus"%string, 10%float, 10%float, Some [0]);
          (Some "IndBuffer 1"%string, "Bus"%string, 20%float, 20%float, Some [1]) ],
        [0; 1; 0; 1], [0%Z; 1%Z; 2%Z; 3%Z]) /\
  IndExamples.placed
    (AMES.addIndBuffers (IndExamples.system 1 2) [1; 2] IndExamples.centers [0%Z; 1%Z])
  = Ok ([ (Some "IndBuffer 0"%string, "Bus"%string, 10%float, 10%float, Some [1]);
          (Some "IndBuffer 1"%string, "Bus"%string, 20%float, 20%float, Some [2]) ],
        [1; 2; 1; 2], [0%Z; 1%Z; 2%Z; 3%Z]).
Proof. split; vm_compute; reflexivity. Qed.

(* ------------------------------------------------------------------ *)
(** * The oil rescue *)

Module OilExamples.
Local Open Scope string_scope.
Local Open Scope list_scope.

Definition terminal : @Node.t float :=
  AmesExamples.buffer "Terminal 1" "OilTerminal" (-74.1)%float 40.6%float
                      ["processed oil"] [] ["NJ"].
Definition terminal2 : @Node.t float :=
  AmesExamples.buffer "Terminal 2" "OilTerminal" (-70.0)%float 45.0%float
                      ["processed oil"] [] ["ME"].
Definition plant : @Node.t float :=
  AmesExamples.buffer "Plant 1" "GenC" (-74.0)%float 40.7%float
                      ["electric power at 132kV"; "processed oil"] ["processed oil"]
                      ["NY"].

Definition system (ns : list (@Node.t float)) : @AMES.ames float :=
  AMES.mkAmes ns [] ["electric power at 132kV"; "processed oil"] None None (Some (0, 0)) None.

Definition outcome (r : res (@AMES.ames float * list nat))
    : res (list (string * string * @Line.endpoint float * @Line.endpoint float
                 * list string)
           * list nat) :=
  '(self, still) <- r ;;
  Ok (map (fun l => (Line.lineName l, Line.type l, Line.fBus l, Line.tBus l,
                     Line.controller l))
          (AMES.lines self),
      still).
End OilExamples.

(** C8 fails on the code. The test [if any(found)] asks whether some
    index in [found] is non-zero, so a neighbour that is the first oil
    buffer of the node list (index 0) does not count. A controllable
    generator burning processed oil, 0.14 from the only terminal, is left
    stranded; with the same terminal second in the list the pipe is
    emitted. *)
Lemma reviseOil_first_neighbour_ignored :
  OilExamples.outcome
    (AMES.reviseOil (OilExamples.system [OilExamples.terminal; OilExamples.plant]))
  = Ok ([], [1]) /\
  OilExamples.outcome
    (AMES.reviseOil (OilExamples.system
                       [OilExamples.terminal2; OilExamples.terminal; OilExamples.plant]))
  = Ok ([ ("OilR Pipeline 1"%string, "oilRPipe"%string,
           Line.Named "Terminal 1", Line.Named "Plant 1",
           ["NJ"%string; "NY"%string]) ], []).
Proof. split; vm_compute; reflexivity. Qed.

(* ------------------------------------------------------------------ *)
(** * Radial connectors *)

Section LinkFacts.
Context {F : Type} {AF : Arith F}.
Local Open Scope string_scope.
Local Open Scope list_scope.

Abbreviation LineF := (@Line.t F).
Abbreviation NodeF := (@Node.t F).

(** One visit of the inner loop: the line type and the cluster of the
    radial-centre entry, its primary, and a non-primary buffer. *)
Definition visit : Type := string * nat * NodeF * NodeF.

(** The non-primary buffers of one radial-centre entry, in the order the
    inner loop meets them. *)
Fixpoint visits_of (self : @AMES.ames F) (lineType : string) (cluster primaryNodeIdx : nat)
    (primaryNode : NodeF) (bufs : list nat) : res (list visit) :=
  match bufs with
  | [] => Ok []
  | nodeIdx :: rest =>
      if (primaryNodeIdx =? nodeIdx)%nat
      then visits_of self lineType cluster primaryNodeIdx primaryNode rest
      else
        currentNode <- py.get (AMES.nodes self) nodeIdx ;;
        vs <- visits_of self lineType cluster primaryNodeIdx primaryNode rest ;;
        Ok ((lineType, cluster, primaryNode, currentNode) :: vs)
  end.

(** All visits of [linkClusterBuffers], in order. *)
Fixpoint link_visits (self : @AMES.ames F) (clusters : list nat) (resourceIdx : list Z)
    (radial : list (nat * (string * nat))) : res (list visit) :=
  match radial with
  | [] => Ok []
  | (primaryNodeIdx, (lineType, cluster)) :: rest =>
      primaryNode <- py.get (AMES.nodes self) primaryNodeIdx ;;
      bufs <- AMES.cluster_buffers self clusters resourceIdx cluster ;;
      vs <- visits_of self lineType cluster primaryNodeIdx primaryNode bufs ;;
      ws <- link_visits self clusters resourceIdx rest ;;
      Ok (vs ++ ws)
  end.

(** The refinements a connector of a visit carries: electric power for an
    electric line when the buffer serves it, else what primary and buffer
    have in common; nothing for a line type without a case. *)
Definition connector_refs (v : visit) : res (list string) :=
  let '(lineType, _, primaryNode, currentNode) := v in
  if lineType =? "ElecLine" then
    cur <- AMES.node_refs currentNode ;;
    Ok (if py.mem "electric power at 132kV" cur then ["electric power at 132kV"] else [])
  else if (lineType =? "NGPipe") || (lineType =? "OilRefPipe")
          || (lineType =? "OilCrudePipe") || (lineType =? "oilCrudePipe")
          || (lineType =? "CoalRailroad") then
    pri <- AMES.node_refs primaryNode ;; cur <- AMES.node_refs currentNode ;;
    Ok (py.intersect pri cur)
  else Ok [].

Definition yieldsb (v : visit) : bool :=
  match connector_refs v with
  | Ok (_ :: _) => true
  | _ => false
  end.

Definition connector_type (lineType : string) : string :=
  if lineType =? "oilCrudePipe" then "OilCrudePipe" else lineType.

(** What the connector of a visit looks like. *)
Definition connects (v : visit) (l : LineF) : Prop :=
  let '(lineType, cluster, primaryNode, currentNode) := v in
  Line.type l = connector_type lineType /\
  connector_refs v = Ok (Line.refinement l) /\
  Line.fBus l = AMES.name_end primaryNode /\
  Line.tBus l = AMES.name_end currentNode /\
  Line.status l = "true" /\
  Line.clust_origin l = ClId cluster /\
  Line.clust_dest l = ClId cluster /\
  Line.controller l =
    py.extend_new (py.extend_new [] (Node.controller primaryNode))
                  (Node.controller currentNode).

Lemma set_last (A : Type) (l : list A) (a b : A) :
  py.set (l ++ [a]) (length l) b = l ++ [b].
Proof.
  unfold py.set, np.set_at, np.put.
  apply nth_error_ext. intros i.
  rewrite mapi_from_nth_error. simpl.
  destruct (Nat.lt_trichotomy i (length l)) as [Hlt|[->|Hgt]].
  - rewrite !nth_error_app1 by assumption.
    destruct (nth_error l i) eqn:E; simpl; [|reflexivity].
    assert (Hne : (i =? length l)%nat = false) by (apply Nat.eqb_neq; lia).
    now rewrite Hne.
  - rewrite !nth_error_app2 by lia. rewrite Nat.sub_diag. simpl.
    now rewrite Nat.eqb_refl.
  - rewrite !nth_error_app2 by lia.
    destruct (i - length l) as [|k] eqn:E; [lia|]. simpl. now destruct k.
Qed.

Lemma get_last (A : Type) (l : list A) (a : A) : py.get (l ++ [a]) (length l) = Ok a.
Proof.
  unfold py.get. rewrite nth_error_app2 by lia. now rewrite Nat.sub_diag.
Qed.

Lemma read_all (A : Type) (l : list A) (d : A) :
  map (fun i => nth i l d) (seq 0 (length l)) = l.
Proof.
  apply nth_error_ext. intros i.
  rewrite nth_error_map.
  destruct (Nat.lt_ge_cases i (length l)) as [Hlt|Hge].
  - rewrite nth_error_seq. 
    assert (Hb : (i <? length l)%nat = true) by now apply Nat.ltb_lt.
    rewrite Hb. simpl. symmetry. now apply nth_error_nth'.
  - rewrite nth_error_seq.
    assert (Hb : (i <? length l)%nat = false) by now apply Nat.ltb_ge.
    rewrite Hb. simpl. symmetry. now apply nth_error_None.
Qed.

(** The references of the local list name the objects in order: no
    object is listed twice. *)
Definition link_inv (vs : list visit) (st : @AMES.link_state F) : Prop :=
  AMES.refs st = seq 0 (length (AMES.objs st)) /\
  Forall2 connects vs (AMES.objs st).

Lemma bind_ok (A B : Type) (m : res A) (k : A -> res B) (b : B) :
  bind m k = Ok b -> exists a, m = Ok a /\ k a = Ok b.
Proof. destruct m as [a|e]; simpl; [eauto | discriminate]. Qed.

(** A visit that yields makes the switch create a new line object of the
    connector's type and refinements. *)
Lemma link_create_yields (st : @AMES.link_state F) (v : visit) :
  yieldsb v = true ->
  let '(lineType, cluster, primaryNode, currentNode) := v in
  exists name rs t n o c r,
    connector_refs v = Ok rs /\
    AMES.link_create st lineType primaryNode currentNode =
    Ok (AMES.link_new st (Line.fresh name (connector_type lineType) rs) t n o c r).
Proof.
  destruct v as [[[lineType cluster] primaryNode] currentNode].
  unfold yieldsb, connector_refs, AMES.link_create, connector_type.
  destruct (lineType =? "ElecLine") eqn:E1.
  { apply String.eqb_eq in E1. subst lineType. simpl.
    destruct (AMES.node_refs currentNode) as [cur|e]; simpl; [|discriminate].
    destruct (py.mem "electric power at 132kV" cur); [|discriminate].
    intros _. repeat eexists. }
  destruct (lineType =? "NGPipe") eqn:E2.
  { apply String.eqb_eq in E2. subst lineType. simpl.
    destruct (AMES.node_refs primaryNode) as [pri|e]; simpl; [|discriminate].
    destruct (AMES.node_refs currentNode) as [cur|e]; simpl; [|discriminate].
    destruct (py.intersect pri cur) as [|x xs] eqn:Ei; [discriminate|].
    intros _. simpl. repeat eexists. }
  destruct (lineType =? "OilRefPipe") eqn:E3.
  { apply String.eqb_eq in E3. subst lineType. simpl.
    destruct (AMES.node_refs primaryNode) as [pri|e]; simpl; [|discriminate].
    destruct (AMES.node_refs currentNode) as [cur|e]; simpl; [|discriminate].
    destruct (py.intersect pri cur) as [|x xs] eqn:Ei; [discriminate|].
    intros _. simpl. repeat eexists. }
  destruct (lineType =? "OilCrudePipe") eqn:E4.
  { apply String.eqb_eq in E4. subst lineType. simpl.
    destruct (AMES.node_refs primaryNode) as [pri|e]; simpl; [|discriminate].
    destruct (AMES.node_refs currentNode) as [cur|e]; simpl; [|discriminate].
    destruct (py.intersect pri cur) as [|x xs] eqn:Ei; [discriminate|].
    intros _. simpl. repeat eexists. }
  destruct (lineType =? "oilCrudePipe") eqn:E5.
  { apply String.eqb_eq in E5. subst lineType. simpl.
    destruct (AMES.node_refs primaryNode) as [pri|e]; simpl; [|discriminate].
    destruct (AMES.node_refs currentNode) as [cur|e]; simpl; [|discriminate].
    destruct (py.intersect pri cur) as [|x xs] eqn:Ei; [discriminate|].
    intros _. simpl. repeat eexists. }
  destruct (lineType =? "CoalRailroad") eqn:E6.
  { apply String.eqb_eq in E6. subst lineType. simpl.
    destruct (AMES.node_refs primaryNode) as [pri|e]; simpl; [|discriminate].
    destruct (AMES.node_refs currentNode) as [cur|e]; simpl; [|discriminate].
    destruct (py.intersect pri cur) as [|x xs] eqn:Ei; [discriminate|].
    intros _. simpl. repeat eexists. }
  simpl. discriminate.
Qed.

Lemma link_buffer_yields (self : @AMES.ames F) (lineType : string)
    (cluster primaryNodeIdx : nat) (primaryNode currentNode : NodeF)
    (st : @AMES.link_state F) (nodeIdx : nat) (vs : list visit) :
  (primaryNodeIdx =? nodeIdx)%nat = false ->
  py.get (AMES.nodes self) nodeIdx = Ok currentNode ->
  yieldsb (lineType, cluster, primaryNode, currentNode) = true ->
  link_inv vs st ->
  exists st',
    AMES.link_buffer self lineType cluster primaryNodeIdx primaryNode st nodeIdx = Ok st' /\
    link_inv (vs ++ [(lineType, cluster, primaryNode, currentNode)]) st'.
Proof.
  intros Hne Hget Hy [Hrefs Hobjs].
  unfold AMES.link_buffer. rewrite Hne, Hget. simpl.
  pose proof (link_create_yields st (lineType, cluster, primaryNode, currentNode) Hy)
    as Hc. cbv beta iota in Hc.
  destruct Hc as [name [rs [t [n [o [c [r [Hrs Hc]]]]]]]].
  rewrite Hc. simpl. unfold AMES.link_finish, AMES.link_new. simpl.
  rewrite get_last. simpl. rewrite set_last.
  eexists. split; [reflexivity|]. split; simpl.
  - rewrite Hrefs, length_app. simpl. rewrite Nat.add_1_r, seq_S. reflexivity.
  - apply Forall2_app; [assumption|]. constructor; [|constructor].
    unfold connects. rewrite Hrs. simpl. repeat split; reflexivity.
Qed.

Lemma link_buffers_yield (self : @AMES.ames F) (lineType : string)
    (cluster primaryNodeIdx : nat) (primaryNode : NodeF) (bufs : list nat) :
  forall (st : @AMES.link_state F) (vs0 vs : list visit),
  visits_of self lineType cluster primaryNodeIdx primaryNode bufs = Ok vs ->
  forallb yieldsb vs = true ->
  link_inv vs0 st ->
  exists st',
    foldM (AMES.link_buffer self lineType cluster primaryNodeIdx primaryNode) bufs st
      = Ok st' /\
    link_inv (vs0 ++ vs) st'.
Proof.
  induction bufs as [|nodeIdx rest IH]; intros st vs0 vs Hv Hy Hinv; simpl in *.
  - injection Hv as <-. rewrite app_nil_r. eauto.
  - destruct (primaryNodeIdx =? nodeIdx)%nat eqn:Hne.
    + unfold AMES.link_buffer at 1. rewrite Hne. simpl. now apply IH.
    + apply bind_ok in Hv. destruct Hv as [cur [Hget Hv]].
      apply bind_ok in Hv. destruct Hv as [ws [Hws Hv]].
      injection Hv as <-. simpl in Hy. apply andb_true_iff in Hy.
      destruct Hy as [Hy1 Hy2].
      destruct (link_buffer_yields self lineType cluster primaryNodeIdx primaryNode
                  cur st nodeIdx vs0 Hne Hget Hy1 Hinv) as [st1 [Hst1 Hinv1]].
      rewrite Hst1. simpl.
      destruct (IH st1 _ ws Hws Hy2 Hinv1) as [st' [Hst' Hinv']].
      exists st'. split; [assumption|].
      now rewrite <- app_assoc in Hinv'.
Qed.

Lemma link_clusters_yield (self : @AMES.ames F) (clusters : list nat)
    (resourceIdx : list Z) (radial : list (nat * (string * nat))) :
  forall (st : @AMES.link_state F) (vs0 vs : list visit),
  link_visits self clusters resourceIdx radial = Ok vs ->
  forallb yieldsb vs = true ->
  link_inv vs0 st ->
  exists st',
    foldM (AMES.link_cluster self clusters resourceIdx) radial st = Ok st' /\
    link_inv (vs0 ++ vs) st'.
Proof.
  induction radial as [|[pidx [lineType cluster]] rest IH];
    intros st vs0 vs Hv Hy Hinv; simpl in *.
  - injection Hv as <-. rewrite app_nil_r. eauto.
  - apply bind_ok in Hv. destruct Hv as [pn [Hpn Hv]].
    apply bind_ok in Hv. destruct Hv as [bufs [Hbufs Hv]].
    apply bind_ok in Hv. destruct Hv as [v1 [Hv1 Hv]].
    apply bind_ok in Hv. destruct Hv as [w1 [Hw1 Hv]].
    injection Hv as <-. rewrite forallb_app in Hy. apply andb_true_iff in Hy.
    destruct Hy as [Hy1 Hy2].
    rewrite Hpn. simpl. rewrite Hbufs. simpl.
    destruct (link_buffers_yield self lineType cluster pidx pn bufs st vs0 v1
                Hv1 Hy1 Hinv) as [st1 [Hst1 Hinv1]].
    rewrite Hst1. simpl.
    destruct (IH st1 _ w1 Hw1 Hy2 Hinv1) as [st' [Hst' Hinv']].
    exists st'. split; [assumption|].
    now rewrite <- app_assoc in Hinv'.
Qed.

(** [list(set(a) & set(b))] holds what is in both lists, once each. *)
Lemma intersect_spec (a b : list string) :
  NoDup (py.intersect a b) /\
  forall r, In r (py.intersect a b) <-> In r a /\ In r b.
Proof.
  unfold py.intersect. split; [apply NoDup_nodup|].
  intros r. rewrite nodup_In, filter_In. unfold py.mem.
  rewrite existsb_exists. split.
  - intros [Ha [x [Hx He]]]. apply String.eqb_eq in He. subst. auto.
  - intros [Ha Hb]. split; [assumption|]. exists r. split; [assumption|].
    apply String.eqb_refl.
Qed.

(** C6, amended. [linkClusterBuffers] visits, for every entry of the
    radial-centre table, the non-primary buffers of the entry's cluster in
    table order. In a run in which every visited buffer yields a connector
    (it serves
    electric power at 132kV, for an electric line; it has a refinement in
    common with the primary, for a gas pipe, an oil pipe or a railroad),
    the call returns and the lines appended are exactly one connector per
    visit, in order: from
    the primary to the buffer, inside the cluster, status "true", with
    the controllers of both. The connector of an electric line carries
    electric power at 132kV alone; the others carry exactly what primary
    and buffer have in common, each refinement once. *)
Theorem linkClusterBuffers_connectors (self : @AMES.ames F) (clusters : list nat)
    (resourceIdx : list Z) (radial : list (nat * (string * nat)))
    (vs : list visit) :
  link_visits self clusters resourceIdx radial = Ok vs ->
  forallb yieldsb vs = true ->
  (exists emitted,
     AMES.linkClusterBuffers self clusters resourceIdx radial =
       Ok (AMES.with_lines self (AMES.lines self ++ emitted)) /\
     Forall2 connects vs emitted) /\
  (forall ty c p cur, In (ty, c, p, cur) vs -> ty = "ElecLine" ->
     connector_refs (ty, c, p, cur) = Ok ["electric power at 132kV"]) /\
  (forall ty c p cur rs, In (ty, c, p, cur) vs -> ty <> "ElecLine" ->
     connector_refs (ty, c, p, cur) = Ok rs ->
     exists pri curr,
       Node.refinement p = Some pri /\ Node.refinement cur = Some curr /\
       NoDup rs /\ forall r, In r rs <-> In r pri /\ In r curr).
Proof.
  intros Hv Hy. split; [|split].
  - assert (H0 : link_inv [] (@AMES.link_state0 F))
      by (split; [reflexivity | constructor]).
    destruct (link_clusters_yield self clusters resourceIdx radial _ [] vs Hv Hy H0)
      as [st [Hst [Hrefs Hobjs]]].
    exists (AMES.objs st). split; [|exact Hobjs].
    unfold AMES.linkClusterBuffers, AMES.link_loop. rewrite Hst. simpl.
    unfold AMES.link_lines. rewrite Hrefs, read_all. reflexivity.
  - intros ty c p cur Hin ->.
    rewrite forallb_forall in Hy. specialize (Hy _ Hin).
    unfold yieldsb in Hy. unfold connector_refs in *. simpl in *.
    destruct (AMES.node_refs cur) as [rs|e]; simpl in *; [|discriminate].
    destruct (py.mem "electric power at 132kV" rs); [reflexivity | discriminate].
  - intros ty c p cur rs Hin Hty Hrs.
    rewrite forallb_forall in Hy. specialize (Hy _ Hin).
    unfold yieldsb in Hy. rewrite Hrs in Hy.
    unfold connector_refs in Hrs.
    destruct (ty =? "ElecLine") eqn:E1; [apply String.eqb_eq in E1; contradiction|].
    destruct ((ty =? "NGPipe") || (ty =? "OilRefPipe") || (ty =? "OilCrudePipe")
              || (ty =? "oilCrudePipe") || (ty =? "CoalRailroad"));
      [|injection Hrs as <-; discriminate].
    unfold AMES.node_refs in Hrs.
    destruct (Node.refinement p) as [pri|]; simpl in Hrs; [|discriminate].
    destruct (Node.refinement cur) as [curr|]; simpl in Hrs; [|discriminate].
    injection Hrs as <-. exists pri, curr.
    destruct (intersect_spec pri curr) as [Hnd Hin']. auto.
Qed.
End LinkFacts.

Module LinkExamples.
Local Open Scope string_scope.
Local Open Scope list_scope.

(** One transmission line and two hydro generators; both generators sit
    in the cluster of the line's origin. Rows 0 and 1 are the ends of the
    line, rows 2 and 3 the generators. *)
Definition hydro_a : @Node.t float :=
  AmesExamples.buffer "Dam A" "GenC" (-73.5)%float 44.5%float
    ["electric power at 132kV"; "water energy"] ["water energy"] ["NY"].
Definition hydro_b : @Node.t float :=
  AmesExamples.buffer "Dam B" "GenC" (-73.5)%float 44.5%float
    ["electric power at 132kV"; "water energy"] ["water energy"] ["VT"].

Definition tie_line : @Line.t float :=
  Line.mk "Tie 1" "ElecLine" ["electric power at 132kV"]
          Line.Unset Line.Unset "true" ClNone ClNone [].

Definition system : @AMES.ames float :=
  AMES.mkAmes [hydro_a; hydro_b] [tie_line]
              ["electric power at 132kV"; "water energy"] None None None None.

Definition clusters : list nat := [0; 1; 0; 0].
Definition resourceIdx : list Z := [0; 1; 2; 3]%Z.
Definition radial : list (nat * (string * nat)) := [(0, ("ElecLine", 0))].

Definition connector : @Line.t float :=
  Line.mk "Transmission Line Connector 1" "ElecLine" ["electric power at 132kV"]
          (Line.Named "Dam A") (Line.Named "Dam B") "true" (ClId 0) (ClId 0)
          ["NY"; "VT"].
End LinkExamples.

(** The single visit of the example yields: the connector from Dam A to
    Dam B is the one line appended. *)
Lemma linkClusterBuffers_connectors_witness :
  exists emitted,
    AMES.linkClusterBuffers LinkExamples.system LinkExamples.clusters
      LinkExamples.resourceIdx LinkExamples.radial =
      Ok (AMES.with_lines LinkExamples.system
            (AMES.lines LinkExamples.system ++ emitted)) /\
    Forall2 connects
      [("ElecLine"%string, 0, LinkExamples.hydro_a, LinkExamples.hydro_b)] emitted.
Proof.
  refine (proj1 (linkClusterBuffers_connectors LinkExamples.system
            LinkExamples.clusters LinkExamples.resourceIdx LinkExamples.radial
            [("ElecLine"%string, 0, LinkExamples.hydro_a, LinkExamples.hydro_b)]
            _ _)).
  - vm_compute. reflexivity.
  - vm_compute. reflexivity.
Defined.

(** C6 as stated fails for an electric cluster. The two generators have
    electric power and water energy in common, yet the connector between
    them carries electric power alone. *)
Lemma linkClusterBuffers_electric_counterexample :
  AMES.linkClusterBuffers LinkExamples.system LinkExamples.clusters
    LinkExamples.resourceIdx LinkExamples.radial =
    Ok (AMES.with_lines LinkExamples.system
          [LinkExamples.tie_line; LinkExamples.connector]) /\
  Line.refinement LinkExamples.connector = ["electric power at 132kV"%string] /\
  py.intersect ["electric power at 132kV"%string; "water energy"%string]
               ["electric power at 132kV"%string; "water energy"%string] =
    ["electric power at 132kV"%string; "water energy"%string] /\
  Node.refinement LinkExamples.hydro_a =
    Some ["electric power at 132kV"%string; "water energy"%string] /\
  Node.refinement LinkExamples.hydro_b =
    Some ["electric power at 132kV"%string; "water energy"%string].
Proof. vm_compute. repeat split; reflexivity. Qed.

Module MixedExamples.
Local Open Scope string_scope.
Local Open Scope list_scope.

(** A gas cluster around a hub: a plant that shares processed gas with
    it, and a port that shares nothing. *)
Definition hub : @Node.t float :=
  AmesExamples.buffer "Hub" "NGReceiptDelivery" (-75.125)%float 40.25%float
    ["processed gas"; "raw gas"] [] ["PA"].
Definition plant : @Node.t float :=
  AmesExamples.buffer "Plant A" "NGProcessor" (-75.125)%float 40.25%float
    ["processed gas"] [] ["NJ"].
Definition port : @Node.t float :=
  AmesExamples.buffer "Port B" "OilPort" (-75.125)%float 40.25%float
    ["crude oil"] [] ["DE"].

Definition system : @AMES.ames float := AmesExamples.gas_system [hub; plant; port].

(** The one line object of the run, as the call leaves it. *)
Definition connector : @Line.t float :=
  Line.mk "NG Pipeline Connector 1" "NGPipe" ["processed gas"]
          (Line.Named "Hub") (Line.Named "Port B") "true" (ClId 0) (ClId 0)
          ["PA"; "NJ"; "DE"].
End MixedExamples.

(** Why the condition of C6 is on the whole run. The plant yields a
    connector and the port, visited next, does not: the code falls
    through to the statements after the switch, which rewrite the ends
    of the connector made for the plant and append that object again.
    The call returns the same line twice, from the hub to the port, and
    no connector to the plant. *)
Example linkClusterBuffers_mixed_run :
  option_map (map yieldsb)
    (match link_visits MixedExamples.system [0; 0; 0] [0; 1; 2]%Z
             [(0, ("NGPipe"%string, 0))] with
     | Ok vs => Some vs
     | Raise _ => None
     end) = Some [true; false] /\
  AMES.linkClusterBuffers MixedExamples.system [0; 0; 0] [0; 1; 2]%Z
    [(0, ("NGPipe"%string, 0))] =
    Ok (AMES.with_lines MixedExamples.system
          [MixedExamples.connector; MixedExamples.connector]).
Proof. vm_compute. split; reflexivity. Qed.

(* ------------------------------------------------------------------ *)
(** * Self-loops: the pruner and the stages after it *)

Ltac bind_inv H :=
  let a := fresh "a" in
  let Ha := fresh "Ha" in
  apply bind_ok in H; destruct H as [a [Ha H]].

Section ArrayFacts.
Context {A : Type}.

Lemma set_at_nth_error (l : list A) (i j : nat) (v : A) :
  nth_error (np.set_at l i v) j =
  if (j =? i)%nat then option_map (fun _ => v) (nth_error l j) else nth_error l j.
Proof.
  unfold np.set_at. rewrite put_nth_error. simpl. rewrite orb_false_r.
  destruct (j =? i)%nat; destruct (nth_error l j); reflexivity.
Qed.

Lemma set_at_length (l : list A) (i : nat) (v : A) :
  length (np.set_at l i v) = length l.
Proof. apply put_length. Qed.

Lemma mapi_from_Forall (P : A -> Prop) (f : nat -> A -> A) (l : list A) :
  (forall i a, P a -> P (f i a)) ->
  forall i, Forall P l -> Forall P (np.mapi_from f i l).
Proof.
  intros Hf. induction l as [|a l IH]; intros i H; simpl; [constructor|].
  inversion H; subst. constructor; auto.
Qed.

Lemma set_at_Forall (P : A -> Prop) (l : list A) (i : nat) (v : A) :
  P v -> Forall P l -> Forall P (np.set_at l i v).
Proof.
  intros Hv. apply mapi_from_Forall. intros j a Ha.
  now destruct (existsb (Nat.eqb j) [i]).
Qed.

Lemma delete_from_Forall (P : A -> Prop) (idx : list nat) (l : list A) :
  forall i, Forall P l -> Forall P (np.delete_from idx i l).
Proof.
  induction l as [|a l IH]; intros i H; simpl; [constructor|].
  inversion H; subst.
  destruct (existsb (Nat.eqb i) idx); [|constructor]; auto.
Qed.

Lemma delete_from_above (l : list A) : forall (m n : nat), n < m ->
  np.delete_from [n] m l = l.
Proof.
  induction l as [|b l IH]; intros m n Hm; simpl; [reflexivity|].
  rewrite orb_false_r.
  destruct (Nat.eqb_spec m n) as [E|E]; [lia|].
  f_equal. apply IH. lia.
Qed.

Lemma delete_from_one (l : list A) : forall (i k : nat), k < length l ->
  np.delete_from [i + k] i l = firstn k l ++ skipn (S k) l.
Proof.
  induction l as [|a l IH]; intros i k Hk; simpl in *; [lia|].
  rewrite orb_false_r. destruct k as [|k].
  - rewrite Nat.add_0_r, Nat.eqb_refl. simpl. apply delete_from_above. lia.
  - destruct (Nat.eqb_spec i (i + S k)) as [E|E]; [lia|].
    simpl. f_equal.
    replace (i + S k) with (S i + k) by lia. apply IH. lia.
Qed.

(** [np.delete(arr, i)] for one position in range. *)
Lemma delete_one (l : list A) (k : nat) : k < length l ->
  np.delete l [k] = firstn k l ++ skipn (S k) l.
Proof. intros H. unfold np.delete. now apply (delete_from_one l 0 k). Qed.

Lemma pos_lt (len : nat) (z : Z) (i : nat) : py.pos len z = Ok i -> i < len.
Proof.
  unfold py.pos.
  destruct ((0 <=? z)%Z && (z <? Z.of_nat len)%Z) eqn:E1.
  - intros H. injection H as <-. apply andb_true_iff in E1. lia.
  - destruct ((- Z.of_nat len <=? z)%Z && (z <? 0)%Z) eqn:E2; [|discriminate].
    intros H. injection H as <-. apply andb_true_iff in E2. lia.
Qed.

Lemma pos_nat (len k : nat) : k < len -> py.pos len (Z.of_nat k) = Ok k.
Proof.
  intros H. unfold py.pos.
  assert (E : ((0 <=? Z.of_nat k)%Z && (Z.of_nat k <? Z.of_nat len)%Z) = true).
  { apply andb_true_iff. lia. }
  rewrite E. now rewrite Nat2Z.id.
Qed.

Lemma deletez_Forall (P : A -> Prop) (l l' : list A) (idx : list Z) :
  py.deletez l idx = Ok l' -> Forall P l -> Forall P l'.
Proof.
  unfold py.deletez. intros H. bind_inv H. injection H as <-.
  apply delete_from_Forall.
Qed.

Lemma deletez_one (l l' : list A) (z : Z) :
  py.deletez l [z] = Ok l' ->
  exists k, py.pos (length l) z = Ok k /\ l' = firstn k l ++ skipn (S k) l.
Proof.
  unfold py.deletez. simpl.
  destruct (py.pos (length l) z) as [k|e] eqn:Hk; simpl; [|discriminate].
  intros H. injection H as <-. exists k. split; [reflexivity|].
  apply delete_one. eapply pos_lt; eassumption.
Qed.

Lemma deletez_one_length (l l' : list A) (z : Z) :
  py.deletez l [z] = Ok l' -> S (length l') = length l.
Proof.
  intros H. apply deletez_one in H. destruct H as [k [Hk ->]].
  apply pos_lt in Hk. rewrite length_app, length_firstn, length_skipn. lia.
Qed.

Lemma setz_Forall (P : A -> Prop) (l l' : list A) (z : Z) (v : A) :
  py.setz l z v = Ok l' -> P v -> Forall P l -> Forall P l'.
Proof.
  unfold py.setz. intros H Hv Hl. bind_inv H. injection H as <-.
  now apply set_at_Forall.
Qed.

Lemma setz_length (l l' : list A) (z : Z) (v : A) :
  py.setz l z v = Ok l' -> length l' = length l.
Proof.
  unfold py.setz. intros H. bind_inv H. injection H as <-. apply set_at_length.
Qed.
End ArrayFacts.

Lemma pyclust_eqb_sym (a b : pyclust) : pyclust_eqb a b = pyclust_eqb b a.
Proof.
  destruct a as [|x|xs], b as [|y|ys]; simpl; try reflexivity.
  - apply Nat.eqb_sym.
  - destruct (list_eq_dec Nat.eq_dec xs ys), (list_eq_dec Nat.eq_dec ys xs);
      congruence.
Qed.

Section JoinFacts.
Context {F : Type} {AF : Arith F}.

Abbreviation LineJ := (@Line.t F).

(** A line whose two ends lie in different clusters. *)
Definition no_self_loop (l : LineJ) : Prop :=
  pyclust_eqb (Line.clust_origin l) (Line.clust_dest l) = false.

Lemma join_fuse_shape (st st' : @AMES.join_state F) (side : Z) (c : pyclust)
    (pipe1 : LineJ) (idxPipe2 : Z) :
  AMES.join_fuse st side c pipe1 idxPipe2 = Ok st' ->
  AMES.j_k1 st' = AMES.j_k1 st /\
  S (length (AMES.j_lines st')) = length (AMES.j_lines st) /\
  forall P : LineJ -> Prop,
    P pipe1 -> Forall P (AMES.j_lines st) -> Forall P (AMES.j_lines st').
Proof.
  unfold AMES.join_fuse. intros H.
  do 8 bind_inv H.
  apply bind_ok in H. destruct H as [lines1 [H1 H]].
  apply bind_ok in H. destruct H as [lines2 [H2 H]].
  injection H as <-. simpl. split; [reflexivity|]. split.
  - apply deletez_one_length in H2. apply setz_length in H1. lia.
  - intros P Hp Hall. eapply deletez_Forall; [eassumption|].
    eapply setz_Forall; eassumption.
Qed.

Lemma join_end_fused (st st' : @AMES.join_state F) (at_origin : bool) :
  AMES.join_end st at_origin = Ok (AMES.Fused st') ->
  AMES.j_k1 st' = AMES.j_k1 st /\
  S (length (AMES.j_lines st')) = length (AMES.j_lines st) /\
  (Forall no_self_loop (AMES.j_lines st) -> Forall no_self_loop (AMES.j_lines st')).
Proof.
  unfold AMES.join_end. intros H.
  apply bind_ok in H. destruct H as [pipe1 [Hp1 H]].
  apply bind_ok in H. destruct H as [rs [Hrs H]].
  match type of H with (if ?c then _ else _) = _ => destruct c end;
    [|discriminate].
  apply bind_ok in H. destruct H as [idxPipe2 [Hi H]].
  apply bind_ok in H. destruct H as [pipe2 [Hp2 H]].
  destruct at_origin.
  - destruct (pyclust_eqb (Line.clust_origin pipe1) (Line.clust_dest pipe2)
              && negb (pyclust_eqb (Line.clust_dest pipe1) (Line.clust_origin pipe2)))
      eqn:E1.
    + apply bind_ok in H. destruct H as [st1 [Hf H]]. injection H as <-.
      apply join_fuse_shape in Hf. destruct Hf as [Hk [Hl Hall]].
      repeat split; try assumption. apply Hall.
      apply andb_true_iff in E1. destruct E1 as [_ E1].
      apply negb_true_iff in E1. unfold no_self_loop. simpl.
      now rewrite pyclust_eqb_sym.
    + destruct (pyclust_eqb (Line.clust_origin pipe1) (Line.clust_origin pipe2)
                && negb (pyclust_eqb (Line.clust_dest pipe1) (Line.clust_dest pipe2)))
        eqn:E2; [|discriminate].
      apply bind_ok in H. destruct H as [st1 [Hf H]]. injection H as <-.
      apply join_fuse_shape in Hf. destruct Hf as [Hk [Hl Hall]].
      repeat split; try assumption. apply Hall.
      apply andb_true_iff in E2. destruct E2 as [_ E2].
      apply negb_true_iff in E2. unfold no_self_loop. simpl.
      now rewrite pyclust_eqb_sym.
  - destruct (pyclust_eqb (Line.clust_dest pipe1) (Line.clust_dest pipe2)
              && negb (pyclust_eqb (Line.clust_origin pipe1) (Line.clust_origin pipe2)))
      eqn:E1.
    + apply bind_ok in H. destruct H as [st1 [Hf H]]. injection H as <-.
      apply join_fuse_shape in Hf. destruct Hf as [Hk [Hl Hall]].
      repeat split; try assumption. apply Hall.
      apply andb_true_iff in E1. destruct E1 as [_ E1].
      apply negb_true_iff in E1. unfold no_self_loop. simpl. exact E1.
    + destruct (pyclust_eqb (Line.clust_dest pipe1) (Line.clust_origin pipe2)
                && negb (pyclust_eqb (Line.clust_origin pipe1) (Line.clust_dest pipe2)))
        eqn:E2; [|discriminate].
      apply bind_ok in H. destruct H as [st1 [Hf H]]. injection H as <-.
      apply join_fuse_shape in Hf. destruct Hf as [Hk [Hl Hall]].
      repeat split; try assumption. apply Hall.
      apply andb_true_iff in E2. destruct E2 as [_ E2].
      apply negb_true_iff in E2. unfold no_self_loop. simpl. exact E2.
Qed.

(** One turn of the loop either fuses two lines, and the list is one
    shorter, or moves on to the next line; no turn makes a self-loop. *)
Lemma join_turn_inv (st st' : @AMES.join_state F) :
  AMES.join_turn st = Ok st' ->
  (S (length (AMES.j_lines st')) - AMES.j_k1 st'
     <= length (AMES.j_lines st) - AMES.j_k1 st
   \/ length (AMES.j_lines st) <= AMES.j_k1 st) /\
  (Forall no_self_loop (AMES.j_lines st) -> Forall no_self_loop (AMES.j_lines st')).
Proof.
  unfold AMES.join_turn. intros H.
  apply bind_ok in H. destruct H as [r [Hr H]].
  destruct r as [st1| |].
  - injection H as <-. apply join_end_fused in Hr.
    destruct Hr as [Hk [Hl Hall]]. split; [|assumption]. lia.
  - injection H as <-. simpl. split; [lia | auto].
  - apply bind_ok in H. destruct H as [r' [Hr' H]].
    destruct r' as [st1| |].
    + injection H as <-. apply join_end_fused in Hr'.
      destruct Hr' as [Hk [Hl Hall]]. split; [|assumption]. lia.
    + injection H as <-. simpl. split; [lia | auto].
    + injection H as <-. simpl. split; [lia | auto].
Qed.

Lemma join_loop_total (fuel : nat) : forall st : @AMES.join_state F,
  length (AMES.j_lines st) - AMES.j_k1 st <= fuel ->
  AMES.join_loop fuel st <> None.
Proof.
  induction fuel as [|fuel IH]; intros st Hm; simpl.
  - destruct (Nat.ltb_spec (AMES.j_k1 st) (length (AMES.j_lines st)));
      [lia | discriminate].
  - destruct (Nat.ltb_spec (AMES.j_k1 st) (length (AMES.j_lines st)));
      [|discriminate].
    destruct (AMES.join_turn st) as [st'|e] eqn:Ht; [|discriminate].
    apply IH. apply join_turn_inv in Ht. destruct Ht as [[Ht|Ht] _]; lia.
Qed.

Lemma join_loop_inv (fuel : nat) : forall st st' : @AMES.join_state F,
  AMES.join_loop fuel st = Some (Ok st') ->
  Forall no_self_loop (AMES.j_lines st) -> Forall no_self_loop (AMES.j_lines st').
Proof.
  induction fuel as [|fuel IH]; intros st st' H Hall; simpl in H.
  - destruct (AMES.j_k1 st <? length (AMES.j_lines st))%nat; [discriminate|].
    injection H as <-. assumption.
  - destruct (AMES.j_k1 st <? length (AMES.j_lines st))%nat.
    + destruct (AMES.join_turn st) as [st1|e] eqn:Ht; [|discriminate].
      apply (IH _ _ H). apply join_turn_inv in Ht. now apply Ht.
    + injection H as <-. assumption.
Qed.

(** The [while] loop of [joinLineSegs] ends within [len(self.lines)]
    turns, and leaves no self-loop where it found none. *)
Lemma joinLineSegs_no_self_loop (self : @AMES.ames F) (clusters : list nat)
    (resourceIdx : list Z) :
  AMES.joinLineSegs self clusters resourceIdx <> None /\
  forall self' clusters' resourceIdx',
    AMES.joinLineSegs self clusters resourceIdx = Some (Ok (self', clusters', resourceIdx')) ->
    Forall no_self_loop (AMES.lines self) ->
    Forall no_self_loop (AMES.lines self').
Proof.
  unfold AMES.joinLineSegs.
  pose proof (join_loop_total (length (AMES.lines self))
                (AMES.mkJoin (AMES.lines self) clusters resourceIdx 0 0)) as Ht.
  simpl in Ht. specialize (Ht ltac:(lia)).
  destruct (AMES.join_loop _ _) as [[st|e]|] eqn:Hl; [| |contradiction].
  - split; [discriminate|]. intros self' c' r' H Hall. injection H as <- _ _.
    simpl. apply (join_loop_inv _ _ _ Hl). assumption.
  - split; discriminate.
Qed.
End JoinFacts.

Lemma foldM_app (S K : Type) (f : S -> K -> res S) (l1 l2 : list K) (st : S) :
  foldM f (l1 ++ l2) st = bind (foldM f l1 st) (foldM f l2).
Proof.
  revert st. induction l1 as [|k l1 IH]; intros st; simpl; [reflexivity|].
  destruct (f st k) as [st'|e]; simpl; [apply IH | reflexivity].
Qed.

Lemma get_nth_error (A : Type) (l : list A) (i : nat) (a : A) :
  py.get l i = Ok a -> nth_error l i = Some a.
Proof.
  unfold py.get. destruct (nth_error l i); [|discriminate].
  intros H. now injection H as <-.
Qed.

Lemma pos_nonneg (len : nat) (z : Z) (i : nat) :
  (0 <= z)%Z -> py.pos len z = Ok i -> i = Z.to_nat z /\ i < len.
Proof.
  intros Hz H. split; [|eapply pos_lt; eassumption].
  unfold py.pos in H.
  destruct ((0 <=? z)%Z && (z <? Z.of_nat len)%Z) eqn:E1.
  - now injection H as <-.
  - destruct ((- Z.of_nat len <=? z)%Z && (z <? 0)%Z) eqn:E2; [|discriminate].
    apply andb_true_iff in E2. lia.
Qed.

Lemma sorted_snoc (A : Type) (R : A -> A -> Prop) (l : list A) (a : A) :
  StronglySorted R l -> Forall (fun x => R x a) l -> StronglySorted R (l ++ [a]).
Proof.
  induction 1 as [|x l Hs IH Hall]; intros Ha; simpl.
  - constructor; constructor.
  - inversion Ha; subst. constructor; [now apply IH|].
    apply Forall_app. split; [assumption | now constructor].
Qed.

Lemma sorted_rev (l : list Z) :
  StronglySorted Z.lt l -> StronglySorted (fun a b => (b < a)%Z) (rev l).
Proof.
  induction 1 as [|x l Hs IH Hall]; simpl; [constructor|].
  apply sorted_snoc; [assumption|].
  apply Forall_rev. exact Hall.
Qed.

Section DeleteFacts.
Context {A : Type}.

Lemma delete_from_below (idx : list nat) (l : list A) : forall m : nat,
  Forall (fun n => n < m) idx -> np.delete_from idx m l = l.
Proof.
  induction l as [|a l IH]; intros m Hm; simpl; [reflexivity|].
  destruct (existsb (Nat.eqb m) idx) eqn:E.
  - apply existsb_exists in E. destruct E as [x [Hx He]].
    apply Nat.eqb_eq in He. rewrite Forall_forall in Hm. apply Hm in Hx. lia.
  - f_equal. apply IH. eapply Forall_impl; [|exact Hm]. intros n Hn.
    cbv beta in Hn |- *. lia.
Qed.

Lemma delete_from_two (l : list A) : forall (i k : nat), k + 1 < length l ->
  np.delete_from [i + k + 1; i + k] i l = firstn k l ++ skipn (k + 2) l.
Proof.
  induction l as [|a l IH]; intros i k Hk; simpl in Hk; [lia|].
  destruct k as [|k].
  - destruct l as [|b l]; [simpl in Hk; lia|].
    cbn [np.delete_from existsb].
    destruct (Nat.eqb_spec i (i + 0 + 1)) as [E1|E1]; [lia|].
    destruct (Nat.eqb_spec i (i + 0)) as [E2|E2]; [|lia].
    destruct (Nat.eqb_spec (S i) (i + 0 + 1)) as [E3|E3]; [|lia].
    simpl. apply delete_from_below.
    constructor; [lia|]. constructor; [lia|]. constructor.
  - cbn [np.delete_from existsb].
    destruct (Nat.eqb_spec i (i + S k + 1)) as [E1|E1]; [lia|].
    destruct (Nat.eqb_spec i (i + S k)) as [E2|E2]; [lia|].
    cbn [orb firstn skipn app Nat.add]. f_equal.
    replace (i + S k + 1) with (S i + k + 1) by lia.
    replace (i + S k) with (S i + k) by lia.
    apply IH. lia.
Qed.

(** [np.delete(arr, [2k+1, 2k])]. *)
Lemma deletez_pair (l : list A) (k : nat) : 2 * k + 1 < length l ->
  py.deletez l [(Z.of_nat k * 2 + 1)%Z; (Z.of_nat k * 2)%Z] =
  Ok (firstn (2 * k) l ++ skipn (2 * k + 2) l).
Proof.
  intros Hk. unfold py.deletez. cbn [foldM].
  replace (Z.of_nat k * 2 + 1)%Z with (Z.of_nat (2 * k + 1)) by lia.
  replace (Z.of_nat k * 2)%Z with (Z.of_nat (2 * k)) by lia.
  rewrite !pos_nat by lia. cbn [bind app]. f_equal.
  apply (delete_from_two l 0 (2 * k)). lia.
Qed.

Lemma deletez_nat (l : list A) (k : nat) : k < length l ->
  py.deletez l [Z.of_nat k] = Ok (firstn k l ++ skipn (S k) l).
Proof.
  intros Hk. unfold py.deletez. cbn [foldM].
  rewrite pos_nat by lia. cbn [bind app]. f_equal. now apply delete_one.
Qed.

Lemma get_ok (l : list A) (k : nat) : k < length l -> exists a, py.get l k = Ok a.
Proof.
  intros Hk. unfold py.get. destruct (nth_error l k) as [a|] eqn:E; [eauto|].
  apply nth_error_None in E. lia.
Qed.

Lemma take_ok (l : list A) (idx : list nat) :
  Forall (fun i => i < length l) idx -> exists rs, py.take l idx = Ok rs.
Proof.
  induction 1 as [|i idx Hi Hall [rs IH]]; simpl; [eauto|].
  destruct (get_ok l i Hi) as [a ->]. rewrite IH. simpl. eauto.
Qed.
End DeleteFacts.

Lemma shift_from_split (a b : list Z) (d : Z) :
  py.shift_from (a ++ b) (Z.of_nat (length a)) d = a ++ map (fun r => (r - d)%Z) b.
Proof.
  unfold py.shift_from, py.slice_start.
  destruct (Z.ltb_spec (Z.of_nat (length a)) 0) as [H|_]; [lia|].
  rewrite Nat2Z.id, length_app, Nat.min_r by lia.
  rewrite firstn_app, skipn_app, firstn_all, skipn_all, Nat.sub_diag.
  simpl. now rewrite app_nil_r.
Qed.

Section PrunerFacts.
Context {F : Type} {AF : Arith F}.

Abbreviation LineP := (@Line.t F).
Abbreviation NodeP := (@Node.t F).

(** The rows of the point table as [reviseCoords] meets them: the two
    ends of line [i] at positions [2i] and [2i+1], every buffer row
    after the line ends. *)
Definition endpoints_first (n : nat) (resourceIdx : list Z) : Prop :=
  forall k r, nth_error resourceIdx k = Some r ->
    (k < 2 * n -> r = Z.of_nat k) /\
    (2 * n <= k -> (Z.of_nat n * 2 <= r)%Z).

(** After the first [k] points: the lines whose two ends have been met
    are in [del_lines] exactly when they loop, and [del_lines] ascends. *)
Definition point_inv (n k : nat) (st : @AMES.coords_state F) : Prop :=
  let '(_, ls, del_lines) := st in
  length ls = n /\
  StronglySorted Z.lt del_lines /\
  Forall (fun d => (0 <= d)%Z /\ (2 * d + 1 < Z.of_nat k)%Z) del_lines /\
  forall j l, nth_error ls j = Some l -> 2 * j + 1 < k ->
    (pyclust_eqb (Line.clust_origin l) (Line.clust_dest l) = true
     <-> In (Z.of_nat j) del_lines).

Lemma coords_point_inv (n k : nat) (clusters : list nat) (pts : list (F * F))
    (resourceIdx : list Z) (st st' : @AMES.coords_state F) :
  endpoints_first n resourceIdx ->
  point_inv n k st ->
  AMES.coords_point (Z.of_nat n * 2) clusters pts resourceIdx st k = Ok st' ->
  point_inv n (S k) st'.
Proof.
  intros Hrows Hinv H.
  destruct st as [[ns ls] del]. destruct Hinv as [Hlen [Hsort [Hdel Hloop]]].
  unfold AMES.coords_point in H.
  apply bind_ok in H. destruct H as [r [Hr H]].
  apply bind_ok in H. destruct H as [c [Hc H]].
  apply bind_ok in H. destruct H as [p [Hp H]].
  apply get_nth_error in Hr. destruct (Hrows k r Hr) as [Hlow Hhigh].
  assert (Hdel' : Forall (fun d => (0 <= d)%Z /\ (2 * d + 1 < Z.of_nat (S k))%Z) del).
  { eapply Forall_impl; [|exact Hdel]. intros d Hd. cbv beta in Hd |- *. lia. }
  destruct (Z.leb_spec (Z.of_nat n * 2) r) as [Hbuf|Hline].
  - (* a buffer row *)
    apply bind_ok in H. destruct H as [pt [Hpt H]].
    apply bind_ok in H. destruct H as [ns' [Hns H]].
    injection H as <-.
    split; [assumption|]. split; [assumption|]. split; [assumption|].
    intros j l Hj Hjk. apply Hloop; [assumption|].
    assert (j < n) by (rewrite <- Hlen; apply nth_error_Some; congruence).
    destruct (Nat.lt_ge_cases k (2 * n)) as [Hk|Hk]; [|lia].
    specialize (Hlow Hk). lia.
  - (* the end of a line *)
    assert (Hk : k < 2 * n).
    { destruct (Nat.lt_ge_cases k (2 * n)) as [Hk|Hk]; [assumption|].
      specialize (Hhigh Hk). lia. }
    specialize (Hlow Hk). subst r.
    pose proof (Z.div_mod (Z.of_nat k) 2 ltac:(lia)) as Hdm.
    pose proof (Z.mod_pos_bound (Z.of_nat k) 2 ltac:(lia)) as Hmb.
    assert (Hq : (0 <= Z.of_nat k / 2)%Z) by (apply Z.div_pos; lia).
    destruct (Z.eqb_spec (Z.of_nat k mod 2) 0) as [Heven|Hodd].
    + apply bind_ok in H. destruct H as [pt [Hpt H]].
      apply bind_ok in H. destruct H as [ls' [Hls H]].
      injection H as <-.
      unfold py.setz in Hls. apply bind_ok in Hls. destruct Hls as [i [Hi Hls]].
      injection Hls as <-. apply (pos_nonneg _ _ _ Hq) in Hi. destruct Hi as [Hi Hilt].
      split; [now rewrite set_at_length|]. split; [assumption|].
      split; [assumption|].
      intros j l Hj Hjk. rewrite set_at_nth_error in Hj.
      destruct (Nat.eqb_spec j i) as [E|E]; [lia|].
      apply Hloop; [assumption | lia].
    + apply bind_ok in H. destruct H as [pt [Hpt H]].
      apply bind_ok in H. destruct H as [ls' [Hls H]].
      injection H as <-.
      unfold py.setz in Hls. apply bind_ok in Hls. destruct Hls as [i [Hi Hls]].
      injection Hls as <-. apply (pos_nonneg _ _ _ Hq) in Hi. destruct Hi as [Hi Hilt].
      assert (Hiz : Z.of_nat i = (Z.of_nat k / 2)%Z) by lia.
      assert (Hfresh : ~ In (Z.of_nat i) del).
      { intros Hin. rewrite Forall_forall in Hdel. apply Hdel in Hin. lia. }
      split; [now rewrite set_at_length|].
      cbn [Line.clust_origin Line.clust_dest Line.set_clust_dest].
      destruct (pyclust_eqb (Line.clust_origin pt) (ClId c)) eqn:Eloop.
      * split.
        { apply sorted_snoc; [assumption|].
          eapply Forall_impl; [|exact Hdel]. intros d Hd. cbv beta in Hd. lia. }
        split.
        { apply Forall_app. split; [assumption|]. constructor; [lia | constructor]. }
        intros j l Hj Hjk. rewrite set_at_nth_error in Hj.
        rewrite in_app_iff. simpl.
        destruct (Nat.eqb_spec j i) as [E|E].
        { subst j. destruct (nth_error ls i); [|discriminate].
          simpl in Hj. injection Hj as <-. simpl. split; [|intros _; exact Eloop].
          intros _. right. left. lia. }
        { rewrite (Hloop j l Hj) by lia. split; [tauto|].
          intros [Hin|[Heq|[]]]; [assumption | lia]. }
      * split; [assumption|]. split; [assumption|].
        intros j l Hj Hjk. rewrite set_at_nth_error in Hj.
        destruct (Nat.eqb_spec j i) as [E|E].
        { subst j. destruct (nth_error ls i); [|discriminate].
          simpl in Hj. injection Hj as <-. simpl. rewrite Eloop.
          split; [discriminate|].
          intros Hin. contradiction. }
        { apply Hloop; [assumption | lia]. }
Qed.

Lemma coords_points_inv (n : nat) (clusters : list nat) (pts : list (F * F))
    (resourceIdx : list Z) (ns : list NodeP) (ls : list LineP) :
  endpoints_first n resourceIdx ->
  length ls = n ->
  forall k st,
    foldM (AMES.coords_point (Z.of_nat n * 2) clusters pts resourceIdx)
          (seq 0 k) (ns, ls, []) = Ok st ->
    point_inv n k st.
Proof.
  intros Hrows Hlen. induction k as [|k IH]; intros st H.
  - simpl in H. injection H as <-.
    split; [assumption|]. split; [constructor|]. split; [constructor|].
    intros j l _ Hj. lia.
  - rewrite seq_S, foldM_app in H. simpl in H.
    apply bind_ok in H. destruct H as [st1 [H1 H]].
    apply bind_ok in H. destruct H as [st2 [H2 H]]. injection H as <-.
    eapply coords_point_inv; [exact Hrows | apply IH; exact H1 | exact H2].
Qed.
(** Before the lines of [pending] are deleted, highest index first:
    every line that loops is pending. *)
Definition unloop_inv (pending : list Z) (ls : list LineP) : Prop :=
  StronglySorted (fun a b => (b < a)%Z) pending /\
  Forall (fun d => (0 <= d)%Z) pending /\
  forall j l, nth_error ls j = Some l ->
    pyclust_eqb (Line.clust_origin l) (Line.clust_dest l) = true ->
    In (Z.of_nat j) pending.

Lemma coords_unloop_lines (ls : list LineP) (clusters : list nat)
    (resourceIdx del_buffers : list Z) (k2 : Z) (st' : @AMES.unloop_state F) :
  AMES.coords_unloop (ls, clusters, resourceIdx, del_buffers) k2 = Ok st' ->
  py.deletez ls [k2] = Ok (fst (fst (fst st'))).
Proof.
  unfold AMES.coords_unloop. intros H.
  apply bind_ok in H. destruct H as [l [Hl H]].
  apply bind_ok in H. destruct H as [ls' [Hls H]].
  apply bind_ok in H. destruct H as [clusters' [Hc H]].
  apply bind_ok in H. destruct H as [resourceIdx' [Hr H]].
  match type of H with (if ?c then _ else _) = _ => destruct c end.
  - injection H as <-. exact Hls.
  - apply bind_ok in H. destruct H as [rs [Hrs H]]. injection H as <-. exact Hls.
Qed.

Lemma coords_unloops_inv (pending : list Z) :
  forall st st' : @AMES.unloop_state F,
  foldM AMES.coords_unloop pending st = Ok st' ->
  unloop_inv pending (fst (fst (fst st))) ->
  Forall no_self_loop (fst (fst (fst st'))).
Proof.
  induction pending as [|k2 rest IH]; intros st st' H [Hsort [Hpos Hloop]].
  - simpl in H. injection H as <-. apply Forall_forall. intros l Hin.
    apply In_nth_error in Hin. destruct Hin as [j Hj].
    unfold no_self_loop.
    destruct (pyclust_eqb (Line.clust_origin l) (Line.clust_dest l)) eqn:E;
      [|reflexivity].
    destruct (Hloop j l Hj E).
  - simpl in H. apply bind_ok in H. destruct H as [st1 [H1 H]].
    apply (IH _ _ H). clear IH H.
    destruct st as [[[ls clusters] resourceIdx] del_buffers].
    apply coords_unloop_lines in H1. simpl in Hloop.
    apply deletez_one in H1. destruct H1 as [k [Hk Hls]].
    inversion Hsort as [|? ? Hsort' Hbelow]; subst.
    inversion Hpos as [|? ? Hk2 Hpos']; subst.
    apply (pos_nonneg _ _ _ Hk2) in Hk. destruct Hk as [Hk Hklt].
    split; [assumption|]. split; [assumption|].
    intros j l Hj Hself. rewrite Hls in Hj.
    assert (Hfirst : length (firstn k ls) = k) by (rewrite length_firstn; lia).
    destruct (Nat.lt_ge_cases j k) as [Hlt|Hge].
    + rewrite nth_error_app1 in Hj by lia.
      rewrite nth_error_firstn in Hj.
      destruct (Nat.ltb_spec j k) as [_|]; [|lia].
      destruct (Hloop j l Hj Hself) as [Heq|Hin]; [lia | assumption].
    + rewrite nth_error_app2 in Hj by lia.
      rewrite nth_error_skipn, Hfirst in Hj.
      replace (S k + (j - k)) with (S j) in Hj by lia.
      destruct (Hloop (S j) l Hj Hself) as [Heq|Hin]; [lia|].
      rewrite Forall_forall in Hbelow. apply Hbelow in Hin. lia.
Qed.

(** Under the row layout, whatever [reviseCoords] returns holds no
    self-loop. *)
Lemma reviseCoords_no_self_loop (self self' : @AMES.ames F) (clusters clusters' : list nat)
    (pts : list (F * F)) (resourceIdx resourceIdx' : list Z) :
  endpoints_first (length (AMES.lines self)) resourceIdx ->
  2 * length (AMES.lines self) <= length pts ->
  AMES.reviseCoords self clusters pts resourceIdx = Ok (self', clusters', resourceIdx') ->
  Forall no_self_loop (AMES.lines self').
Proof.
  intros Hrows Hpts H. unfold AMES.reviseCoords, AMES.numEndpoints in H.
  apply bind_ok in H. destruct H as [[[ns ls] del_lines] [H1 H]].
  apply bind_ok in H. destruct H as [[[[ls' c1] r1] del_buffers] [H2 H]].
  apply bind_ok in H. destruct H as [[[ns' c2] r2] [H3 H]].
  injection H as <- _ _. simpl.
  apply (coords_points_inv _ _ _ _ _ _ Hrows eq_refl) in H1.
  destruct H1 as [Hlen [Hsort [Hdel Hloop]]].
  apply (coords_unloops_inv _ _ _ H2). simpl. split; [|split].
  - now apply sorted_rev.
  - apply Forall_rev. eapply Forall_impl; [|exact Hdel]. intros d Hd. exact (proj1 Hd).
  - intros j l Hj Hself. rewrite <- in_rev. apply (Hloop j l Hj); [|assumption].
    assert (j < length ls) by (apply nth_error_Some; congruence). lia.
Qed.
(** Removing line [k2]: the line and its two rows go, and every row
    after them is renumbered two lower. *)
Lemma coords_unloop_removes (ls : list LineP) (clusters : list nat)
    (resourceIdx del_buffers : list Z) (k2 : nat) :
  k2 < length ls ->
  2 * k2 + 1 < length clusters ->
  length resourceIdx = length clusters ->
  exists more,
    AMES.coords_unloop (ls, clusters, resourceIdx, del_buffers) (Z.of_nat k2) =
    Ok (firstn k2 ls ++ skipn (S k2) ls,
        firstn (2 * k2) clusters ++ skipn (2 * k2 + 2) clusters,
        firstn (2 * k2) resourceIdx
          ++ map (fun r => (r - 2)%Z) (skipn (2 * k2 + 2) resourceIdx),
        del_buffers ++ more).
Proof.
  intros Hk Hc Hr. unfold AMES.coords_unloop, py.getz.
  rewrite pos_nat by assumption. cbn [bind].
  destruct (get_ok ls k2 Hk) as [l ->]. cbn [bind].
  rewrite deletez_nat by assumption. cbn [bind].
  rewrite !deletez_pair by lia. cbn [bind].
  assert (Hf : length (firstn (2 * k2) resourceIdx) = 2 * k2)
    by (rewrite length_firstn; lia).
  replace (Z.of_nat k2 * 2)%Z
    with (Z.of_nat (length (firstn (2 * k2) resourceIdx))) by lia.
  rewrite shift_from_split.
  match goal with |- exists _, (if ?c then _ else _) = _ => destruct c end.
  - exists []. now rewrite app_nil_r.
  - match goal with |- exists _, bind (py.take ?l ?idx) _ = _ =>
      destruct (take_ok l idx) as [rs Hrs] end.
    + apply Forall_forall. intros i Hi. apply where_lt in Hi.
      rewrite !length_app, length_map, !length_firstn, !length_skipn in *. lia.
    + rewrite Hrs. cbn [bind]. eexists. reflexivity.
Qed.
End PrunerFacts.

Lemma foldM_inv (S K : Type) (f : S -> K -> res S) (P : S -> Prop) :
  (forall st k st', f st k = Ok st' -> P st -> P st') ->
  forall l st st', foldM f l st = Ok st' -> P st -> P st'.
Proof.
  intros Hf. induction l as [|k l IH]; intros st st' H Hp; simpl in H.
  - now injection H as <-.
  - apply bind_ok in H. destruct H as [st1 [H1 H]].
    apply (IH _ _ H). eapply Hf; eassumption.
Qed.

Section NamerFacts.
Context {F : Type} {AF : Arith F}.

Abbreviation LineN := (@Line.t F).
Abbreviation NodeN := (@Node.t F).

(** A line with both ends in one cluster. *)
Definition intra_cluster (l : LineN) : Prop :=
  exists c, Line.clust_origin l = ClId c /\ Line.clust_dest l = ClId c.

(** The namer renames a line and leaves its clusters alone. *)
Definition same_clusters (l l' : LineN) : Prop :=
  Line.lineName l' = Line.lineName l /\
  Line.type l' = Line.type l /\
  Line.clust_origin l' = Line.clust_origin l /\
  Line.clust_dest l' = Line.clust_dest l.

(** Every connector appended so far reads as a line inside one cluster. *)
Definition link_refs_intra (st : @AMES.link_state F) : Prop :=
  forall r, In r (AMES.refs st) ->
    exists l, nth_error (AMES.objs st) r = Some l /\ intra_cluster l.

Lemma link_create_grows (st st' : @AMES.link_state F) (lineType : string)
    (primaryNode currentNode : NodeN) :
  AMES.link_create st lineType primaryNode currentNode = Ok st' ->
  AMES.refs st' = AMES.refs st /\
  exists more, AMES.objs st' = AMES.objs st ++ more.
Proof.
  unfold AMES.link_create. cbv zeta. intros H.
  repeat match type of H with
         | (if ?c then _ else _) = Ok _ => destruct c
         | bind ?m _ = Ok _ =>
             let a := fresh "a" in
             let Ha := fresh "Ha" in
             apply bind_ok in H; destruct H as [a [Ha H]]
         end;
    injection H as <-;
    (split; [reflexivity|]);
    solve [ exists []; now rewrite app_nil_r | eexists; reflexivity ].
Qed.

Lemma link_buffer_intra (self : @AMES.ames F) (lineType : string)
    (cluster primaryNodeIdx : nat) (primaryNode : NodeN)
    (st : @AMES.link_state F) (nodeIdx : nat) (st' : @AMES.link_state F) :
  AMES.link_buffer self lineType cluster primaryNodeIdx primaryNode st nodeIdx = Ok st' ->
  link_refs_intra st -> link_refs_intra st'.
Proof.
  unfold AMES.link_buffer. intros H Hinv.
  destruct (primaryNodeIdx =? nodeIdx)%nat; [now injection H as <-|].
  apply bind_ok in H. destruct H as [currentNode [Hcur H]].
  apply bind_ok in H. destruct H as [st1 [Hc H]].
  apply link_create_grows in Hc. destruct Hc as [Hrefs [more Hobjs]].
  unfold AMES.link_finish in H.
  destruct (AMES.new_instance st1) as [ref|]; [|discriminate].
  apply bind_ok in H. destruct H as [l [Hl H]]. injection H as <-.
  apply get_nth_error in Hl.
  intros r Hr. simpl in Hr |- *. unfold py.set. rewrite set_at_nth_error.
  destruct (Nat.eqb_spec r ref) as [->|Hne].
  - rewrite Hl. simpl. eexists. split; [reflexivity|].
    exists cluster. split; reflexivity.
  - apply in_app_iff in Hr. destruct Hr as [Hr|[Hr|[]]]; [|congruence].
    rewrite Hrefs in Hr. destruct (Hinv r Hr) as [l0 [Hl0 Hintra]].
    exists l0. split; [|assumption].
    rewrite Hobjs. rewrite nth_error_app1; [assumption|].
    apply nth_error_Some. congruence.
Qed.

Lemma link_loop_intra (self : @AMES.ames F) (clusters : list nat)
    (resourceIdx : list Z) (radial : list (nat * (string * nat)))
    (st : @AMES.link_state F) :
  AMES.link_loop self clusters resourceIdx radial = Ok st ->
  Forall intra_cluster (AMES.link_lines st).
Proof.
  unfold AMES.link_loop. intros H.
  assert (Hinv : link_refs_intra st).
  { apply (foldM_inv _ _ _ link_refs_intra) in H; [assumption| |intros r []].
    clear. intros st [pidx [lineType cluster]] st' H Hinv.
    unfold AMES.link_cluster in H.
    apply bind_ok in H. destruct H as [primaryNode [Hp H]].
    apply bind_ok in H. destruct H as [bufs [Hb H]].
    eapply foldM_inv; [|exact H|exact Hinv].
    intros s k s'. apply link_buffer_intra. }
  unfold AMES.link_lines. apply Forall_forall. intros l Hl.
  apply in_map_iff in Hl. destruct Hl as [r [<- Hr]].
  destruct (Hinv r Hr) as [l0 [Hl0 Hintra]].
  now rewrite (nth_error_nth _ _ _ Hl0).
Qed.

Lemma name_cluster_named (self : @AMES.ames F) (clusters : list nat)
    (resourceIdx : list Z) (st st' : @AMES.namer_state F) (ty : string)
    (c : pyclust) (node : NodeN) :
  AMES.name_cluster self clusters resourceIdx st ty c = Ok (st', node) ->
  AMES.named st' = AMES.named st.
Proof.
  unfold AMES.name_cluster. intros H.
  destruct c as [|cid|cs]; try discriminate.
  destruct (py.dict_get Nat.eqb (AMES.clusterPrimary st) cid).
  { now injection H as <- _. }
  apply bind_ok in H. destruct H as [bufs [Hb H]].
  destruct (1 <? length bufs)%nat.
  - apply bind_ok in H. destruct H as [[[n|] [i|]] [Hf H]]; try discriminate.
    now injection H as <- _.
  - apply bind_ok in H. destruct H as [[|n ns] [Hn H]]; try discriminate.
    now injection H as <- _.
Qed.

Lemma name_loop_named (self : @AMES.ames F) (clusters : list nat)
    (resourceIdx : list Z) (ls : list LineN) :
  forall st st' : @AMES.namer_state F,
  foldM (AMES.name_pipe self clusters resourceIdx) ls st = Ok st' ->
  exists renamed,
    AMES.named st' = AMES.named st ++ renamed /\
    Forall2 same_clusters ls renamed.
Proof.
  induction ls as [|k1 ls IH]; intros st st' H; simpl in H.
  - injection H as <-. exists []. rewrite app_nil_r. split; constructor.
  - apply bind_ok in H. destruct H as [st1 [H1 H]].
    destruct (IH _ _ H) as [renamed [Hn Hall]].
    unfold AMES.name_pipe in H1.
    apply bind_ok in H1. destruct H1 as [[sO pO] [HO H1]].
    apply bind_ok in H1. destruct H1 as [[sD pD] [HD H1]].
    injection H1 as <-. simpl in Hn.
    apply name_cluster_named in HO. apply name_cluster_named in HD.
    rewrite HD, HO, <- app_assoc in Hn. simpl in Hn.
    eexists. split; [exact Hn|]. constructor; [|assumption].
    repeat split; reflexivity.
Qed.

(** What [setPipeODNames2] returns: the lines it was given, renamed and
    with their clusters as they were, and after them connectors that
    each lie inside one cluster. *)
Lemma setPipeODNames2_lines (self self' : @AMES.ames F) (clusters : list nat)
    (resourceIdx : list Z) :
  AMES.setPipeODNames2 self clusters resourceIdx = Ok self' ->
  exists renamed connectors,
    AMES.lines self' = renamed ++ connectors /\
    Forall2 same_clusters (AMES.lines self) renamed /\
    Forall intra_cluster connectors.
Proof.
  unfold AMES.setPipeODNames2, AMES.name_loop, AMES.linkClusterBuffers.
  intros H.
  apply bind_ok in H. destruct H as [st [Hst H]].
  apply bind_ok in H. destruct H as [self1 [H1 H]].
  apply bind_ok in H1. destruct H1 as [lst [Hl H1]]. injection H1 as <-.
  destruct (AMES.delLine st); [|discriminate]. injection H as <-.
  apply name_loop_named in Hst. destruct Hst as [renamed [Hn Hall]].
  simpl in Hn. subst renamed.
  exists (AMES.named st), (AMES.link_lines lst). split; [reflexivity|].
  split; [assumption|]. eapply link_loop_intra; eassumption.
Qed.

Lemma same_clusters_no_self_loop (ls renamed : list LineN) :
  Forall2 same_clusters ls renamed ->
  Forall no_self_loop ls -> Forall no_self_loop renamed.
Proof.
  induction 1 as [|l l' ls renamed [_ [_ [Ho Hd]]] Hall IH]; intros H;
    [constructor|].
  inversion H; subst. constructor; [|now apply IH].
  unfold no_self_loop in *. now rewrite Ho, Hd.
Qed.

Lemma intra_cluster_self_loop (l : LineN) :
  intra_cluster l -> pyclust_eqb (Line.clust_origin l) (Line.clust_dest l) = true.
Proof. intros [c [-> ->]]. simpl. apply Nat.eqb_refl. Qed.

Lemma addIndBuffers_lines (self self' : @AMES.ames F) (clusters clusters' : list nat)
    (clustCenters : list (F * F)) (resourceIdx resourceIdx' : list Z) :
  AMES.addIndBuffers self clusters clustCenters resourceIdx
    = Ok (self', clusters', resourceIdx') ->
  AMES.lines self' = AMES.lines self.
Proof.
  unfold AMES.addIndBuffers. intros H.
  apply bind_ok in H. destruct H as [st [Hst H]]. now injection H as <- _ _.
Qed.
End NamerFacts.

(** The row layout, as a test. *)
Definition endpoints_firstb (n : nat) (resourceIdx : list Z) : bool :=
  forallb (fun kr : nat * Z =>
             if (fst kr <? 2 * n)%nat then (snd kr =? Z.of_nat (fst kr))%Z
             else (Z.of_nat n * 2 <=? snd kr)%Z)
          (combine (seq 0 (length resourceIdx)) resourceIdx).

Lemma In_combine_seq (A : Type) (l : list A) : forall (i k : nat) (x : A),
  nth_error l k = Some x -> In (i + k, x) (combine (seq i (length l)) l).
Proof.
  induction l as [|a l IH]; intros i [|k] x H; simpl in *; try discriminate.
  - injection H as <-. left. f_equal. lia.
  - right. replace (i + S k) with (S i + k) by lia. now apply IH.
Qed.

Lemma endpoints_firstb_spec (n : nat) (resourceIdx : list Z) :
  endpoints_firstb n resourceIdx = true -> endpoints_first n resourceIdx.
Proof.
  unfold endpoints_firstb. rewrite forallb_forall. intros H k r Hk.
  apply (In_combine_seq _ _ 0) in Hk. apply H in Hk. simpl in Hk.
  destruct (Nat.ltb_spec k (n + (n + 0))).
  - apply Z.eqb_eq in Hk. split; [auto | lia].
  - apply Z.leb_le in Hk. split; [lia | auto].
Qed.

Section SelfLoops.
Context {F : Type} {AF : Arith F}.

(** C4, amended. With the two ends of line [i] on rows [2i] and [2i+1]
    and the buffers after them, [reviseCoords] returns no line whose
    ends share a cluster. Removing line [k2] there removes the line and
    rows [2k2] and [2k2+1], and renumbers every later row two lower.
    [joinLineSegs] ends and makes no self-loop, and [addIndBuffers]
    leaves the lines alone. [setPipeODNames2] keeps the clusters of the
    lines it names, so none of them loops; but every connector it
    appends has both ends in one cluster. *)
Theorem self_loops_after_pruner :
  (forall (self self' : @AMES.ames F) (clusters clusters' : list nat)
          (pts : list (F * F)) (resourceIdx resourceIdx' : list Z),
     endpoints_firstb (length (AMES.lines self)) resourceIdx = true ->
     2 * length (AMES.lines self) <= length pts ->
     AMES.reviseCoords self clusters pts resourceIdx
       = Ok (self', clusters', resourceIdx') ->
     Forall no_self_loop (AMES.lines self')) /\
  (forall (ls : list (@Line.t F)) (clusters : list nat)
          (resourceIdx del_buffers : list Z) (k2 : nat),
     k2 < length ls ->
     2 * k2 + 1 < length clusters ->
     length resourceIdx = length clusters ->
     exists more,
       AMES.coords_unloop (ls, clusters, resourceIdx, del_buffers) (Z.of_nat k2) =
       Ok (firstn k2 ls ++ skipn (S k2) ls,
           firstn (2 * k2) clusters ++ skipn (2 * k2 + 2) clusters,
           firstn (2 * k2) resourceIdx
             ++ map (fun r => (r - 2)%Z) (skipn (2 * k2 + 2) resourceIdx),
           del_buffers ++ more)) /\
  (forall (self : @AMES.ames F) (clusters : list nat) (resourceIdx : list Z),
     AMES.joinLineSegs self clusters resourceIdx <> None /\
     forall self' clusters' resourceIdx',
       AMES.joinLineSegs self clusters resourceIdx
         = Some (Ok (self', clusters', resourceIdx')) ->
       Forall no_self_loop (AMES.lines self) ->
       Forall no_self_loop (AMES.lines self')) /\
  (forall (self self' : @AMES.ames F) (clusters clusters' : list nat)
          (clustCenters : list (F * F)) (resourceIdx resourceIdx' : list Z),
     AMES.addIndBuffers self clusters clustCenters resourceIdx
       = Ok (self', clusters', resourceIdx') ->
     AMES.lines self' = AMES.lines self) /\
  (forall (self self' : @AMES.ames F) (clusters : list nat) (resourceIdx : list Z),
     AMES.setPipeODNames2 self clusters resourceIdx = Ok self' ->
     exists renamed connectors,
       AMES.lines self' = renamed ++ connectors /\
       Forall2 same_clusters (AMES.lines self) renamed /\
       (Forall no_self_loop (AMES.lines self) -> Forall no_self_loop renamed) /\
       Forall intra_cluster connectors /\
       Forall (fun l => pyclust_eqb (Line.clust_origin l) (Line.clust_dest l) = true)
              connectors).
Proof.
  split; [|split; [|split; [|split]]].
  - intros self self' clusters clusters' pts resourceIdx resourceIdx' Hrows Hpts H.
    apply endpoints_firstb_spec in Hrows.
    eapply reviseCoords_no_self_loop; eassumption.
  - intros. now apply coords_unloop_removes.
  - intros. apply joinLineSegs_no_self_loop.
  - intros. eapply addIndBuffers_lines; eassumption.
  - intros self self' clusters resourceIdx H.
    apply setPipeODNames2_lines in H.
    destruct H as [renamed [connectors [Hl [Hsame Hintra]]]].
    exists renamed, connectors. split; [assumption|]. split; [assumption|].
    split; [now apply same_clusters_no_self_loop|]. split; [assumption|].
    eapply Forall_impl; [|exact Hintra]. apply intra_cluster_self_loop.
Qed.
End SelfLoops.

Module PruneExamples.
Local Open Scope string_scope.
Local Open Scope list_scope.

(** Two transmission lines and three buffers. The first line has both
    ends in cluster 0; the second runs from cluster 0, where the two
    generators sit, to cluster 1, where the load sits. Rows 0 to 3 are
    the line ends, rows 4 to 6 the buffers. *)
Definition spur : @Line.t float :=
  Line.mk "Spur 1" "ElecLine" ["electric power at 132kV"]
          Line.Unset Line.Unset "true" ClNone ClNone [].

Definition town : @Node.t float :=
  AmesExamples.buffer "Town C" "LoadC" (-73.25)%float 44.5%float
    ["electric power at 132kV"] [] ["VT"].

Definition system : @AMES.ames float :=
  AMES.mkAmes [LinkExamples.hydro_a; LinkExamples.hydro_b; town]
              [spur; LinkExamples.tie_line]
              ["electric power at 132kV"; "water energy"] None None None None.

Definition clusters : list nat := [0; 0; 0; 1; 0; 0; 1].
Definition resourceIdx : list Z := [0; 1; 2; 3; 4; 5; 6]%Z.
Definition pts : list (float * float) :=
  [ ((-73.5)%float, 44.5%float); ((-73.5)%float, 44.5%float);
    ((-73.5)%float, 44.5%float); ((-73.25)%float, 44.5%float);
    ((-73.5)%float, 44.5%float); ((-73.5)%float, 44.5%float);
    ((-73.25)%float, 44.5%float) ].
Definition clustCenters : list (float * float) :=
  [ ((-73.5)%float, 44.5%float); ((-73.25)%float, 44.5%float) ].

(** What [reviseCoords] leaves. *)
Definition placed (n : @Node.t float) (c : nat) : @Node.t float :=
  Node.mk (Node.nodeName n) (Node.nodeType n) (Node.gpsX n) (Node.gpsY n)
          (Node.refinement n) (Node.attrib_ref n) (Node.fuelType n)
          (Node.status n) (Some [c]) (Node.controller n).

Definition pruned : @AMES.ames float :=
  AMES.mkAmes [placed LinkExamples.hydro_a 0; placed LinkExamples.hydro_b 0;
               placed town 1]
              [Line.mk "Tie 1" "ElecLine" ["electric power at 132kV"]
                       Line.Unset Line.Unset "true" (ClId 0) (ClId 1) []]
              ["electric power at 132kV"; "water energy"] None None None None.
End PruneExamples.

(** On the example the pruner removes the spur, and the line it keeps
    runs between two clusters. *)
Lemma self_loops_after_pruner_witness :
  Forall no_self_loop (AMES.lines PruneExamples.pruned).
Proof.
  refine (proj1 (@self_loops_after_pruner float)
            PruneExamples.system PruneExamples.pruned
            PruneExamples.clusters [0; 1; 0; 0; 1]
            PruneExamples.pts PruneExamples.resourceIdx [0; 1; 2; 3; 4]%Z _ _ _).
  - reflexivity.
  - simpl. lia.
  - vm_compute. reflexivity.
Defined.

(** C4 as stated fails at the namer. The example goes through the
    pruner, the joiner and the junction-buffer stage with one line left,
    from cluster 0 to cluster 1. The namer then connects the two
    generators of cluster 0, and that connector has cluster 0 at both
    ends. *)
Lemma namer_connector_counterexample :
  AMES.reviseCoords PruneExamples.system PruneExamples.clusters
    PruneExamples.pts PruneExamples.resourceIdx
  = Ok (PruneExamples.pruned, [0; 1; 0; 0; 1], [0; 1; 2; 3; 4]%Z) /\
  AMES.joinLineSegs PruneExamples.pruned [0; 1; 0; 0; 1] [0; 1; 2; 3; 4]%Z
  = Some (Ok (PruneExamples.pruned, [0; 1; 0; 0; 1], [0; 1; 2; 3; 4]%Z)) /\
  AMES.addIndBuffers PruneExamples.pruned [0; 1; 0; 0; 1]
    PruneExamples.clustCenters [0; 1; 2; 3; 4]%Z
  = Ok (PruneExamples.pruned, [0; 1; 0; 0; 1], [0; 1; 2; 3; 4]%Z) /\
  AMES.setPipeODNames2 PruneExamples.pruned [0; 1; 0; 0; 1] [0; 1; 2; 3; 4]%Z
  = Ok (AMES.with_lines PruneExamples.pruned
          [ Line.mk "Tie 1"%string "ElecLine"%string
                    ["electric power at 132kV"%string]
                    (Line.Named "Dam B"%string) (Line.Named "Town C"%string)
                    "true"%string (ClId 0) (ClId 1) ["VT"%string];
            Line.mk "Transmission Line Connector 1"%string "ElecLine"%string
                    ["electric power at 132kV"%string]
                    (Line.Named "Dam B"%string) (Line.Named "Dam A"%string)
                    "true"%string (ClId 0) (ClId 0)
                    ["VT"%string; "NY"%string] ]) /\
  pyclust_eqb (ClId 0) (ClId 0) = true.
Proof. vm_compute. repeat split; reflexivity. Qed.

(* ------------------------------------------------------------------ *)
(** * The cluster primary, by the priority table *)

Section PriorityFacts.
Context {F : Type} {AF : Arith F}.
Local Open Scope string_scope.
Local Open Scope list_scope.

Abbreviation NodeQ := (@Node.t F).

(** A member of a cluster: a buffer index and the buffer. *)
Definition member : Type := nat * NodeQ.

Definition of_type (t : string) (m : member) : bool := Node.nodeType (snd m) =? t.

(** The last member of type [t]. *)
Fixpoint last_of (t : string) (ms : list member) : option member :=
  match ms with
  | [] => None
  | m :: rest =>
      match last_of t rest with
      | Some x => Some x
      | None => if of_type t m then Some m else None
      end
  end.

(** The last member of the first type of [lower] that has a member. *)
Fixpoint best_last (lower : list string) (ms : list member) : option member :=
  match lower with
  | [] => None
  | t :: ts =>
      match last_of t ms with
      | Some x => Some x
      | None => best_last ts ms
      end
  end.

(** The primary by a table [top > lower]: the first member of the top
    type, else the last member of the highest type present. *)
Definition primary_by_table (top : string) (lower : list string) (ms : list member)
    : option member :=
  match find (of_type top) ms with
  | Some m => Some m
  | None => best_last lower ms
  end.

(** The tables the scans implement below their guards. *)
Definition priority_table (lineType : string) : option (string * list string) :=
  if lineType =? "ElecLine" then Some ("LoadC", ["LoadS"; "GenC"; "GenS"])
  else if lineType =? "OilRefPipe" then Some ("OilPort", ["OilTerminal"; "OilRefinery"])
  else if (lineType =? "OilCrudePipe") || (lineType =? "oilCPipe")
          || (lineType =? "oilCrudePipe")
  then Some ("OilPort", ["OilTerminal"; "OilRefinery"])
  else if lineType =? "CoalRailroad" then Some ("CoalDock", ["CoalSource"])
  else None.

(** The place of a type among the lower types. *)
Fixpoint rank (lower : list string) (ty : string) : option nat :=
  match lower with
  | [] => None
  | t :: ts => if ty =? t then Some 0 else option_map S (rank ts ty)
  end.

(** The scans, as one scan over a table: a member of the top type ends
    it; a member of a lower type is taken unless the current primary has
    one of the types above it. *)
Fixpoint scan_table (top : string) (lower : list string) (ns : list member)
    (st : @AMES.primary_state F) : @AMES.primary_state F :=
  match ns with
  | [] => st
  | (idx, node) :: rest =>
      let ty := Node.nodeType node in
      let pt := snd (fst st) in
      if ty =? top then (Some node, pt, Some idx)
      else
        match rank lower ty with
        | Some r =>
            if forallb (fun t => negb (AMES.type_is pt t)) (firstn r lower)
            then scan_table top lower rest (AMES.pick idx node)
            else scan_table top lower rest st
        | None => scan_table top lower rest st
        end
  end.

Definition state_of (cur : option member) : @AMES.primary_state F :=
  match cur with
  | Some (i, n) => AMES.pick i n
  | None => (None, None, None)
  end.

Definition answer (st : @AMES.primary_state F) : option NodeQ * option nat :=
  (fst (fst st), snd st).

Definition out (r : option member) : option NodeQ * option nat :=
  match r with
  | Some (i, n) => (Some n, Some i)
  | None => (None, None)
  end.

Definition opt_list (cur : option member) : list member :=
  match cur with
  | Some c => [c]
  | None => []
  end.

Lemma scan_ElecLine_table (ns : list member) : forall st,
  AMES.scan_ElecLine ns st = scan_table "LoadC" ["LoadS"; "GenC"; "GenS"] ns st.
Proof.
  induction ns as [|[idx node] rest IH]; intros st; [reflexivity|].
  cbn [AMES.scan_ElecLine scan_table rank].
  destruct (Node.nodeType node =? "LoadC"); [reflexivity|].
  destruct (Node.nodeType node =? "LoadS"); [apply IH|].
  destruct (Node.nodeType node =? "GenC"), (Node.nodeType node =? "GenS");
    cbn [option_map firstn forallb];
    destruct (AMES.type_is (snd (fst st)) "LoadS"),
      (AMES.type_is (snd (fst st)) "GenC");
    cbn [andb negb]; apply IH.
Qed.

Lemma scan_OilPipe_table (ns : list member) : forall st,
  AMES.scan_OilPipe ns st = scan_table "OilPort" ["OilTerminal"; "OilRefinery"] ns st.
Proof.
  induction ns as [|[idx node] rest IH]; intros st; [reflexivity|].
  cbn [AMES.scan_OilPipe scan_table rank].
  destruct (Node.nodeType node =? "OilPort"); [reflexivity|].
  destruct (Node.nodeType node =? "OilTerminal"); [apply IH|].
  destruct (Node.nodeType node =? "OilRefinery");
    cbn [option_map firstn forallb];
    destruct (AMES.type_is (snd (fst st)) "OilTerminal");
    cbn [andb negb]; apply IH.
Qed.

Lemma scan_CoalRailroad_table (ns : list member) : forall st,
  AMES.scan_CoalRailroad ns st = scan_table "CoalDock" ["CoalSource"] ns st.
Proof.
  induction ns as [|[idx node] rest IH]; intros st; [reflexivity|].
  cbn [AMES.scan_CoalRailroad scan_table rank].
  destruct (Node.nodeType node =? "CoalDock"); [reflexivity|].
  destruct (Node.nodeType node =? "CoalSource"); [apply IH|].
  apply IH.
Qed.
Lemma last_of_hit (t : string) (m : member) (rest : list member) :
  of_type t m = true -> exists x, last_of t (m :: rest) = Some x.
Proof.
  intros H. simpl. destruct (last_of t rest); [eauto|]. rewrite H. eauto.
Qed.

Lemma last_of_miss (t : string) (m : member) (rest : list member) :
  of_type t m = false -> last_of t (m :: rest) = last_of t rest.
Proof. intros H. simpl. rewrite H. now destruct (last_of t rest). Qed.

Lemma last_of_skip (t : string) (n : member) (pre rest : list member) :
  of_type t n = false -> last_of t (pre ++ n :: rest) = last_of t (pre ++ rest).
Proof.
  intros H. induction pre as [|m pre IH]; simpl.
  - rewrite H. now destruct (last_of t rest).
  - now rewrite IH.
Qed.

Lemma best_last_nil (lower : list string) : best_last lower [] = None.
Proof. induction lower; simpl; auto. Qed.

Lemma best_last_single (lower : list string) (c : member) :
  rank lower (Node.nodeType (snd c)) <> None -> best_last lower [c] = Some c.
Proof.
  induction lower as [|t ts IH]; simpl; [congruence|].
  unfold of_type. destruct (Node.nodeType (snd c) =? t); [reflexivity|].
  intros H. apply IH. destruct (rank ts (Node.nodeType (snd c))); [discriminate|].
  now simpl in H.
Qed.

(** A member of no lower type does not count. *)
Lemma best_last_skip (lower : list string) (n : member) (pre rest : list member) :
  rank lower (Node.nodeType (snd n)) = None ->
  best_last lower (pre ++ n :: rest) = best_last lower (pre ++ rest).
Proof.
  induction lower as [|t ts IH]; simpl; [reflexivity|].
  destruct (Node.nodeType (snd n) =? t) eqn:E; [discriminate|].
  intros H. rewrite (last_of_skip t n pre rest E).
  destruct (last_of t (pre ++ rest)); [reflexivity|].
  apply IH. now destruct (rank ts (Node.nodeType (snd n))).
Qed.

(** Of a current primary [c] and a later member [n] of a lower type,
    one does not count: [c] when it has none of the types above that of
    [n], else [n]. *)
Lemma best_last_step (lower : list string) :
  forall (r : nat) (c n : member) (rest : list member),
  rank lower (Node.nodeType (snd n)) = Some r ->
  best_last lower (c :: n :: rest) =
  if forallb (fun t => negb (Node.nodeType (snd c) =? t)) (firstn r lower)
  then best_last lower (n :: rest) else best_last lower (c :: rest).
Proof.
  induction lower as [|t ts IH]; intros r c n rest Hr; [discriminate|].
  cbn [rank] in Hr. cbn [best_last].
  destruct (Node.nodeType (snd n) =? t) eqn:En.
  - injection Hr as <-. cbn [firstn forallb].
    destruct (last_of_hit t n rest En) as [x Hx].
    rewrite Hx. simpl in Hx |- *. now rewrite Hx.
  - destruct (rank ts (Node.nodeType (snd n))) as [r'|] eqn:Er; [|discriminate].
    injection Hr as <-. cbn [firstn forallb].
    change (last_of t (c :: n :: rest)) with (last_of t ([c] ++ n :: rest)).
    rewrite (last_of_skip t n [c] rest En). cbn [app].
    rewrite (last_of_miss t n rest En).
    destruct (Node.nodeType (snd c) =? t) eqn:Ec; cbn [negb andb].
    + destruct (last_of_hit t c rest Ec) as [x Hx]. now rewrite Hx.
    + rewrite (last_of_miss t c rest Ec).
      destruct (last_of t rest).
      * now destruct (forallb _ _).
      * now apply IH.
Qed.

Lemma guard_none (l : list string) :
  forallb (fun t => negb (AMES.type_is None t)) l = true.
Proof. induction l; simpl; auto. Qed.

(** The scan over a table returns the primary by that table, the current
    primary counting as a member met before the others. *)
Lemma scan_table_spec (top : string) (lower : list string) (ns : list member) :
  forall cur : option member,
  (forall c, cur = Some c ->
     of_type top c = false /\ rank lower (Node.nodeType (snd c)) <> None) ->
  answer (scan_table top lower ns (state_of cur)) =
  out (primary_by_table top lower (opt_list cur ++ ns)).
Proof.
  induction ns as [|[idx node] rest IH]; intros cur Hcur.
  - rewrite app_nil_r. destruct cur as [[i c]|]; simpl.
    + destruct (Hcur _ eq_refl) as [Htop Hrank].
      unfold primary_by_table. simpl. rewrite Htop.
      now rewrite (best_last_single lower (i, c) Hrank).
    + unfold primary_by_table. simpl. now rewrite best_last_nil.
  - cbn [scan_table].
    assert (Hfind : forall l, find (of_type top) (opt_list cur ++ l)
                              = find (of_type top) l).
    { intros l. destruct cur as [c|]; [|reflexivity]. simpl.
      now rewrite (proj1 (Hcur _ eq_refl)). }
    unfold primary_by_table. rewrite Hfind.
    destruct (Node.nodeType node =? top) eqn:Etop.
    { simpl. unfold of_type at 1. simpl. now rewrite Etop. }
    cbn [find]. unfold of_type at 1. cbn [snd]. rewrite Etop.
    destruct (rank lower (Node.nodeType node)) as [r|] eqn:Er.
    + assert (Hn : forall c, Some (idx, node) = Some c ->
                of_type top c = false /\ rank lower (Node.nodeType (snd c)) <> None).
      { intros c Hc. injection Hc as <-. unfold of_type. simpl.
        split; [assumption | congruence]. }
      destruct cur as [[i c]|].
      * change (AMES.pick idx node) with (state_of (Some (idx, node))).
        change (snd (fst (state_of (Some (i, c))))) with (Some (Node.nodeType c)).
        cbn [opt_list app AMES.type_is].
        rewrite (best_last_step lower r (i, c) (idx, node) rest Er).
        cbn [snd].
        destruct (forallb (fun t => negb (Node.nodeType c =? t)) (firstn r lower)).
        -- rewrite (IH (Some (idx, node)) Hn).
           unfold primary_by_table. cbn [opt_list app find].
           unfold of_type at 1. cbn [snd]. now rewrite Etop.
        -- etransitivity; [apply (IH (Some (i, c)) Hcur)|].
           unfold primary_by_table. cbn [opt_list app find].
           now rewrite (proj1 (Hcur _ eq_refl)).
      * change (AMES.pick idx node) with (state_of (Some (idx, node))).
        change (snd (fst (state_of None))) with (@None string).
        cbn [opt_list app]. rewrite guard_none.
        rewrite (IH (Some (idx, node)) Hn).
        unfold primary_by_table. cbn [opt_list app find].
        unfold of_type at 1. cbn [snd]. now rewrite Etop.
    + rewrite (IH cur Hcur). unfold primary_by_table. rewrite Hfind.
      now rewrite (best_last_skip lower (idx, node) (opt_list cur) rest Er).
Qed.

(** The gas scan stops at the first receipt-and-delivery point. *)
Lemma scan_NGPipe_top (ns : list member) : forall st (i : nat) (n : NodeQ),
  find (of_type "NGReceiptDelivery") ns = Some (i, n) ->
  answer (AMES.scan_NGPipe ns st) = (Some n, Some i).
Proof.
  induction ns as [|[idx node] rest IH]; intros st i n H; [discriminate|].
  cbn [find] in H. unfold of_type at 1 in H. cbn [snd] in H.
  cbn [AMES.scan_NGPipe].
  destruct (Node.nodeType node =? "NGReceiptDelivery").
  - injection H as <- <-. reflexivity.
  - destruct (Node.nodeType node =? "NGProcessor"); [now apply IH|].
    destruct ((Node.nodeType node =? "compressor")
              && negb (AMES.type_is (snd (fst st)) "NGProcessor")); now apply IH.
Qed.
End PriorityFacts.

Section PrimaryChoice.
Context {F : Type} {AF : Arith F}.
Local Open Scope string_scope.
Local Open Scope list_scope.

(** For an electric line, an oil pipe and a coal railroad,
    [findClusterPrimary] returns the primary by the table of the line
    type: the first-discovered member of the top type (LoadC, OilPort,
    CoalDock) when there is one, and otherwise the last-discovered
    member of the highest type present (LoadS > GenC > GenS;
    OilTerminal > OilRefinery; CoalSource), nothing when no member has a
    type of the table. For a gas pipe the first-discovered
    NGReceiptDelivery is the primary when there is one. A cluster with
    one buffer row has that buffer for its primary. *)
Lemma findClusterPrimary_by_table :
  (forall (self : @AMES.ames F) (lineType top : string) (lower : list string)
          (nodeIdxs : list nat) (ns : list (@Node.t F)),
     priority_table lineType = Some (top, lower) ->
     py.take (AMES.nodes self) nodeIdxs = Ok ns ->
     AMES.findClusterPrimary self lineType nodeIdxs =
       Ok (out (primary_by_table top lower (combine nodeIdxs ns)))) /\
  (forall (self : @AMES.ames F) (nodeIdxs : list nat) (ns : list (@Node.t F))
          (i : nat) (n : @Node.t F),
     py.take (AMES.nodes self) nodeIdxs = Ok ns ->
     find (of_type "NGReceiptDelivery") (combine nodeIdxs ns) = Some (i, n) ->
     AMES.findClusterPrimary self "NGPipe" nodeIdxs = Ok (Some n, Some i)) /\
  (forall (self : @AMES.ames F) (clusters : list nat) (resourceIdx : list Z)
          (st : @AMES.namer_state F) (ty : string) (cid b : nat) (node : @Node.t F),
     py.dict_get Nat.eqb (AMES.clusterPrimary st) cid = None ->
     AMES.cluster_buffers self clusters resourceIdx cid = Ok [b] ->
     py.get (AMES.nodes self) b = Ok node ->
     exists st',
       AMES.name_cluster self clusters resourceIdx st ty (ClId cid) = Ok (st', node)).
Proof.
  split; [|split].
  - intros self lineType top lower nodeIdxs ns Htable Htake.
    unfold AMES.findClusterPrimary. rewrite Htake. cbn [bind]. f_equal.
    assert (Hspec : forall top' lower',
              answer (scan_table top' lower' (combine nodeIdxs ns) (None, None, None))
              = out (primary_by_table top' lower' (combine nodeIdxs ns))).
    { intros top' lower'.
      apply (scan_table_spec top' lower' (combine nodeIdxs ns) None).
      intros c Hc. discriminate. }
    destruct (lineType =? "NGPipe") eqn:E2.
    { apply String.eqb_eq in E2. subst lineType. discriminate. }
    unfold priority_table in Htable.
    destruct (lineType =? "ElecLine").
    { injection Htable as <- <-. rewrite scan_ElecLine_table. apply Hspec. }
    destruct (lineType =? "OilRefPipe").
    { injection Htable as <- <-. rewrite scan_OilPipe_table. apply Hspec. }
    destruct ((lineType =? "OilCrudePipe") || (lineType =? "oilCPipe")
              || (lineType =? "oilCrudePipe")).
    { injection Htable as <- <-. rewrite scan_OilPipe_table. apply Hspec. }
    destruct (lineType =? "CoalRailroad"); [|discriminate].
    injection Htable as <- <-. rewrite scan_CoalRailroad_table. apply Hspec.
  - intros self nodeIdxs ns i n Htake Hfind.
    unfold AMES.findClusterPrimary. rewrite Htake. cbn [bind]. f_equal.
    change ("NGPipe" =? "ElecLine") with false.
    change ("NGPipe" =? "NGPipe") with true. cbv iota.
    now apply scan_NGPipe_top.
  - intros self clusters resourceIdx st ty cid b node Hnew Hbufs Hget.
    unfold AMES.name_cluster. rewrite Hnew, Hbufs. cbn [bind length Nat.ltb Nat.leb].
    cbn [py.take]. rewrite Hget. cbn [bind]. eexists. reflexivity.
Qed.
End PrimaryChoice.

Module PrimaryExamples.
Local Open Scope string_scope.
Local Open Scope list_scope.

(** Two substations of one kind in an electric cluster. *)
Definition north : @Node.t float :=
  AmesExamples.buffer "North Sub" "LoadS" (-73.5)%float 44.5%float
    ["electric power at 132kV"] [] ["NY"].
Definition south : @Node.t float :=
  AmesExamples.buffer "South Sub" "LoadS" (-73.5)%float 44.5%float
    ["electric power at 132kV"] [] ["NY"].

Definition system : @AMES.ames float :=
  AMES.mkAmes [north; south] [] ["electric power at 132kV"] None None None None.
End PrimaryExamples.

(** Of two substations of the same kind the first discovered is
    [north], at index 0; [findClusterPrimary] returns [south], at index
    1: below the top type a later member of the same type replaces an
    earlier one. ([condenseClusterBuffers] leaves one buffer of a type in
    a cluster, so the namer does not meet such a cluster.) *)
Example findClusterPrimary_same_type :
  find (of_type "LoadS")
       (combine [0; 1] [PrimaryExamples.north; PrimaryExamples.south])
    = Some (0, PrimaryExamples.north) /\
  find (of_type "LoadC")
       (combine [0; 1] [PrimaryExamples.north; PrimaryExamples.south]) = None /\
  AMES.findClusterPrimary PrimaryExamples.system "ElecLine" [0; 1]
    = Ok (Some PrimaryExamples.south, Some 1).
Proof. repeat split; reflexivity. Qed.

Section PrimaryByClaim.
Context {F : Type} {AF : Arith F}.
Local Open Scope string_scope.
Local Open Scope list_scope.

(** The selection in the words of the priority table: the
    first-discovered member of the first type of the list that has a
    member. *)
Fixpoint best_first (types : list string) (ms : list (@member F)) : option (@member F) :=
  match types with
  | [] => None
  | t :: ts =>
      match find (of_type t) ms with
      | Some m => Some m
      | None => best_first ts ms
      end
  end.

(** The gas row of the table, NGReceiptDelivery > NGProcessor >
    Compressor > any: failing the three types, the first-discovered
    member. *)
Definition claimed_gas_primary (ms : list (@member F)) : option (@member F) :=
  match best_first ["NGReceiptDelivery"; "NGProcessor"; "Compressor"] ms with
  | Some m => Some m
  | None => hd_error ms
  end.

(** The types of the members of a cluster. *)
Definition member_types (ms : list (@member F)) : list string :=
  map (fun m => Node.nodeType (snd m)) ms.

Lemma last_of_find (t : string) (ms : list (@member F)) :
  NoDup (member_types ms) -> last_of t ms = find (of_type t) ms.
Proof.
  induction ms as [|m rest IH]; intros Hnd; [reflexivity|].
  inversion Hnd as [|? ? Hnot Hnd']; subst.
  cbn [last_of find]. rewrite (IH Hnd').
  destruct (of_type t m) eqn:Em.
  - destruct (find (of_type t) rest) as [x|] eqn:Ef; [|reflexivity].
    apply find_some in Ef. destruct Ef as [Hin Hx].
    unfold of_type in Em, Hx. apply String.eqb_eq in Em, Hx.
    exfalso. apply Hnot. rewrite Em, <- Hx.
    apply (in_map (fun m0 : @member F => Node.nodeType (snd m0))). exact Hin.
  - now destruct (find (of_type t) rest).
Qed.

Lemma best_last_first (lower : list string) (ms : list (@member F)) :
  NoDup (member_types ms) -> best_last lower ms = best_first lower ms.
Proof.
  intros Hnd. induction lower as [|t ts IH]; [reflexivity|].
  cbn [best_last best_first]. rewrite (last_of_find t ms Hnd), IH. reflexivity.
Qed.

(** Without a receipt-and-delivery point every branch of the gas scan
    takes the member at hand, so the last one is left. *)
Lemma scan_NGPipe_last (pre : list (@member F)) : forall st (i : nat) (n : @Node.t F),
  find (of_type "NGReceiptDelivery") (pre ++ [(i, n)]) = None ->
  answer (AMES.scan_NGPipe (pre ++ [(i, n)]) st) = (Some n, Some i).
Proof.
  induction pre as [|[idx node] rest IH]; intros st i n H.
  - cbn [app find] in H. unfold of_type in H. cbn [snd] in H.
    cbn [app AMES.scan_NGPipe].
    destruct (Node.nodeType n =? "NGReceiptDelivery"); [discriminate|].
    destruct (Node.nodeType n =? "NGProcessor"); [reflexivity|].
    destruct ((Node.nodeType n =? "compressor")
              && negb (AMES.type_is (snd (fst st)) "NGProcessor")); reflexivity.
  - cbn [app find] in H. unfold of_type at 1 in H. cbn [snd] in H.
    cbn [app AMES.scan_NGPipe].
    destruct (Node.nodeType node =? "NGReceiptDelivery"); [discriminate|].
    destruct (Node.nodeType node =? "NGProcessor"); [now apply IH|].
    destruct ((Node.nodeType node =? "compressor")
              && negb (AMES.type_is (snd (fst st)) "NGProcessor")); now apply IH.
Qed.

(** C5, the defect. On a cluster whose buffers have pairwise distinct
    types (what [condenseClusterBuffers] leaves), [findClusterPrimary]
    returns, for an electric line, an oil pipe and a coal railroad, the
    first-discovered member of the highest type of the priority table
    that has a member, as the claim says; and for a gas pipe the
    first-discovered NGReceiptDelivery when there is one. For a gas pipe
    without an NGReceiptDelivery it returns the last-discovered member
    whatever its type: the final [else] of the gas scan (lines
    1035-1038) takes any buffer, also when the primary so far is an
    NGProcessor, and the compressor case tests ['compressor'] in lower
    case. *)
Theorem findClusterPrimary_gas_last (self : @AMES.ames F) (nodeIdxs : list nat)
    (ns : list (@Node.t F)) :
  py.take (AMES.nodes self) nodeIdxs = Ok ns ->
  NoDup (member_types (combine nodeIdxs ns)) ->
  (forall lineType top lower,
     priority_table lineType = Some (top, lower) ->
     AMES.findClusterPrimary self lineType nodeIdxs =
       Ok (out (best_first (top :: lower) (combine nodeIdxs ns)))) /\
  (forall i n,
     find (of_type "NGReceiptDelivery") (combine nodeIdxs ns) = Some (i, n) ->
     AMES.findClusterPrimary self "NGPipe" nodeIdxs = Ok (Some n, Some i)) /\
  (forall pre i n,
     find (of_type "NGReceiptDelivery") (combine nodeIdxs ns) = None ->
     combine nodeIdxs ns = pre ++ [(i, n)] ->
     AMES.findClusterPrimary self "NGPipe" nodeIdxs = Ok (Some n, Some i)).
Proof.
  intros Htake Hnd. split; [|split].
  - intros lineType top lower Htable.
    rewrite (proj1 findClusterPrimary_by_table self lineType top lower nodeIdxs ns
               Htable Htake).
    unfold primary_by_table. cbn [best_first].
    now rewrite (best_last_first lower _ Hnd).
  - intros i n Hfind.
    exact (proj1 (proj2 findClusterPrimary_by_table) self nodeIdxs ns i n Htake Hfind).
  - intros pre i n Hfind Hlast.
    unfold AMES.findClusterPrimary. rewrite Htake. cbn [bind]. f_equal.
    change ("NGPipe" =? "ElecLine") with false.
    change ("NGPipe" =? "NGPipe") with true. cbv iota.
    rewrite Hlast in *. now apply scan_NGPipe_last.
Qed.
End PrimaryByClaim.

(** A gas cluster with a processor, discovered first, and a storage:
    two buffers of different types, none an NGReceiptDelivery. By the
    table the primary is the processor; [findClusterPrimary] returns the
    storage. *)
Lemma findClusterPrimary_gas_last_witness :
  let ms := combine [0; 1] [AmesExamples.gas_plant; AmesExamples.gas_store] in
  NoDup (member_types ms) /\
  claimed_gas_primary ms = Some (0, AmesExamples.gas_plant) /\
  AMES.findClusterPrimary
    (AmesExamples.gas_system [AmesExamples.gas_plant; AmesExamples.gas_store])
    "NGPipe" [0; 1]
  = Ok (Some AmesExamples.gas_store, Some 1).
Proof.
  cbv zeta.
  assert (Hnd : NoDup (member_types
                  (combine [0; 1] [AmesExamples.gas_plant; AmesExamples.gas_store]))).
  { repeat constructor; simpl; intuition discriminate. }
  split; [exact Hnd|]. split; [reflexivity|].
  exact (proj2 (proj2
    (findClusterPrimary_gas_last
       (AmesExamples.gas_system [AmesExamples.gas_plant; AmesExamples.gas_store])
       [0; 1] [AmesExamples.gas_plant; AmesExamples.gas_store] eq_refl Hnd))
    [(0, AmesExamples.gas_plant)] 1 AmesExamples.gas_store eq_refl eq_refl).
Defined.

(* ------------------------------------------------------------------ *)
(** * Further facts on [AMES.py] *)

Lemma take_get (A : Type) (l : list A) (idx : list nat) : forall rs : list A,
  py.take l idx = Ok rs -> Forall2 (fun i a => nth_error l i = Some a) idx rs.
Proof.
  induction idx as [|i idx IH]; intros rs H; simpl in H.
  - injection H as <-. constructor.
  - apply bind_ok in H. destruct H as [a [Ha H]].
    apply bind_ok in H. destruct H as [r [Hr H]]. injection H as <-.
    constructor; [now apply get_nth_error | now apply IH].
Qed.

Lemma take_raise (A : Type) (l : list A) (idx : list nat) :
  (exists i, In i idx /\ length l <= i) -> py.take l idx = Raise IndexError.
Proof.
  induction idx as [|j idx IH]; intros [i [Hin Hi]]; [destruct Hin|].
  simpl. unfold py.get at 1. destruct (nth_error l j) as [a|] eqn:E; simpl.
  - destruct Hin as [->|Hin].
    + apply nth_error_None in Hi. congruence.
    + rewrite IH by eauto. reflexivity.
  - reflexivity.
Qed.

Lemma combine_get (A : Type) (l : list A) (idx : list nat) (rs : list A) :
  Forall2 (fun i a => nth_error l i = Some a) idx rs ->
  forall i a, In (i, a) (combine idx rs) -> In i idx /\ nth_error l i = Some a.
Proof.
  induction 1 as [|j b idx rs Hj Hall IH]; intros i a Hin; [destruct Hin|].
  destruct Hin as [Heq|Hin].
  - injection Heq as <- <-. split; [now left | assumption].
  - destruct (IH i a Hin). split; [now right | assumption].
Qed.

Section ScanFacts.
Context {F : Type} {AF : Arith F}.
Local Open Scope string_scope.
Local Open Scope list_scope.

(** What a scan holds at any time: nothing, or a member met so far. *)
Definition scan_holds (all : list (@member F)) (st : @AMES.primary_state F) : Prop :=
  answer st = (None, None) \/
  exists i n, answer st = (Some n, Some i) /\ In (i, n) all.

Lemma scan_table_holds (top : string) (lower : list string) (all : list (@member F)) :
  forall ns st, incl ns all -> scan_holds all st ->
  scan_holds all (scan_table top lower ns st).
Proof.
  induction ns as [|[idx node] rest IH]; intros st Hincl Hst; [assumption|].
  assert (Hrest : incl rest all) by (intros x Hx; apply Hincl; now right).
  assert (Hpick : scan_holds all (AMES.pick idx node)).
  { right. exists idx, node. split; [reflexivity|]. apply Hincl. now left. }
  cbn [scan_table].
  destruct (Node.nodeType node =? top).
  { right. exists idx, node. split; [reflexivity|]. apply Hincl. now left. }
  destruct (rank lower (Node.nodeType node)); [|now apply IH].
  destruct (forallb _ _); now apply IH.
Qed.

Lemma scan_NGPipe_holds (all : list (@member F)) :
  forall ns st, incl ns all -> scan_holds all st ->
  scan_holds all (AMES.scan_NGPipe ns st).
Proof.
  induction ns as [|[idx node] rest IH]; intros st Hincl Hst; [assumption|].
  assert (Hrest : incl rest all) by (intros x Hx; apply Hincl; now right).
  assert (Hpick : scan_holds all (AMES.pick idx node)).
  { right. exists idx, node. split; [reflexivity|]. apply Hincl. now left. }
  cbn [AMES.scan_NGPipe].
  destruct (Node.nodeType node =? "NGReceiptDelivery").
  { right. exists idx, node. split; [reflexivity|]. apply Hincl. now left. }
  destruct (Node.nodeType node =? "NGProcessor"); [now apply IH|].
  destruct ((Node.nodeType node =? "compressor") && _); now apply IH.
Qed.

(** X1. Whatever the line type, [findClusterPrimary] returns either no
    primary at all or one of the members it was given, with that
    member's own index; a line type without a branch and an empty member
    list give no primary; an index outside [self.nodes] raises
    IndexError before any member is looked at. *)
Theorem findClusterPrimary_returns_member (self : @AMES.ames F) (lineType : string)
    (nodeIdxs : list nat) :
  (forall r, AMES.findClusterPrimary self lineType nodeIdxs = Ok r ->
     r = (None, None) \/
     exists n i, r = (Some n, Some i) /\ In i nodeIdxs /\
                 nth_error (AMES.nodes self) i = Some n) /\
  ((exists i, In i nodeIdxs /\ length (AMES.nodes self) <= i) ->
     AMES.findClusterPrimary self lineType nodeIdxs = Raise IndexError) /\
  (AMES.findClusterPrimary self lineType [] = Ok (None, None)) /\
  (priority_table lineType = None -> lineType <> "NGPipe" ->
   Forall (fun i => i < length (AMES.nodes self)) nodeIdxs ->
   AMES.findClusterPrimary self lineType nodeIdxs = Ok (None, None)).
Proof.
  split; [|split; [|split]].
  - intros r H. unfold AMES.findClusterPrimary in H.
    apply bind_ok in H. destruct H as [ns [Hns H]]. injection H as <-.
    pose proof (combine_get _ _ _ _ (take_get _ _ _ _ Hns)) as Hmem.
    set (all := combine nodeIdxs ns) in *.
    assert (H0 : scan_holds all (None, None, None)) by (left; reflexivity).
    assert (Hgood : forall st, scan_holds all st ->
              answer st = (None, None) \/
              exists n i, answer st = (Some n, Some i) /\ In i nodeIdxs /\
                          nth_error (AMES.nodes self) i = Some n).
    { intros st [Hst|[i [n [Hst Hin]]]]; [now left|].
      right. exists n, i. destruct (Hmem i n Hin). auto. }
    apply Hgood.
    destruct (lineType =? "ElecLine").
    { rewrite scan_ElecLine_table. apply scan_table_holds; [apply incl_refl | exact H0]. }
    destruct (lineType =? "NGPipe").
    { apply scan_NGPipe_holds; [apply incl_refl | exact H0]. }
    destruct (lineType =? "OilRefPipe").
    { rewrite scan_OilPipe_table. apply scan_table_holds; [apply incl_refl | exact H0]. }
    destruct ((lineType =? "OilCrudePipe") || (lineType =? "oilCPipe")
              || (lineType =? "oilCrudePipe")).
    { rewrite scan_OilPipe_table. apply scan_table_holds; [apply incl_refl | exact H0]. }
    destruct (lineType =? "CoalRailroad"); [|exact H0].
    rewrite scan_CoalRailroad_table. apply scan_table_holds; [apply incl_refl | exact H0].
  - intros Hout. unfold AMES.findClusterPrimary.
    now rewrite (take_raise _ _ _ Hout).
  - unfold AMES.findClusterPrimary. simpl.
    destruct (lineType =? "ElecLine"); [reflexivity|].
    destruct (lineType =? "NGPipe"); [reflexivity|].
    destruct (lineType =? "OilRefPipe"); [reflexivity|].
    destruct ((lineType =? "OilCrudePipe") || (lineType =? "oilCPipe")
              || (lineType =? "oilCrudePipe")); [reflexivity|].
    destruct (lineType =? "CoalRailroad"); reflexivity.
  - intros Htable Hng Hin. unfold AMES.findClusterPrimary.
    destruct (take_ok (AMES.nodes self) nodeIdxs Hin) as [ns ->]. cbn [bind].
    unfold priority_table in Htable.
    destruct (lineType =? "ElecLine"); [discriminate|].
    destruct (String.eqb_spec lineType "NGPipe") as [E|_]; [contradiction|].
    destruct (lineType =? "OilRefPipe"); [discriminate|].
    destruct ((lineType =? "OilCrudePipe") || (lineType =? "oilCPipe")
              || (lineType =? "oilCrudePipe")); [discriminate|].
    destruct (lineType =? "CoalRailroad"); [discriminate|]. reflexivity.
Qed.
End ScanFacts.

Lemma findClusterPrimary_returns_member_witness :
  AMES.findClusterPrimary PrimaryExamples.system "ElecLine" [0; 7] = Raise IndexError.
Proof.
  refine (proj1 (proj2 (@findClusterPrimary_returns_member float
            PrimaryExamples.system "ElecLine"%string [0; 7])) _).
  exists 7. split; [simpl; auto | simpl; lia].
Defined.

Section LinkCount.
Context {F : Type} {AF : Arith F}.
Local Open Scope string_scope.
Local Open Scope list_scope.

(** A visit that yields nothing leaves the switch without a new object. *)
Lemma link_create_silent (st : @AMES.link_state F) (lineType : string) (cluster : nat)
    (primaryNode currentNode : @Node.t F) :
  connector_refs (lineType, cluster, primaryNode, currentNode) = Ok [] ->
  AMES.link_create st lineType primaryNode currentNode = Ok st.
Proof.
  unfold connector_refs, AMES.link_create. cbv zeta.
  destruct (lineType =? "ElecLine").
  { destruct (AMES.node_refs currentNode) as [cur|e]; simpl; [|discriminate].
    destruct (py.mem "electric power at 132kV" cur); [discriminate | reflexivity]. }
  destruct (lineType =? "NGPipe"), (lineType =? "OilRefPipe"),
    (lineType =? "OilCrudePipe"), (lineType =? "oilCrudePipe"),
    (lineType =? "CoalRailroad"); cbn [orb];
    try reflexivity;
    (destruct (AMES.node_refs primaryNode) as [pri|e]; simpl; [|discriminate];
     destruct (AMES.node_refs currentNode) as [cur|e']; simpl; [|discriminate];
     intros H; injection H as ->; reflexivity).
Qed.

Lemma link_buffer_refs (self : @AMES.ames F) (lineType : string)
    (cluster primaryNodeIdx : nat) (primaryNode : @Node.t F)
    (st st' : @AMES.link_state F) (nodeIdx : nat) :
  AMES.link_buffer self lineType cluster primaryNodeIdx primaryNode st nodeIdx = Ok st' ->
  length (AMES.refs st') =
  length (AMES.refs st) + (if (primaryNodeIdx =? nodeIdx)%nat then 0 else 1).
Proof.
  unfold AMES.link_buffer. intros H.
  destruct (primaryNodeIdx =? nodeIdx)%nat; [injection H as <-; lia|].
  apply bind_ok in H. destruct H as [currentNode [Hcur H]].
  apply bind_ok in H. destruct H as [st1 [Hc H]].
  apply link_create_grows in Hc. destruct Hc as [Hrefs _].
  unfold AMES.link_finish in H.
  destruct (AMES.new_instance st1) as [ref|]; [|discriminate].
  apply bind_ok in H. destruct H as [l [Hl H]]. injection H as <-. simpl.
  rewrite length_app, Hrefs. reflexivity.
Qed.

Lemma link_buffers_count (self : @AMES.ames F) (lineType : string)
    (cluster primaryNodeIdx : nat) (primaryNode : @Node.t F) (bufs : list nat) :
  forall (st st' : @AMES.link_state F) (vs : list (@visit F)),
  foldM (AMES.link_buffer self lineType cluster primaryNodeIdx primaryNode) bufs st
    = Ok st' ->
  visits_of self lineType cluster primaryNodeIdx primaryNode bufs = Ok vs ->
  length (AMES.refs st') = length (AMES.refs st) + length vs.
Proof.
  induction bufs as [|nodeIdx rest IH]; intros st st' vs H Hv; simpl in H, Hv.
  - injection H as <-. injection Hv as <-. simpl. lia.
  - apply bind_ok in H. destruct H as [st1 [H1 H]].
    apply link_buffer_refs in H1.
    destruct (primaryNodeIdx =? nodeIdx)%nat.
    + rewrite (IH _ _ _ H Hv). lia.
    + apply bind_ok in Hv. destruct Hv as [cur [Hcur Hv]].
      apply bind_ok in Hv. destruct Hv as [ws [Hws Hv]]. injection Hv as <-.
      rewrite (IH _ _ _ H Hws). simpl. lia.
Qed.

Lemma link_clusters_count (self : @AMES.ames F) (clusters : list nat)
    (resourceIdx : list Z) (radial : list (nat * (string * nat))) :
  forall (st st' : @AMES.link_state F) (vs : list (@visit F)),
  foldM (AMES.link_cluster self clusters resourceIdx) radial st = Ok st' ->
  link_visits self clusters resourceIdx radial = Ok vs ->
  length (AMES.refs st') = length (AMES.refs st) + length vs.
Proof.
  induction radial as [|[pidx [lineType cluster]] rest IH];
    intros st st' vs H Hv; simpl in H, Hv.
  - injection H as <-. injection Hv as <-. simpl. lia.
  - apply bind_ok in H. destruct H as [st1 [H1 H]].
    unfold AMES.link_cluster in H1.
    apply bind_ok in H1. destruct H1 as [pn [Hpn H1]].
    apply bind_ok in H1. destruct H1 as [bufs [Hbufs H1]].
    rewrite Hpn, Hbufs in Hv. cbn [bind] in Hv.
    apply bind_ok in Hv. destruct Hv as [v1 [Hv1 Hv]].
    apply bind_ok in Hv. destruct Hv as [w1 [Hw1 Hv]]. injection Hv as <-.
    rewrite (IH _ _ _ H Hw1), (link_buffers_count _ _ _ _ _ _ _ _ _ H1 Hv1).
    rewrite length_app. lia.
Qed.

Lemma link_buffers_unbound (self : @AMES.ames F) (lineType : string)
    (cluster primaryNodeIdx : nat) (primaryNode : @Node.t F) (bufs : list nat) :
  forall (st : @AMES.link_state F) (v : @visit F) (vs : list (@visit F)),
  AMES.new_instance st = None ->
  visits_of self lineType cluster primaryNodeIdx primaryNode bufs = Ok (v :: vs) ->
  connector_refs v = Ok [] ->
  foldM (AMES.link_buffer self lineType cluster primaryNodeIdx primaryNode) bufs st
    = Raise UnboundLocalError.
Proof.
  induction bufs as [|nodeIdx rest IH]; intros st v vs Hnone Hv Hsilent;
    simpl in Hv; [discriminate|].
  simpl. unfold AMES.link_buffer at 1.
  destruct (primaryNodeIdx =? nodeIdx)%nat; simpl; [now apply (IH st v vs)|].
  apply bind_ok in Hv. destruct Hv as [cur [Hcur Hv]].
  apply bind_ok in Hv. destruct Hv as [ws [Hws Hv]]. injection Hv as <- <-.
  rewrite Hcur. simpl. rewrite (link_create_silent st _ _ _ _ Hsilent). simpl.
  unfold AMES.link_finish. now rewrite Hnone.
Qed.

Lemma link_buffers_idle (self : @AMES.ames F) (lineType : string)
    (cluster primaryNodeIdx : nat) (primaryNode : @Node.t F) (bufs : list nat) :
  forall st : @AMES.link_state F,
  visits_of self lineType cluster primaryNodeIdx primaryNode bufs = Ok [] ->
  foldM (AMES.link_buffer self lineType cluster primaryNodeIdx primaryNode) bufs st
    = Ok st.
Proof.
  induction bufs as [|nodeIdx rest IH]; intros st Hv; simpl in Hv; [reflexivity|].
  simpl. unfold AMES.link_buffer at 1.
  destruct (primaryNodeIdx =? nodeIdx)%nat; simpl; [now apply IH|].
  apply bind_ok in Hv. destruct Hv as [cur [Hcur Hv]].
  apply bind_ok in Hv. destruct Hv as [ws [Hws Hv]]. discriminate.
Qed.

Lemma link_clusters_unbound (self : @AMES.ames F) (clusters : list nat)
    (resourceIdx : list Z) (radial : list (nat * (string * nat))) :
  forall (st : @AMES.link_state F) (v : @visit F) (vs : list (@visit F)),
  AMES.new_instance st = None ->
  link_visits self clusters resourceIdx radial = Ok (v :: vs) ->
  connector_refs v = Ok [] ->
  foldM (AMES.link_cluster self clusters resourceIdx) radial st
    = Raise UnboundLocalError.
Proof.
  induction radial as [|[pidx [lineType cluster]] rest IH];
    intros st v vs Hnone Hv Hsilent; simpl in Hv; [discriminate|].
  apply bind_ok in Hv. destruct Hv as [pn [Hpn Hv]].
  apply bind_ok in Hv. destruct Hv as [bufs [Hbufs Hv]].
  apply bind_ok in Hv. destruct Hv as [v1 [Hv1 Hv]].
  apply bind_ok in Hv. destruct Hv as [w1 [Hw1 Hv]]. injection Hv as Hv.
  simpl. unfold AMES.link_cluster at 1. rewrite Hpn, Hbufs. cbn [bind].
  destruct v1 as [|v0 v1]; simpl in Hv.
  - rewrite (link_buffers_idle _ _ _ _ _ _ st Hv1). cbn [bind].
    subst w1. now apply (IH st v vs).
  - injection Hv as -> <-.
    now rewrite (link_buffers_unbound _ _ _ _ _ _ st v v1 Hnone Hv1 Hsilent).
Qed.

(** X2. [linkClusterBuffers] never touches the buffers or the lines it
    finds: when it returns, it has appended exactly one line per visited
    non-primary buffer row, whether that buffer yielded a connector or
    not, and each appended line lies inside one cluster. When the very
    first visited buffer yields nothing, there is no line object yet and
    the call raises UnboundLocalError. *)
Theorem linkClusterBuffers_appends (self : @AMES.ames F) (clusters : list nat)
    (resourceIdx : list Z) (radial : list (nat * (string * nat))) :
  (forall self' vs,
     link_visits self clusters resourceIdx radial = Ok vs ->
     AMES.linkClusterBuffers self clusters resourceIdx radial = Ok self' ->
     AMES.nodes self' = AMES.nodes self /\
     exists emitted,
       AMES.lines self' = AMES.lines self ++ emitted /\
       length emitted = length vs /\
       Forall intra_cluster emitted) /\
  (forall v vs,
     link_visits self clusters resourceIdx radial = Ok (v :: vs) ->
     connector_refs v = Ok [] ->
     AMES.linkClusterBuffers self clusters resourceIdx radial
       = Raise UnboundLocalError).
Proof.
  split.
  - intros self' vs Hv H. unfold AMES.linkClusterBuffers in H.
    apply bind_ok in H. destruct H as [st [Hst H]]. injection H as <-.
    split; [reflexivity|]. exists (AMES.link_lines st).
    split; [reflexivity|]. split.
    + unfold AMES.link_lines. rewrite length_map.
      unfold AMES.link_loop in Hst.
      now rewrite (link_clusters_count _ _ _ _ _ _ _ Hst Hv).
    + eapply link_loop_intra; eassumption.
  - intros v vs Hv Hsilent. unfold AMES.linkClusterBuffers, AMES.link_loop.
    now rewrite (link_clusters_unbound self clusters resourceIdx radial
                   AMES.link_state0 v vs eq_refl Hv Hsilent).
Qed.
End LinkCount.

Module UnboundExamples.
Local Open Scope string_scope.
Local Open Scope list_scope.

(** A gas cluster whose two buffers have no refinement in common. *)
Definition well : @Node.t float :=
  AmesExamples.buffer "Well A" "NGProcessor" (-75.1)%float 40.2%float ["raw gas"] [] ["PA"].
Definition store : @Node.t float :=
  AmesExamples.buffer "Store B" "NGStorage" (-75.1)%float 40.2%float
    ["processed gas"] [] ["PA"].

Definition system : @AMES.ames float :=
  AMES.mkAmes [well; store] [] ["raw gas"; "processed gas"] None (Some 0) None None.
End UnboundExamples.

Lemma linkClusterBuffers_appends_witness :
  AMES.linkClusterBuffers UnboundExamples.system [0; 0] [0; 1]%Z
    [(0, ("NGPipe"%string, 0))] = Raise UnboundLocalError.
Proof.
  refine (proj2 (@linkClusterBuffers_appends float UnboundExamples.system
                   [0; 0] [0; 1]%Z [(0, ("NGPipe"%string, 0))])
            ("NGPipe"%string, 0, UnboundExamples.well, UnboundExamples.store) [] _ _);
    vm_compute; reflexivity.
Defined.

Lemma dict_get_set_new (V : Type) (d : list (nat * V)) (k k' : nat) (v : V) :
  py.dict_get Nat.eqb d k = None ->
  py.dict_get Nat.eqb (py.dict_set Nat.eqb d k v) k' =
  if (k =? k')%nat then Some v else py.dict_get Nat.eqb d k'.
Proof.
  induction d as [|[k0 v0] d IH]; simpl; intros H.
  - destruct (Nat.eqb_spec k k'); reflexivity.
  - destruct (Nat.eqb_spec k0 k) as [E|E]; [discriminate|]. simpl.
    destruct (Nat.eqb_spec k0 k') as [E'|E'].
    + destruct (Nat.eqb_spec k k'); [congruence | reflexivity].
    + now apply IH.
Qed.

Section NamingFacts.
Context {F : Type} {AF : Arith F}.
Local Open Scope string_scope.
Local Open Scope list_scope.

Lemma findClusterPrimary_some (self : @AMES.ames F) (lineType : string)
    (nodeIdxs : list nat) (n : @Node.t F) (i : nat) :
  AMES.findClusterPrimary self lineType nodeIdxs = Ok (Some n, Some i) ->
  In i nodeIdxs /\ nth_error (AMES.nodes self) i = Some n.
Proof.
  intros H. unfold AMES.findClusterPrimary in H.
  apply bind_ok in H. destruct H as [ns [Hns H]].
  pose proof (combine_get _ _ _ _ (take_get _ _ _ _ Hns)) as Hmem.
  set (all := combine nodeIdxs ns) in *.
  assert (H0 : scan_holds all (None, None, None)) by (left; reflexivity).
  assert (Hgood : forall st, scan_holds all st -> Ok (answer st) = Ok (Some n, Some i) ->
            In i nodeIdxs /\ nth_error (AMES.nodes self) i = Some n).
  { intros st [Hst|[j [m [Hst Hin]]]] Heq; rewrite Hst in Heq; [discriminate|].
    injection Heq as -> ->. now apply Hmem. }
  revert H. apply Hgood.
  destruct (lineType =? "ElecLine").
  { rewrite scan_ElecLine_table. apply scan_table_holds; [apply incl_refl | exact H0]. }
  destruct (lineType =? "NGPipe").
  { apply scan_NGPipe_holds; [apply incl_refl | exact H0]. }
  destruct (lineType =? "OilRefPipe").
  { rewrite scan_OilPipe_table. apply scan_table_holds; [apply incl_refl | exact H0]. }
  destruct ((lineType =? "OilCrudePipe") || (lineType =? "oilCPipe")
            || (lineType =? "oilCrudePipe")).
  { rewrite scan_OilPipe_table. apply scan_table_holds; [apply incl_refl | exact H0]. }
  destruct (lineType =? "CoalRailroad"); [|exact H0].
  rewrite scan_CoalRailroad_table. apply scan_table_holds; [apply incl_refl | exact H0].
Qed.

(** The buffers a primary can come from: the buffer rows of its cluster. *)
Definition buffer_of (self : @AMES.ames F) (clusters : list nat) (resourceIdx : list Z)
    (cid : nat) (node : @Node.t F) : Prop :=
  exists bufs b,
    AMES.cluster_buffers self clusters resourceIdx cid = Ok bufs /\
    In b bufs /\ nth_error (AMES.nodes self) b = Some node.

(** A line attached to the primaries of its two clusters. *)
Definition attached (primary : list (nat * @Node.t F)) (l : @Line.t F) : Prop :=
  exists co cd po pd,
    Line.clust_origin l = ClId co /\ Line.clust_dest l = ClId cd /\
    py.dict_get Nat.eqb primary co = Some po /\
    py.dict_get Nat.eqb primary cd = Some pd /\
    Line.fBus l = AMES.name_end po /\ Line.tBus l = AMES.name_end pd /\
    Line.controller l =
      py.extend_new (py.extend_new [] (Node.controller po)) (Node.controller pd).

Definition ends_named (l : @Line.t F) : Prop :=
  AMES.is_str (Line.fBus l) = true /\ AMES.is_str (Line.tBus l) = true.

Definition namer_inv (self : @AMES.ames F) (clusters : list nat) (resourceIdx : list Z)
    (st : @AMES.namer_state F) : Prop :=
  (forall cid node, py.dict_get Nat.eqb (AMES.clusterPrimary st) cid = Some node ->
     buffer_of self clusters resourceIdx cid node) /\
  Forall (attached (AMES.clusterPrimary st)) (AMES.named st) /\
  (AMES.delLine st = [] -> Forall ends_named (AMES.named st)).

Lemma attached_mono (d d' : list (nat * @Node.t F)) (l : @Line.t F) :
  (forall k v, py.dict_get Nat.eqb d k = Some v -> py.dict_get Nat.eqb d' k = Some v) ->
  attached d l -> attached d' l.
Proof.
  intros Hext [co [cd [po [pd [H1 [H2 [H3 [H4 H5]]]]]]]].
  exists co, cd, po, pd. repeat split; try tauto; now apply Hext.
Qed.

Lemma name_cluster_spec (self : @AMES.ames F) (clusters : list nat)
    (resourceIdx : list Z) (st st' : @AMES.namer_state F) (ty : string)
    (c : pyclust) (node : @Node.t F) :
  AMES.name_cluster self clusters resourceIdx st ty c = Ok (st', node) ->
  (forall cid n, py.dict_get Nat.eqb (AMES.clusterPrimary st) cid = Some n ->
     buffer_of self clusters resourceIdx cid n) ->
  exists cid,
    c = ClId cid /\
    py.dict_get Nat.eqb (AMES.clusterPrimary st') cid = Some node /\
    (forall k v, py.dict_get Nat.eqb (AMES.clusterPrimary st) k = Some v ->
                 py.dict_get Nat.eqb (AMES.clusterPrimary st') k = Some v) /\
    (forall k n, py.dict_get Nat.eqb (AMES.clusterPrimary st') k = Some n ->
                 buffer_of self clusters resourceIdx k n) /\
    AMES.named st' = AMES.named st /\ AMES.delLine st' = AMES.delLine st.
Proof.
  unfold AMES.name_cluster. intros H Hbuf.
  destruct c as [|cid|cs]; try discriminate. exists cid. split; [reflexivity|].
  destruct (py.dict_get Nat.eqb (AMES.clusterPrimary st) cid) as [n0|] eqn:Hget.
  { injection H as <- <-. auto. }
  apply bind_ok in H. destruct H as [bufs [Hb H]].
  assert (Hnew : forall (n : @Node.t F) (b : nat),
            In b bufs -> nth_error (AMES.nodes self) b = Some n ->
            let d' := py.dict_set Nat.eqb (AMES.clusterPrimary st) cid n in
            py.dict_get Nat.eqb d' cid = Some n /\
            (forall k v, py.dict_get Nat.eqb (AMES.clusterPrimary st) k = Some v ->
                         py.dict_get Nat.eqb d' k = Some v) /\
            (forall k m, py.dict_get Nat.eqb d' k = Some m ->
                         buffer_of self clusters resourceIdx k m)).
  { intros n b Hin Hn d'. unfold d'. split; [|split].
    - rewrite (dict_get_set_new _ _ _ _ _ Hget). now rewrite Nat.eqb_refl.
    - intros k v Hk. rewrite (dict_get_set_new _ _ _ _ _ Hget).
      destruct (Nat.eqb_spec cid k) as [->|_]; [congruence | assumption].
    - intros k m Hk. rewrite (dict_get_set_new _ _ _ _ _ Hget) in Hk.
      destruct (Nat.eqb_spec cid k) as [<-|_]; [|now apply Hbuf].
      injection Hk as <-. exists bufs, b. auto. }
  destruct (1 <? length bufs)%nat.
  - apply bind_ok in H. destruct H as [[[n|] [i|]] [Hf H]]; try discriminate.
    injection H as <- <-. simpl.
    apply findClusterPrimary_some in Hf. destruct Hf as [Hin Hn].
    destruct (Hnew n i Hin Hn) as [H1 [H2 H3]]. auto.
  - apply bind_ok in H. destruct H as [[|n ns] [Hn H]]; try discriminate.
    injection H as <- <-. simpl.
    apply take_get in Hn. inversion Hn as [|b ? bs ? Hb0 _]; subst.
    destruct (Hnew n b (or_introl eq_refl) Hb0) as [H1 [H2 H3]]. auto.
Qed.

Lemma name_pipe_inv (self : @AMES.ames F) (clusters : list nat)
    (resourceIdx : list Z) (st st' : @AMES.namer_state F) (k1 : @Line.t F) :
  AMES.name_pipe self clusters resourceIdx st k1 = Ok st' ->
  namer_inv self clusters resourceIdx st -> namer_inv self clusters resourceIdx st'.
Proof.
  unfold AMES.name_pipe. intros H [Hbuf [Hatt Hdel]].
  apply bind_ok in H. destruct H as [[sO pO] [HO H]].
  apply bind_ok in H. destruct H as [[sD pD] [HD H]].
  injection H as <-.
  destruct (name_cluster_spec _ _ _ _ _ _ _ _ HO Hbuf)
    as [co [Hco [HgO [HextO [HbufO [HnO HdO]]]]]].
  destruct (name_cluster_spec _ _ _ _ _ _ _ _ HD HbufO)
    as [cd [Hcd [HgD [HextD [HbufD [HnD HdD]]]]]].
  split; [exact HbufD|]. cbn [AMES.named AMES.clusterPrimary AMES.delLine].
  split.
  - apply Forall_app. split.
    + rewrite HnD, HnO. eapply Forall_impl; [|exact Hatt].
      intros l Hl. apply (attached_mono (AMES.clusterPrimary st)); [|assumption].
      intros k v Hk. apply HextD, HextO, Hk.
    + constructor; [|constructor].
      exists co, cd, pO, pD. simpl. repeat split; auto.
  - intros Hnil. rewrite HdD, HdO in Hnil.
    match type of Hnil with (if ?b then _ else _) = _ => destruct b eqn:Eb end.
    { destruct (AMES.delLine st); discriminate. }
    apply Forall_app. split.
    + rewrite HnD, HnO. now apply Hdel.
    + constructor; [|constructor]. apply orb_false_iff in Eb.
      destruct Eb as [E1 E2]. apply negb_false_iff in E1, E2. split; assumption.
Qed.

(** X3. When [setPipeODNames2] returns, there is one primary buffer per
    cluster, taken from the buffer rows of that cluster, and every line
    it was given is attached to the primaries of its two clusters: its
    ends carry their names, both strings, and its controllers are theirs.
    Two line ends in one cluster therefore carry the same buffer name. *)
Theorem setPipeODNames2_attaches (self self' : @AMES.ames F) (clusters : list nat)
    (resourceIdx : list Z) :
  AMES.setPipeODNames2 self clusters resourceIdx = Ok self' ->
  exists primary renamed connectors,
    AMES.lines self' = renamed ++ connectors /\
    length renamed = length (AMES.lines self) /\
    (forall cid node, py.dict_get Nat.eqb primary cid = Some node ->
       buffer_of self clusters resourceIdx cid node) /\
    Forall (attached primary) renamed /\
    Forall ends_named renamed.
Proof.
  unfold AMES.setPipeODNames2, AMES.name_loop, AMES.linkClusterBuffers. intros H.
  apply bind_ok in H. destruct H as [st [Hst H]].
  apply bind_ok in H. destruct H as [self1 [H1 H]].
  apply bind_ok in H1. destruct H1 as [lst [Hl H1]]. injection H1 as <-.
  destruct (AMES.delLine st) eqn:Hdel; [|discriminate]. injection H as <-.
  pose proof (name_loop_named _ _ _ _ _ _ Hst) as [renamed [Hn Hall]].
  simpl in Hn. subst renamed.
  assert (Hinv : namer_inv self clusters resourceIdx st).
  { eapply foldM_inv; [|exact Hst|].
    - intros s k s'. apply name_pipe_inv.
    - split; [intros cid node Hd; discriminate|]. split; [constructor|].
      intros _. constructor. }
  destruct Hinv as [Hbuf [Hatt Hnamed]].
  exists (AMES.clusterPrimary st), (AMES.named st), (AMES.link_lines lst).
  split; [reflexivity|]. split.
  { symmetry. eapply Forall2_length. eassumption. }
  split; [assumption|]. split; [assumption|]. now apply Hnamed.
Qed.
End NamingFacts.

Module NamedExamples.
Local Open Scope string_scope.
Local Open Scope list_scope.

(** What the namer makes of [PruneExamples.pruned]. *)
Definition named : @AMES.ames float :=
  AMES.with_lines PruneExamples.pruned
    [ Line.mk "Tie 1" "ElecLine" ["electric power at 132kV"]
              (Line.Named "Dam B") (Line.Named "Town C")
              "true" (ClId 0) (ClId 1) ["VT"];
      Line.mk "Transmission Line Connector 1" "ElecLine"
              ["electric power at 132kV"]
              (Line.Named "Dam B") (Line.Named "Dam A")
              "true" (ClId 0) (ClId 0) ["VT"; "NY"] ].
End NamedExamples.

Lemma setPipeODNames2_attaches_witness :
  exists primary renamed connectors,
    AMES.lines NamedExamples.named = renamed ++ connectors /\
    length renamed = length (AMES.lines PruneExamples.pruned) /\
    (forall cid node, py.dict_get Nat.eqb primary cid = Some node ->
       buffer_of PruneExamples.pruned [0; 1; 0; 0; 1] [0; 1; 2; 3; 4]%Z cid node) /\
    Forall (attached primary) renamed /\
    Forall ends_named renamed.
Proof.
  refine (@setPipeODNames2_attaches float PruneExamples.pruned NamedExamples.named
            [0; 1; 0; 0; 1] [0; 1; 2; 3; 4]%Z _).
  vm_compute. reflexivity.
Defined.

Lemma Forall2_nth_error (A B : Type) (R : A -> B -> Prop) (l1 : list A) (l2 : list B) :
  Forall2 R l1 l2 ->
  forall j a, nth_error l1 j = Some a ->
  exists b, nth_error l2 j = Some b /\ R a b.
Proof.
  induction 1 as [|x y l1 l2 Hxy Hall IH]; intros [|j] a Ha; simpl in *;
    try discriminate.
  - injection Ha as <-. eauto.
  - now apply IH.
Qed.

Section OilFacts.
Context {F : Type} {AF : Arith F}.
Local Open Scope string_scope.
Local Open Scope list_scope.

(** A generator that burns processed oil. *)
Definition oil_plant (n : @Node.t F) : bool :=
  AMES.is_generator n && py.mem "processed oil" (Node.fuelType n).

(** An oil terminal, port or independent buffer. *)
Definition oil_source (n : @Node.t F) : bool :=
  negb (AMES.is_generator n) && AMES.is_oil_buffer n.

Definition gap (a b : @Node.t F) : F :=
  dist (Node.gpsX a) (Node.gpsY a) (Node.gpsX b) (Node.gpsY b).

(** A rescue pipe from [near] to [plant]. *)
Definition rescues (self : @AMES.ames F) (l : @Line.t F) : Prop :=
  exists plant near,
    In plant (AMES.nodes self) /\ In near (AMES.nodes self) /\
    oil_plant plant = true /\ oil_source near = true /\
    leb (gap plant near) eps_oil = true /\
    (strict_weak_order (ltb (F := F)) ->
     forall other, In other (AMES.nodes self) -> oil_source other = true ->
       leb (gap plant other) eps_oil = true ->
       ltb (gap plant other) (gap plant near) = false) /\
    Line.type l = "oilRPipe" /\ Line.refinement l = ["processed oil"] /\
    Line.status l = "true" /\
    Line.fBus l = AMES.name_end near /\ Line.tBus l = AMES.name_end plant /\
    Line.controller l =
      py.extend_new (py.extend_new [] (Node.controller near)) (Node.controller plant).

Definition oil_inv (self : @AMES.ames F) (st : @AMES.oil_state F) : Prop :=
  let '(count, ls, still) := st in
  exists pipes,
    ls = AMES.lines self ++ pipes /\ Forall (rescues self) pipes /\
    Forall (fun k => exists plant, nth_error (AMES.nodes self) k = Some plant /\
                                   oil_plant plant = true) still.

Lemma any_nonzero_nonempty (idx : list nat) : np.any_nonzero idx = true -> idx <> [].
Proof. destruct idx; [discriminate | discriminate]. Qed.

Lemma oil_step_inv (self : @AMES.ames F) (st st' : @AMES.oil_state F) (iso : nat) :
  (exists plant, nth_error (AMES.nodes self) iso = Some plant /\ oil_plant plant = true) ->
  AMES.oil_step self (np.where_ oil_source (AMES.nodes self)) st iso = Ok st' ->
  oil_inv self st -> oil_inv self st'.
Proof.
  intros [plant0 [Hplant0 Hoil]] H Hinv.
  destruct st as [[count ls] still]. destruct Hinv as [pipes [Hls [Hpipes Hstill]]].
  unfold AMES.oil_step in H.
  apply bind_ok in H. destruct H as [plant [Hplant H]].
  apply get_nth_error in Hplant. rewrite Hplant0 in Hplant. injection Hplant as <-.
  apply bind_ok in H. destruct H as [others [Hothers H]].
  apply take_get in Hothers.
  set (sources := np.where_ oil_source (AMES.nodes self)) in *.
  set (distances := map (fun o => dist (Node.gpsX plant0) (Node.gpsY plant0)
                                       (Node.gpsX o) (Node.gpsY o)) others) in *.
  set (found := np.where_ (fun d => leb d eps_oil) distances) in *.
  destruct (np.any_nonzero found) eqn:Hany.
  - apply bind_ok in H. destruct H as [closest_node [Hcn H]].
    apply bind_ok in H. destruct H as [near [Hnear H]]. injection H as <-.
    apply get_nth_error in Hcn, Hnear.
    eexists. split; [rewrite Hls, <- app_assoc; reflexivity|]. split; [|assumption].
    apply Forall_app. split; [assumption|]. constructor; [|constructor].
    set (found_dist := np.take zero distances found) in *.
    set (closest := np.argmin ltb found_dist) in *.
    set (j := nth closest found 0) in *.
    assert (Hne : found_dist <> []).
    { unfold found_dist, np.take. apply any_nonzero_nonempty in Hany.
      destruct found; [congruence | discriminate]. }
    assert (Hcl : closest < length found).
    { pose proof (argmin_lt_length ltb found_dist Hne) as Hc.
      unfold found_dist, np.take in Hc. now rewrite length_map in Hc. }
    assert (Hj : In j found) by (apply nth_In; exact Hcl).
    apply where_In in Hj. destruct Hj as [dj [Hdj Hle]].
    assert (Hjlen : j < length others).
    { assert (j < length distances) by (apply nth_error_Some; congruence).
      unfold distances in H. now rewrite length_map in H. }
    destruct (Forall2_nth_error _ _ _ _ _ Hothers j closest_node Hcn) as [o [Ho Hon]].
    assert (Hsame : o = near) by congruence.
    subst o.
    assert (Hdist : dj = gap plant0 near).
    { unfold distances in Hdj. rewrite nth_error_map, Ho in Hdj.
      simpl in Hdj. now injection Hdj as <-. }
    assert (Hsrc : oil_source near = true).
    { assert (Hin : In closest_node sources)
        by (eapply nth_error_In; eassumption).
      apply where_In in Hin. destruct Hin as [a [Ha Hp]]. congruence. }
    exists plant0, near. split; [eapply nth_error_In; eassumption|].
    split; [eapply nth_error_In; eassumption|].
    split; [assumption|]. split; [assumption|].
    split; [now rewrite <- Hdist|]. split; [|repeat split; reflexivity].
    intros Hord other Hother Hosrc Hrange.
    destruct (argmin_spec F ltb Hord zero found_dist Hne) as [_ [Hmin _]].
    fold closest in Hmin.
    assert (Hbest : nth closest found_dist zero = gap plant0 near).
    { unfold found_dist, np.take.
      rewrite (nth_map_in _ _ (fun i => nth i distances zero) found closest zero 0 Hcl).
      fold j. rewrite (nth_of_nth_error _ distances zero j), Hdj. exact Hdist. }
    rewrite Hbest in Hmin. apply Hmin.
    apply In_nth_error in Hother. destruct Hother as [k Hk].
    assert (Hks : In k sources) by (apply where_In; eauto).
    apply In_nth_error in Hks. destruct Hks as [m Hm].
    assert (Hom : nth_error others m = Some other).
    { destruct (Forall2_nth_error _ _ _ _ _ Hothers m k Hm) as [o' [Ho' Hk']].
      congruence. }
    assert (Hdm : nth_error distances m = Some (gap plant0 other)).
    { unfold distances. now rewrite nth_error_map, Hom. }
    assert (Hmf : In m found) by (apply where_In; eauto).
    unfold found_dist, np.take. apply in_map_iff. exists m.
    split; [|assumption]. now rewrite (nth_of_nth_error _ distances zero m), Hdm.
  - injection H as <-. exists pipes. split; [assumption|]. split; [assumption|].
    apply Forall_app. split; [assumption|]. constructor; [eauto | constructor].
Qed.

Lemma oil_iso_plants (self : @AMES.ames F) (oilLines : list (@Line.t F))
    (idxs : list nat) : forall acc isoNodes,
  foldM (fun acc k3 =>
           plant <- py.get (AMES.nodes self) k3 ;;
           found <- AMES.oil_connected (Node.nodeName plant) oilLines ;;
           Ok (if found then acc else acc ++ [k3])) idxs acc = Ok isoNodes ->
  incl isoNodes (acc ++ idxs).
Proof.
  induction idxs as [|k idxs IH]; intros acc isoNodes H; simpl in H.
  - injection H as <-. rewrite app_nil_r. apply incl_refl.
  - apply bind_ok in H. destruct H as [acc' [Hacc H]].
    apply bind_ok in Hacc. destruct Hacc as [plant [Hplant Hacc]].
    apply bind_ok in Hacc. destruct Hacc as [found [Hfound Hacc]].
    injection Hacc as <-. apply IH in H. intros x Hx. apply H in Hx.
    destruct found.
    + apply in_app_iff in Hx. apply in_app_iff. simpl. tauto.
    + rewrite <- app_assoc in Hx. exact Hx.
Qed.

(** X4. [reviseOil] leaves the buffers and the lines it finds as they
    are and appends rescue pipes only. Each pipe runs from an oil
    terminal, port or independent oil buffer to a generator burning
    processed oil that lies within [4 * eps3] of it, has type
    ['oilRPipe'], refinement ['processed oil'] and status ['true'], and
    carries the controllers of both; no oil buffer in range is nearer to
    the generator. Every index reported as still isolated is such a
    generator. *)
Theorem reviseOil_rescue_pipes (self self' : @AMES.ames F) (still : list nat) :
  AMES.reviseOil self = Ok (self', still) ->
  AMES.nodes self' = AMES.nodes self /\
  exists pipes,
    AMES.lines self' = AMES.lines self ++ pipes /\
    Forall (rescues self) pipes /\
    Forall (fun k => exists plant, nth_error (AMES.nodes self) k = Some plant /\
                                   oil_plant plant = true) still.
Proof.
  unfold AMES.reviseOil. intros H.
  apply bind_ok in H. destruct H as [isoNodes [Hiso H]].
  apply bind_ok in H. destruct H as [[[count ls] st] [Hloop H]].
  injection H as <- <-. split; [reflexivity|].
  apply oil_iso_plants in Hiso. simpl in Hiso.
  assert (Hinv : forall l s s',
            incl l isoNodes ->
            foldM (AMES.oil_step self (np.where_ oil_source (AMES.nodes self))) l s
              = Ok s' ->
            oil_inv self s -> oil_inv self s').
  { induction l as [|k l IH]; intros s s' Hincl Hf Hs; simpl in Hf.
    - now injection Hf as <-.
    - apply bind_ok in Hf. destruct Hf as [s1 [H1 Hf]].
      apply (IH s1 s'); [intros x Hx; apply Hincl; now right | assumption |].
      eapply oil_step_inv; [|exact H1|exact Hs].
      assert (Hk : In k (np.where_ oil_plant (AMES.nodes self)))
        by (apply Hiso, Hincl; now left).
      apply where_In in Hk. exact Hk. }
  apply (Hinv isoNodes _ _ (incl_refl _) Hloop).
  exists []. split; [now rewrite app_nil_r|]. split; constructor.
Qed.
End OilFacts.

Lemma reviseOil_rescue_pipes_witness :
  exists pipes,
    AMES.lines (AMES.with_lines
                  (OilExamples.system
                     [OilExamples.terminal2; OilExamples.terminal; OilExamples.plant])
                  [ Line.mk "OilR Pipeline 1"%string "oilRPipe"%string
                            ["processed oil"%string]
                            (Line.Named "Terminal 1"%string) (Line.Named "Plant 1"%string)
                            "true"%string ClNone ClNone
                            ["NJ"%string; "NY"%string] ])
    = AMES.lines (OilExamples.system
                    [OilExamples.terminal2; OilExamples.terminal; OilExamples.plant])
      ++ pipes /\
    Forall (rescues (OilExamples.system
                       [OilExamples.terminal2; OilExamples.terminal; OilExamples.plant]))
           pipes /\
    Forall (fun k => exists plant,
              nth_error [OilExamples.terminal2; OilExamples.terminal; OilExamples.plant] k
                = Some plant /\ oil_plant plant = true) [].
Proof.
  refine (proj2 (@reviseOil_rescue_pipes float Float64.arith
                   (OilExamples.system
                      [OilExamples.terminal2; OilExamples.terminal; OilExamples.plant])
                   _ [] _)).
  vm_compute. reflexivity.
Defined.

Lemma insert_sortedZ_In (x y : Z) (l : list Z) :
  In y (np.insert_sortedZ x l) <-> y = x \/ In y l.
Proof.
  induction l as [|z l IH]; simpl; [intuition|].
  destruct (x <? z)%Z eqn:E1; simpl; [intuition|].
  destruct (x =? z)%Z eqn:E2; simpl.
  - apply Z.eqb_eq in E2. subst. intuition.
  - rewrite IH. intuition.
Qed.

Lemma uniqueZ_In (y : Z) (l : list Z) : In y (np.uniqueZ l) <-> In y l.
Proof.
  induction l as [|x l IH]; simpl; [tauto|].
  rewrite insert_sortedZ_In, IH. intuition.
Qed.

Lemma snd_combine (A B : Type) (l1 : list A) : forall l2 : list B,
  length l1 = length l2 -> map snd (combine l1 l2) = l2.
Proof.
  induction l1 as [|a l1 IH]; intros [|b l2] H; simpl in *; try discriminate;
    [reflexivity|].
  f_equal. apply IH. lia.
Qed.

Section JunctionFacts.
Context {F : Type} {AF : Arith F}.
Local Open Scope string_scope.
Local Open Scope list_scope.

(** A cluster none of whose point-rows is a buffer row. *)
Definition bufferless (self : @AMES.ames F) (clusters : list nat) (resourceIdx : list Z)
    (c : nat) : Prop :=
  forall i r, nth_error clusters i = Some c -> nth_error resourceIdx i = Some r ->
    (r < AMES.numEndpoints self)%Z.

(** The junction buffer of cluster [c]. *)
Definition junction_of (n : @Node.t F) (c : nat) : Prop :=
  Node.cluster n = Some [c] /\ Node.status n = "true" /\
  Node.refinement n = None /\ Node.controller n = [] /\
  exists k, Node.nodeName n = Some ("IndBuffer " ++ py.str k)%string.

Definition ind_inv (self : @AMES.ames F) (clusters : list nat) (resourceIdx : list Z)
    (done : list nat) (st : @AMES.ind_state F) : Prop :=
  AMES.i_count st = length (AMES.i_buffers st) /\
  Forall2 junction_of (AMES.i_buffers st) (AMES.i_expanded_clusts st) /\
  Forall (fun c => In c done /\ bufferless self clusters resourceIdx c)
         (AMES.i_expanded_clusts st) /\
  NoDup (AMES.i_expanded_clusts st) /\
  length (AMES.i_expanded_buffers st) = length (AMES.i_buffers st) /\
  (forall top, py.max resourceIdx = Ok top ->
     AMES.i_expanded_buffers st =
     map (fun k => (top + Z.of_nat k + 1)%Z) (seq 0 (length (AMES.i_buffers st)))).

Lemma ind_inv_more (self : @AMES.ames F) (clusters : list nat) (resourceIdx : list Z)
    (done : list nat) (c : nat) (st : @AMES.ind_state F) :
  ind_inv self clusters resourceIdx done st ->
  ind_inv self clusters resourceIdx (done ++ [c]) st.
Proof.
  intros [H1 [H2 [H3 H4]]]. split; [assumption|]. split; [assumption|].
  split; [|assumption]. eapply Forall_impl; [|exact H3].
  intros x [Hx Hb]. split; [apply in_or_app; now left | assumption].
Qed.

Lemma ind_step_inv (self : @AMES.ames F) (clusters : list nat)
    (clustCenters : list (F * F)) (resourceIdx : list Z) (done : list nat)
    (st st' : @AMES.ind_state F) (k1 c : nat) :
  ~ In c done ->
  AMES.ind_step self clusters clustCenters resourceIdx st (k1, c) = Ok st' ->
  ind_inv self clusters resourceIdx done st ->
  ind_inv self clusters resourceIdx (done ++ [c]) st'.
Proof.
  intros Hnew H Hinv. unfold AMES.ind_step in H.
  apply bind_ok in H. destruct H as [rs [Hrs H]].
  destruct (existsb (fun r => (AMES.numEndpoints self <=? r)%Z) (np.uniqueZ rs)) eqn:Hex.
  { injection H as <-. now apply ind_inv_more. }
  apply bind_ok in H. destruct H as [refs [Hrefs H]].
  destruct (AMES.ind_class (py.unique_str refs)) as [cls|].
  2:{ injection H as <-. now apply ind_inv_more. }
  apply bind_ok in H. destruct H as [center [Hcenter H]].
  apply bind_ok in H. destruct H as [top [Htop H]]. injection H as <-.
  assert (Hfree : bufferless self clusters resourceIdx c).
  { intros i r Hi Hr.
    assert (Hin : In i (np.where_ (fun x => (x =? c)%nat) clusters)).
    { apply where_In. exists c. split; [assumption | apply Nat.eqb_refl]. }
    apply In_nth_error in Hin. destruct Hin as [j Hj].
    destruct (Forall2_nth_error _ _ _ _ _ (take_get _ _ _ _ Hrs) j i Hj)
      as [r' [Hr' Hir]].
    assert (r' = r) by congruence. subst r'.
    apply nth_error_In in Hr'. apply uniqueZ_In in Hr'.
    rewrite <- not_true_iff_false, existsb_exists in Hex.
    destruct (Z.leb_spec (AMES.numEndpoints self) r) as [Hle|Hlt]; [|assumption].
    exfalso. apply Hex. exists r. split; [assumption|]. now apply Z.leb_le. }
  destruct Hinv as [Hc [Hj [Hec [Hnd [Hlen Heb]]]]].
  unfold ind_inv. cbn [AMES.i_count AMES.i_buffers AMES.i_expanded_clusts
                       AMES.i_expanded_buffers].
  rewrite !length_app. cbn [length].
  split; [lia|]. split.
  { apply Forall2_app; [assumption|]. constructor; [|constructor].
    repeat split; try reflexivity. eexists. reflexivity. }
  split.
  { apply Forall_app. split.
    - eapply Forall_impl; [|exact Hec]. intros x [Hx Hb].
      split; [apply in_or_app; now left | assumption].
    - constructor; [|constructor]. split; [|assumption].
      apply in_or_app. right. now left. }
  split.
  { apply NoDup_app; [assumption | repeat constructor; intros [] |].
    intros x Hx [<-|[]]. rewrite Forall_forall in Hec.
    apply Hnew. now apply Hec. }
  split; [lia|].
  intros top' Htop'. rewrite Htop in Htop'. injection Htop' as <-.
  rewrite Nat.add_1_r, seq_S, map_app, (Heb top Htop), Hc. reflexivity.
Qed.

Lemma ind_loop_inv (self : @AMES.ames F) (clusters : list nat)
    (clustCenters : list (F * F)) (resourceIdx : list Z) (l : list (nat * nat)) :
  forall done st st',
  NoDup (done ++ map snd l) ->
  foldM (AMES.ind_step self clusters clustCenters resourceIdx) l st = Ok st' ->
  ind_inv self clusters resourceIdx done st ->
  ind_inv self clusters resourceIdx (done ++ map snd l) st'.
Proof.
  induction l as [|[k1 c] l IH]; intros done st st' Hnd H Hinv; simpl in H.
  - injection H as <-. simpl. now rewrite app_nil_r.
  - apply bind_ok in H. destruct H as [st1 [H1 H]].
    simpl in Hnd |- *.
    replace (done ++ c :: map snd l) with ((done ++ [c]) ++ map snd l) in *
      by now rewrite <- app_assoc.
    apply (IH _ _ _ Hnd H).
    eapply ind_step_inv; [|exact H1|exact Hinv].
    intros Hin. apply NoDup_app_remove_r in Hnd.
    apply NoDup_remove_2 in Hnd. apply Hnd. now rewrite app_nil_r.
Qed.

(** X5. [addIndBuffers] changes no line and no existing buffer. It
    appends junction buffers, and for each of them one entry to
    [clusters] and one to [resourceIdx]: its cluster, a cluster in use
    none of whose point-rows is a buffer row, no cluster twice; and the
    next unused row number, counting up from [max(resourceIdx) + 1]. *)
Theorem addIndBuffers_appends (self self' : @AMES.ames F) (clusters clusters' : list nat)
    (clustCenters : list (F * F)) (resourceIdx resourceIdx' : list Z) :
  AMES.addIndBuffers self clusters clustCenters resourceIdx
    = Ok (self', clusters', resourceIdx') ->
  exists added ec eb,
    AMES.nodes self' = AMES.nodes self ++ added /\
    AMES.lines self' = AMES.lines self /\
    clusters' = clusters ++ ec /\ resourceIdx' = resourceIdx ++ eb /\
    length ec = length added /\ length eb = length added /\
    NoDup ec /\
    Forall (fun c => In c clusters /\ bufferless self clusters resourceIdx c) ec /\
    Forall2 junction_of added ec /\
    (forall top, py.max resourceIdx = Ok top ->
       eb = map (fun k => (top + Z.of_nat k + 1)%Z) (seq 0 (length added))).
Proof.
  unfold AMES.addIndBuffers. intros H.
  apply bind_ok in H. destruct H as [st [Hst H]]. injection H as <- <- <-.
  assert (Hsnd : map snd (combine (seq 0 (length (np.unique clusters)))
                                  (np.unique clusters)) = np.unique clusters).
  { apply snd_combine. now rewrite length_seq. }
  assert (Hinv : ind_inv self clusters resourceIdx ([] ++ np.unique clusters) st).
  { rewrite <- Hsnd. eapply ind_loop_inv; [|exact Hst|].
    - rewrite Hsnd. simpl. apply unique_NoDup.
    - split; [reflexivity|]. split; [constructor|]. split; [constructor|].
      split; [constructor|]. split; [reflexivity|]. reflexivity. }
  destruct Hinv as [Hc [Hj [Hec [Hnd [Hlen Heb]]]]].
  exists (AMES.i_buffers st), (AMES.i_expanded_clusts st), (AMES.i_expanded_buffers st).
  split; [reflexivity|]. split; [reflexivity|]. split; [reflexivity|].
  split; [reflexivity|]. split.
  { symmetry. eapply Forall2_length. eassumption. }
  split; [assumption|]. split; [assumption|]. split.
  { eapply Forall_impl; [|exact Hec]. intros c [Hin Hb]. split; [|assumption].
    apply (proj1 (unique_In c clusters)). exact Hin. }
  split; assumption.
Qed.
End JunctionFacts.

Lemma addIndBuffers_appends_witness :
  exists self' clusters' resourceIdx',
    AMES.addIndBuffers (IndExamples.system 0 1) [0; 1] IndExamples.centers [0%Z; 1%Z]
      = Ok (self', clusters', resourceIdx') /\
    AMES.lines self' = AMES.lines (IndExamples.system 0 1).
Proof.
  destruct (AMES.addIndBuffers (IndExamples.system 0 1) [0; 1] IndExamples.centers
              [0%Z; 1%Z]) as [[[s c] r]|e] eqn:E.
  - exists s, c, r. split; [reflexivity|].
    destruct (addIndBuffers_appends _ _ _ _ _ _ _ E)
      as [added [ec [eb [_ [Hl _]]]]].
    exact Hl.
  - vm_compute in E. discriminate.
Defined.

(* ------------------------------------------------------------------ *)
(** * The row layout through [updateTransporters] *)

Lemma layout_split (n : nat) (rows : list Z) :
  endpoints_first n rows -> 2 * n <= length rows ->
  firstn (2 * n) rows = map Z.of_nat (seq 0 (2 * n)) /\
  Forall (fun r => (Z.of_nat n * 2 <= r)%Z) (skipn (2 * n) rows).
Proof.
  intros Hrows Hlen. split.
  - apply nth_error_ext. intros i.
    rewrite nth_error_firstn, nth_error_map, nth_error_seq.
    destruct (Nat.ltb_spec i (2 * n)) as [Hi|Hi]; [|reflexivity].
    destruct (nth_error rows i) as [r|] eqn:E.
    + destruct (Hrows i r E) as [Hlow _]. simpl. now rewrite (Hlow Hi).
    + apply nth_error_None in E. lia.
  - apply Forall_forall. intros r Hr. apply In_nth_error in Hr.
    destruct Hr as [j Hj]. rewrite nth_error_skipn in Hj.
    destruct (Hrows _ r Hj) as [_ Hhigh]. apply Hhigh. lia.
Qed.

Lemma layout_join (n : nat) (rest : list Z) :
  Forall (fun r => (Z.of_nat n * 2 <= r)%Z) rest ->
  endpoints_first n (map Z.of_nat (seq 0 (2 * n)) ++ rest).
Proof.
  intros Hrest k r Hk.
  assert (Hlen : length (map Z.of_nat (seq 0 (2 * n))) = 2 * n)
    by now rewrite length_map, length_seq.
  destruct (Nat.lt_ge_cases k (2 * n)) as [Hlt|Hge].
  - rewrite nth_error_app1 in Hk by lia.
    rewrite nth_error_map, nth_error_seq in Hk.
    destruct (Nat.ltb_spec k (2 * n)); [|lia]. simpl in Hk. injection Hk as <-.
    split; [reflexivity | lia].
  - rewrite nth_error_app2 in Hk by lia. apply nth_error_In in Hk.
    rewrite Forall_forall in Hrest. split; [lia | auto].
Qed.

Lemma where_from_first (A : Type) (p : A -> bool) (l : list A) :
  forall (i j : nat) (a : A),
  (forall k b, k < j -> nth_error l k = Some b -> p b = false) ->
  nth_error l j = Some a -> p a = true ->
  exists tl, np.where_from p i l = (i + j) :: tl.
Proof.
  induction l as [|x l IH]; intros i j a Hbefore Hj Hp; [destruct j; discriminate|].
  simpl. destruct j as [|j]; simpl in Hj.
  - injection Hj as ->. rewrite Hp, Nat.add_0_r. eauto.
  - rewrite (Hbefore 0 x ltac:(lia) eq_refl).
    destruct (IH (S i) j a) as [tl Htl]; try assumption.
    + intros k b Hk Hb. apply (Hbefore (S k) b); [lia | exact Hb].
    + exists tl. rewrite Htl. f_equal. lia.
Qed.

Section UpdateFacts.
Context {F : Type} {AF : Arith F}.
Local Open Scope string_scope.
Local Open Scope list_scope.

Definition rows_of (table : list (@SnapEdges2Grid.entry F)) : list Z :=
  map (fun e => Z.of_nat (SnapEdges2Grid.row e)) table.

(** After [i] queue entries: one line reference and two table cells per
    entry, the cells numbered on from the first buffer row. *)
Definition update_inv (n i : nat) (st : @AMES.update_state F) : Prop :=
  length (AMES.u_lines st) = i /\ AMES.u_count st = i /\
  AMES.u_rows st = seq (2 * n) (2 * i) /\
  length (AMES.u_clust st) = 2 * i /\ length (AMES.u_gps st) = 2 * i /\
  length (AMES.u_cols st) = 2 * i /\ length (AMES.u_dataX st) = 2 * i /\
  length (AMES.u_dataY st) = 2 * i.

Lemma update_create_fields (self : @AMES.ames F) (st : @AMES.update_state F)
    (ref : string) :
  let st1 := AMES.update_create self st ref in
  AMES.u_lines st1 = AMES.u_lines st /\ AMES.u_count st1 = AMES.u_count st /\
  AMES.u_rows st1 = AMES.u_rows st /\ AMES.u_clust st1 = AMES.u_clust st /\
  AMES.u_gps st1 = AMES.u_gps st /\ AMES.u_cols st1 = AMES.u_cols st /\
  AMES.u_dataX st1 = AMES.u_dataX st /\ AMES.u_dataY st1 = AMES.u_dataY st.
Proof.
  unfold AMES.update_create. cbv zeta.
  repeat match goal with
         | |- context [if ?c then _ else _] => destruct c
         end; repeat split; reflexivity.
Qed.

Lemma update_entry_inv (self : @AMES.ames F) (clusters : list (option nat))
    (table : list (@SnapEdges2Grid.entry F)) (st st' : @AMES.update_state F)
    (i : nat) (k1 : nat * nat) :
  AMES.update_entry self clusters table st (i, k1) = Ok st' ->
  update_inv (length (AMES.lines self)) i st ->
  update_inv (length (AMES.lines self)) (S i) st'.
Proof.
  unfold AMES.update_entry. destruct k1 as [k1_0 k1_1]. intros H Hinv.
  apply bind_ok in H. destruct H as [e1 [He1 H]].
  apply bind_ok in H. destruct H as [ref [Href H]].
  destruct (update_create_fields self st ref)
    as [Hl [Hc [Hr [Hcl [Hg [Hco [Hx Hy]]]]]]].
  destruct (AMES.u_new_instance (AMES.update_create self st ref)) as [r|];
    [|discriminate].
  apply bind_ok in H. destruct H as [l [Hlr H]].
  apply bind_ok in H. destruct H as [e0 [He0 H]].
  apply bind_ok in H. destruct H as [c1 [Hc1 H]].
  apply bind_ok in H. destruct H as [c0 [Hc0 H]]. injection H as <-.
  destruct Hinv as [I1 [I2 [I3 [I4 [I5 [I6 [I7 I8]]]]]]].
  unfold update_inv.
  cbn [AMES.u_lines AMES.u_count AMES.u_rows AMES.u_clust AMES.u_gps AMES.u_cols
       AMES.u_dataX AMES.u_dataY].
  rewrite !length_app, Hl, Hc, Hr, Hcl, Hg, Hco, Hx, Hy, I1, I2, I3, I4, I5, I6, I7, I8.
  cbn [length]. repeat split; try lia.
  replace (2 * S i) with (2 * i + 2) by lia.
  rewrite seq_app. cbn [seq]. f_equal. f_equal; [lia|]. f_equal. lia.
Qed.

Lemma update_loop_inv (self : @AMES.ames F) (clusters : list (option nat))
    (table : list (@SnapEdges2Grid.entry F)) (queue : list (nat * nat)) :
  forall (i : nat) (st st' : @AMES.update_state F),
  foldM (AMES.update_entry self clusters table)
        (combine (seq i (length queue)) queue) st = Ok st' ->
  update_inv (length (AMES.lines self)) i st ->
  update_inv (length (AMES.lines self)) (i + length queue) st'.
Proof.
  induction queue as [|k1 queue IH]; intros i st st' H Hinv; simpl in H.
  - injection H as <-. simpl. now rewrite Nat.add_0_r.
  - apply bind_ok in H. destruct H as [st1 [H1 H]].
    simpl. replace (i + S (length queue)) with (S i + length queue) by lia.
    apply (IH _ _ _ H). eapply update_entry_inv; eassumption.
Qed.

Lemma zip4_rows (rows cols : list nat) : forall (xs ys : list F),
  length cols = length rows -> length xs = length rows -> length ys = length rows ->
  map SnapEdges2Grid.row (AMES.zip4 rows cols xs ys) = rows.
Proof.
  revert cols. induction rows as [|r rows IH]; intros [|c cols] [|x xs] [|y ys] H1 H2 H3;
    simpl in *; try discriminate; try reflexivity.
  f_equal. apply IH; lia.
Qed.

(** X6. [updateTransporters] keeps the lines it finds and appends one
    line per queue entry. When the table holds the two ends of line [i]
    on rows [2i] and [2i+1] in its first cells and the first buffer row
    right after them, the new ends are spliced in at that place: the
    returned table again has the ends of every line, old and new, first
    and in line order, and every buffer row after them; [clusters],
    [pts] and the table grow by two entries per queue entry. *)
Theorem updateTransporters_keeps_layout (self self' : @AMES.ames F)
    (queue : list (nat * nat)) (clusters clusters' : list (option nat))
    (pts pts' : list (F * F)) (table table' : list (@SnapEdges2Grid.entry F)) :
  AMES.updateTransporters self queue clusters pts table
    = Ok (self', clusters', pts', table') ->
  0 < length (AMES.lines self) ->
  endpoints_first (length (AMES.lines self)) (rows_of table) ->
  (exists e, nth_error table (2 * length (AMES.lines self)) = Some e /\
             SnapEdges2Grid.row e = 2 * length (AMES.lines self)) ->
  AMES.nodes self' = AMES.nodes self /\
  (exists new, AMES.lines self' = AMES.lines self ++ new /\
               length new = length queue) /\
  endpoints_first (length (AMES.lines self')) (rows_of table') /\
  length clusters' = length clusters + 2 * length queue /\
  length pts' = length pts + 2 * length queue /\
  length table' = length table + 2 * length queue.
Proof.
  intros H Hn Hrows [e [He Hrow]]. unfold AMES.updateTransporters in H.
  apply bind_ok in H. destruct H as [st [Hst H]].
  unfold AMES.update_loop in Hst.
  assert (Hinv : update_inv (length (AMES.lines self)) (0 + length queue) st).
  { eapply update_loop_inv; [exact Hst|]. repeat split; reflexivity. }
  destruct Hinv as [I1 [I2 [I3 [I4 [I5 [I6 [I7 I8]]]]]]].
  cbn [Nat.add] in I1, I2, I3, I4, I5, I6, I7, I8.
  set (n := length (AMES.lines self)) in *.
  set (m := length queue) in *.
  assert (Hnew : length (map (fun r => nth r (AMES.u_objs st) (Line.fresh "" "" []))
                             (AMES.u_lines st)) = m)
    by now rewrite length_map.
  assert (Hlines : forall new, length new = m ->
            length (AMES.lines (AMES.with_lines self (AMES.lines self ++ new))) = n + m).
  { intros new Hl. simpl. rewrite length_app. fold n. lia. }
  destruct ((0 <? n)%nat && (0 <? AMES.u_count st)%nat) eqn:Hgo.
  - assert (Htl : exists tl,
              np.where_ (fun e0 => (SnapEdges2Grid.row e0 =? n * 2)%nat) table
              = (2 * n) :: tl).
    { apply (where_from_first _ _ table 0 (2 * n) e).
      - intros k b Hk Hb.
        assert (Hkr : nth_error (rows_of table) k
                      = Some (Z.of_nat (SnapEdges2Grid.row b)))
          by (unfold rows_of; now rewrite nth_error_map, Hb).
        destruct (Hrows k _ Hkr) as [Hlow _]. specialize (Hlow Hk).
        apply Nat.eqb_neq. lia.
      - exact He.
      - apply Nat.eqb_eq. lia. }
    destruct Htl as [tl Htl]. rewrite Htl in H. injection H as <- <- <- <-.
    assert (Hlen : 2 * n < length table) by (apply nth_error_Some; congruence).
    split; [reflexivity|]. split; [eexists; split; [reflexivity | exact Hnew]|].
    assert (Hf : length (firstn (2 * n) table) = 2 * n)
      by (rewrite length_firstn; lia).
    split; [|split; [|split]].
    + rewrite (Hlines _ Hnew). unfold rows_of, np.insert.
      change (n + (n + 0)) with (2 * n).
      rewrite firstn_app, skipn_app, Hf, Nat.sub_diag, firstn_firstn, Nat.min_id.
      rewrite (skipn_all2 (firstn (2 * n) table)) by lia.
      cbn [firstn skipn app]. rewrite app_nil_r.
      rewrite !map_app, map_map.
      assert (Hsplit := layout_split n (rows_of table) Hrows).
      unfold rows_of in Hsplit. rewrite length_map in Hsplit.
      destruct (Hsplit ltac:(lia)) as [Hfirst Hrest].
      rewrite <- map_map with (f := SnapEdges2Grid.row) (g := Z.of_nat)
        (l := AMES.zip4 _ _ _ _).
      rewrite zip4_rows by (rewrite ?I3, ?length_seq; lia).
      rewrite <- firstn_map, Hfirst, I3, app_assoc, <- map_app.
      change (seq (2 * n) (2 * m)) with (seq (0 + 2 * n) (2 * m)).
      rewrite <- seq_app.
      replace (2 * n + 2 * m) with (2 * (n + m)) by lia.
      apply layout_join. rewrite skipn_map in Hrest.
      rewrite Forall_forall in Hrest |- *. intros r Hr.
      apply in_map_iff in Hr. destruct Hr as [e0 [<- He0]].
      cbn [SnapEdges2Grid.row]. rewrite length_seq.
      assert (Hin : In (Z.of_nat (SnapEdges2Grid.row e0))
                       (map (fun e1 => Z.of_nat (SnapEdges2Grid.row e1))
                            (skipn (2 * n) table)))
        by (apply in_map_iff; eauto).
      apply Hrest in Hin. lia.
    + unfold np.insert. rewrite !length_app, length_firstn, length_skipn.
      assert (length clusters = length clusters) by reflexivity. lia.
    + unfold np.insert. rewrite !length_app, length_firstn, length_skipn. lia.
    + unfold np.insert.
      rewrite !length_app, length_firstn, length_skipn, !length_app, length_map,
        length_firstn, length_skipn.
      assert (Hz : length (AMES.zip4 (AMES.u_rows st) (AMES.u_cols st)
                                     (AMES.u_dataX st) (AMES.u_dataY st)) = 2 * m).
      { rewrite <- (length_map SnapEdges2Grid.row), zip4_rows
          by (rewrite ?I3, ?length_seq; lia).
        now rewrite I3, length_seq. }
      lia.
  - injection H as <- <- <- <-.
    assert (Hm : m = 0).
    { apply andb_false_iff in Hgo. destruct Hgo as [Hgo|Hgo];
        apply Nat.ltb_ge in Hgo; lia. }
    split; [reflexivity|]. split; [eexists; split; [reflexivity | exact Hnew]|].
    rewrite (Hlines _ Hnew), Hm, Nat.add_0_r.
    split; [exact Hrows|]. repeat split; lia.
Qed.
End UpdateFacts.

Lemma updateTransporters_keeps_layout_witness :
  exists self' clusters' pts' table',
    AMES.updateTransporters SynthExamples.system [(4, 1)]
      SynthExamples.clusters SynthExamples.pts SynthExamples.table
    = Ok (self', clusters', pts', table') /\
    endpoints_first (length (AMES.lines self')) (rows_of table') /\
    length table' = length SynthExamples.table + 2 * 1.
Proof.
  destruct (AMES.updateTransporters SynthExamples.system [(4, 1)]
              SynthExamples.clusters SynthExamples.pts SynthExamples.table)
    as [[[[s c] p] t]|e] eqn:E.
  - exists s, c, p, t. split; [reflexivity|].
    assert (H0 : 0 < length (AMES.lines SynthExamples.system)) by (simpl; lia).
    assert (H1 : endpoints_first (length (AMES.lines SynthExamples.system))
                                 (rows_of SynthExamples.table))
      by (apply endpoints_firstb_spec; reflexivity).
    assert (H2 : exists e,
              nth_error SynthExamples.table
                        (2 * length (AMES.lines SynthExamples.system)) = Some e /\
              SnapEdges2Grid.row e = 2 * length (AMES.lines SynthExamples.system))
      by (eexists; split; reflexivity).
    destruct (updateTransporters_keeps_layout _ _ _ _ _ _ _ _ _ E H0 H1 H2)
      as [_ [_ [Hl [_ [_ Ht]]]]].
    split; [exact Hl | exact Ht].
  - vm_compute in E. discriminate.
Defined.

(* ------------------------------------------------------------------ *)
(** * The clusterer as a whole *)

Lemma sorted_range (l : list nat) : forall (a n : nat),
  StronglySorted lt l -> (forall x, In x l <-> a <= x < a + n) -> l = seq a n.
Proof.
  induction l as [|h l IH]; intros a n Hs Hin.
  - destruct n as [|n]; [reflexivity|].
    exfalso. apply (proj2 (Hin a)). lia.
  - inversion Hs as [|? ? Hs' Hall]; subst. rewrite Forall_forall in Hall.
    destruct n as [|n].
    { exfalso. assert (a <= h < a + 0) by (apply Hin; now left). lia. }
    assert (Hh : h = a).
    { assert (Ha : In a (h :: l)) by (apply Hin; lia).
      assert (Hr : a <= h < a + S n) by (apply Hin; now left).
      destruct Ha as [Ha|Ha]; [assumption|]. apply Hall in Ha. lia. }
    subst h. simpl. f_equal. apply IH; [assumption|].
    intros x. split.
    + intros Hx. assert (a <= x < a + S n) by (apply Hin; now right).
      apply Hall in Hx. lia.
    + intros Hx. assert (Hx' : In x (a :: l)) by (apply Hin; lia).
      destruct Hx' as [Hx'|Hx']; [lia | assumption].
Qed.

Lemma NoDup_map_nth (A B : Type) (f : A -> B) (l : list A) (i j : nat) (a b : A) :
  NoDup (map f l) -> nth_error l i = Some a -> nth_error l j = Some b ->
  f a = f b -> i = j.
Proof.
  intros Hnd Hi Hj Hf.
  apply (proj1 (NoDup_nth_error (map f l)) Hnd).
  - rewrite length_map. apply nth_error_Some. congruence.
  - rewrite !nth_error_map, Hi, Hj. simpl. now rewrite Hf.
Qed.

Section ClustererFacts.
Import SnapEdges2Grid.
Context {F : Type} {AF : Arith F}.
Implicit Types (od pts : list (@entry F)) (clusters : list (option nat)).

(** A cell that holds an id keeps it. *)
Definition grows clusters clusters' : Prop :=
  forall i c, cluster_of clusters i = Some c -> cluster_of clusters' i = Some c.

(** Every id below the counter is held by some cell. *)
Definition in_use clusters (clust : nat) : Prop :=
  forall c, c < clust -> exists i, cluster_of clusters i = Some c.

Lemma grows_trans c1 c2 c3 : grows c1 c2 -> grows c2 c3 -> grows c1 c3.
Proof. intros H1 H2 i c H. now apply H2, H1. Qed.

Lemma in_use_grows c1 c2 clust : grows c1 c2 -> in_use c1 clust -> in_use c2 clust.
Proof. intros Hg Hu c Hc. destruct (Hu c Hc) as [i Hi]. exists i. now apply Hg. Qed.

Lemma clustered_some clusters i :
  clustered clusters i = true <-> exists c, cluster_of clusters i = Some c.
Proof.
  unfold clustered. destruct (cluster_of clusters i) as [c|].
  - split; eauto.
  - split; [discriminate | intros [c Hc]; discriminate].
Qed.

Lemma primary_entry_global nrows od (b : list entry) clusters clust k2 :
  lawful_on od (vstack nrows od b) -> length clusters = length (vstack nrows od b) -> k2 < length od ->
  in_use clusters clust ->
  let new := primary_entry od (vstack nrows od b) (clusters, clust) k2 in
  grows clusters (fst new) /\ clustered (fst new) k2 = true /\
  in_use (fst new) (snd new).
Proof.
  intros Hlaw Hlen Hk Huse new.
  set (pts := vstack nrows od b) in *.
  pose proof (candidates_self nrows od b k2 Hlaw Hk) as Hself. fold pts in Hself.
  destruct (existsb (clustered clusters) (candidates od pts k2)) eqn:Hex.
  - apply existsb_exists in Hex.
    destruct (primary_entry_extend od pts clusters clust k2 Hlaw
                (vstack_incl nrows od b) Hk Hlen Hex)
      as [jstar [Hj [Hjc [_ [_ [Hsnd [Hjoin Hkeep]]]]]]].
    fold new in Hsnd, Hjoin, Hkeep.
    assert (Hg : grows clusters (fst new)).
    { intros i c Hi. rewrite Hkeep; [assumption|].
      intros [_ Hn]. unfold clustered in Hn. now rewrite Hi in Hn. }
    split; [assumption|]. split.
    + destruct (clustered clusters k2) eqn:Ek.
      * apply clustered_some in Ek. destruct Ek as [c Hc].
        apply clustered_some. exists c. now apply Hg.
      * apply clustered_some. apply clustered_some in Hjc. destruct Hjc as [c Hc].
        exists c. now rewrite (Hjoin k2 Hself Ek).
    + rewrite Hsnd. now apply (in_use_grows clusters).
  - assert (Hnone : forall j, In j (candidates od pts k2) -> clustered clusters j = false).
    { intros j Hj. destruct (clustered clusters j) eqn:E; [|reflexivity].
      rewrite <- not_true_iff_false in Hex. exfalso. apply Hex.
      apply existsb_exists. eauto. }
    destruct (primary_entry_fresh od pts clusters clust k2 Hlen Hnone)
      as [Hsnd [Hnew Hkeep]].
    fold new in Hsnd, Hnew, Hkeep.
    assert (Hg : grows clusters (fst new)).
    { intros i c Hi. rewrite Hkeep; [assumption|].
      intros Hin. apply Hnone in Hin. unfold clustered in Hin. now rewrite Hi in Hin. }
    split; [assumption|]. split.
    + apply clustered_some. exists clust. now apply Hnew.
    + rewrite Hsnd. intros c Hc.
      destruct (Nat.eq_dec c clust) as [->|Hne].
      * exists k2. now apply Hnew.
      * destruct (Huse c ltac:(lia)) as [i Hi]. exists i. now apply Hg.
Qed.

Lemma primary_entries_global nrows od (b : list entry) (l : list nat) :
  lawful_on od (vstack nrows od b) -> (forall k, In k l -> k < length od) ->
  forall st,
  length (fst st) = length (vstack nrows od b) -> in_use (fst st) (snd st) ->
  let st' := fold_left (primary_entry od (vstack nrows od b)) l st in
  grows (fst st) (fst st') /\ in_use (fst st') (snd st') /\
  (forall k, In k l -> clustered (fst st') k = true) /\
  length (fst st') = length (vstack nrows od b).
Proof.
  intros Hlaw. induction l as [|k l IH]; intros Hl st Hlen Huse; simpl.
  - split; [intros i c H; exact H|]. split; [assumption|].
    split; [intros k []|assumption].
  - destruct st as [clusters clust]. simpl in Hlen, Huse.
    destruct (primary_entry_global nrows od b clusters clust k Hlaw Hlen
                (Hl k (or_introl eq_refl)) Huse) as [Hg [Hk Hu]].
    set (st1 := primary_entry od (vstack nrows od b) (clusters, clust) k) in *.
    assert (Hlen1 : length (fst st1) = length (vstack nrows od b))
      by (unfold st1; rewrite primary_entry_length; exact Hlen).
    destruct (IH (fun x Hx => Hl x (or_intror Hx)) st1 Hlen1 Hu)
      as [Hg' [Hu' [Hall Hlen']]].
    split; [eapply grows_trans; eassumption|]. split; [assumption|].
    split; [|assumption].
    intros x [<-|Hx]; [|now apply Hall].
    apply clustered_some in Hk. destruct Hk as [c Hc].
    apply clustered_some. exists c. now apply Hg'.
Qed.

(** After rows [0 .. k-1]: every cell of those rows holds an id. *)
Definition rows_done od (k : nat) (st : list (option nat) * nat) : Prop :=
  forall i e, nth_error od i = Some e -> row e < k -> clustered (fst st) i = true.

Lemma primary_row_global nrows od (b : list entry) st k1 :
  lawful_on od (vstack nrows od b) -> NoDup (map (@row F) od) ->
  length (fst st) = length (vstack nrows od b) -> in_use (fst st) (snd st) ->
  rows_done od k1 st ->
  let st' := primary_row od (vstack nrows od b) st k1 in
  grows (fst st) (fst st') /\ in_use (fst st') (snd st') /\
  length (fst st') = length (vstack nrows od b) /\ rows_done od (S k1) st'.
Proof.
  intros Hlaw Hnd Hlen Huse Hdone st'. unfold primary_row in st'.
  set (lineIdx := np.where_ (fun e => row e =? k1) od) in *.
  assert (Hline : forall i e, nth_error od i = Some e -> row e = k1 -> In i lineIdx).
  { intros i e Hi He. apply where_In. exists e. split; [assumption|].
    now apply Nat.eqb_eq. }
  destruct (existsb (clustered (fst st)) lineIdx) eqn:Hex; subst st'.
  - split; [intros i c H; exact H|]. split; [assumption|]. split; [assumption|].
    intros i e Hi He. destruct (Nat.eq_dec (row e) k1) as [Heq|Hne].
    + apply existsb_exists in Hex. destruct Hex as [j [Hj Hjc]].
      apply where_In in Hj. destruct Hj as [e' [He' Hrow]].
      apply Nat.eqb_eq in Hrow.
      assert (i = j) by (eapply (NoDup_map_nth _ _ (@row F)); eauto; congruence).
      now subst j.
    + apply (Hdone i e Hi). lia.
  - assert (Hl : forall k, In k lineIdx -> k < length od)
      by (intros k Hk; eapply where_lt; exact Hk).
    destruct (primary_entries_global nrows od b lineIdx Hlaw Hl st Hlen Huse)
      as [Hg [Hu [Hall Hlen']]].
    split; [assumption|]. split; [assumption|]. split; [assumption|].
    intros i e Hi He. destruct (Nat.eq_dec (row e) k1) as [Heq|Hne].
    + apply Hall. eapply Hline; eassumption.
    + assert (Hc : clustered (fst st) i = true) by (apply (Hdone i e Hi); lia).
      apply clustered_some in Hc. destruct Hc as [c Hc].
      apply clustered_some. exists c. now apply Hg.
Qed.

Lemma primary_pass_global nrows od (b : list entry) :
  lawful_on od (vstack nrows od b) -> NoDup (map (@row F) od) ->
  let st := primary_pass nrows od (vstack nrows od b) in
  in_use (fst st) (snd st) /\ length (fst st) = length (vstack nrows od b) /\
  rows_done od nrows st.
Proof.
  intros Hlaw Hnd. unfold primary_pass.
  set (pts := vstack nrows od b).
  assert (Hgen : forall n k st,
            in_use (fst st) (snd st) /\ length (fst st) = length pts /\
            rows_done od k st ->
            let st' := fold_left (primary_row od pts) (seq k n) st in
            in_use (fst st') (snd st') /\ length (fst st') = length pts /\
            rows_done od (k + n) st').
  { induction n as [|n IH]; intros k st [Hu [Hl Hd]]; simpl.
    - rewrite Nat.add_0_r. auto.
    - destruct (primary_row_global nrows od b st k Hlaw Hnd Hl Hu Hd)
        as [_ [Hu' [Hl' Hd']]].
      replace (k + S n) with (S k + n) by lia. apply IH. auto. }
  apply (Hgen nrows 0). split; [intros c Hc; simpl in Hc; lia|].
  split; [apply repeat_length|]. intros i e _ He. lia.
Qed.
Lemma primary_row_use nrows od (b : list entry) st k1 :
  lawful_on od (vstack nrows od b) -> length (fst st) = length (vstack nrows od b) ->
  in_use (fst st) (snd st) ->
  let st' := primary_row od (vstack nrows od b) st k1 in
  in_use (fst st') (snd st') /\ length (fst st') = length (vstack nrows od b).
Proof.
  intros Hlaw Hlen Huse st'. unfold primary_row in st'.
  destruct (existsb _ _); subst st'; [now split|].
  destruct (primary_entries_global nrows od b
              (np.where_ (fun e => row e =? k1) od) Hlaw
              (fun k Hk => where_lt _ _ _ _ Hk) st Hlen Huse) as [_ [Hu [_ Hl]]].
  now split.
Qed.

Lemma primary_pass_use nrows od (b : list entry) :
  lawful_on od (vstack nrows od b) ->
  let st := primary_pass nrows od (vstack nrows od b) in
  in_use (fst st) (snd st) /\ length (fst st) = length (vstack nrows od b).
Proof.
  intros Hlaw. unfold primary_pass.
  set (pts := vstack nrows od b).
  assert (H0 : in_use (fst (repeat (@None nat) (length pts), 0))
                      (snd (repeat (@None nat) (length pts), 0)) /\
               length (fst (repeat (@None nat) (length pts), 0)) = length pts).
  { split; [intros c Hc; simpl in Hc; lia | apply repeat_length]. }
  revert H0. generalize (repeat (@None nat) (length pts), 0).
  induction (seq 0 nrows) as [|k l IH]; intros st [Hu Hl]; simpl; [now split|].
  apply IH. now apply primary_row_use.
Qed.

(** ** The secondary pass keeps what the primary pass built *)

(** Every endpoint cell holds an id. *)
Definition od_done od clusters : Prop :=
  forall j, j < length od -> exists c, cluster_of clusters j = Some c.

(** Every queued pair joins a buffer cell to an endpoint cell whose id is
    older than the buffer cell's. *)
Definition queue_ok od clusters (queue : list (nat * nat)) : Prop :=
  forall k2 j, In (k2, j) queue ->
    length od <= k2 /\ j < length od /\
    exists c c', cluster_of clusters k2 = Some c /\
                 cluster_of clusters j = Some c' /\ c' < c.

Lemma grows_refl clusters : grows clusters clusters.
Proof. intros i c H. exact H. Qed.

Lemma grows_set clusters k v :
  cluster_of clusters k = None -> grows clusters (np.set_at clusters k v).
Proof.
  intros Hk i c Hi. rewrite cluster_of_set_other; [assumption|].
  intros ->. congruence.
Qed.

Lemma od_done_grows od c1 c2 : grows c1 c2 -> od_done od c1 -> od_done od c2.
Proof. intros Hg Hd j Hj. destruct (Hd j Hj) as [c Hc]. exists c. now apply Hg. Qed.

Lemma queue_ok_grows od c1 c2 queue :
  grows c1 c2 -> queue_ok od c1 queue -> queue_ok od c2 queue.
Proof.
  intros Hg Hq k2 j Hin. destruct (Hq k2 j Hin) as [H1 [H2 [c [c' [Hc [Hc' Hlt]]]]]].
  split; [assumption|]. split; [assumption|].
  exists c, c'. split; [now apply Hg|]. split; [now apply Hg | assumption].
Qed.

Lemma secondary_step_grows od pts st k2 :
  cluster_of (sec_clusters st) k2 = None ->
  grows (sec_clusters st) (sec_clusters (secondary_step od pts st k2)).
Proof.
  destruct st as [[clusters clust] q]. unfold sec_clusters. simpl. intros Hk.
  unfold secondary_step.
  destruct (negb _); [apply grows_refl|]. cbv zeta.
  destruct (leb _ eps2); [now apply grows_set|].
  destruct (leb _ eps3); [now apply grows_set | apply grows_refl].
Qed.

Lemma secondary_step_use od pts st k2 :
  k2 < length (sec_clusters st) -> cluster_of (sec_clusters st) k2 = None ->
  in_use (sec_clusters st) (sec_clust st) ->
  in_use (sec_clusters (secondary_step od pts st k2))
         (sec_clust (secondary_step od pts st k2)).
Proof.
  destruct st as [[clusters clust] q]. unfold sec_clusters, sec_clust. simpl.
  intros Hlt Hk Huse. unfold secondary_step.
  destruct (negb _); [exact Huse|]. cbv zeta.
  destruct (leb _ eps2); simpl.
  { apply (in_use_grows clusters); [now apply grows_set | assumption]. }
  destruct (leb _ eps3); simpl; [|exact Huse].
  intros c Hc. destruct (Nat.eq_dec c clust) as [->|Hne].
  - exists k2. now apply cluster_of_set_same.
  - destruct (Huse c ltac:(lia)) as [i Hi]. exists i. now apply grows_set.
Qed.

Lemma secondary_step_queue_ok od pts st k2 :
  lawful_on od pts -> incl od pts -> k2 < length pts ->
  k2 < length (sec_clusters st) ->
  cluster_of (sec_clusters st) k2 = None ->
  ids_below (sec_clusters st) (sec_clust st) ->
  od_done od (sec_clusters st) ->
  queue_ok od (sec_clusters st) (sec_queue st) ->
  queue_ok od (sec_clusters (secondary_step od pts st k2))
           (sec_queue (secondary_step od pts st k2)).
Proof.
  destruct st as [[clusters clust] q]. unfold sec_clusters, sec_clust, sec_queue. simpl.
  intros [Hord _] Hincl Hkp Hlt Hk Hb Hd Hq. unfold secondary_step.
  destruct (negb _) eqn:Hany; [exact Hq|]. cbv zeta.
  apply negb_false_iff, any_nonzero_nonempty in Hany.
  set (refIdx := np.where_ (fun q0 => col q0 =? col (nth k2 pts entry0)) od) in *.
  set (d := map (fun j => dist_to (nth k2 pts entry0) (nth j od entry0)) refIdx).
  destruct (leb _ eps2); simpl.
  { apply (queue_ok_grows od clusters); [now apply grows_set | assumption]. }
  destruct (leb _ eps3); simpl; [|exact Hq].
  assert (Hne : d <> []) by (unfold d; destruct refIdx; [congruence | discriminate]).
  assert (Hdom : forall x, In x d -> In x (distances pts)).
  { intros x Hx. unfold d in Hx. apply in_map_iff in Hx. destruct Hx as [j [<- Hj]].
    apply where_In in Hj. destruct Hj as [a [Ha _]].
    apply distances_In; [now apply nth_In|].
    apply Hincl, nth_In, nth_error_Some. congruence. }
  destruct (argmin_spec_on F _ ltb Hord zero d Hne Hdom) as [Hmin _].
  unfold d in Hmin at 2. rewrite length_map in Hmin.
  assert (Hj : nth (np.argmin ltb d) refIdx 0 < length od).
  { eapply where_lt. apply nth_In. exact Hmin. }
  intros k j Hin. apply in_app_or in Hin. destruct Hin as [Hin|[Hin|[]]].
  - apply (queue_ok_grows od clusters _ q); [now apply grows_set | assumption | assumption].
  - injection Hin as <- <-.
    split.
    { destruct (Nat.lt_ge_cases k2 (length od)) as [Hc|Hc]; [|assumption].
      destruct (Hd k2 Hc) as [c Hc']. congruence. }
    split; [assumption|].
    destruct (Hd _ Hj) as [c' Hc'].
    exists clust, c'. split; [now apply cluster_of_set_same|].
    split; [now apply grows_set | now apply (Hb _ _ Hc')].
Qed.

(** Induction along the cells the secondary pass visits: each is visited
    once and is unclustered when its turn comes. *)
Lemma secondary_fold_ind od pts (I : sec_state -> Prop) :
  (forall st k2, k2 < length (sec_clusters st) ->
                 cluster_of (sec_clusters st) k2 = None ->
                 I st -> I (secondary_step od pts st k2)) ->
  forall l, NoDup l -> forall st,
  (forall k, In k l -> k < length (sec_clusters st) /\
                       cluster_of (sec_clusters st) k = None) ->
  I st -> I (fold_left (secondary_step od pts) l st).
Proof.
  intros Hstep. induction l as [|k l IH]; intros Hnd st Hl HI; simpl; [assumption|].
  inversion Hnd as [|? ? Hnotin Hnd']; subst.
  destruct (Hl k (or_introl eq_refl)) as [Hlt Hk].
  apply IH; [assumption| |now apply Hstep].
  intros x Hx. destruct (Hl x (or_intror Hx)) as [Hxl Hxn].
  rewrite secondary_step_length. split; [assumption|].
  rewrite secondary_step_other; [assumption|]. intros ->. contradiction.
Qed.

Lemma snap_centers nrows (b od : list (@entry F)) :
  s_clustCenters (snapEdges2GridRef nrows b od) =
  mid_centers (getClustMidpointsRef (vstack nrows od b)
                 (s_clusters (snapEdges2GridRef nrows b od))).
Proof.
  unfold snapEdges2GridRef.
  destruct (secondary_pass _ _ _) as [[clusters clust] q].
  destruct (getClustMidpointsRef _ _) as [[c m] t] eqn:E. simpl. now rewrite E.
Qed.

(** X7. When every endpoint row of the table stores one cell (and the
    numeric kernel behaves like numbers on the table, as binary64 does
    when the coordinates are finite), the clusterer leaves no endpoint
    cell
    unclustered, and every pair it queues for a synthetic transporter
    joins a buffer cell to an endpoint cell: both hold an id in the
    returned clusters, the two ids differ, and the endpoint's is the
    older one. *)
Theorem snap_endpoints_clustered nrows od (b : list entry) :
  lawful_on od (vstack nrows od b) -> NoDup (map (@row F) od) -> Forall (fun e => row e < nrows) od ->
  let r := snapEdges2GridRef nrows b od in
  (forall i, i < length od -> exists c, cluster_of (s_clusters r) i = Some c) /\
  (forall k2 j, In (k2, j) (s_resourcesToAdd r) ->
     length od <= k2 < length od + length b /\ j < length od /\
     exists c c', cluster_of (s_clusters r) k2 = Some c /\
                  cluster_of (s_clusters r) j = Some c' /\ c' < c).
Proof.
  intros Hlaw Hnd Hrows r. subst r. rewrite snap_clusters, snap_queue.
  set (pts := vstack nrows od b).
  destruct (primary_pass_global nrows od b Hlaw Hnd) as [_ [Hlen Hdone]].
  fold pts in Hlen, Hdone.
  pose proof (primary_pass_inv nrows od pts) as [_ Hbelow].
  set (st1 := primary_pass nrows od pts) in *.
  assert (Hod : od_done od (fst st1)).
  { intros j Hj. apply clustered_some.
    destruct (nth_error od j) as [e|] eqn:E.
    - apply (Hdone j e E). rewrite Forall_forall in Hrows.
      apply Hrows. eapply nth_error_In. exact E.
    - apply nth_error_None in E. lia. }
  assert (Hfinal : (fun st => length (sec_clusters st) = length pts /\
                     ids_below (sec_clusters st) (sec_clust st) /\
                     od_done od (sec_clusters st) /\
                     queue_ok od (sec_clusters st) (sec_queue st))
                   (secondary_pass od pts st1)).
  { unfold secondary_pass.
    apply secondary_fold_ind.
    - intros st k2 Hlt Hk [Hl [Hb [Hd Hq]]].
      split; [now rewrite secondary_step_length|].
      split; [now apply secondary_step_below|].
      split; [|apply secondary_step_queue_ok; try assumption;
                [apply vstack_incl | now rewrite <- Hl]].
      apply (od_done_grows od (sec_clusters st)); [|assumption].
      now apply secondary_step_grows.
    - apply where_NoDup.
    - intros k Hk. now apply isoNodes_In in Hk.
    - unfold sec_clusters, sec_clust, sec_queue. simpl.
      split; [assumption|]. split; [assumption|]. split; [assumption|].
      intros k2 j []. }
  cbv beta in Hfinal. destruct Hfinal as [Hl [_ [Hd Hq]]].
  split; [exact Hd|].
  intros k2 j Hin. destruct (Hq k2 j Hin) as [H1 [H2 [c [c' [Hc [Hc' Hlt]]]]]].
  split; [|split; [assumption | exists c, c'; auto]].
  split; [assumption|].
  apply cluster_of_lt in Hc. rewrite Hl in Hc. unfold pts, vstack in Hc.
  now rewrite length_app, length_map in Hc.
Qed.

(** X8. When the numeric kernel behaves like numbers on the table (as
    binary64 does when the coordinates are finite), the ids the clusterer
    hands out are dense: an id is held by some cell exactly when it is
    below the number of centres, and [clustCenters] lists the centres in
    id order, so that indexing it by a cluster id gives the centre
    [getClustMidpointsRef] computes for that cluster ([center_of]: the
    kernel's [mean] of the coordinates its members have in the stacked
    table; in binary64 the [np.mean] rounded to float32). *)
Theorem snap_centers_by_id nrows od (b : list entry) :
  lawful_on od (vstack nrows od b) ->
  let r := snapEdges2GridRef nrows b od in
  (forall c, (exists i, cluster_of (s_clusters r) i = Some c) <->
             c < length (s_clustCenters r)) /\
  (forall i c, cluster_of (s_clusters r) i = Some c ->
     nth_error (s_clustCenters r) c =
     Some (center_of (vstack nrows od b) (s_clusters r) c)).
Proof.
  intros Hlaw r.
  assert (Hc : s_clustCenters r =
               map (center_of (vstack nrows od b) (s_clusters r))
                   (cluster_ids (s_clusters r))).
  { unfold r. rewrite snap_centers.
    exact (proj1 (getClustMidpointsRef_inv _ _)). }
  assert (Hids : exists n, cluster_ids (s_clusters r) = seq 0 n).
  { unfold r. rewrite snap_clusters.
    set (pts := vstack nrows od b).
    destruct (primary_pass_use nrows od b Hlaw) as [Huse _]. fold pts in Huse.
    pose proof (primary_pass_inv nrows od pts) as [_ Hbelow].
    set (st1 := primary_pass nrows od pts) in *.
    assert (Hfinal : (fun st => in_use (sec_clusters st) (sec_clust st) /\
                                ids_below (sec_clusters st) (sec_clust st))
                     (secondary_pass od pts st1)).
    { unfold secondary_pass. apply secondary_fold_ind.
      - intros st k2 Hlt Hk [Hu Hb].
        split; [now apply secondary_step_use | now apply secondary_step_below].
      - apply where_NoDup.
      - intros k Hk. now apply isoNodes_In in Hk.
      - now split. }
    cbv beta in Hfinal. destruct Hfinal as [Hu Hb].
    exists (sec_clust (secondary_pass od pts st1)).
    apply sorted_range; [apply unique_sorted|].
    intros c. rewrite cluster_ids_In. split.
    - intros [i Hi]. apply Hb in Hi. lia.
    - intros [_ Hlt]. now apply Hu. }
  destruct Hids as [n Hn].
  assert (Hlen : length (s_clustCenters r) = n)
    by now rewrite Hc, Hn, length_map, length_seq.
  assert (Hiff : forall c, (exists i, cluster_of (s_clusters r) i = Some c) <-> c < n).
  { intros c. rewrite <- cluster_ids_In, Hn, in_seq. lia. }
  split.
  - intros c. rewrite Hlen. apply Hiff.
  - intros i c Hi.
    assert (Hlt : c < n) by (apply Hiff; eauto).
    rewrite Hc, Hn, nth_error_map.
    replace (nth_error (seq 0 n) c) with (Some c); [reflexivity|].
    symmetry. rewrite nth_error_nth' with (d := 0) by now rewrite length_seq.
    now rewrite seq_nth.
Qed.
End ClustererFacts.

(** On the binary64 example every endpoint row stores one cell and the
    coordinates are finite; the pair (5, 1) is queued, and cell 5 holds a younger id
    than cell 1. *)
Lemma snap_endpoints_clustered_witness :
  finite_table
    (SnapEdges2Grid.vstack 4 Examples.snap_od64 Examples.snap_b64) = true /\
  NoDup (map (@SnapEdges2Grid.row float) Examples.snap_od64) /\
  Forall (fun e => SnapEdges2Grid.row e < 4) Examples.snap_od64 /\
  In (5, 1) (SnapEdges2Grid.s_resourcesToAdd
               (SnapEdges2Grid.snapEdges2GridRef 4 Examples.snap_b64 Examples.snap_od64)) /\
  exists c c',
    SnapEdges2Grid.cluster_of
      (SnapEdges2Grid.s_clusters
         (SnapEdges2Grid.snapEdges2GridRef 4 Examples.snap_b64 Examples.snap_od64)) 5
    = Some c /\
    SnapEdges2Grid.cluster_of
      (SnapEdges2Grid.s_clusters
         (SnapEdges2Grid.snapEdges2GridRef 4 Examples.snap_b64 Examples.snap_od64)) 1
    = Some c' /\ c' < c.
Proof.
  assert (Hb : finite_table
                 (SnapEdges2Grid.vstack 4 Examples.snap_od64 Examples.snap_b64) = true)
    by (vm_compute; reflexivity).
  assert (Hnd : NoDup (map (@SnapEdges2Grid.row float) Examples.snap_od64))
    by (repeat constructor; simpl; intuition discriminate).
  assert (Hrows : Forall (fun e => SnapEdges2Grid.row e < 4) Examples.snap_od64)
    by (repeat constructor).
  assert (Hin : In (5, 1) (SnapEdges2Grid.s_resourcesToAdd
                  (SnapEdges2Grid.snapEdges2GridRef 4 Examples.snap_b64
                     Examples.snap_od64)))
    by (vm_compute; left; reflexivity).
  split; [exact Hb|]. split; [exact Hnd|]. split; [exact Hrows|]. split; [exact Hin|].
  exact (proj2 (proj2 (proj2
    (snap_endpoints_clustered 4 Examples.snap_od64 Examples.snap_b64
       (finite_lawful_on _ _ Hb (vstack_incl _ _ _)) Hnd Hrows) 5 1 Hin))).
Defined.

(** On the binary64 example cell 4 holds id 1 and cell 5 holds id 4:
    entry 1 of [clustCenters] is the float32 mean of cells 1 and 4, and
    entry 4 is the float32 value of the longitude 2.2 of cell 5. *)
Lemma snap_centers_by_id_witness :
  let r := SnapEdges2Grid.snapEdges2GridRef 4 Examples.snap_b64 Examples.snap_od64 in
  finite_table
    (SnapEdges2Grid.vstack 4 Examples.snap_od64 Examples.snap_b64) = true /\
  nth_error (SnapEdges2Grid.s_clustCenters r) 1
    = Some (0x1.0051ecp+1%float, 0x1.001062p+0%float) /\
  nth_error (SnapEdges2Grid.s_clustCenters r) 4 = Some (0x1.19999ap+1%float, 1%float).
Proof.
  cbv zeta.
  assert (Hb : finite_table
                 (SnapEdges2Grid.vstack 4 Examples.snap_od64 Examples.snap_b64) = true)
    by (vm_compute; reflexivity).
  split; [exact Hb|]. split.
  - etransitivity.
    + exact (proj2 (snap_centers_by_id 4 Examples.snap_od64 Examples.snap_b64
                      (finite_lawful_on _ _ Hb (vstack_incl _ _ _))) 4 1 eq_refl).
    + vm_compute. reflexivity.
  - etransitivity.
    + exact (proj2 (snap_centers_by_id 4 Examples.snap_od64 Examples.snap_b64
                      (finite_lawful_on _ _ Hb (vstack_incl _ _ _))) 5 4 eq_refl).
    + vm_compute. reflexivity.
Defined.

(* ------------------------------------------------------------------ *)
(** * The point table through the pruner and the joiner *)

Section TableArrays.
Context {A : Type}.

Lemma delete_from_ext (idx idx' : list nat) (l : list A) : forall i,
  (forall k, i <= k -> existsb (Nat.eqb k) idx = existsb (Nat.eqb k) idx') ->
  np.delete_from idx i l = np.delete_from idx' i l.
Proof.
  induction l as [|a l IH]; intros i H; simpl; [reflexivity|].
  rewrite (H i) by lia.
  rewrite (IH (S i)) by (intros k Hk; apply H; lia). reflexivity.
Qed.

Lemma where_from_above (B : Type) (p : B -> bool) (l : list B) (i k : nat) :
  k < i -> existsb (Nat.eqb k) (np.where_from p i l) = false.
Proof.
  intros Hk. destruct (existsb _ _) eqn:E; [|reflexivity].
  apply existsb_exists in E. destruct E as [j [Hj Hjk]].
  apply Nat.eqb_eq in Hjk. subst j. apply where_from_In in Hj. lia.
Qed.

(** Deleting the positions [np.where] found keeps the entries of the
    companion array whose partner fails the test. *)
Lemma delete_where_from (B : Type) (p : B -> bool) (l : list A) :
  forall (l2 : list B) (i : nat), length l = length l2 ->
  np.delete_from (np.where_from p i l2) i l =
  map fst (filter (fun ab => negb (p (snd ab))) (combine l l2)).
Proof.
  induction l as [|a l IH]; intros [|b l2] i Hlen; simpl in *; try discriminate;
    [reflexivity|].
  destruct (p b) eqn:Hp; simpl.
  - rewrite Nat.eqb_refl. simpl.
    rewrite <- (IH l2 (S i)) by lia.
    apply delete_from_ext. intros k Hk. simpl.
    destruct (Nat.eqb_spec k i); [lia | reflexivity].
  - rewrite where_from_above by lia. f_equal. apply IH. lia.
Qed.

Lemma delete_where_self (p : A -> bool) (l : list A) :
  np.delete l (np.where_ p l) = filter (fun a => negb (p a)) l.
Proof.
  unfold np.delete, np.where_. rewrite delete_where_from by reflexivity.
  induction l as [|a l IH]; simpl; [reflexivity|].
  destruct (p a); simpl; [assumption | now f_equal].
Qed.

Lemma delete_where_length (B : Type) (p : B -> bool) (l : list A) (l2 : list B) :
  length l = length l2 ->
  length (np.delete l (np.where_ p l2)) = length (filter (fun b => negb (p b)) l2).
Proof.
  intros Hlen. unfold np.delete, np.where_. rewrite delete_where_from by assumption.
  rewrite length_map. revert l2 Hlen.
  induction l as [|a l IH]; intros [|b l2] Hlen; simpl in *; try discriminate;
    [reflexivity|].
  destruct (p b); simpl; [|f_equal]; apply IH; lia.
Qed.

Lemma py_delete_ok (l l' : list A) (idx : list nat) :
  py.delete l idx = Ok l' -> l' = np.delete l idx.
Proof.
  unfold py.delete. destruct (forallb _ _); [|discriminate]. now intros [= <-].
Qed.

Lemma where_none (p : A -> bool) (l : list A) : forall i,
  Forall (fun a => p a = false) l -> np.where_from p i l = [].
Proof.
  induction l as [|a l IH]; intros i H; simpl; [reflexivity|].
  inversion H as [|? ? Ha Hl]; subst. rewrite Ha. now apply IH.
Qed.
End TableArrays.

(** A non-decreasing list splits around a value. *)
Lemma sorted_split (v : Z) (l : list Z) :
  StronglySorted Z.le l ->
  l = filter (fun r => (r <? v)%Z) l ++ filter (fun r => (r =? v)%Z) l
        ++ filter (fun r => (v <? r)%Z) l /\
  filter (fun r => negb (r =? v)%Z) l =
    filter (fun r => (r <? v)%Z) l ++ filter (fun r => (v <? r)%Z) l.
Proof.
  induction 1 as [|a l Hs [IH1 IH2] Hall]; [split; reflexivity|].
  rewrite Forall_forall in Hall. simpl.
  destruct (Z.ltb_spec a v) as [Hav|Hav].
  - replace (a =? v)%Z with false by (symmetry; apply Z.eqb_neq; lia).
    replace (v <? a)%Z with false by (symmetry; apply Z.ltb_ge; lia).
    simpl. split; f_equal; assumption.
  - assert (Hlo : filter (fun r => (r <? v)%Z) l = []).
    { clear IH1 IH2. induction l as [|b l IHl]; [reflexivity|]. simpl.
      assert (a <= b)%Z by (apply Hall; now left).
      replace (b <? v)%Z with false by (symmetry; apply Z.ltb_ge; lia).
      inversion Hs; subst. apply IHl; [assumption|].
      intros x Hx. apply Hall. now right. }
    rewrite Hlo in *. simpl in *.
    destruct (Z.eqb_spec a v) as [->|Hne].
    + rewrite Z.ltb_irrefl. simpl. split; [now f_equal | assumption].
    + assert (Heq : filter (fun r => (r =? v)%Z) l = []).
      { clear IH1 IH2 Hlo. induction l as [|b l IHl]; [reflexivity|]. simpl.
        assert (a <= b)%Z by (apply Hall; now left).
        replace (b =? v)%Z with false by (symmetry; apply Z.eqb_neq; lia).
        inversion Hs; subst. apply IHl; [assumption|].
        intros x Hx. apply Hall. now right. }
      rewrite Heq in *. simpl in *.
      replace (v <? a)%Z with true by (symmetry; apply Z.ltb_lt; lia).
      simpl. split; now f_equal.
Qed.

Lemma sorted_app (l1 l2 : list Z) :
  StronglySorted Z.le l1 -> StronglySorted Z.le l2 ->
  (forall a b, In a l1 -> In b l2 -> (a <= b)%Z) ->
  StronglySorted Z.le (l1 ++ l2).
Proof.
  induction 1 as [|a l1 Hs IH Hall]; intros H2 Hle; simpl; [assumption|].
  constructor.
  - apply IH; [assumption|]. intros x y Hx Hy. apply Hle; [now right | assumption].
  - apply Forall_app. split; [assumption|].
    apply Forall_forall. intros y Hy. apply Hle; [now left | assumption].
Qed.

Lemma sorted_filter (p : Z -> bool) (l : list Z) :
  StronglySorted Z.le l -> StronglySorted Z.le (filter p l).
Proof.
  induction 1 as [|a l Hs IH Hall]; simpl; [constructor|].
  destruct (p a); [|assumption]. constructor; [assumption|].
  rewrite Forall_forall in *. intros x Hx. apply filter_In in Hx. now apply Hall.
Qed.

Lemma sorted_map_sub (d : Z) (l : list Z) :
  StronglySorted Z.le l -> StronglySorted Z.le (map (fun r => (r - d)%Z) l).
Proof.
  induction 1 as [|a l Hs IH Hall]; simpl; constructor; [assumption|].
  rewrite Forall_forall in *. intros x Hx. apply in_map_iff in Hx.
  destruct Hx as [y [<- Hy]]. apply Hall in Hy. lia.
Qed.

(** The point table the stages after the clusterer share: [clusters] has
    one id per row of [resourceIdx]; the rows of the [2 * n] line ends
    come first and in order, then the rows of the buffers, which never
    decrease and each name one of the [m] buffers. *)
Definition table_ok (n m : nat) (clusters : list nat) (resourceIdx : list Z) : Prop :=
  length clusters = length resourceIdx /\
  exists bufs,
    resourceIdx = map Z.of_nat (seq 0 (2 * n)) ++ bufs /\
    StronglySorted Z.le bufs /\
    Forall (fun r => (Z.of_nat (2 * n) <= r < Z.of_nat (2 * n + m))%Z) bufs.

Lemma seq_sub2 (j : nat) : forall a : nat,
  map (fun r => (r - 2)%Z) (map Z.of_nat (seq (a + 2) j)) = map Z.of_nat (seq a j).
Proof.
  induction j as [|j IH]; intros a; simpl; [reflexivity|].
  f_equal; [lia | apply (IH (S a))].
Qed.

(** Dropping the two rows of line [k] and renumbering what follows. *)
Lemma rows_drop_line (n k : nat) (bufs : list Z) : k < n ->
  firstn (2 * k) (map Z.of_nat (seq 0 (2 * n)) ++ bufs)
    ++ map (fun r => (r - 2)%Z) (skipn (2 * k + 2) (map Z.of_nat (seq 0 (2 * n)) ++ bufs))
  = map Z.of_nat (seq 0 (2 * (n - 1))) ++ map (fun r => (r - 2)%Z) bufs.
Proof.
  intros Hk.
  replace (2 * n) with (2 * k + (2 + (2 * n - 2 * k - 2))) by lia.
  rewrite !seq_app, !map_app, <- !app_assoc.
  assert (H1 : length (map Z.of_nat (seq 0 (2 * k))) = 2 * k)
    by now rewrite length_map, length_seq.
  rewrite firstn_app, H1, Nat.sub_diag, firstn_O, app_nil_r.
  rewrite firstn_all2 by lia.
  rewrite skipn_app, H1.
  rewrite (skipn_all2 (map Z.of_nat (seq 0 (2 * k)))) by lia.
  replace (2 * k + 2 - 2 * k) with 2 by lia. cbn [app].
  assert (H2 : length (map Z.of_nat (seq (0 + 2 * k) 2)) = 2)
    by now rewrite length_map, length_seq.
  rewrite skipn_app, H2, Nat.sub_diag, skipn_O.
  rewrite (skipn_all2 (map Z.of_nat (seq (0 + 2 * k) 2))) by lia. cbn [app].
  rewrite map_app.
  replace (0 + 2 * k + 2) with (2 * k + 2) by lia.
  rewrite seq_sub2.
  replace (2 * (n - 1)) with (2 * k + (2 * n - 2 * k - 2)) by lia.
  rewrite seq_app, map_app, <- app_assoc. reflexivity.
Qed.

Lemma Forall2_In_r (A B : Type) (R : A -> B -> Prop) (l1 : list A) (l2 : list B) (b : B) :
  Forall2 R l1 l2 -> In b l2 -> exists a, In a l1 /\ R a b.
Proof.
  induction 1 as [|x y l1 l2 Hxy Hall IH]; intros Hin; [destruct Hin|].
  destruct Hin as [<-|Hin].
  - exists x. split; [now left | assumption].
  - destruct (IH Hin) as [a [Ha HR]]. exists a. split; [now right | assumption].
Qed.

Lemma foldM_inv_in (S K : Type) (f : S -> K -> res S) (P : S -> Prop) (l : list K) :
  (forall st k st', In k l -> f st k = Ok st' -> P st -> P st') ->
  forall st st', foldM f l st = Ok st' -> P st -> P st'.
Proof.
  induction l as [|k l IH]; intros Hstep st st' H HP; simpl in H.
  - now injection H as <-.
  - apply bind_ok in H. destruct H as [st1 [H1 H]].
    apply (IH (fun s x s' Hx => Hstep s x s' (or_intror Hx)) st1 st' H).
    apply (Hstep st k st1 (or_introl eq_refl) H1 HP).
Qed.

Lemma filter_all (A : Type) (p : A -> bool) (l : list A) :
  Forall (fun a => p a = true) l -> filter p l = l.
Proof.
  induction 1 as [|a l Ha Hl IH]; simpl; [reflexivity|]. rewrite Ha. now f_equal.
Qed.

Lemma endpoint_rows_below (n : nat) (r : Z) :
  In r (map Z.of_nat (seq 0 (2 * n))) -> (0 <= r < Z.of_nat (2 * n))%Z.
Proof.
  intros H. apply in_map_iff in H. destruct H as [k [<- Hk]].
  apply in_seq in Hk. lia.
Qed.

Section TableFacts.
Context {F : Type} {AF : Arith F}.

Abbreviation LineT := (@Line.t F).
Abbreviation NodeT := (@Node.t F).

(** The buffers [del_buffers] names exist. *)
Definition buffers_ok (m : nat) (del_buffers : list Z) : Prop :=
  Forall (fun d => (0 <= d < Z.of_nat m)%Z) del_buffers.

Lemma coords_unloop_table (m : nat) (st st' : @AMES.unloop_state F) (k2 : Z) :
  AMES.coords_unloop st k2 = Ok st' -> (0 <= k2)%Z ->
  (table_ok (length (fst (fst (fst st)))) m (snd (fst (fst st))) (snd (fst st)) /\
   buffers_ok m (snd st)) ->
  table_ok (length (fst (fst (fst st')))) m (snd (fst (fst st'))) (snd (fst st')) /\
  buffers_ok m (snd st').
Proof.
  destruct st as [[[ls clusters] rI] db]. cbn [fst snd].
  intros H Hk2 [[Hlen [bufs [HrI [Hsorted Hrange]]]] Hdb].
  unfold AMES.coords_unloop in H.
  apply bind_ok in H. destruct H as [l [Hl H]].
  unfold py.getz in Hl. apply bind_ok in Hl. destruct Hl as [k [Hpos _]].
  apply pos_nonneg in Hpos; [|assumption]. destruct Hpos as [Hk Hklt].
  assert (Hk2' : k2 = Z.of_nat k) by lia. subst k2. clear Hk.
  assert (HlenR : length rI = 2 * length ls + length bufs)
    by (rewrite HrI, length_app, length_map, length_seq; reflexivity).
  rewrite deletez_nat in H by assumption. cbn [bind] in H.
  rewrite !deletez_pair in H by lia. cbn [bind] in H.
  assert (Hf : length (firstn (2 * k) rI) = 2 * k) by (rewrite length_firstn; lia).
  replace (Z.of_nat k * 2)%Z with (Z.of_nat (length (firstn (2 * k) rI))) in H by lia.
  rewrite shift_from_split in H.
  set (ls' := firstn k ls ++ skipn (S k) ls) in *.
  set (clusters' := firstn (2 * k) clusters ++ skipn (2 * k + 2) clusters) in *.
  assert (Hls' : length ls' = length ls - 1).
  { unfold ls'. rewrite length_app, length_firstn, length_skipn. lia. }
  assert (HrI' : firstn (2 * k) rI ++ map (fun r => (r - 2)%Z) (skipn (2 * k + 2) rI)
                 = map Z.of_nat (seq 0 (2 * length ls')) ++ map (fun r => (r - 2)%Z) bufs).
  { rewrite HrI, Hls'. now apply rows_drop_line. }
  rewrite HrI' in H.
  assert (Hrange' : Forall (fun r => (Z.of_nat (2 * length ls') <= r
                                      < Z.of_nat (2 * length ls' + m))%Z)
                           (map (fun r => (r - 2)%Z) bufs)).
  { rewrite Forall_forall in *. intros r Hr. apply in_map_iff in Hr.
    destruct Hr as [y [<- Hy]]. apply Hrange in Hy. lia. }
  assert (Htable : table_ok (length ls') m clusters'
                     (map Z.of_nat (seq 0 (2 * length ls'))
                        ++ map (fun r => (r - 2)%Z) bufs)).
  { split.
    - unfold clusters'.
      rewrite !length_app, !length_map, length_seq, length_firstn, length_skipn. lia.
    - exists (map (fun r => (r - 2)%Z) bufs).
      split; [reflexivity|]. split; [now apply sorted_map_sub | assumption]. }
  destruct (existsb _ _) eqn:Hex.
  - injection H as <-. cbn [fst snd]. now split.
  - apply bind_ok in H. destruct H as [rs [Hrs H]]. injection H as <-. cbn [fst snd].
    split; [assumption|].
    apply Forall_app. split; [assumption|].
    apply Forall_forall. intros d Hd. apply in_map_iff in Hd.
    destruct Hd as [r [<- Hr]].
    apply take_get in Hrs.
    destruct (Forall2_In_r _ _ _ _ _ _ Hrs Hr) as [t [Ht Hnth]].
    assert (Hge : 2 * length ls' <= t).
    { destruct (Nat.lt_ge_cases t (2 * length ls')) as [Hlt|Hge]; [|assumption].
      rewrite <- not_true_iff_false in Hex. exfalso. apply Hex.
      apply existsb_exists. exists t. split; [assumption|]. apply Z.ltb_lt. lia. }
    rewrite nth_error_app2 in Hnth by (rewrite length_map, length_seq; assumption).
    apply nth_error_In in Hnth. rewrite Forall_forall in Hrange'.
    apply Hrange' in Hnth. lia.
Qed.

Lemma coords_unbuffer_table (n : nat) (st st' : @AMES.unbuffer_state F) (k3 : Z) :
  AMES.coords_unbuffer (Z.of_nat n * 2) st k3 = Ok st' -> (0 <= k3)%Z ->
  table_ok n (length (fst (fst st))) (snd (fst st)) (snd st) ->
  table_ok n (length (fst (fst st'))) (snd (fst st')) (snd st').
Proof.
  destruct st as [[ns clusters] rI]. cbn [fst snd].
  intros H Hk3 [Hlen [bufs [HrI [Hsorted Hrange]]]].
  unfold AMES.coords_unbuffer in H.
  apply bind_ok in H. destruct H as [ns' [Hns H]].
  pose proof (deletez_one_length _ _ _ Hns) as Hns'.
  apply deletez_one in Hns. destruct Hns as [k [Hpos _]].
  apply pos_nonneg in Hpos; [|assumption]. destruct Hpos as [Hk Hklt].
  assert (Hk3m : (k3 < Z.of_nat (length ns))%Z) by lia. clear Hk Hklt.
  set (v := (k3 + Z.of_nat n * 2)%Z) in *.
  set (p := fun r : Z => (r =? v)%Z) in *.
  apply bind_ok in H. destruct H as [clusters' [Hc H]].
  apply bind_ok in H. destruct H as [rI' [Hr H]].
  apply py_delete_ok in Hc. apply py_delete_ok in Hr.
  rewrite delete_where_self in Hr.
  assert (Hlen' : length clusters' = length rI').
  { subst clusters' rI'. now apply delete_where_length. }
  assert (HE : Forall (fun a => negb (p a) = true) (map Z.of_nat (seq 0 (2 * n)))).
  { apply Forall_forall. intros r Hin. apply endpoint_rows_below in Hin.
    apply negb_true_iff, Z.eqb_neq. unfold v. lia. }
  destruct (sorted_split v bufs Hsorted) as [Hsplit Hne]. fold p in Hsplit, Hne.
  set (lo := filter (fun r => (r <? v)%Z) bufs) in *.
  set (mid := filter p bufs) in *.
  set (hi := filter (fun r => (v <? r)%Z) bufs) in *.
  change (filter (fun a => negb (p a)) bufs = lo ++ hi) in Hne.
  assert (HrI' : rI' = (map Z.of_nat (seq 0 (2 * n)) ++ lo) ++ hi).
  { rewrite Hr, HrI, filter_app, (filter_all _ _ _ HE), Hne. apply app_assoc. }
  assert (Hlo : forall a, In a lo -> In a bufs /\ (a < v)%Z).
  { intros a Ha. apply filter_In in Ha. destruct Ha as [Ha Hlt].
    split; [assumption | now apply Z.ltb_lt]. }
  assert (Hhi : forall a, In a hi -> In a bufs /\ (v < a)%Z).
  { intros a Ha. apply filter_In in Ha. destruct Ha as [Ha Hlt].
    split; [assumption | now apply Z.ltb_lt]. }
  destruct (np.where_ p rI) as [|t0 tl] eqn:Et; [discriminate|].
  injection H as <-. cbn [fst snd].
  assert (Hbefore : forall j b, j < length (map Z.of_nat (seq 0 (2 * n)) ++ lo) ->
                      nth_error rI j = Some b -> p b = false).
  { intros j b Hj Hb. rewrite HrI, Hsplit, app_assoc in Hb.
    rewrite nth_error_app1 in Hb by assumption.
    apply nth_error_In, in_app_or in Hb. destruct Hb as [Hb|Hb].
    - rewrite Forall_forall in HE. apply negb_true_iff. now apply HE.
    - apply Hlo in Hb. apply Z.eqb_neq. lia. }
  assert (Ht0 : t0 = length (map Z.of_nat (seq 0 (2 * n)) ++ lo)).
  { destruct mid as [|e0 mid'] eqn:Eeq.
    - exfalso. unfold np.where_ in Et. rewrite where_none in Et; [discriminate|].
      rewrite HrI, Hsplit. cbn [app].
      apply Forall_app. split; [|apply Forall_app; split].
      + rewrite Forall_forall in *. intros a Ha. apply negb_true_iff. now apply HE.
      + apply Forall_forall. intros a Ha. apply Hlo in Ha. apply Z.eqb_neq. lia.
      + apply Forall_forall. intros a Ha. apply Hhi in Ha. apply Z.eqb_neq. lia.
    - assert (He0 : p e0 = true).
      { assert (Hin : In e0 (filter p bufs)) by (fold mid; rewrite Eeq; now left).
        now apply filter_In in Hin. }
      destruct (where_from_first Z p rI 0
                  (length (map Z.of_nat (seq 0 (2 * n)) ++ lo)) e0) as [tl' Htl].
      + intros j b Hj. now apply Hbefore.
      + rewrite HrI, Hsplit, app_assoc, nth_error_app2 by lia.
        now rewrite Nat.sub_diag.
      + assumption.
      + unfold np.where_ in Et. rewrite Htl in Et. now injection Et as <- _. }
  rewrite Ht0, HrI', shift_from_split, <- app_assoc.
  split.
  - rewrite Hlen', HrI', !length_app, !length_map. lia.
  - exists (lo ++ map (fun r => (r - 1)%Z) hi).
    split; [reflexivity|]. split.
    + apply sorted_app.
      * now apply sorted_filter.
      * now apply sorted_map_sub, sorted_filter.
      * intros a b Ha Hb. apply Hlo in Ha. apply in_map_iff in Hb.
        destruct Hb as [y [<- Hy]]. apply Hhi in Hy. lia.
    + rewrite Forall_forall in Hrange.
      apply Forall_app. split; apply Forall_forall.
      * intros a Ha. apply Hlo in Ha. destruct Ha as [Ha Hlt].
        apply Hrange in Ha. unfold v in Hlt. lia.
      * intros b Hb. apply in_map_iff in Hb. destruct Hb as [y [<- Hy]].
        apply Hhi in Hy. destruct Hy as [Hy Hlt]. apply Hrange in Hy.
        unfold v in Hlt. lia.
Qed.

Lemma coords_point_nodes (numEnd : Z) (clusters : list nat) (pts : list (F * F))
    (resourceIdx : list Z) (st st' : @AMES.coords_state F) (k1 : nat) :
  AMES.coords_point numEnd clusters pts resourceIdx st k1 = Ok st' ->
  length (fst (fst st')) = length (fst (fst st)).
Proof.
  destruct st as [[ns ls] del_lines]. cbn [fst]. intros H.
  unfold AMES.coords_point in H.
  apply bind_ok in H. destruct H as [r [_ H]].
  apply bind_ok in H. destruct H as [c [_ H]].
  apply bind_ok in H. destruct H as [p [_ H]].
  destruct (numEnd <=? r)%Z.
  - apply bind_ok in H. destruct H as [pt [_ H]].
    apply bind_ok in H. destruct H as [ns' [Hns H]].
    injection H as <-. cbn [fst]. now apply setz_length in Hns.
  - destruct (r mod 2 =? 0)%Z.
    + apply bind_ok in H. destruct H as [pt [_ H]].
      apply bind_ok in H. destruct H as [ls' [_ H]]. now injection H as <-.
    + apply bind_ok in H. destruct H as [pt [_ H]].
      apply bind_ok in H. destruct H as [ls' [_ H]]. now injection H as <-.
Qed.

(** X9. [reviseCoords] keeps the point table well formed: given one
    cluster id per row, the rows of the line ends first and in order and
    then the buffer rows, non-decreasing and each naming an existing
    buffer, what it returns has the same shape for the lines and buffers
    that are left. *)
Theorem reviseCoords_keeps_table (self self' : @AMES.ames F)
    (clusters clusters' : list nat) (pts : list (F * F))
    (resourceIdx resourceIdx' : list Z) :
  AMES.reviseCoords self clusters pts resourceIdx = Ok (self', clusters', resourceIdx') ->
  table_ok (length (AMES.lines self)) (length (AMES.nodes self)) clusters resourceIdx ->
  table_ok (length (AMES.lines self')) (length (AMES.nodes self')) clusters' resourceIdx'.
Proof.
  intros H Htable. unfold AMES.reviseCoords, AMES.numEndpoints in H.
  apply bind_ok in H. destruct H as [[[ns ls] del_lines] [H1 H]].
  apply bind_ok in H. destruct H as [[[[ls' c1] r1] del_buffers] [H2 H]].
  apply bind_ok in H. destruct H as [[[ns' c2] r2] [H3 H]].
  injection H as <- <- <-. cbn [AMES.lines AMES.nodes].
  assert (Hrows : endpoints_first (length (AMES.lines self)) resourceIdx).
  { destruct Htable as [_ [bufs [-> [_ Hrange]]]]. apply layout_join.
    eapply Forall_impl; [|exact Hrange]. intros r Hr. cbv beta in Hr. lia. }
  assert (Hns : length ns = length (AMES.nodes self)).
  { set (P := fun st : @AMES.coords_state F =>
                length (fst (fst st)) = length (AMES.nodes self)).
    assert (Hstep : forall st k st',
              AMES.coords_point (Z.of_nat (length (AMES.lines self)) * 2)
                clusters pts resourceIdx st k = Ok st' -> P st -> P st').
    { intros st k st' Hst HP. unfold P in *. rewrite <- HP.
      exact (coords_point_nodes _ _ _ _ _ _ _ Hst). }
    exact (foldM_inv _ _ _ P Hstep _ _ _ H1 eq_refl). }
  apply (coords_points_inv _ _ _ _ _ _ Hrows eq_refl) in H1.
  destruct H1 as [Hlen [_ [Hdel _]]].
  assert (Hloop2 : table_ok (length ls') (length ns) c1 r1 /\
                   buffers_ok (length ns) del_buffers).
  { set (P := fun st : @AMES.unloop_state F =>
                table_ok (length (fst (fst (fst st)))) (length ns)
                         (snd (fst (fst st))) (snd (fst st)) /\
                buffers_ok (length ns) (snd st)).
    assert (Hstep : forall st k st', In k (rev del_lines) ->
              AMES.coords_unloop st k = Ok st' -> P st -> P st').
    { intros st k st' Hk Hst HP.
      apply (coords_unloop_table _ _ _ _ Hst); [|exact HP].
      apply in_rev in Hk. rewrite Forall_forall in Hdel.
      exact (proj1 (Hdel k Hk)). }
    apply (foldM_inv_in _ _ _ P _ Hstep _ _ H2).
    unfold P. cbn [fst snd]. rewrite Hlen, Hns. split; [assumption | constructor]. }
  destruct Hloop2 as [Ht2 Hb2].
  set (P := fun st : @AMES.unbuffer_state F =>
              table_ok (length ls') (length (fst (fst st))) (snd (fst st)) (snd st)).
  assert (Hstep : forall st k st', In k (rev (np.uniqueZ del_buffers)) ->
            AMES.coords_unbuffer (Z.of_nat (length ls') * 2) st k = Ok st' ->
            P st -> P st').
  { intros st k st' Hk Hst HP.
    apply (coords_unbuffer_table _ _ _ _ Hst); [|exact HP].
    apply in_rev in Hk. apply (proj1 (uniqueZ_In _ _)) in Hk.
    unfold buffers_ok in Hb2. rewrite Forall_forall in Hb2.
    exact (proj1 (Hb2 k Hk)). }
  apply (foldM_inv_in _ _ _ P _ Hstep _ _ H3).
  exact Ht2.
Qed.
End TableFacts.

Module TableExamples.
Local Open Scope string_scope.
Local Open Scope list_scope.

(** A spur with both ends in cluster 2, where only the second generator
    sits, and a tie line from cluster 0 to cluster 1. Rows 0 to 3 are the
    line ends, rows 4 to 6 the buffers. *)
Definition system : @AMES.ames float :=
  AMES.mkAmes [LinkExamples.hydro_a; PruneExamples.town; LinkExamples.hydro_b]
              [PruneExamples.spur; LinkExamples.tie_line]
              ["electric power at 132kV"; "water energy"] None None None None.

Definition clusters : list nat := [2; 2; 0; 1; 0; 1; 2].
End TableExamples.

(** On the example the spur goes, and with it the generator it leaves
    alone in cluster 2: one line, two buffers and four rows are left. *)
Lemma reviseCoords_keeps_table_witness :
  exists self' clusters' resourceIdx',
    AMES.reviseCoords TableExamples.system TableExamples.clusters
      PruneExamples.pts PruneExamples.resourceIdx
    = Ok (self', clusters', resourceIdx') /\
    length (AMES.lines self') = 1 /\ length (AMES.nodes self') = 2 /\
    clusters' = [0; 1; 0; 1] /\ resourceIdx' = [0; 1; 2; 3]%Z /\
    table_ok 1 2 clusters' resourceIdx'.
Proof.
  destruct (AMES.reviseCoords TableExamples.system TableExamples.clusters
              PruneExamples.pts PruneExamples.resourceIdx)
    as [[[self' clusters'] resourceIdx']|e] eqn:E;
    [|vm_compute in E; discriminate].
  exists self', clusters', resourceIdx'.
  assert (Hin : table_ok (length (AMES.lines TableExamples.system))
                  (length (AMES.nodes TableExamples.system))
                  TableExamples.clusters PruneExamples.resourceIdx).
  { split; [reflexivity|]. exists [4; 5; 6]%Z. split; [reflexivity|].
    split; repeat constructor; simpl; lia. }
  pose proof (reviseCoords_keeps_table _ _ _ _ _ _ _ E Hin) as Hout.
  assert (Hres : length (AMES.lines self') = 1 /\ length (AMES.nodes self') = 2 /\
                 clusters' = [0; 1; 0; 1] /\ resourceIdx' = [0; 1; 2; 3]%Z).
  { vm_compute in E. injection E as <- <- <-. repeat split; reflexivity. }
  destruct Hres as [Hl [Hn [Hc Hr]]].
  split; [reflexivity|]. split; [exact Hl|]. split; [exact Hn|].
  split; [exact Hc|]. split; [exact Hr|].
  rewrite Hl, Hn in Hout. exact Hout.
Defined.

(** ** The joiner *)

Lemma rows_decomp (n i : nat) (bufs : list Z) : i < n ->
  firstn (2 * i) (map Z.of_nat (seq 0 (2 * n)) ++ bufs) = map Z.of_nat (seq 0 (2 * i)) /\
  skipn (2 * i + 2) (map Z.of_nat (seq 0 (2 * n)) ++ bufs) =
    map Z.of_nat (seq (2 * i + 2) (2 * n - 2 * i - 2)) ++ bufs /\
  map Z.of_nat (seq 0 (2 * n)) ++ bufs =
    map Z.of_nat (seq 0 (2 * i))
      ++ Z.of_nat (2 * i) :: Z.of_nat (2 * i + 1)
      :: map Z.of_nat (seq (2 * i + 2) (2 * n - 2 * i - 2)) ++ bufs.
Proof.
  intros Hi.
  assert (Hsplit : map Z.of_nat (seq 0 (2 * n)) =
                   map Z.of_nat (seq 0 (2 * i))
                     ++ Z.of_nat (2 * i) :: Z.of_nat (2 * i + 1)
                     :: map Z.of_nat (seq (2 * i + 2) (2 * n - 2 * i - 2))).
  { replace (2 * n) with (2 * i + (2 + (2 * n - 2 * i - 2))) at 1 by lia.
    rewrite seq_app, map_app. f_equal. cbn [Nat.add].
    replace (2 + (2 * n - 2 * i - 2)) with (S (S (2 * n - 2 * i - 2))) by lia.
    cbn [seq map]. replace (S (2 * i)) with (2 * i + 1) by lia.
    replace (S (2 * i + 1)) with (2 * i + 2) by lia. reflexivity. }
  assert (H1 : length (map Z.of_nat (seq 0 (2 * i))) = 2 * i)
    by now rewrite length_map, length_seq.
  rewrite Hsplit, <- !app_assoc. cbn [app].
  split; [|split; [|reflexivity]].
  - rewrite firstn_app, H1, Nat.sub_diag, firstn_O, app_nil_r.
    apply firstn_all2. lia.
  - rewrite skipn_app, H1, skipn_all2 by lia.
    replace (2 * i + 2 - 2 * i) with 2 by lia. reflexivity.
Qed.

Lemma filter_drop (v : Z) (l1 l2 : list Z) :
  Forall (fun r => r <> v) l1 -> Forall (fun r => r <> v) l2 ->
  filter (fun r => negb (r =? v)%Z) (l1 ++ v :: l2) = l1 ++ l2.
Proof.
  intros H1 H2. rewrite filter_app. cbn [filter]. rewrite Z.eqb_refl. cbn [negb].
  rewrite !filter_all; [reflexivity| |].
  - eapply Forall_impl; [|exact H2]. intros r Hr. now apply negb_true_iff, Z.eqb_neq.
  - eapply Forall_impl; [|exact H1]. intros r Hr. now apply negb_true_iff, Z.eqb_neq.
Qed.

(** Deleting the rows of the two ends of line [i]. *)
Lemma rows_filter_line (n i : nat) (bufs : list Z) : i < n ->
  Forall (fun r => (Z.of_nat (2 * n) <= r)%Z) bufs ->
  filter (fun r => negb (r =? Z.of_nat i * 2 + 1)%Z)
         (filter (fun r => negb (r =? Z.of_nat i * 2)%Z)
                 (map Z.of_nat (seq 0 (2 * n)) ++ bufs)) =
  firstn (2 * i) (map Z.of_nat (seq 0 (2 * n)) ++ bufs)
    ++ skipn (2 * i + 2) (map Z.of_nat (seq 0 (2 * n)) ++ bufs).
Proof.
  intros Hi Hb. destruct (rows_decomp n i bufs Hi) as [-> [-> ->]].
  set (A := map Z.of_nat (seq 0 (2 * i))).
  set (C := map Z.of_nat (seq (2 * i + 2) (2 * n - 2 * i - 2)) ++ bufs).
  assert (HA : forall r, In r A -> (r < Z.of_nat (2 * i))%Z).
  { intros r Hr. apply endpoint_rows_below in Hr. lia. }
  assert (HC : forall r, In r C -> (Z.of_nat (2 * i + 2) <= r)%Z).
  { intros r Hr. apply in_app_or in Hr. destruct Hr as [Hr|Hr].
    - apply in_map_iff in Hr. destruct Hr as [k [<- Hk]]. apply in_seq in Hk. lia.
    - rewrite Forall_forall in Hb. apply Hb in Hr. lia. }
  replace (Z.of_nat i * 2)%Z with (Z.of_nat (2 * i)) by lia.
  replace (Z.of_nat (2 * i) + 1)%Z with (Z.of_nat (2 * i + 1)) by lia.
  rewrite filter_drop.
  - rewrite filter_drop; [reflexivity| |].
    + apply Forall_forall. intros r Hr. apply HA in Hr. lia.
    + apply Forall_forall. intros r Hr. apply HC in Hr. lia.
  - apply Forall_forall. intros r Hr. apply HA in Hr. lia.
  - apply Forall_forall. intros r [<-|Hr]; [lia|]. apply HC in Hr. lia.
Qed.

(** The row after the deleted pair is the first row that follows it. *)
Lemma rows_next (n i : nat) (bufs : list Z) : i < n ->
  StronglySorted Z.le bufs ->
  Forall (fun r => (Z.of_nat (2 * n) <= r)%Z) bufs ->
  In (Z.of_nat (2 * i + 2))
     (firstn (2 * i) (map Z.of_nat (seq 0 (2 * n)) ++ bufs)
        ++ skipn (2 * i + 2) (map Z.of_nat (seq 0 (2 * n)) ++ bufs)) ->
  nth_error (skipn (2 * i + 2) (map Z.of_nat (seq 0 (2 * n)) ++ bufs)) 0
    = Some (Z.of_nat (2 * i + 2)).
Proof.
  intros Hi Hs Hb Hin. destruct (rows_decomp n i bufs Hi) as [H1 [H2 _]].
  rewrite H1, H2 in Hin. rewrite H2.
  destruct (2 * n - 2 * i - 2) as [|j] eqn:Ej.
  - cbn [seq map app] in *. apply in_app_or in Hin. destruct Hin as [Hin|Hin].
    + apply endpoint_rows_below in Hin. lia.
    + destruct bufs as [|h t]; [destruct Hin|]. cbn [nth_error]. f_equal.
      inversion Hs as [|? ? _ Hall]; subst. inversion Hb as [|? ? Hh _]; subst.
      destruct Hin as [->|Hin]; [reflexivity|].
      rewrite Forall_forall in Hall. apply Hall in Hin. lia.
  - reflexivity.
Qed.

Lemma max_bound (l : list Z) (top : Z) :
  py.max l = Ok top -> Forall (fun r => (r <= top)%Z) l.
Proof.
  destruct l as [|z l]; [discriminate|]. cbn [py.max]. intros [= <-].
  assert (H : forall l z, (z <= fold_left Z.max l z)%Z /\
                          Forall (fun r => (r <= fold_left Z.max l z)%Z) l).
  { clear. induction l as [|a l IH]; intros z; simpl.
    - split; [lia | constructor].
    - destruct (IH (Z.max z a)) as [H1 H2]. split; [lia|].
      constructor; [lia | assumption]. }
  destruct (H l z). now constructor.
Qed.

Lemma py_put_ok (A : Type) (l l' : list A) (idx : list nat) (v : A) :
  py.put l idx v = Ok l' -> length l' = length l.
Proof.
  unfold py.put. destruct (forallb _ _); [|discriminate]. intros [= <-].
  apply put_length.
Qed.

Section JoinTable.
Context {F : Type} {AF : Arith F}.

(** The table of a state of the joiner, with [b] buffer rows. *)
Definition join_table (m b : nat) (st : @AMES.join_state F) : Prop :=
  table_ok (length (AMES.j_lines st)) m (AMES.j_clusters st) (AMES.j_resourceIdx st) /\
  length (AMES.j_resourceIdx st) = 2 * length (AMES.j_lines st) + b.

Lemma join_fuse_table (m b : nat) (st st' : @AMES.join_state F) (side : Z)
    (c : pyclust) (pipe1 : @Line.t F) (r : Z) :
  AMES.join_fuse st side c pipe1 (r / 2) = Ok st' ->
  In r (AMES.j_resourceIdx st) ->
  (r < Z.of_nat (length (AMES.j_lines st)) * 2)%Z ->
  join_table m b st -> join_table m b st'.
Proof.
  intros H Hin Hr [[Hlen [bufs [HrI [Hsorted Hrange]]]] Hb].
  pose proof (join_fuse_shape _ _ _ _ _ _ H) as [_ [Hlines _]].
  destruct st as [ls clusters rI k1 joined]. cbn [AMES.j_lines AMES.j_clusters
    AMES.j_resourceIdx AMES.j_k1 AMES.j_joined] in *.
  set (n := length ls) in *.
  assert (Hr0 : (0 <= r)%Z).
  { rewrite HrI in Hin. apply in_app_or in Hin. destruct Hin as [Hin|Hin].
    - apply endpoint_rows_below in Hin. lia.
    - rewrite Forall_forall in Hrange. apply Hrange in Hin. lia. }
  assert (Hi : exists i, (r / 2)%Z = Z.of_nat i /\ i < n).
  { exists (Z.to_nat (r / 2)).
    assert (0 <= r / 2)%Z by (apply Z.div_pos; lia).
    assert (r / 2 < Z.of_nat n)%Z by (apply Z.div_lt_upper_bound; lia).
    lia. }
  destruct Hi as [i [Hri Hi]]. rewrite Hri in H.
  assert (Hge : Forall (fun r => (Z.of_nat (2 * n) <= r)%Z) bufs).
  { eapply Forall_impl; [|exact Hrange]. intros x Hx. cbv beta in Hx. lia. }
  unfold AMES.join_fuse in H. cbn [AMES.j_lines AMES.j_clusters
    AMES.j_resourceIdx AMES.j_k1 AMES.j_joined] in H.
  apply bind_ok in H. destruct H as [cid [_ H]].
  apply bind_ok in H. destruct H as [clusters1 [Hc1 H]].
  apply py_put_ok in Hc1.
  apply bind_ok in H. destruct H as [clusters2 [Hc2 H]].
  apply bind_ok in H. destruct H as [rI2 [Hr2 H]].
  apply py_delete_ok in Hc2. apply py_delete_ok in Hr2.
  apply bind_ok in H. destruct H as [clusters3 [Hc3 H]].
  apply bind_ok in H. destruct H as [rI3 [Hr3 H]].
  apply py_delete_ok in Hc3. apply py_delete_ok in Hr3.
  assert (Hlen2 : length clusters2 = length rI2).
  { rewrite Hc2, Hr2. rewrite !delete_where_length; [reflexivity|reflexivity|].
    now rewrite Hc1. }
  assert (Hlen3 : length clusters3 = length rI3).
  { rewrite Hc3, Hr3. rewrite !delete_where_length; [reflexivity|reflexivity|assumption]. }
  rewrite delete_where_self in Hr2. rewrite delete_where_self in Hr3.
  rewrite Hr2, HrI, rows_filter_line in Hr3 by assumption.
  destruct (rows_decomp n i bufs Hi) as [Hfirst [Hskip _]].
  assert (Hf : length (firstn (2 * i) (map Z.of_nat (seq 0 (2 * n)) ++ bufs)) = 2 * i)
    by now rewrite Hfirst, length_map, length_seq.
  apply bind_ok in H. destruct H as [top [Htop H]].
  apply max_bound in Htop.
  apply bind_ok in H. destruct H as [rI4 [Hr4 H]].
  assert (HrI4 : rI4 = map Z.of_nat (seq 0 (2 * (n - 1)))
                         ++ map (fun x => (x - 2)%Z) bufs).
  { rewrite <- (rows_drop_line n i bufs Hi).
    destruct (Z.ltb_spec (Z.of_nat i * 2 + 1) top) as [Hlt|Hle].
    - set (p := fun x : Z => (x =? (Z.of_nat i + 1) * 2)%Z) in *.
      destruct (np.where_ p rI3) as [|idx tl] eqn:Ew; [discriminate|].
      injection Hr4 as <-.
      assert (Hidx : In idx (np.where_ p rI3)) by (rewrite Ew; now left).
      apply where_In in Hidx. destruct Hidx as [a [Ha Hpa]].
      apply Z.eqb_eq in Hpa. apply nth_error_In in Ha.
      assert (Hnext : nth_error rI3 (2 * i) = Some (Z.of_nat (2 * i + 2))).
      { rewrite Hr3, nth_error_app2 by lia. rewrite Hf, Nat.sub_diag.
        apply rows_next; try assumption.
        rewrite <- Hr3. replace (Z.of_nat (2 * i + 2)) with a by lia. exact Ha. }
      destruct (where_from_first Z p rI3 0 (2 * i) (Z.of_nat (2 * i + 2))) as [tl' Htl].
      + intros k x Hk Hx. rewrite Hr3, nth_error_app1 in Hx by lia.
        apply nth_error_In in Hx. rewrite Hfirst in Hx.
        apply endpoint_rows_below in Hx. apply Z.eqb_neq. lia.
      + exact Hnext.
      + apply Z.eqb_eq. lia.
      + unfold np.where_ in Ew. rewrite Htl in Ew. injection Ew as <- _.
        change (i + (i + 0)) with (2 * i). rewrite Hr3.
        replace (Z.of_nat (2 * i))
          with (Z.of_nat (length (firstn (2 * i)
                                    (map Z.of_nat (seq 0 (2 * n)) ++ bufs))))
          by now rewrite Hf.
        apply shift_from_split.
    - injection Hr4 as <-. rewrite Hr3. f_equal.
      destruct (skipn (2 * i + 2) (map Z.of_nat (seq 0 (2 * n)) ++ bufs)) as [|x l] eqn:Es;
        [reflexivity|].
      exfalso. rewrite Hr3 in Htop. apply Forall_app in Htop. destruct Htop as [_ Htop].
      inversion Htop as [|? ? Hx _]; subst.
      assert (Hxin : In x (map Z.of_nat (seq (2 * i + 2) (2 * n - 2 * i - 2)) ++ bufs))
        by (rewrite <- Hskip; now left).
      apply in_app_or in Hxin. destruct Hxin as [Hxin|Hxin].
      + apply in_map_iff in Hxin. destruct Hxin as [k [<- Hk]]. apply in_seq in Hk. lia.
      + rewrite Forall_forall in Hge. apply Hge in Hxin. lia. }
  apply bind_ok in H. destruct H as [lines1 [_ H]].
  apply bind_ok in H. destruct H as [lines2 [_ H]].
  injection H as <-. cbn [AMES.j_lines AMES.j_clusters AMES.j_resourceIdx] in *.
  assert (Hn' : length lines2 = n - 1) by lia.
  assert (Hlb : length bufs = b).
  { rewrite HrI, length_app, length_map, length_seq in Hb. lia. }
  unfold join_table. cbn [AMES.j_lines AMES.j_clusters AMES.j_resourceIdx].
  rewrite Hn'. split; [split|].
  - rewrite Hlen3, Hr3, HrI4, !length_app, !length_map, length_seq.
    rewrite Hf, length_skipn, length_app, length_map, length_seq. lia.
  - exists (map (fun x => (x - 2)%Z) bufs). split; [assumption|].
    split; [now apply sorted_map_sub|].
    rewrite Forall_forall in *. intros x Hx. apply in_map_iff in Hx.
    destruct Hx as [y [<- Hy]]. apply Hrange in Hy. lia.
  - rewrite HrI4, length_app, !length_map, length_seq. lia.
Qed.

(** A fused end comes from one call of the deletion, on the line a row
    of the table points to. *)
Lemma join_end_fuse (st st' : @AMES.join_state F) (at_origin : bool) :
  AMES.join_end st at_origin = Ok (AMES.Fused st') ->
  exists side c pipe1 r,
    In r (AMES.j_resourceIdx st) /\
    (r < Z.of_nat (length (AMES.j_lines st)) * 2)%Z /\
    AMES.join_fuse st side c pipe1 (r / 2) = Ok st'.
Proof.
  unfold AMES.join_end. intros H.
  apply bind_ok in H. destruct H as [pipe1 [Hp1 H]].
  apply bind_ok in H. destruct H as [rs [Hrs H]].
  match type of H with (if ?c then _ else _) = _ => destruct c eqn:Hc end;
    [|discriminate].
  apply andb_true_iff in Hc. destruct Hc as [_ Hall].
  rewrite forallb_forall in Hall.
  apply bind_ok in H. destruct H as [idxPipe2 [Hi H]].
  match type of Hi with match ?f with _ => _ end = _ =>
    destruct f as [|r [|]] eqn:Ef; try discriminate end.
  injection Hi as <-.
  assert (Hr : In r (np.uniqueZ rs)).
  { assert (Hin : In r [r]) by now left. rewrite <- Ef in Hin.
    now apply filter_In in Hin. }
  pose proof (Hall r Hr) as Hlt. apply Z.ltb_lt in Hlt.
  apply (proj1 (uniqueZ_In _ _)) in Hr.
  apply take_get in Hrs.
  destruct (Forall2_In_r _ _ _ _ _ _ Hrs Hr) as [t [_ Ht]].
  apply nth_error_In in Ht.
  apply bind_ok in H. destruct H as [pipe2 [Hp2 H]].
  destruct at_origin;
    repeat match type of H with
           | (if ?c then _ else _) = _ => destruct c
           end; try discriminate;
    apply bind_ok in H; destruct H as [st1 [Hf H]]; injection H as <-;
    do 3 eexists; exists r; (split; [exact Ht | split; [exact Hlt | exact Hf]]).
Qed.

Lemma join_turn_table (m b : nat) (st st' : @AMES.join_state F) :
  AMES.join_turn st = Ok st' -> join_table m b st -> join_table m b st'.
Proof.
  unfold AMES.join_turn. intros H Ht.
  apply bind_ok in H. destruct H as [r [Hr H]].
  destruct r as [st1| |].
  - injection H as <-. apply join_end_fuse in Hr.
    destruct Hr as [side [c [pipe1 [r [Hin [Hlt Hf]]]]]].
    exact (join_fuse_table _ _ _ _ _ _ _ _ Hf Hin Hlt Ht).
  - injection H as <-. exact Ht.
  - apply bind_ok in H. destruct H as [r' [Hr' H]].
    destruct r' as [st1| |].
    + injection H as <-. apply join_end_fuse in Hr'.
      destruct Hr' as [side [c [pipe1 [r [Hin [Hlt Hf]]]]]].
      exact (join_fuse_table _ _ _ _ _ _ _ _ Hf Hin Hlt Ht).
    + injection H as <-. exact Ht.
    + injection H as <-. exact Ht.
Qed.

Lemma join_loop_table (m b : nat) (fuel : nat) : forall st st' : @AMES.join_state F,
  AMES.join_loop fuel st = Some (Ok st') -> join_table m b st -> join_table m b st'.
Proof.
  induction fuel as [|fuel IH]; intros st st' H Ht; simpl in H.
  - destruct (AMES.j_k1 st <? length (AMES.j_lines st))%nat; [discriminate|].
    now injection H as <-.
  - destruct (AMES.j_k1 st <? length (AMES.j_lines st))%nat.
    + destruct (AMES.join_turn st) as [st1|e] eqn:Hturn; [|discriminate].
      apply (IH _ _ H). exact (join_turn_table _ _ _ _ Hturn Ht).
    + now injection H as <-.
Qed.

(** X10. [joinLineSegs] returns within its fuel, and when it returns
    normally it has kept the point table well formed for the lines that
    are left, has left the buffers alone, and has dropped exactly the two
    rows of every line it fused away. *)
Theorem joinLineSegs_keeps_table (self : @AMES.ames F) (clusters : list nat)
    (resourceIdx : list Z) :
  table_ok (length (AMES.lines self)) (length (AMES.nodes self)) clusters resourceIdx ->
  AMES.joinLineSegs self clusters resourceIdx <> None /\
  forall self' clusters' resourceIdx',
    AMES.joinLineSegs self clusters resourceIdx = Some (Ok (self', clusters', resourceIdx')) ->
    AMES.nodes self' = AMES.nodes self /\
    table_ok (length (AMES.lines self')) (length (AMES.nodes self')) clusters' resourceIdx' /\
    length clusters' + 2 * length (AMES.lines self) =
      length clusters + 2 * length (AMES.lines self').
Proof.
  intros Htable. unfold AMES.joinLineSegs.
  pose proof (join_loop_total (length (AMES.lines self))
                (AMES.mkJoin (AMES.lines self) clusters resourceIdx 0 0)) as Ht.
  simpl in Ht. specialize (Ht ltac:(lia)).
  destruct (AMES.join_loop _ _) as [[st|e]|] eqn:Hl; [| |contradiction].
  - split; [discriminate|]. intros self' c' r' H. injection H as <- <- <-.
    cbn [AMES.with_lines AMES.nodes AMES.lines].
    split; [reflexivity|].
    assert (Hb : exists b, length resourceIdx = 2 * length (AMES.lines self) + b).
    { destruct Htable as [_ [bufs [-> _]]]. exists (length bufs).
      now rewrite length_app, length_map, length_seq. }
    destruct Hb as [b Hb].
    destruct (join_loop_table (length (AMES.nodes self)) b _ _ _ Hl) as [Ht' Hb'].
    { split; assumption. }
    split; [exact Ht'|].
    destruct Ht' as [Hlen' _]. destruct Htable as [Hlen _]. lia.
  - split; discriminate.
Qed.
End JoinTable.

Module JoinExamples.
Local Open Scope string_scope.
Local Open Scope list_scope.

(** Two segments in a row, from cluster 0 over cluster 1 to cluster 2;
    a generator sits in cluster 0 and the load in cluster 2, and cluster
    1 holds nothing but the two segment ends. *)
Definition seg (name : string) (o d : nat) : @Line.t float :=
  Line.mk name "ElecLine" ["electric power at 132kV"]
          Line.Unset Line.Unset "true" (ClId o) (ClId d) [].

Definition system : @AMES.ames float :=
  AMES.mkAmes [LinkExamples.hydro_a; PruneExamples.town]
              [seg "Seg 1" 0 1; seg "Seg 2" 1 2]
              ["electric power at 132kV"; "water energy"] None None None None.

Definition clusters : list nat := [0; 1; 1; 2; 0; 2].
Definition resourceIdx : list Z := [0; 1; 2; 3; 4; 5]%Z.
End JoinExamples.

(** On the example the two segments become one line from cluster 0 to
    cluster 2, and the rows of the second segment go. *)
Lemma joinLineSegs_keeps_table_witness :
  AMES.joinLineSegs JoinExamples.system JoinExamples.clusters JoinExamples.resourceIdx
  = Some (Ok (AMES.with_lines JoinExamples.system [JoinExamples.seg "Seg 1" 0 2],
              [0; 2; 0; 2], [0; 1; 2; 3]%Z)) /\
  table_ok 1 2 [0; 2; 0; 2] [0; 1; 2; 3]%Z.
Proof.
  assert (Hin : table_ok (length (AMES.lines JoinExamples.system))
                  (length (AMES.nodes JoinExamples.system))
                  JoinExamples.clusters JoinExamples.resourceIdx).
  { split; [reflexivity|]. exists [4; 5]%Z. split; [reflexivity|].
    split; repeat constructor; simpl; lia. }
  assert (Hrun : AMES.joinLineSegs JoinExamples.system JoinExamples.clusters
                   JoinExamples.resourceIdx
                 = Some (Ok (AMES.with_lines JoinExamples.system
                               [JoinExamples.seg "Seg 1" 0 2],
                             [0; 2; 0; 2], [0; 1; 2; 3]%Z)))
    by (vm_compute; reflexivity).
  split; [exact Hrun|].
  exact (proj1 (proj2 (proj2 (joinLineSegs_keeps_table _ _ _ Hin) _ _ _ Hrun))).
Defined.

(** ** The junction buffers *)

Lemma sorted_count_up (c : Z) (a : nat) : forall s : nat,
  StronglySorted Z.le (map (fun k => (c + Z.of_nat k + 1)%Z) (seq s a)).
Proof.
  induction a as [|a IH]; intros s; simpl; constructor; [apply IH|].
  apply Forall_forall. intros x Hx. apply in_map_iff in Hx.
  destruct Hx as [k [<- Hk]]. apply in_seq in Hk. lia.
Qed.

Lemma combine_seq_In (A : Type) (l : list A) : forall (i k : nat) (x : A),
  In (k, x) (combine (seq i (length l)) l) -> i <= k /\ nth_error l (k - i) = Some x.
Proof.
  induction l as [|a l IH]; intros i k x Hin; [destruct Hin|].
  simpl in Hin. destruct Hin as [Heq|Hin].
  - injection Heq as <- <-. rewrite Nat.sub_diag. split; [lia | reflexivity].
  - apply IH in Hin. destruct Hin as [Hle Hnth].
    split; [lia|]. replace (k - i) with (S (k - S i)) by lia. exact Hnth.
Qed.

Section JunctionTable.
Context {F : Type} {AF : Arith F}.

(** X11. [addIndBuffers] keeps the point table well formed when the
    highest row of the table is the row of the last buffer (of the last
    line end when there is no buffer): the rows it appends, counted up
    from [max(resourceIdx) + 1], are then the rows of the buffers it
    appends. *)
Theorem addIndBuffers_keeps_table (self self' : @AMES.ames F)
    (clusters clusters' : list nat) (clustCenters : list (F * F))
    (resourceIdx resourceIdx' : list Z) :
  AMES.addIndBuffers self clusters clustCenters resourceIdx
    = Ok (self', clusters', resourceIdx') ->
  table_ok (length (AMES.lines self)) (length (AMES.nodes self)) clusters resourceIdx ->
  py.max resourceIdx
    = Ok (Z.of_nat (2 * length (AMES.lines self) + length (AMES.nodes self)) - 1)%Z ->
  AMES.lines self' = AMES.lines self /\
  table_ok (length (AMES.lines self')) (length (AMES.nodes self')) clusters' resourceIdx'.
Proof.
  unfold AMES.addIndBuffers. intros H [Hlen [bufs [HrI [Hsorted Hrange]]]] Hmax.
  apply bind_ok in H. destruct H as [st [Hst H]]. injection H as <- <- <-.
  assert (Hsnd : map snd (combine (seq 0 (length (np.unique clusters)))
                                  (np.unique clusters)) = np.unique clusters).
  { apply snd_combine. now rewrite length_seq. }
  assert (Hinv : ind_inv self clusters resourceIdx ([] ++ np.unique clusters) st).
  { rewrite <- Hsnd. eapply ind_loop_inv; [|exact Hst|].
    - rewrite Hsnd. simpl. apply unique_NoDup.
    - split; [reflexivity|]. split; [constructor|]. split; [constructor|].
      split; [constructor|]. split; [reflexivity|]. reflexivity. }
  destruct Hinv as [_ [Hj [_ [_ [Hleb Heb]]]]].
  specialize (Heb _ Hmax). apply Forall2_length in Hj.
  cbn [AMES.with_nodes AMES.lines AMES.nodes].
  split; [reflexivity|].
  set (n := length (AMES.lines self)) in *.
  set (m := length (AMES.nodes self)) in *.
  set (a := length (AMES.i_buffers st)) in *.
  split.
  - rewrite !length_app. lia.
  - exists (bufs ++ AMES.i_expanded_buffers st).
    split; [now rewrite HrI, app_assoc|].
    rewrite Forall_forall in Hrange. split.
    + apply sorted_app; [assumption | rewrite Heb; apply sorted_count_up|].
      intros x y Hx Hy. apply Hrange in Hx. rewrite Heb in Hy.
      apply in_map_iff in Hy. destruct Hy as [k [<- Hk]]. lia.
    + rewrite length_app. fold m a.
      apply Forall_app. split; apply Forall_forall.
      * intros x Hx. apply Hrange in Hx. lia.
      * intros y Hy. rewrite Heb in Hy.
        apply in_map_iff in Hy. destruct Hy as [k [<- Hk]]. apply in_seq in Hk. lia.
Qed.

(** Where the junction buffers made so far sit. *)
Definition placed_by (clustCenters : list (F * F)) (keys : list (nat * nat))
    (st : @AMES.ind_state F) : Prop :=
  Forall (fun node => exists k1 c,
            In (k1, c) keys /\ Node.cluster node = Some [c] /\
            nth_error clustCenters k1 = Some (Node.gpsX node, Node.gpsY node))
         (AMES.i_buffers st).

Lemma ind_step_placed (self : @AMES.ames F) (clusters : list nat)
    (clustCenters : list (F * F)) (resourceIdx : list Z) (keys : list (nat * nat))
    (st st' : @AMES.ind_state F) (kc : nat * nat) :
  In kc keys ->
  AMES.ind_step self clusters clustCenters resourceIdx st kc = Ok st' ->
  placed_by clustCenters keys st -> placed_by clustCenters keys st'.
Proof.
  destruct kc as [k1 c]. intros Hin H Hinv. unfold AMES.ind_step in H.
  apply bind_ok in H. destruct H as [rs [_ H]].
  destruct (existsb _ _); [now injection H as <-|].
  apply bind_ok in H. destruct H as [refs [_ H]].
  destruct (AMES.ind_class _) as [cls|]; [|now injection H as <-].
  apply bind_ok in H. destruct H as [center [Hcenter H]].
  apply bind_ok in H. destruct H as [top [_ H]]. injection H as <-.
  unfold placed_by. cbn [AMES.i_buffers].
  apply Forall_app. split; [exact Hinv|]. constructor; [|constructor].
  exists k1, c. cbn [Node.cluster Node.gpsX Node.gpsY].
  split; [assumption|]. split; [reflexivity|].
  apply get_nth_error in Hcenter. rewrite Hcenter. now destruct center.
Qed.

(** X12. Every junction buffer [addIndBuffers] appends sits at
    [clustCenters[k1]], where [k1] is the position of its cluster among
    the distinct ids of [clusters] in ascending order; this is the centre
    of its own cluster when the ids in use are [0 .. N-1]. *)
Theorem addIndBuffers_placement (self self' : @AMES.ames F)
    (clusters clusters' : list nat) (clustCenters : list (F * F))
    (resourceIdx resourceIdx' : list Z) :
  AMES.addIndBuffers self clusters clustCenters resourceIdx
    = Ok (self', clusters', resourceIdx') ->
  exists added,
    AMES.nodes self' = AMES.nodes self ++ added /\
    Forall (fun node => exists k1 c,
              nth_error (np.unique clusters) k1 = Some c /\
              Node.cluster node = Some [c] /\
              nth_error clustCenters k1 = Some (Node.gpsX node, Node.gpsY node))
           added /\
    (forall N, np.unique clusters = seq 0 N ->
       Forall (fun node => exists c,
                 Node.cluster node = Some [c] /\
                 nth_error clustCenters c = Some (Node.gpsX node, Node.gpsY node))
              added).
Proof.
  unfold AMES.addIndBuffers. intros H.
  apply bind_ok in H. destruct H as [st [Hst H]]. injection H as <- _ _.
  set (keys := combine (seq 0 (length (np.unique clusters))) (np.unique clusters)) in *.
  assert (Hstep : forall s k s', In k keys ->
            AMES.ind_step self clusters clustCenters resourceIdx s k = Ok s' ->
            placed_by clustCenters keys s -> placed_by clustCenters keys s').
  { intros s k s' Hk Hs. exact (ind_step_placed _ _ _ _ _ _ _ _ Hk Hs). }
  assert (Hinv : placed_by clustCenters keys st).
  { apply (foldM_inv_in _ _ _ (placed_by clustCenters keys) _ Hstep _ _ Hst).
    constructor. }
  assert (Hall : Forall (fun node => exists k1 c,
              nth_error (np.unique clusters) k1 = Some c /\
              Node.cluster node = Some [c] /\
              nth_error clustCenters k1 = Some (Node.gpsX node, Node.gpsY node))
            (AMES.i_buffers st)).
  { eapply Forall_impl; [|exact Hinv]. intros node [k1 [c [Hin [Hc Hg]]]].
    exists k1, c. apply combine_seq_In in Hin. destruct Hin as [_ Hin].
    rewrite Nat.sub_0_r in Hin. auto. }
  exists (AMES.i_buffers st). cbn [AMES.with_nodes AMES.nodes].
  split; [reflexivity|]. split; [exact Hall|].
  intros N HN. eapply Forall_impl; [|exact Hall].
  intros node [k1 [c [Hk [Hc Hg]]]]. exists c. split; [assumption|].
  rewrite HN in Hk.
  assert (Hlt : k1 < N).
  { rewrite <- (length_seq N 0). apply nth_error_Some. congruence. }
  rewrite nth_error_seq in Hk. destruct (Nat.ltb_spec k1 N); [|lia].
  injection Hk as <-. exact Hg.
Qed.
End JunctionTable.

(** One line from cluster 0 to cluster 1 and no buffer: two junction
    buffers are appended, on rows 2 and 3. *)
Lemma addIndBuffers_keeps_table_witness :
  exists self' clusters' resourceIdx',
    AMES.addIndBuffers (IndExamples.system 0 1) [0; 1] IndExamples.centers [0%Z; 1%Z]
      = Ok (self', clusters', resourceIdx') /\
    resourceIdx' = [0; 1; 2; 3]%Z /\
    table_ok (length (AMES.lines self')) (length (AMES.nodes self'))
             clusters' resourceIdx'.
Proof.
  destruct (AMES.addIndBuffers (IndExamples.system 0 1) [0; 1] IndExamples.centers
              [0%Z; 1%Z]) as [[[s c] r]|e] eqn:E;
    [|vm_compute in E; discriminate].
  exists s, c, r. split; [reflexivity|].
  assert (Hin : table_ok (length (AMES.lines (IndExamples.system 0 1)))
                  (length (AMES.nodes (IndExamples.system 0 1))) [0; 1] [0%Z; 1%Z]).
  { split; [reflexivity|]. exists []. split; [reflexivity|]. split; constructor. }
  split.
  - vm_compute in E. now injection E as _ _ <-.
  - exact (proj2 (addIndBuffers_keeps_table _ _ _ _ _ _ _ E Hin eq_refl)).
Defined.

Lemma addIndBuffers_placement_witness :
  exists self' clusters' resourceIdx' added,
    AMES.addIndBuffers (IndExamples.system 0 1) [0; 1] IndExamples.centers [0%Z; 1%Z]
      = Ok (self', clusters', resourceIdx') /\
    AMES.nodes self' = AMES.nodes (IndExamples.system 0 1) ++ added /\
    Forall (fun node => exists c,
              Node.cluster node = Some [c] /\
              nth_error IndExamples.centers c = Some (Node.gpsX node, Node.gpsY node))
           added.
Proof.
  destruct (AMES.addIndBuffers (IndExamples.system 0 1) [0; 1] IndExamples.centers
              [0%Z; 1%Z]) as [[[s c] r]|e] eqn:E;
    [|vm_compute in E; discriminate].
  destruct (addIndBuffers_placement _ _ _ _ _ _ _ E) as [added [Hn [_ Hd]]].
  exists s, c, r, added. split; [reflexivity|]. split; [exact Hn|].
  exact (Hd 2 eq_refl).
Defined.

(* ------------------------------------------------------------------ *)

(** ** Facts on [deleteIsoNodes] *)

Lemma pd_unique_In (x : Z) (l : list Z) : In x (pd.unique l) <-> In x l.
Proof.
  induction l as [|a l IH]; simpl; [tauto|].
  rewrite filter_In, IH. split.
  - intros [H|[H _]]; auto.
  - intros [H|H]; [now left|].
    destruct (Z.eq_dec a x) as [E|E]; [now left|].
    right. split; [assumption|]. apply negb_true_iff, Z.eqb_neq. congruence.
Qed.

Lemma sorted_lt_filter (p : Z -> bool) (l : list Z) :
  StronglySorted Z.lt l -> StronglySorted Z.lt (filter p l).
Proof.
  induction 1 as [|a l Hs IH Hall]; simpl; [constructor|].
  destruct (p a); [|assumption]. constructor; [assumption|].
  rewrite Forall_forall in *. intros x Hx. apply filter_In in Hx. now apply Hall.
Qed.

(** On a non-decreasing array [pd.unique] ascends strictly. *)
Lemma pd_unique_sorted (l : list Z) :
  StronglySorted Z.le l -> StronglySorted Z.lt (pd.unique l).
Proof.
  induction 1 as [|a l Hs IH Hall]; simpl; constructor.
  - now apply sorted_lt_filter.
  - rewrite Forall_forall in *. intros x Hx. apply filter_In in Hx.
    destruct Hx as [Hx Hne]. apply pd_unique_In, Hall in Hx.
    apply negb_true_iff, Z.eqb_neq in Hne. lia.
Qed.

Lemma sorted_nth_le (l : list Z) : StronglySorted Z.le l ->
  forall i j a b, i < j -> nth_error l i = Some a -> nth_error l j = Some b ->
  (a <= b)%Z.
Proof.
  induction 1 as [|x l Hs IH Hall]; intros i j a b Hij Ha Hb;
    [destruct i; discriminate|].
  destruct j as [|j]; [lia|]. simpl in Hb. destruct i as [|i]; simpl in Ha.
  - injection Ha as <-. rewrite Forall_forall in Hall.
    apply Hall. eapply nth_error_In. exact Hb.
  - apply (IH i j); [lia | assumption | assumption].
Qed.

(** Fancy indexing of a non-decreasing array at ascending positions. *)
Lemma take_sorted (rows : list Z) (idx : list nat) : forall rs : list Z,
  py.take rows idx = Ok rs -> StronglySorted lt idx -> StronglySorted Z.le rows ->
  StronglySorted Z.le rs.
Proof.
  intros rs H Hidx Hrows. apply take_get in H.
  induction H as [|i a idx rs Hi Hall IH]; [constructor|].
  inversion Hidx as [|? ? Hidx' Hlt]; subst.
  constructor; [now apply IH|].
  apply Forall_forall. intros b Hb.
  destruct (Forall2_In_r _ _ _ _ _ _ Hall Hb) as [j [Hj Hjb]].
  rewrite Forall_forall in Hlt. apply Hlt in Hj.
  exact (sorted_nth_le rows Hrows i j a b Hj Hi Hjb).
Qed.

Section WhereBlocks.
Context {A : Type}.

Lemma where_from_app (p : A -> bool) (l1 l2 : list A) : forall i,
  np.where_from p i (l1 ++ l2) =
  np.where_from p i l1 ++ np.where_from p (i + length l1) l2.
Proof.
  induction l1 as [|a l1 IH]; intros i; simpl.
  - now rewrite Nat.add_0_r.
  - rewrite IH. replace (S i + length l1) with (i + S (length l1)) by lia.
    now destruct (p a).
Qed.

Lemma where_all (p : A -> bool) (l : list A) : forall i,
  Forall (fun a => p a = true) l -> np.where_from p i l = seq i (length l).
Proof.
  induction l as [|a l IH]; intros i H; simpl; [reflexivity|].
  inversion H as [|? ? Ha Hl]; subst. rewrite Ha. f_equal. now apply IH.
Qed.

(** The positions of a block between two parts that fail the test. *)
Lemma where_block (p : A -> bool) (lo mid hi : list A) :
  Forall (fun a => p a = false) lo -> Forall (fun a => p a = true) mid ->
  Forall (fun a => p a = false) hi ->
  np.where_ p (lo ++ mid ++ hi) = seq (length lo) (length mid).
Proof.
  intros Hlo Hmid Hhi. unfold np.where_.
  rewrite !where_from_app, (where_none p lo 0 Hlo), (where_all p mid _ Hmid).
  rewrite (where_none p hi _ Hhi). now rewrite app_nil_r.
Qed.

Lemma delete_mid (l1 l2 : list A) (x : A) :
  np.delete (l1 ++ x :: l2) [length l1] = l1 ++ l2.
Proof.
  rewrite delete_one by (rewrite length_app; simpl; lia).
  rewrite firstn_app, Nat.sub_diag, firstn_O, app_nil_r, firstn_all.
  rewrite skipn_app, skipn_all2 by lia.
  replace (S (length l1) - length l1) with 1 by lia. reflexivity.
Qed.

Lemma py_delete_one_length (l l' : list A) (k : nat) :
  py.delete l [k] = Ok l' -> S (length l') = length l.
Proof.
  unfold py.delete. cbn [forallb].
  destruct (Nat.ltb_spec k (length l)) as [Hk|Hk]; [|discriminate].
  cbn [andb]. intros [= <-]. rewrite delete_one by assumption.
  rewrite length_app, length_firstn, length_skipn. lia.
Qed.

Lemma snoc_length (l : list A) (c : nat) :
  length l = S c -> exists l' x, l = l' ++ [x] /\ length l' = c.
Proof.
  intros H. destruct (exists_last (l := l)) as [l' [x Hl]].
  - intros ->. discriminate.
  - exists l', x. split; [assumption|].
    rewrite Hl, length_app in H. simpl in H. lia.
Qed.
End WhereBlocks.

Lemma filter_eq_repeat (k : Z) (l : list Z) :
  filter (fun r => (r =? k)%Z) l = repeat k (length (filter (fun r => (r =? k)%Z) l)).
Proof.
  induction l as [|a l IH]; simpl; [reflexivity|].
  destruct (Z.eqb_spec a k) as [->|Hne]; simpl; [now f_equal | assumption].
Qed.

Section IsoFacts.
Context {F : Type} {AF : Arith F}.

Definition is_some (c : option nat) : bool := negb (AMES.is_none c).

(** The inner loop on the block of row [k]: the unclustered cells of the
    block go, positions before and after the block keep their contents,
    [connected] tells whether a clustered cell was met, and [k2] ends as
    the first position of the block. *)
Lemma iso_cells_block (k : Z) (a : nat) (cl_lo : list (option nat)) (r_lo : list Z) :
  length cl_lo = a -> length r_lo = a ->
  forall (c : nat) (cl_mid cl_hi : list (option nat)) (r_hi : list Z)
         (pts : list (F * F)) (cells : list (@AMES.cell F)) (connected : bool)
         (k2 : option nat) (st' : @AMES.cell_state F),
  length cl_mid = c ->
  length pts = length (cl_lo ++ cl_mid ++ cl_hi) ->
  length cells = length (cl_lo ++ cl_mid ++ cl_hi) ->
  foldM AMES.iso_cell (rev (seq a c))
        (cl_lo ++ cl_mid ++ cl_hi, pts, r_lo ++ repeat k c ++ r_hi, cells, connected, k2)
    = Ok st' ->
  let '(clusters', pts', rows', cells', connected', k2') := st' in
  clusters' = cl_lo ++ filter is_some cl_mid ++ cl_hi /\
  rows' = r_lo ++ repeat k (length (filter is_some cl_mid)) ++ r_hi /\
  length pts' = length clusters' /\ length cells' = length clusters' /\
  connected' = connected || existsb is_some cl_mid /\
  k2' = match c with 0 => k2 | S _ => Some a end.
Proof.
  intros Ha Hra. induction c as [|c IH];
    intros cl_mid cl_hi r_hi pts cells connected k2 st' Hc Hpts Hcells H.
  - destruct cl_mid; [|discriminate]. simpl in H. injection H as <-.
    cbn [filter existsb length repeat app]. rewrite orb_false_r.
    repeat split; assumption.
  - destruct (snoc_length _ _ Hc) as [cl_mid' [x [-> Hc']]].
    rewrite seq_S, rev_app_distr in H. cbn [rev app] in H.
    cbn [foldM] in H. apply bind_ok in H. destruct H as [st1 [H1 H]].
    unfold AMES.iso_cell in H1.
    assert (Hget : py.get (cl_lo ++ (cl_mid' ++ [x]) ++ cl_hi) (a + c) = Ok x).
    { unfold py.get. rewrite nth_error_app2 by lia.
      replace (a + c - length cl_lo) with (length cl_mid') by lia.
      rewrite <- app_assoc, nth_error_app2 by lia.
      now rewrite Nat.sub_diag. }
    rewrite Hget in H1. cbn [bind] in H1.
    assert (Hrep : forall n (l : list Z), k :: repeat k n ++ l = repeat k n ++ k :: l).
    { intros n l. induction n as [|n IHn]; simpl; [reflexivity | now rewrite IHn]. }
    rewrite filter_app, existsb_app. cbn [filter existsb].
    destruct x as [id|]; cbn [is_some AMES.is_none negb] in *.
    + injection H1 as <-.
      rewrite <- app_assoc in H, Hpts, Hcells. cbn [app] in H, Hpts, Hcells.
      cbn [repeat app] in H. rewrite Hrep in H.
      specialize (IH cl_mid' (Some id :: cl_hi) (k :: r_hi) pts cells true
                     (Some (a + c)) st' Hc' Hpts Hcells H).
      destruct st' as [[[[[clusters' pts'] rows'] cells'] connected'] k2'].
      destruct IH as [I1 [I2 [I3 [I4 [I5 I6]]]]].
      rewrite length_app. cbn [length]. rewrite Nat.add_1_r. cbn [repeat app].
      rewrite Hrep, <- app_assoc. cbn [app]. rewrite orb_true_r, orb_true_r.
      repeat split; try assumption.
      destruct c; [now rewrite Nat.add_0_r in I6 | assumption].
    + apply bind_ok in H1. destruct H1 as [clusters1 [Hd1 H1]].
      apply bind_ok in H1. destruct H1 as [pts1 [Hd2 H1]].
      apply bind_ok in H1. destruct H1 as [rows1 [Hd3 H1]].
      apply bind_ok in H1. destruct H1 as [cells1 [Hd4 H1]].
      injection H1 as <-.
      apply py_delete_one_length in Hd2. apply py_delete_one_length in Hd4.
      apply py_delete_ok in Hd1. apply py_delete_ok in Hd3.
      assert (Hc1 : clusters1 = cl_lo ++ cl_mid' ++ cl_hi).
      { rewrite Hd1, <- (app_assoc cl_mid'), app_assoc. cbn [app].
        replace (a + c) with (length (cl_lo ++ cl_mid'))
          by (rewrite length_app; lia).
        rewrite delete_mid. now rewrite <- app_assoc. }
      assert (Hr1 : rows1 = r_lo ++ repeat k c ++ r_hi).
      { rewrite Hd3. cbn [repeat app]. rewrite Hrep, app_assoc.
        replace (a + c) with (length (r_lo ++ repeat k c))
          by (rewrite length_app, repeat_length; lia).
        rewrite delete_mid. now rewrite <- app_assoc. }
      rewrite Hc1, Hr1 in H.
      assert (Hpts1 : length pts1 = length (cl_lo ++ cl_mid' ++ cl_hi)).
      { rewrite !length_app in *. cbn [length] in *. lia. }
      assert (Hcells1 : length cells1 = length (cl_lo ++ cl_mid' ++ cl_hi)).
      { rewrite !length_app in *. cbn [length] in *. lia. }
      specialize (IH cl_mid' cl_hi r_hi pts1 cells1 connected
                     (Some (a + c)) st' Hc' Hpts1 Hcells1 H).
      destruct st' as [[[[[clusters' pts'] rows'] cells'] connected'] k2'].
      destruct IH as [I1 [I2 [I3 [I4 [I5 I6]]]]].
      rewrite app_nil_r, orb_false_r.
      repeat split; try assumption.
      destruct c; [now rewrite Nat.add_0_r in I6 | assumption].
Qed.

(** What the outer loop keeps, with [remaining] the rows it has still to
    visit: [clusters] has one entry per row; the rows never decrease and
    name lines ends or existing buffers, the line ends first; every
    unclustered cell is on a row still to visit; and the rows to visit
    are buffer rows of the table, in descending order. *)
Definition iso_ok (n m : nat) (remaining : list Z)
    (clusters : list (option nat)) (rows : list Z) : Prop :=
  length clusters = length rows /\
  StronglySorted Z.le rows /\
  Forall (fun r => (r < Z.of_nat (2 * n + m))%Z) rows /\
  endpoints_first n rows /\ 2 * n <= length rows /\
  (forall i r, nth_error clusters i = Some None -> nth_error rows i = Some r ->
     In r remaining) /\
  (forall k, In k remaining -> (Z.of_nat (2 * n) <= k)%Z /\ In k rows) /\
  StronglySorted (fun a b => (b < a)%Z) remaining.

Definition iso_inv (n : nat) (remaining : list Z) (st : @AMES.iso_state F) : Prop :=
  length (AMES.iso_pts st) = length (AMES.iso_rows st) /\
  length (AMES.iso_cells st) = length (AMES.iso_rows st) /\
  iso_ok n (length (AMES.iso_nodes st)) remaining (AMES.iso_clusters st) (AMES.iso_rows st).

(** The part of the table below row [k1] stays; what replaces the rest
    holds no unclustered cell. *)
Lemma iso_rebuild (n m m' : nat) (k1 : Z) (tail : list Z)
    (clusters : list (option nat)) (rows : list Z)
    (Y : list (option nat)) (X : list Z) :
  iso_ok n m (k1 :: tail) clusters rows ->
  let lo := filter (fun r => (r <? k1)%Z) rows in
  length X = length Y ->
  Forall (fun c => is_some c = true) Y ->
  StronglySorted Z.le X ->
  Forall (fun x => (k1 <= x < Z.of_nat (2 * n + m'))%Z) X ->
  (k1 <= Z.of_nat (2 * n + m'))%Z ->
  iso_ok n m' tail (firstn (length lo) clusters ++ Y) (lo ++ X).
Proof.
  intros [Hlen [Hsorted [Hrange [Hrows [H2n [Hnone [Hrem Hdesc]]]]]]] lo
         HXY HY HX HXr Hk1m.
  destruct (sorted_split k1 rows Hsorted) as [Hsplit _]. fold lo in Hsplit.
  set (rest := filter (fun r => (r =? k1)%Z) rows
                 ++ filter (fun r => (k1 <? r)%Z) rows) in *.
  assert (Hrest : forall r, In r rest -> (k1 <= r)%Z).
  { intros r Hr. apply in_app_or in Hr. destruct Hr as [Hr|Hr];
      apply filter_In in Hr; destruct Hr as [_ Hr].
    - apply Z.eqb_eq in Hr. lia.
    - apply Z.ltb_lt in Hr. lia. }
  assert (Hlo : forall r, In r lo -> In r rows /\ (r < k1)%Z).
  { intros r Hr. apply filter_In in Hr. destruct Hr as [Hr Hlt].
    split; [assumption | now apply Z.ltb_lt]. }
  destruct (Hrem k1 (or_introl eq_refl)) as [Hk1 _].
  apply StronglySorted_inv in Hdesc. destruct Hdesc as [Hdesc' Hbelow].
  rewrite Forall_forall in Hbelow.
  assert (Hlo2n : 2 * n <= length lo).
  { destruct (Nat.lt_ge_cases (length lo) (2 * n)) as [Hlt|Hge]; [|assumption].
    exfalso.
    destruct (nth_error rows (length lo)) as [r|] eqn:E.
    - destruct (Hrows _ _ E) as [Hval _]. specialize (Hval Hlt).
      rewrite Hsplit, nth_error_app2, Nat.sub_diag in E by lia.
      apply nth_error_In, Hrest in E. lia.
    - apply nth_error_None in E. lia. }
  assert (Hcl : length (firstn (length lo) clusters) = length lo).
  { rewrite length_firstn, Hlen, Hsplit, length_app. lia. }
  assert (Hsame : forall i, i < length lo ->
            nth_error (lo ++ X) i = nth_error rows i).
  { intros i Hi. rewrite Hsplit, !nth_error_app1 by assumption. reflexivity. }
  rewrite Forall_forall in Hrange, HXr, HY.
  split; [|split; [|split; [|split; [|split; [|split; [|split]]]]]].
  - rewrite !length_app, Hcl. lia.
  - apply sorted_app; [now apply sorted_filter | assumption|].
    intros x y Hx Hy. apply Hlo in Hx. apply HXr in Hy. lia.
  - apply Forall_forall. intros r Hr. apply in_app_or in Hr. destruct Hr as [Hr|Hr].
    + apply Hlo in Hr. lia.
    + apply HXr in Hr. lia.
  - intros i r Hi. destruct (Nat.lt_ge_cases i (length lo)) as [Hlt|Hge].
    + rewrite Hsame in Hi by assumption. exact (Hrows i r Hi).
    + rewrite nth_error_app2 in Hi by assumption. apply nth_error_In, HXr in Hi.
      split; [lia | intros _; lia].
  - rewrite length_app. lia.
  - intros i r Hc Hr. destruct (Nat.lt_ge_cases i (length lo)) as [Hlt|Hge].
    + rewrite nth_error_app1 in Hc by lia. rewrite nth_error_firstn in Hc.
      destruct (Nat.ltb_spec i (length lo)); [|lia].
      rewrite Hsame in Hr by assumption.
      destruct (Hnone i r Hc Hr) as [<-|Hin]; [|assumption].
      rewrite Hsplit, nth_error_app1 in Hr by assumption.
      apply nth_error_In, Hlo in Hr. lia.
    + rewrite nth_error_app2 in Hc by lia. apply nth_error_In, HY in Hc.
      discriminate.
  - intros k Hk. destruct (Hrem k (or_intror Hk)) as [Hge Hin].
    split; [assumption|]. apply in_or_app. left. apply filter_In.
    split; [assumption|]. apply Z.ltb_lt. now apply Hbelow.
  - assumption.
Qed.

(** One turn of the outer loop on a table whose cells of row [k1] form
    one block: either the block holds a clustered cell, and only its
    unclustered cells go, or it holds none, and then the block goes, the
    rows after it are renumbered one lower and one buffer is deleted. *)
Lemma iso_row_block (numEnd k1 : Z) (nodes : list (@Node.t F)) (count : nat)
    (k2 : option nat) (pts : list (F * F)) (cells : list (@AMES.cell F))
    (cl_lo cl_mid cl_hi : list (option nat)) (lo hi : list Z)
    (st' : @AMES.iso_state F) :
  length cl_lo = length lo -> cl_mid <> [] ->
  Forall (fun r => (r < k1)%Z) lo -> Forall (fun r => (k1 < r)%Z) hi ->
  length pts = length (cl_lo ++ cl_mid ++ cl_hi) ->
  length cells = length (cl_lo ++ cl_mid ++ cl_hi) ->
  AMES.iso_row numEnd
    (AMES.mkIso (cl_lo ++ cl_mid ++ cl_hi) pts (lo ++ repeat k1 (length cl_mid) ++ hi)
               cells nodes count k2) k1 = Ok st' ->
  length (AMES.iso_pts st') = length (AMES.iso_clusters st') /\
  length (AMES.iso_cells st') = length (AMES.iso_clusters st') /\
  ((AMES.iso_clusters st' = cl_lo ++ filter is_some cl_mid ++ cl_hi /\
    AMES.iso_rows st' = lo ++ repeat k1 (length (filter is_some cl_mid)) ++ hi /\
    AMES.iso_nodes st' = nodes)
   \/
   (AMES.iso_clusters st' = cl_lo ++ cl_hi /\
    AMES.iso_rows st' = lo ++ map (fun r => (r - 1)%Z) hi /\
    S (length (AMES.iso_nodes st')) = length nodes)).
Proof.
  intros Hlo Hmid Hlt Hgt Hpts Hcells H. unfold AMES.iso_row in H.
  cbn [AMES.iso_clusters AMES.iso_pts AMES.iso_rows AMES.iso_cells AMES.iso_nodes
       AMES.iso_count AMES.iso_k2] in H.
  rewrite where_block in H.
  2:{ eapply Forall_impl; [|exact Hlt]. intros r Hr. cbv beta in Hr.
      apply Z.eqb_neq. lia. }
  2:{ apply Forall_forall. intros r Hr. apply repeat_spec in Hr. subst.
      apply Z.eqb_refl. }
  2:{ eapply Forall_impl; [|exact Hgt]. intros r Hr. cbv beta in Hr.
      apply Z.eqb_neq. lia. }
  rewrite repeat_length in H.
  apply bind_ok in H.
  destruct H as [[[[[[clusters1 pts1] rows1] cells1] connected1] k21] [H1 H]].
  pose proof (iso_cells_block k1 (length lo) cl_lo lo Hlo eq_refl (length cl_mid)
                cl_mid cl_hi hi pts cells false k2 _ eq_refl Hpts Hcells H1)
    as [I1 [I2 [I3 [I4 [I5 I6]]]]].
  cbn [orb] in I5.
  destruct (length cl_mid) as [|c] eqn:Ec.
  { destruct cl_mid; [contradiction | discriminate]. }
  destruct connected1.
  - injection H as <-.
    cbn [AMES.iso_clusters AMES.iso_pts AMES.iso_rows AMES.iso_cells AMES.iso_nodes].
    split; [assumption|]. split; [assumption|]. left. auto.
  - subst k21. cbn [bind] in H.
    apply bind_ok in H. destruct H as [nodes' [Hn H]]. injection H as <-.
    apply deletez_one_length in Hn.
    cbn [AMES.iso_clusters AMES.iso_pts AMES.iso_rows AMES.iso_cells AMES.iso_nodes].
    assert (Hnone : filter is_some cl_mid = []).
    { symmetry in I5. rewrite <- not_true_iff_false in I5.
      destruct (filter is_some cl_mid) as [|x l] eqn:E; [reflexivity|].
      exfalso. apply I5. apply existsb_exists. exists x.
      assert (Hin : In x (filter is_some cl_mid)) by (rewrite E; now left).
      apply filter_In in Hin. exact Hin. }
    rewrite Hnone in I1, I2. cbn [app length repeat] in I1, I2.
    split; [assumption|]. split; [assumption|]. right.
    split; [assumption|]. split; [|assumption].
    rewrite I2. destruct (Nat.ltb_spec (length lo) (length (lo ++ hi))) as [Hl|Hl].
    + apply shift_from_split.
    + rewrite length_app in Hl. destruct hi; [reflexivity | simpl in Hl; lia].
Qed.

Lemma sorted_repeat (k : Z) (c : nat) : StronglySorted Z.le (repeat k c).
Proof.
  induction c as [|c IH]; simpl; constructor; [assumption|].
  apply Forall_forall. intros x Hx. apply repeat_spec in Hx. lia.
Qed.

Lemma iso_row_inv (n : nat) (st st' : @AMES.iso_state F) (k1 : Z) (tail : list Z) :
  AMES.iso_row (Z.of_nat n * 2) st k1 = Ok st' ->
  iso_inv n (k1 :: tail) st -> iso_inv n tail st'.
Proof.
  destruct st as [clusters pts rows cells nodes count k2].
  intros H [Hp [Hc Hok]].
  cbn [AMES.iso_clusters AMES.iso_pts AMES.iso_rows AMES.iso_cells AMES.iso_nodes] in *.
  pose proof Hok as [Hlen [Hsorted [Hrange [Hrows [H2n [Hnone [Hrem Hdesc]]]]]]].
  destruct (sorted_split k1 rows Hsorted) as [Hsplit _].
  pose (lo := filter (fun r => (r <? k1)%Z) rows).
  pose (mid := filter (fun r => (r =? k1)%Z) rows).
  pose (hi := filter (fun r => (k1 <? r)%Z) rows).
  change (rows = lo ++ mid ++ hi) in Hsplit.
  assert (Hmid : mid = repeat k1 (length mid)) by apply filter_eq_repeat.
  pose (cl_lo := firstn (length lo) clusters).
  pose (cl_mid := firstn (length mid) (skipn (length lo) clusters)).
  pose (cl_hi := skipn (length mid) (skipn (length lo) clusters)).
  assert (Hcl : clusters = cl_lo ++ cl_mid ++ cl_hi).
  { unfold cl_lo, cl_mid, cl_hi. now rewrite !firstn_skipn. }
  assert (Hrl : length rows = length lo + length mid + length hi).
  { rewrite Hsplit at 1. rewrite !length_app. lia. }
  assert (Hla : length cl_lo = length lo).
  { unfold cl_lo. rewrite length_firstn. lia. }
  assert (Hlc : length cl_mid = length mid).
  { unfold cl_mid. rewrite length_firstn, length_skipn. lia. }
  assert (Hlh : length cl_hi = length hi).
  { unfold cl_hi. rewrite !length_skipn. lia. }
  assert (Hlo : forall r, In r lo -> In r rows /\ (r < k1)%Z).
  { intros r Hr. apply filter_In in Hr. destruct Hr as [Hr Hlt].
    split; [assumption | now apply Z.ltb_lt]. }
  assert (Hhi : forall r, In r hi -> In r rows /\ (k1 < r)%Z).
  { intros r Hr. apply filter_In in Hr. destruct Hr as [Hr Hlt].
    split; [assumption | now apply Z.ltb_lt]. }
  destruct (Hrem k1 (or_introl eq_refl)) as [Hk1 Hk1in].
  rewrite Forall_forall in Hrange.
  pose proof (Hrange k1 Hk1in) as Hk1m.
  assert (Hc0 : cl_mid <> []).
  { assert (Hin : In k1 mid) by (apply filter_In; split; [assumption | apply Z.eqb_refl]).
    intros E. rewrite E in Hlc. destruct mid; [destruct Hin | discriminate]. }
  assert (Hst : AMES.mkIso clusters pts rows cells nodes count k2 =
                AMES.mkIso (cl_lo ++ cl_mid ++ cl_hi) pts
                          (lo ++ repeat k1 (length cl_mid) ++ hi) cells nodes count k2).
  { f_equal; [exact Hcl|]. rewrite Hlc, <- Hmid. exact Hsplit. }
  rewrite Hst in H. clear Hst.
  apply iso_row_block in H; try assumption.
  2:{ apply Forall_forall. intros r Hr. now apply Hlo in Hr. }
  2:{ apply Forall_forall. intros r Hr. now apply Hhi in Hr. }
  2:{ rewrite <- Hcl. lia. }
  2:{ rewrite <- Hcl. lia. }
  destruct H as [Hp' [Hc' Hcases]].
  apply StronglySorted_inv in Hdesc. destruct Hdesc as [_ Hbelow].
  rewrite Forall_forall in Hbelow.
  assert (Hsome : Forall (fun c => is_some c = true) cl_hi).
  { apply Forall_forall. intros x Hx. destruct x as [id|]; [reflexivity|]. exfalso.
    apply In_nth_error in Hx. destruct Hx as [j Hj].
    assert (Hjlt : j < length hi).
    { rewrite <- Hlh. apply nth_error_Some. congruence. }
    destruct (nth_error hi j) as [r|] eqn:Er; [|apply nth_error_None in Er; lia].
    assert (Hci : nth_error clusters (length lo + length mid + j) = Some None).
    { rewrite Hcl, nth_error_app2 by lia. rewrite nth_error_app2 by lia.
      replace (length lo + length mid + j - length cl_lo - length cl_mid) with j by lia.
      exact Hj. }
    assert (Hri : nth_error rows (length lo + length mid + j) = Some r).
    { rewrite Hsplit, nth_error_app2 by lia. rewrite nth_error_app2 by lia.
      replace (length lo + length mid + j - length lo - length mid) with j by lia.
      exact Er. }
    apply nth_error_In, Hhi in Er.
    destruct (Hnone _ _ Hci Hri) as [E|Hin]; [lia|]. apply Hbelow in Hin. lia. }
  assert (Hhis : StronglySorted Z.le hi) by now apply sorted_filter.
  unfold iso_inv.
  destruct Hcases as [[E1 [E2 E3]]|[E1 [E2 E3]]]; rewrite E1, E2 in *.
  - rewrite E3.
    assert (Hnew : iso_ok n (length nodes) tail
                     (cl_lo ++ filter is_some cl_mid ++ cl_hi)
                     (lo ++ repeat k1 (length (filter is_some cl_mid)) ++ hi)).
    { apply (iso_rebuild n (length nodes) (length nodes) k1 tail clusters rows
               (filter is_some cl_mid ++ cl_hi)
               (repeat k1 (length (filter is_some cl_mid)) ++ hi) Hok).
      - rewrite !length_app, repeat_length. lia.
      - apply Forall_app. split; [|assumption].
        apply Forall_forall. intros x Hx. now apply filter_In in Hx.
      - apply sorted_app; [apply sorted_repeat | assumption|].
        intros x y Hx Hy. apply repeat_spec in Hx. apply Hhi in Hy. lia.
      - apply Forall_app. split; apply Forall_forall; intros x Hx.
        + apply repeat_spec in Hx. lia.
        + apply Hhi in Hx. destruct Hx as [Hx Hgt]. apply Hrange in Hx. lia.
      - lia. }
    pose proof Hnew as [Hlen' _].
    split; [lia|]. split; [lia | exact Hnew].
  - assert (Hm : length (AMES.iso_nodes st') = length nodes - 1) by lia.
    rewrite Hm.
    assert (Hnew : iso_ok n (length nodes - 1) tail (cl_lo ++ cl_hi)
                     (lo ++ map (fun r => (r - 1)%Z) hi)).
    { apply (iso_rebuild n (length nodes) (length nodes - 1) k1 tail clusters rows
               cl_hi (map (fun r => (r - 1)%Z) hi) Hok).
      - rewrite length_map. lia.
      - assumption.
      - now apply sorted_map_sub.
      - apply Forall_forall. intros x Hx. apply in_map_iff in Hx.
        destruct Hx as [y [<- Hy]]. apply Hhi in Hy. destruct Hy as [Hy Hgt].
        apply Hrange in Hy. lia.
      - lia. }
    pose proof Hnew as [Hlen' _].
    split; [lia|]. split; [lia | exact Hnew].
Qed.

Lemma iso_loop_inv (n : nat) (remaining : list Z) : forall st st' : @AMES.iso_state F,
  foldM (AMES.iso_row (Z.of_nat n * 2)) remaining st = Ok st' ->
  iso_inv n remaining st -> iso_inv n [] st'.
Proof.
  induction remaining as [|k1 tail IH]; intros st st' H Hinv; simpl in H.
  - now injection H as <-.
  - apply bind_ok in H. destruct H as [st1 [H1 H]].
    apply (IH _ _ H). exact (iso_row_inv _ _ _ _ _ H1 Hinv).
Qed.

Lemma iso_row_nodes (numEnd : Z) (st st' : @AMES.iso_state F) (k1 : Z) :
  AMES.iso_row numEnd st k1 = Ok st' ->
  length (AMES.iso_nodes st') <= length (AMES.iso_nodes st).
Proof.
  unfold AMES.iso_row. intros H.
  apply bind_ok in H.
  destruct H as [[[[[[clusters1 pts1] rows1] cells1] connected1] k21] [_ H]].
  destruct connected1.
  - injection H as <-. simpl. lia.
  - apply bind_ok in H. destruct H as [k2v [_ H]].
    apply bind_ok in H. destruct H as [nodes' [Hn H]]. injection H as <-.
    apply deletez_one_length in Hn. simpl. lia.
Qed.

Lemma sorted_endpoints (j : nat) : forall a : nat,
  StronglySorted Z.le (map Z.of_nat (seq a j)).
Proof.
  induction j as [|j IH]; intros a; simpl; constructor; [apply IH|].
  apply Forall_forall. intros x Hx. apply in_map_iff in Hx.
  destruct Hx as [k [<- Hk]]. apply in_seq in Hk. lia.
Qed.

Lemma Forall2_In_l (A B : Type) (R : A -> B -> Prop) (l1 : list A) (l2 : list B) (a : A) :
  Forall2 R l1 l2 -> In a l1 -> exists b, In b l2 /\ R a b.
Proof.
  induction 1 as [|x y l1 l2 Hxy Hall IH]; intros Hin; [destruct Hin|].
  destruct Hin as [<-|Hin].
  - exists y. split; [now left | assumption].
  - destruct (IH Hin) as [b [Hb HR]]. exists b. split; [now right | assumption].
Qed.

Lemma all_some (clusters : list (option nat)) :
  (forall i, nth_error clusters i <> Some None) ->
  exists ids, clusters = map Some ids.
Proof.
  induction clusters as [|c clusters IH]; intros H; [now exists []|].
  destruct IH as [ids Hids]; [intros i; exact (H (S i))|].
  destruct c as [id|]; [|exfalso; now apply (H 0)].
  exists (id :: ids). simpl. now rewrite Hids.
Qed.

Lemma sorted_skipn (l : list Z) : forall k : nat,
  StronglySorted Z.le l -> StronglySorted Z.le (skipn k l).
Proof.
  induction l as [|a l IH]; intros [|k] H; simpl; try assumption.
  apply IH. now inversion H.
Qed.

(** X13. [deleteIsoNodes] on a table with one cluster entry, one point
    and one stored cell per row, the rows of the line ends first and in
    order, then the buffer rows, non-decreasing and each naming an
    existing buffer, and with every line end clustered: when it returns
    it has left no unclustered cell, has changed no line, and the table
    it returns is well formed for the buffers that are left. *)
Theorem deleteIsoNodes_clears (self self' : @AMES.ames F) (rows rows' : list Z)
    (cells cells' : list (@AMES.cell F)) (pts pts' : list (F * F))
    (clusters clusters' : list (option nat)) :
  AMES.deleteIsoNodes self rows cells pts clusters
    = Ok (self', rows', cells', pts', clusters') ->
  length clusters = length rows -> length pts = length rows ->
  length cells = length rows ->
  (exists bufs,
     rows = map Z.of_nat (seq 0 (2 * length (AMES.lines self))) ++ bufs /\
     StronglySorted Z.le bufs /\
     Forall (fun r => (Z.of_nat (2 * length (AMES.lines self)) <= r
                       < Z.of_nat (2 * length (AMES.lines self)
                                   + length (AMES.nodes self)))%Z) bufs) ->
  (forall i, i < 2 * length (AMES.lines self) ->
     exists c, nth_error clusters i = Some (Some c)) ->
  AMES.lines self' = AMES.lines self /\
  length (AMES.nodes self') <= length (AMES.nodes self) /\
  length pts' = length rows' /\ length cells' = length rows' /\
  exists ids,
    clusters' = map Some ids /\
    table_ok (length (AMES.lines self')) (length (AMES.nodes self')) ids rows'.
Proof.
  intros H Hlen Hpts Hcells [bufs [Hrows [Hsorted Hrange]]] Hends.
  unfold AMES.deleteIsoNodes, AMES.numEndpoints in H.
  apply bind_ok in H. destruct H as [isoRows [Htake H]].
  apply bind_ok in H. destruct H as [st [Hloop H]].
  injection H as <- <- <- <- <-. cbn [AMES.with_nodes AMES.lines AMES.nodes].
  set (n := length (AMES.lines self)) in *.
  set (m := length (AMES.nodes self)) in *.
  pose proof (take_get _ _ _ _ Htake) as Hget.
  assert (Hfirst : endpoints_first n rows).
  { rewrite Hrows. apply layout_join.
    eapply Forall_impl; [|exact Hrange]. intros r Hr. cbv beta in Hr. lia. }
  assert (Hinv : iso_inv n (rev (pd.unique isoRows))
                   (AMES.mkIso clusters pts rows cells (AMES.nodes self) 0 None)).
  { split; [assumption|]. split; [assumption|].
    cbn [AMES.iso_clusters AMES.iso_rows AMES.iso_nodes]. fold m.
    rewrite Forall_forall in Hrange.
    split; [assumption|]. split; [|split; [|split; [|split; [|split; [|split]]]]].
    - rewrite Hrows. apply sorted_app; [apply sorted_endpoints | assumption|].
      intros x y Hx Hy. apply endpoint_rows_below in Hx. apply Hrange in Hy. lia.
    - rewrite Hrows. apply Forall_forall. intros r Hr.
      apply in_app_or in Hr. destruct Hr as [Hr|Hr].
      + apply endpoint_rows_below in Hr. lia.
      + apply Hrange in Hr. lia.
    - assumption.
    - rewrite Hrows, length_app, length_map, length_seq. lia.
    - intros i r Hc Hr. rewrite <- in_rev. apply pd_unique_In.
      assert (Hi : In i (np.where_ AMES.is_none clusters)).
      { apply where_In. exists None. split; [assumption | reflexivity]. }
      destruct (Forall2_In_l _ _ _ _ _ _ Hget Hi) as [b [Hb Hib]].
      assert (b = r) by congruence. now subst.
    - intros k Hk. rewrite <- in_rev in Hk. apply (proj1 (pd_unique_In _ _)) in Hk.
      destruct (Forall2_In_r _ _ _ _ _ _ Hget Hk) as [i [Hi Hik]].
      split; [|eapply nth_error_In; exact Hik].
      apply where_In in Hi. destruct Hi as [c [Hc Hnone]].
      destruct c; [discriminate|].
      destruct (Nat.lt_ge_cases i (2 * n)) as [Hlt|Hge].
      + destruct (Hends i Hlt) as [c Hc']. congruence.
      + destruct (Hfirst i k Hik) as [_ Hhigh]. specialize (Hhigh Hge). lia.
    - apply sorted_rev, pd_unique_sorted.
      apply (take_sorted rows (np.where_ AMES.is_none clusters) isoRows Htake).
      + apply where_from_sorted.
      + rewrite Hrows. apply sorted_app; [apply sorted_endpoints | assumption|].
        intros x y Hx Hy. apply endpoint_rows_below in Hx. apply Hrange in Hy. lia. }
  apply (iso_loop_inv _ _ _ _ Hloop) in Hinv.
  destruct Hinv as [Hp' [Hc' [Hl' [Hs' [Hr' [Hf' [H2n' [Hnone' _]]]]]]]].
  split; [reflexivity|].
  assert (Hall : exists ids, AMES.iso_clusters st = map Some ids).
  { apply all_some. intros i Hi.
    destruct (nth_error (AMES.iso_rows st) i) as [r|] eqn:Er.
    - exact (Hnone' i r Hi Er).
    - apply nth_error_None in Er.
      assert (i < length (AMES.iso_clusters st)) by (apply nth_error_Some; congruence).
      lia. }
  destruct Hall as [ids Hids].
  assert (Hm : length (AMES.iso_nodes st) <= m).
  { set (P := fun s : @AMES.iso_state F => length (AMES.iso_nodes s) <= m).
    assert (Hstep : forall s k s',
              AMES.iso_row (Z.of_nat n * 2) s k = Ok s' -> P s -> P s').
    { intros s k s' Hs HP. unfold P in *. apply iso_row_nodes in Hs. lia. }
    apply (foldM_inv _ _ _ P Hstep _ _ _ Hloop). unfold P. simpl. lia. }
  split; [assumption|]. split; [assumption|]. split; [assumption|].
  exists ids. split; [assumption|]. split.
  - rewrite Hids, length_map in Hl'. exact Hl'.
  - destruct (layout_split n (AMES.iso_rows st) Hf' H2n') as [Hhead Htail].
    exists (skipn (2 * n) (AMES.iso_rows st)).
    split; [now rewrite <- Hhead, firstn_skipn|].
    split; [now apply sorted_skipn|].
    rewrite Forall_forall in *. intros r Hr.
    pose proof (Htail r Hr) as Hge.
    assert (Hin : In r (AMES.iso_rows st)).
    { rewrite <- (firstn_skipn (2 * n)). apply in_or_app. now right. }
    apply Hr' in Hin. lia.
Qed.
End IsoFacts.

Module IsoExamples.
Local Open Scope string_scope.
Local Open Scope list_scope.

(** One tie line and three buffers. The first generator stores two
    cells on row 2, one of them unclustered; the second generator, on row
    3, is unclustered; the load, on row 4, is clustered. *)
Definition system : @AMES.ames float :=
  AMES.mkAmes [LinkExamples.hydro_a; LinkExamples.hydro_b; PruneExamples.town]
              [LinkExamples.tie_line]
              ["electric power at 132kV"; "water energy"] None None None None.

Definition rows : list Z := [0; 1; 2; 2; 3; 4]%Z.
Definition cells : list (@AMES.cell float) :=
  [ (0, ((-73.5)%float, 44.5%float)); (0, ((-73.25)%float, 44.5%float));
    (0, ((-73.5)%float, 44.5%float)); (1, ((-73.5)%float, 44.5%float));
    (0, ((-72)%float, 43%float)); (0, ((-73.25)%float, 44.5%float)) ].
Definition pts : list (float * float) := map snd cells.
Definition clusters : list (option nat) :=
  [Some 0; Some 1; Some 0; None; None; Some 1].
End IsoExamples.

(** On the example the stray cell of the first generator goes, the
    second generator goes with its row, and the load moves up to row 3. *)
Lemma deleteIsoNodes_clears_witness :
  exists self' cells' pts',
    AMES.deleteIsoNodes IsoExamples.system IsoExamples.rows IsoExamples.cells
      IsoExamples.pts IsoExamples.clusters
    = Ok (self', [0; 1; 2; 3]%Z, cells', pts', [Some 0; Some 1; Some 0; Some 1]) /\
    AMES.nodes self' = [LinkExamples.hydro_a; PruneExamples.town] /\
    exists ids,
      [Some 0; Some 1; Some 0; Some 1] = map Some ids /\
      table_ok (length (AMES.lines self')) (length (AMES.nodes self')) ids
               [0; 1; 2; 3]%Z.
Proof.
  destruct (AMES.deleteIsoNodes IsoExamples.system IsoExamples.rows IsoExamples.cells
              IsoExamples.pts IsoExamples.clusters)
    as [[[[[self' rows'] cells'] pts'] clusters']|e] eqn:E;
    [|vm_compute in E; discriminate].
  assert (Hres : rows' = [0; 1; 2; 3]%Z /\
                 clusters' = [Some 0; Some 1; Some 0; Some 1] /\
                 AMES.nodes self' = [LinkExamples.hydro_a; PruneExamples.town]).
  { vm_compute in E. injection E as <- <- <- <- <-. repeat split; reflexivity. }
  destruct Hres as [Hr [Hc Hn]].
  exists self', cells', pts'. rewrite <- Hr, <- Hc.
  split; [reflexivity|]. split; [exact Hn|].
  refine (proj2 (proj2 (proj2 (proj2
    (deleteIsoNodes_clears _ _ _ _ _ _ _ _ _ _ E eq_refl eq_refl eq_refl _ _))))).
  - exists [2; 2; 3; 4]%Z. split; [reflexivity|].
    split; repeat constructor; simpl; lia.
  - intros i Hi. simpl in Hi.
    destruct i as [|[|i]]; [exists 0 | exists 1 | lia]; reflexivity.
Defined.

(* ------------------------------------------------------------------ *)
(** * The clusters of the synthetic transporters *)

Lemma in_firstn (A : Type) (l : list A) (k : nat) (x : A) :
  In x (firstn k l) -> In x l.
Proof. intros H. rewrite <- (firstn_skipn k l). apply in_or_app. now left. Qed.

Lemma in_skipn (A : Type) (l : list A) (k : nat) (x : A) :
  In x (skipn k l) -> In x l.
Proof. intros H. rewrite <- (firstn_skipn k l). apply in_or_app. now right. Qed.

Section UpdateClusters.
Context {F : Type} {AF : Arith F}.

(** A queue entry whose two cells hold different ids. *)
Definition joins (clusters : list (option nat)) (k : nat * nat) (c0 c1 : nat) : Prop :=
  nth_error clusters (fst k) = Some (Some c0) /\
  nth_error clusters (snd k) = Some (Some c1) /\ c0 <> c1.

(** A line that runs between the clusters of a queue entry. *)
Definition bridges (clusters : list (option nat)) (queue : list (nat * nat))
    (l : @Line.t F) : Prop :=
  exists k c0 c1, In k queue /\ joins clusters k c0 c1 /\
    Line.clust_origin l = ClId c1 /\ Line.clust_dest l = ClId c0.

Definition update_bridges (clusters : list (option nat)) (queue : list (nat * nat))
    (st : @AMES.update_state F) : Prop :=
  (forall r, In r (AMES.u_lines st) ->
     exists l, nth_error (AMES.u_objs st) r = Some l /\ bridges clusters queue l) /\
  Forall (fun c => exists id, c = Some id) (AMES.u_clust st).

Lemma update_create_objs (self : @AMES.ames F) (st : @AMES.update_state F)
    (ref : string) :
  exists more, AMES.u_objs (AMES.update_create self st ref) = AMES.u_objs st ++ more.
Proof.
  unfold AMES.update_create. cbv zeta.
  repeat match goal with
         | |- context [if ?c then _ else _] => destruct c
         end;
    try (exists []; now rewrite app_nil_r);
    unfold AMES.update_new; cbn [AMES.u_objs]; eexists; reflexivity.
Qed.

Lemma update_entry_bridges (self : @AMES.ames F) (clusters : list (option nat))
    (table : list (@SnapEdges2Grid.entry F)) (queue : list (nat * nat))
    (st st' : @AMES.update_state F) (i : nat) (k : nat * nat) :
  In k queue -> (exists c0 c1, joins clusters k c0 c1) ->
  AMES.update_entry self clusters table st (i, k) = Ok st' ->
  update_bridges clusters queue st -> update_bridges clusters queue st'.
Proof.
  intros Hk [c0 [c1 Hj]] H [Hobjs Hclust].
  unfold AMES.update_entry in H. destruct k as [k1_0 k1_1].
  apply bind_ok in H. destruct H as [e1 [He1 H]].
  apply bind_ok in H. destruct H as [ref [Href H]].
  destruct (update_create_fields self st ref) as [Hl [_ [_ [Hcl _]]]].
  destruct (update_create_objs self st ref) as [more Hmore].
  destruct (AMES.u_new_instance (AMES.update_create self st ref)) as [r|];
    [|discriminate].
  apply bind_ok in H. destruct H as [l [Hlr H]].
  apply bind_ok in H. destruct H as [e0 [He0 H]].
  apply bind_ok in H. destruct H as [x1 [Hc1 H]].
  apply bind_ok in H. destruct H as [x0 [Hc0 H]]. injection H as <-.
  apply get_nth_error in Hlr. apply get_nth_error in Hc1. apply get_nth_error in Hc0.
  pose proof Hj as [Hj0 [Hj1 Hne]]. cbn [fst snd] in Hj0, Hj1.
  assert (x0 = Some c0) by congruence. assert (x1 = Some c1) by congruence. subst x0 x1.
  split; cbn [AMES.u_lines AMES.u_objs AMES.u_clust].
  - intros r' Hr'. unfold py.set. rewrite set_at_nth_error.
    destruct (Nat.eqb_spec r' r) as [->|Hneq].
    + rewrite Hlr. cbn [option_map]. eexists. split; [reflexivity|].
      exists (k1_0, k1_1), c0, c1. split; [assumption|]. split; [assumption|].
      split; reflexivity.
    + rewrite Hl in Hr'. apply in_app_or in Hr'. destruct Hr' as [Hr'|[Hr'|[]]];
        [|congruence].
      destruct (Hobjs r' Hr') as [l' [Hl' Hb]]. exists l'. split; [|assumption].
      rewrite Hmore, nth_error_app1; [assumption|].
      apply nth_error_Some. congruence.
  - rewrite Hcl. apply Forall_app. split; [assumption|].
    repeat constructor; eexists; reflexivity.
Qed.

(** X14. When every pair of the queue joins two cells that hold
    different cluster ids, every line [updateTransporters] appends runs
    between the clusters of a pair of the queue, from the id of the
    nearest cell to the id of the stray one, so none is a self-loop; and
    every entry it splices into [clusters] is an id, never None. *)
Theorem updateTransporters_bridges (self self' : @AMES.ames F)
    (queue : list (nat * nat)) (clusters clusters' : list (option nat))
    (pts pts' : list (F * F)) (table table' : list (@SnapEdges2Grid.entry F)) :
  AMES.updateTransporters self queue clusters pts table
    = Ok (self', clusters', pts', table') ->
  Forall (fun k => exists c0 c1, joins clusters k c0 c1) queue ->
  exists new,
    AMES.lines self' = AMES.lines self ++ new /\
    Forall (bridges clusters queue) new /\
    Forall no_self_loop new /\
    (forall c, In c clusters' -> In c clusters \/ exists id, c = Some id).
Proof.
  intros H Hq. unfold AMES.updateTransporters in H.
  apply bind_ok in H. destruct H as [st [Hst H]].
  assert (Hinv : update_bridges clusters queue st).
  { unfold AMES.update_loop in Hst.
    set (P := update_bridges clusters queue).
    assert (Hstep : forall s ik s',
              In ik (combine (seq 0 (length queue)) queue) ->
              AMES.update_entry self clusters table s ik = Ok s' -> P s -> P s').
    { intros s [i k] s' Hin Hs. apply in_combine_r in Hin.
      rewrite Forall_forall in Hq.
      exact (update_entry_bridges _ _ _ _ _ _ _ _ Hin (Hq k Hin) Hs). }
    apply (foldM_inv_in _ _ _ P _ Hstep _ _ Hst).
    split; [intros r []|constructor]. }
  destruct Hinv as [Hobjs Hclust].
  set (new := map (fun r => nth r (AMES.u_objs st) (Line.fresh "" "" []))
                  (AMES.u_lines st)) in *.
  assert (Hnew : Forall (bridges clusters queue) new).
  { apply Forall_forall. intros l Hl. apply in_map_iff in Hl.
    destruct Hl as [r [<- Hr]]. destruct (Hobjs r Hr) as [l' [Hl' Hb]].
    now rewrite nth_of_nth_error, Hl'. }
  assert (Hloop : Forall no_self_loop new).
  { eapply Forall_impl; [|exact Hnew].
    intros l [k [c0 [c1 [_ [[_ [_ Hne]] [Ho Hd]]]]]].
    unfold no_self_loop. rewrite Ho, Hd. simpl. apply Nat.eqb_neq. congruence. }
  exists new.
  destruct ((0 <? length (AMES.lines self))%nat && (0 <? AMES.u_count st)%nat).
  - destruct (np.where_ _ table) as [|linePoints tl]; [discriminate|].
    injection H as <- <- _ _. cbn [AMES.with_lines AMES.lines].
    split; [reflexivity|]. split; [assumption|]. split; [assumption|].
    intros c Hc. unfold np.insert in Hc.
    apply in_app_or in Hc. destruct Hc as [Hc|Hc].
    + left. eapply in_firstn; exact Hc.
    + apply in_app_or in Hc. destruct Hc as [Hc|Hc].
      * right. rewrite Forall_forall in Hclust. now apply Hclust.
      * left. eapply in_skipn; exact Hc.
  - injection H as <- <- _ _. cbn [AMES.with_lines AMES.lines].
    split; [reflexivity|]. split; [assumption|]. split; [assumption|]. auto.
Qed.
End UpdateClusters.

(** The railroad synthesized for the pair (4, 1) of the example runs
    from cluster 1 to cluster 4. *)
Lemma updateTransporters_bridges_witness :
  exists self' clusters' pts' table' new,
    AMES.updateTransporters SynthExamples.system [(4, 1)]
      SynthExamples.clusters SynthExamples.pts SynthExamples.table
    = Ok (self', clusters', pts', table') /\
    AMES.lines self' = AMES.lines SynthExamples.system ++ new /\
    Forall no_self_loop new.
Proof.
  destruct (AMES.updateTransporters SynthExamples.system [(4, 1)]
              SynthExamples.clusters SynthExamples.pts SynthExamples.table)
    as [[[[s c] p] t]|e] eqn:E; [|vm_compute in E; discriminate].
  assert (Hq : Forall (fun k => exists c0 c1, joins SynthExamples.clusters k c0 c1)
                      [(4, 1)]).
  { constructor; [|constructor]. exists 4, 1. repeat split; try reflexivity. lia. }
  destruct (updateTransporters_bridges _ _ _ _ _ _ _ _ _ E Hq)
    as [new [Hl [_ [Hn _]]]].
  exists s, c, p, t, new. split; [reflexivity|]. split; assumption.
Defined.

(* ------------------------------------------------------------------ *)
(** * The lines [reviseCoords] keeps *)

Section DeleteSteps.
Context {A : Type}.

(** Deleting position [d] and then positions below it is deleting them
    all at once. *)
Lemma delete_from_step (idx : list nat) (d : nat) (l : list A) : forall i,
  i <= d -> Forall (fun x => x < d) idx ->
  np.delete_from idx i (np.delete_from [d] i l) = np.delete_from (d :: idx) i l.
Proof.
  induction l as [|a l IH]; intros i Hi Hidx; [reflexivity|].
  cbn [np.delete_from existsb]. rewrite orb_false_r.
  destruct (Nat.eqb_spec i d) as [->|Hne].
  - cbn [orb]. rewrite delete_from_above by lia.
    rewrite delete_from_below by assumption.
    rewrite delete_from_below; [reflexivity|].
    constructor; [lia|]. eapply Forall_impl; [|exact Hidx].
    intros x Hx. cbv beta in Hx. lia.
  - cbn [orb np.delete_from].
    destruct (existsb (Nat.eqb i) idx); [|f_equal]; apply IH; (lia || assumption).
Qed.

Lemma delete_from_filter (q : A -> bool) (idx : list nat) (l : list A) : forall i,
  (forall j a, nth_error l j = Some a -> existsb (Nat.eqb (i + j)) idx = negb (q a)) ->
  np.delete_from idx i l = filter q l.
Proof.
  induction l as [|a l IH]; intros i H; [reflexivity|].
  cbn [np.delete_from filter].
  pose proof (H 0 a eq_refl) as H0. rewrite Nat.add_0_r in H0. rewrite H0.
  rewrite (IH (S i)).
  - now destruct (q a).
  - intros j b Hj. replace (S i + j) with (i + S j) by lia. now apply H.
Qed.
End DeleteSteps.

Lemma nth_error_map_combine_seq (A B : Type) (f : nat * A -> B) (l : list A) :
  forall i j,
  nth_error (map f (combine (seq i (length l)) l)) j =
  option_map (fun a => f (i + j, a)) (nth_error l j).
Proof.
  induction l as [|a l IH]; intros i [|j]; simpl; try reflexivity.
  - now rewrite Nat.add_0_r.
  - rewrite IH. now replace (S i + j) with (i + S j) by lia.
Qed.

Section KeptLines.
Context {F : Type} {AF : Arith F}.

(** Line [j] once the first [k] points have been read: its origin comes
    from point [2j] and its destination from point [2j + 1]. *)
Definition place_upto (clusters : list nat) (k j : nat) (l : @Line.t F) : @Line.t F :=
  let l1 := if 2 * j <? k then Line.set_clust_origin l (ClId (nth (2 * j) clusters 0))
            else l in
  if 2 * j + 1 <? k then Line.set_clust_dest l1 (ClId (nth (2 * j + 1) clusters 0))
  else l1.

Definition place_line (clusters : list nat) (j : nat) (l : @Line.t F) : @Line.t F :=
  Line.set_clust_dest (Line.set_clust_origin l (ClId (nth (2 * j) clusters 0)))
                      (ClId (nth (2 * j + 1) clusters 0)).

(** The lines with the clusters of their two ends written in. *)
Definition placed (clusters : list nat) (ls : list (@Line.t F)) : list (@Line.t F) :=
  map (fun jl => place_line clusters (fst jl) (snd jl)) (combine (seq 0 (length ls)) ls).

Definition loops (l : @Line.t F) : bool :=
  pyclust_eqb (Line.clust_origin l) (Line.clust_dest l).

Definition lines_inv (clusters : list nat) (lines0 : list (@Line.t F)) (k : nat)
    (st : @AMES.coords_state F) : Prop :=
  forall j, nth_error (snd (fst st)) j
            = option_map (place_upto clusters k j) (nth_error lines0 j).

Lemma coords_point_lines (clusters : list nat) (pts : list (F * F))
    (resourceIdx : list Z) (lines0 : list (@Line.t F)) (k : nat)
    (st st' : @AMES.coords_state F) :
  endpoints_first (length lines0) resourceIdx ->
  lines_inv clusters lines0 k st ->
  AMES.coords_point (Z.of_nat (length lines0) * 2) clusters pts resourceIdx st k = Ok st' ->
  lines_inv clusters lines0 (S k) st'.
Proof.
  intros Hrows Hinv H. set (n := length lines0) in *.
  destruct st as [[ns ls] del]. unfold lines_inv in *. cbn [fst snd] in Hinv.
  unfold AMES.coords_point in H.
  apply bind_ok in H. destruct H as [r [Hr H]].
  apply bind_ok in H. destruct H as [c [Hc H]].
  apply bind_ok in H. destruct H as [p [Hp H]].
  apply get_nth_error in Hr. apply get_nth_error in Hc.
  destruct (Hrows k r Hr) as [Hlow Hhigh].
  assert (Hcn : nth k clusters 0 = c) by now rewrite nth_of_nth_error, Hc.
  assert (Hsame : forall j l, 2 * j <> k -> 2 * j + 1 <> k ->
            place_upto clusters (S k) j l = place_upto clusters k j l).
  { intros j l H0 H1. unfold place_upto.
    destruct (Nat.ltb_spec (2 * j) (S k)); destruct (Nat.ltb_spec (2 * j) k); try lia;
      destruct (Nat.ltb_spec (2 * j + 1) (S k)); destruct (Nat.ltb_spec (2 * j + 1) k);
      try lia; reflexivity. }
  destruct (Z.leb_spec (Z.of_nat n * 2) r) as [Hbuf|Hline].
  - apply bind_ok in H. destruct H as [pt [Hpt H]].
    apply bind_ok in H. destruct H as [ns' [Hns H]].
    injection H as <-. cbn [fst snd]. intros j. rewrite Hinv.
    destruct (nth_error lines0 j) as [l|] eqn:E; [|reflexivity].
    assert (j < n) by (apply nth_error_Some; congruence).
    destruct (Nat.lt_ge_cases k (2 * n)) as [Hk|Hk]; [specialize (Hlow Hk); lia|].
    cbn [option_map]. rewrite Hsame by lia. reflexivity.
  - assert (Hk : k < 2 * n).
    { destruct (Nat.lt_ge_cases k (2 * n)) as [Hk|Hk]; [assumption|].
      specialize (Hhigh Hk). lia. }
    specialize (Hlow Hk). subst r.
    pose proof (Z.div_mod (Z.of_nat k) 2 ltac:(lia)) as Hdm.
    pose proof (Z.mod_pos_bound (Z.of_nat k) 2 ltac:(lia)) as Hmb.
    assert (Hq : (0 <= Z.of_nat k / 2)%Z) by (apply Z.div_pos; lia).
    destruct (Z.eqb_spec (Z.of_nat k mod 2) 0) as [Heven|Hodd].
    + apply bind_ok in H. destruct H as [pt [Hpt H]].
      apply bind_ok in H. destruct H as [ls' [Hls H]].
      injection H as <-. cbn [fst snd].
      unfold py.getz in Hpt. apply bind_ok in Hpt. destruct Hpt as [i0 [Hi0 Hpt]].
      apply (pos_nonneg _ _ _ Hq) in Hi0. destruct Hi0 as [Hi0 _].
      apply get_nth_error in Hpt.
      unfold py.setz in Hls. apply bind_ok in Hls. destruct Hls as [i [Hi Hls]].
      injection Hls as <-. apply (pos_nonneg _ _ _ Hq) in Hi. destruct Hi as [Hi Hilt].
      assert (E0 : i0 = i) by lia. rewrite E0 in Hpt. clear E0 Hi0.
      assert (Hki : k = 2 * i) by lia.
      intros j. rewrite set_at_nth_error.
      destruct (Nat.eqb_spec j i) as [->|E].
      * rewrite Hpt. rewrite Hinv in Hpt.
        destruct (nth_error lines0 i) as [l0|]; [|discriminate].
        cbn [option_map] in *. injection Hpt as <-. f_equal.
        unfold place_upto.
        destruct (Nat.ltb_spec (2 * i) k); [lia|].
        destruct (Nat.ltb_spec (2 * i + 1) k); [lia|].
        destruct (Nat.ltb_spec (2 * i) (S k)); [|lia].
        destruct (Nat.ltb_spec (2 * i + 1) (S k)); [lia|].
        now rewrite <- Hki, Hcn.
      * rewrite Hinv. destruct (nth_error lines0 j) as [l|]; [|reflexivity].
        cbn [option_map]. rewrite Hsame by lia. reflexivity.
    + apply bind_ok in H. destruct H as [pt [Hpt H]].
      apply bind_ok in H. destruct H as [ls' [Hls H]].
      injection H as <-. cbn [fst snd].
      unfold py.getz in Hpt. apply bind_ok in Hpt. destruct Hpt as [i0 [Hi0 Hpt]].
      apply (pos_nonneg _ _ _ Hq) in Hi0. destruct Hi0 as [Hi0 _].
      apply get_nth_error in Hpt.
      unfold py.setz in Hls. apply bind_ok in Hls. destruct Hls as [i [Hi Hls]].
      injection Hls as <-. apply (pos_nonneg _ _ _ Hq) in Hi. destruct Hi as [Hi Hilt].
      assert (E0 : i0 = i) by lia. rewrite E0 in Hpt. clear E0 Hi0.
      assert (Hki : k = 2 * i + 1) by lia.
      intros j. rewrite set_at_nth_error.
      destruct (Nat.eqb_spec j i) as [->|E].
      * rewrite Hpt. rewrite Hinv in Hpt.
        destruct (nth_error lines0 i) as [l0|]; [|discriminate].
        cbn [option_map] in *. injection Hpt as <-. f_equal.
        unfold place_upto.
        destruct (Nat.ltb_spec (2 * i) k); [|lia].
        destruct (Nat.ltb_spec (2 * i + 1) k); [lia|].
        destruct (Nat.ltb_spec (2 * i) (S k)); [|lia].
        destruct (Nat.ltb_spec (2 * i + 1) (S k)); [|lia].
        now rewrite <- Hki, Hcn.
      * rewrite Hinv. destruct (nth_error lines0 j) as [l|]; [|reflexivity].
        cbn [option_map]. rewrite Hsame by lia. reflexivity.
Qed.

Lemma coords_points_lines (clusters : list nat) (pts : list (F * F))
    (resourceIdx : list Z) (ns : list (@Node.t F)) (lines0 : list (@Line.t F)) :
  endpoints_first (length lines0) resourceIdx ->
  forall k st,
    foldM (AMES.coords_point (Z.of_nat (length lines0) * 2) clusters pts resourceIdx)
          (seq 0 k) (ns, lines0, []) = Ok st ->
    lines_inv clusters lines0 k st.
Proof.
  intros Hrows. induction k as [|k IH]; intros st H.
  - simpl in H. injection H as <-. intros j. cbn [fst snd].
    destruct (nth_error lines0 j) as [l|]; [|reflexivity].
    cbn [option_map]. reflexivity.
  - rewrite seq_S, foldM_app in H. simpl in H.
    apply bind_ok in H. destruct H as [st1 [H1 H]].
    apply bind_ok in H. destruct H as [st2 [H2 H]]. injection H as <-.
    eapply coords_point_lines; [exact Hrows | apply IH; exact H1 | exact H2].
Qed.

(** The second loop deletes the lines of [pending], highest first. *)
Lemma coords_unloops_lines (pending : list Z) :
  forall st st' : @AMES.unloop_state F,
  foldM AMES.coords_unloop pending st = Ok st' ->
  StronglySorted (fun a b => (b < a)%Z) pending ->
  Forall (fun d => (0 <= d)%Z) pending ->
  fst (fst (fst st')) = np.delete (fst (fst (fst st))) (map Z.to_nat pending).
Proof.
  induction pending as [|k2 rest IH]; intros st st' H Hsort Hpos.
  - simpl in H. injection H as <-. unfold np.delete. simpl.
    symmetry. apply delete_from_below. constructor.
  - simpl in H. apply bind_ok in H. destruct H as [st1 [H1 H]].
    inversion Hsort as [|? ? Hsort' Hbelow]; subst.
    inversion Hpos as [|? ? Hk2 Hpos']; subst.
    rewrite (IH _ _ H Hsort' Hpos'). clear IH H.
    destruct st as [[[ls clusters] resourceIdx] del_buffers].
    apply coords_unloop_lines in H1. cbn [fst].
    apply deletez_one in H1. destruct H1 as [k [Hk Hls]].
    apply (pos_nonneg _ _ _ Hk2) in Hk. destruct Hk as [Hk Hklt].
    rewrite Hls, <- delete_one by assumption. unfold np.delete. subst k.
    cbn [map]. apply delete_from_step; [lia|].
    apply Forall_forall. intros x Hx. apply in_map_iff in Hx.
    destruct Hx as [d [<- Hd]]. rewrite Forall_forall in Hbelow, Hpos'.
    pose proof (Hbelow d Hd). pose proof (Hpos' d Hd). lia.
Qed.

(** On line values: with the two ends of line [i] on rows [2i] and
    [2i+1], the buffers after them and a point for every line end, the
    lines [reviseCoords] returns are the lines it was given, in their
    order and with the clusters of their two ends written in, less
    exactly those whose two ends share a cluster. *)
Lemma reviseCoords_lines_value (self self' : @AMES.ames F)
    (clusters clusters' : list nat) (pts : list (F * F))
    (resourceIdx resourceIdx' : list Z) :
  AMES.reviseCoords self clusters pts resourceIdx = Ok (self', clusters', resourceIdx') ->
  endpoints_first (length (AMES.lines self)) resourceIdx ->
  2 * length (AMES.lines self) <= length pts ->
  AMES.lines self' =
  filter (fun l => negb (loops l)) (placed clusters (AMES.lines self)).
Proof.
  intros H Hrows Hpts. unfold AMES.reviseCoords, AMES.numEndpoints in H.
  apply bind_ok in H. destruct H as [[[ns ls] del_lines] [H1 H]].
  apply bind_ok in H. destruct H as [[[[ls' c1] r1] del_buffers] [H2 H]].
  apply bind_ok in H. destruct H as [[[ns' c2] r2] [H3 H]].
  injection H as <- _ _. cbn [AMES.lines].
  pose proof (coords_points_lines _ _ _ _ _ Hrows _ _ H1) as Hlines.
  apply (coords_points_inv _ _ _ _ _ _ Hrows eq_refl) in H1.
  destruct H1 as [Hlen [Hsort [Hdel Hloop]]].
  unfold lines_inv in Hlines. cbn [fst snd] in Hlines.
  assert (Hls : ls = placed clusters (AMES.lines self)).
  { apply nth_error_ext. intros j. rewrite Hlines. unfold placed.
    rewrite nth_error_map_combine_seq. cbn [Nat.add fst snd].
    destruct (nth_error (AMES.lines self) j) as [l|] eqn:E; [|reflexivity].
    assert (Hj : j < length (AMES.lines self)) by (apply nth_error_Some; congruence).
    cbn [option_map]. f_equal. unfold place_upto, place_line.
    destruct (Nat.ltb_spec (2 * j) (length pts)); [|lia].
    destruct (Nat.ltb_spec (2 * j + 1) (length pts)); [|lia]. reflexivity. }
  assert (Hpos : Forall (fun d => (0 <= d)%Z) (rev del_lines)).
  { apply Forall_rev. eapply Forall_impl; [|exact Hdel]. intros d Hd. exact (proj1 Hd). }
  pose proof (coords_unloops_lines _ _ _ H2 (sorted_rev _ Hsort) Hpos) as Hl2.
  cbn [fst] in Hl2. rewrite Hl2, <- Hls. unfold np.delete. apply delete_from_filter.
  intros j l Hj. cbn [Nat.add]. rewrite negb_involutive.
  assert (Hjl : 2 * j + 1 < length pts).
  { assert (j < length ls) by (apply nth_error_Some; congruence). lia. }
  pose proof (Hloop j l Hj Hjl) as Hiff. unfold loops.
  rewrite Forall_forall in Hdel.
  destruct (pyclust_eqb (Line.clust_origin l) (Line.clust_dest l)).
  - apply existsb_exists. exists j. split; [|apply Nat.eqb_refl].
    apply in_map_iff. exists (Z.of_nat j). split; [lia|].
    rewrite <- in_rev. now apply Hiff.
  - rewrite <- not_true_iff_false. intros Hex. apply existsb_exists in Hex.
    destruct Hex as [x [Hx Hjx]]. apply Nat.eqb_eq in Hjx. subst x.
    apply in_map_iff in Hx. destruct Hx as [d [Hd Hin]]. rewrite <- in_rev in Hin.
    pose proof (proj1 (Hdel d Hin)).
    assert (d = Z.of_nat j) by lia. subst d.
    apply Hiff in Hin. discriminate.
Qed.

Lemma get_line_at (objs : list (@Line.t F)) (ref : nat) (l : @Line.t F) :
  py.get objs ref = Ok l -> AMES.line_at objs ref = l /\ ref < length objs.
Proof.
  intros H. apply get_nth_error in H. split.
  - unfold AMES.line_at. now rewrite nth_of_nth_error, H.
  - apply nth_error_Some. congruence.
Qed.

(** Writing the object of one position changes what that position reads,
    and no other, when no object sits at two positions. *)
Lemma read_lines_set (objs : list (@Line.t F)) (slots : list nat) (i ref : nat)
    (v : @Line.t F) :
  NoDup slots -> nth_error slots i = Some ref -> ref < length objs ->
  AMES.read_lines (py.set objs ref v) slots = np.set_at (AMES.read_lines objs slots) i v.
Proof.
  intros Hnd Hi Hlt. apply nth_error_ext. intros j.
  rewrite set_at_nth_error. unfold AMES.read_lines. rewrite !nth_error_map.
  destruct (nth_error slots j) as [r|] eqn:Ej; cbn [option_map];
    [|now destruct (j =? i)].
  unfold AMES.line_at, py.set. rewrite !nth_of_nth_error, set_at_nth_error.
  destruct (Nat.eqb_spec j i) as [->|Hne].
  - assert (r = ref) by congruence. subst r. rewrite Nat.eqb_refl.
    destruct (nth_error objs ref) eqn:E; [reflexivity|].
    apply nth_error_None in E. lia.
  - destruct (Nat.eqb_spec r ref) as [->|Hr]; [|reflexivity].
    exfalso. apply Hne.
    apply (proj1 (NoDup_nth_error slots) Hnd); [|congruence].
    apply nth_error_Some. congruence.
Qed.

Lemma getz_read (objs : list (@Line.t F)) (slots : list nat) (z : Z) (ref : nat)
    (l : @Line.t F) :
  py.getz slots z = Ok ref -> py.get objs ref = Ok l ->
  py.getz (AMES.read_lines objs slots) z = Ok l /\
  exists i, py.pos (length slots) z = Ok i /\ nth_error slots i = Some ref.
Proof.
  unfold py.getz, AMES.read_lines. rewrite length_map. intros H Hl.
  apply bind_ok in H. destruct H as [i [Hi H]]. rewrite Hi. cbn [bind].
  apply get_nth_error in H. split; [|eauto].
  unfold py.get. rewrite nth_error_map, H. cbn [option_map].
  now rewrite (proj1 (get_line_at _ _ _ Hl)).
Qed.

Lemma setz_read (objs : list (@Line.t F)) (slots : list nat) (z : Z) (i ref : nat)
    (v : @Line.t F) :
  NoDup slots -> py.pos (length slots) z = Ok i -> nth_error slots i = Some ref ->
  ref < length objs ->
  py.setz (AMES.read_lines objs slots) z v = Ok (AMES.read_lines (py.set objs ref v) slots).
Proof.
  intros Hnd Hi Hs Hlt. unfold py.setz.
  unfold AMES.read_lines at 1. rewrite length_map, Hi. cbn [bind].
  now rewrite (read_lines_set objs slots i ref v Hnd Hs Hlt).
Qed.

(** One step of the first loop on the objects is the step on the lines
    read through. *)
Lemma coords_point_obj_value (slots : list nat) (numEnd : Z) (clusters : list nat)
    (pts : list (F * F)) (resourceIdx : list Z) (ns ns' : list (@Node.t F))
    (objs objs' : list (@Line.t F)) (del del' : list Z) (k1 : nat) :
  NoDup slots ->
  AMES.coords_point_obj slots numEnd clusters pts resourceIdx (ns, objs, del) k1
    = Ok (ns', objs', del') ->
  AMES.coords_point numEnd clusters pts resourceIdx (ns, AMES.read_lines objs slots, del) k1
    = Ok (ns', AMES.read_lines objs' slots, del') /\
  length objs' = length objs.
Proof.
  intros Hnd H. unfold AMES.coords_point_obj in H. unfold AMES.coords_point.
  apply bind_ok in H. destruct H as [r [Hr H]]. rewrite Hr. cbn [bind].
  apply bind_ok in H. destruct H as [c [Hc H]]. rewrite Hc. cbn [bind].
  apply bind_ok in H. destruct H as [p [Hp H]]. rewrite Hp. cbn [bind].
  destruct (numEnd <=? r)%Z.
  - apply bind_ok in H. destruct H as [pt [Hpt H]]. rewrite Hpt. cbn [bind].
    apply bind_ok in H. destruct H as [ns1 [Hns H]]. rewrite Hns. cbn [bind].
    injection H as <- <- <-. split; reflexivity.
  - destruct (r mod 2 =? 0)%Z.
    + apply bind_ok in H. destruct H as [ref [Href H]].
      apply bind_ok in H. destruct H as [pt [Hpt H]].
      injection H as <- <- <-.
      destruct (getz_read objs slots _ ref pt Href Hpt) as [Hg [i [Hi Hs]]].
      rewrite Hg. cbn [bind].
      destruct (get_line_at _ _ _ Hpt) as [_ Hlt].
      rewrite (setz_read objs slots _ i ref _ Hnd Hi Hs Hlt). cbn [bind].
      split; [reflexivity|]. apply set_at_length.
    + apply bind_ok in H. destruct H as [ref [Href H]].
      apply bind_ok in H. destruct H as [pt [Hpt H]].
      injection H as <- <- <-.
      destruct (getz_read objs slots _ ref pt Href Hpt) as [Hg [i [Hi Hs]]].
      rewrite Hg. cbn [bind].
      destruct (get_line_at _ _ _ Hpt) as [_ Hlt].
      rewrite (setz_read objs slots _ i ref _ Hnd Hi Hs Hlt). cbn [bind].
      split; [reflexivity|]. apply set_at_length.
Qed.

Lemma coords_points_obj_value (slots : list nat) (numEnd : Z) (clusters : list nat)
    (pts : list (F * F)) (resourceIdx : list Z) (ks : list nat) :
  NoDup slots ->
  forall (ns ns' : list (@Node.t F)) (objs objs' : list (@Line.t F)) (del del' : list Z),
  foldM (AMES.coords_point_obj slots numEnd clusters pts resourceIdx) ks (ns, objs, del)
    = Ok (ns', objs', del') ->
  foldM (AMES.coords_point numEnd clusters pts resourceIdx) ks
        (ns, AMES.read_lines objs slots, del)
    = Ok (ns', AMES.read_lines objs' slots, del').
Proof.
  intros Hnd. induction ks as [|k ks IH]; intros ns ns' objs objs' del del' H.
  - cbn [foldM] in *. injection H as <- <- <-. reflexivity.
  - cbn [foldM] in *. apply bind_ok in H. destruct H as [[[ns1 objs1] del1] [H1 H]].
    destruct (coords_point_obj_value _ _ _ _ _ _ _ _ _ _ _ _ Hnd H1) as [Hv _].
    rewrite Hv. cbn [bind]. now apply IH.
Qed.

Lemma delete_from_map (A B : Type) (f : A -> B) (idx : list nat) (l : list A) :
  forall i, np.delete_from idx i (map f l) = map f (np.delete_from idx i l).
Proof.
  induction l as [|a l IH]; intros i; [reflexivity|].
  cbn [map np.delete_from]. destruct (existsb (Nat.eqb i) idx); cbn [map];
    now rewrite IH.
Qed.

Lemma deletez_map (A B : Type) (f : A -> B) (l l' : list A) (idx : list Z) :
  py.deletez l idx = Ok l' -> py.deletez (map f l) idx = Ok (map f l').
Proof.
  unfold py.deletez. rewrite length_map. intros H.
  apply bind_ok in H. destruct H as [ps [Hps H]]. rewrite Hps. cbn [bind].
  injection H as <-. unfold np.delete. now rewrite delete_from_map.
Qed.

(** One step of the second loop on the positions is the step on the
    lines read through. *)
Lemma coords_unloop_obj_value (objs : list (@Line.t F))
    (st st' : AMES.unloop_obj_state) (k2 : Z) :
  AMES.coords_unloop_obj objs st k2 = Ok st' ->
  AMES.coords_unloop (AMES.read_lines objs (fst (fst (fst st))), snd (fst (fst st)),
                      snd (fst st), snd st) k2
    = Ok (AMES.read_lines objs (fst (fst (fst st'))), snd (fst (fst st')),
          snd (fst st'), snd st').
Proof.
  destruct st as [[[slots clusters] resourceIdx] del_buffers]. cbn [fst snd].
  unfold AMES.coords_unloop_obj, AMES.coords_unloop. intros H.
  apply bind_ok in H. destruct H as [ref [Href H]].
  apply bind_ok in H. destruct H as [l [Hl H]].
  destruct (getz_read objs slots _ ref l Href Hl) as [Hg _]. rewrite Hg. cbn [bind].
  apply bind_ok in H. destruct H as [slots' [Hs H]].
  unfold AMES.read_lines.
  rewrite (deletez_map _ _ (AMES.line_at objs) _ _ _ Hs). cbn [bind].
  apply bind_ok in H. destruct H as [c' [Hc H]]. rewrite Hc. cbn [bind].
  apply bind_ok in H. destruct H as [r' [Hr H]]. rewrite Hr. cbn [bind].
  rewrite length_map.
  destruct (existsb _ _).
  - injection H as <-. reflexivity.
  - apply bind_ok in H. destruct H as [rs [Hrs H]]. rewrite Hrs. cbn [bind].
    injection H as <-. reflexivity.
Qed.

Lemma coords_unloops_obj_value (objs : list (@Line.t F)) (ks : list Z) :
  forall st st' : AMES.unloop_obj_state,
  foldM (AMES.coords_unloop_obj objs) ks st = Ok st' ->
  foldM AMES.coords_unloop ks
        (AMES.read_lines objs (fst (fst (fst st))), snd (fst (fst st)), snd (fst st), snd st)
    = Ok (AMES.read_lines objs (fst (fst (fst st'))), snd (fst (fst st')),
          snd (fst st'), snd st').
Proof.
  induction ks as [|k ks IH]; intros st st' H.
  - cbn [foldM] in *. injection H as <-. reflexivity.
  - cbn [foldM] in *. apply bind_ok in H. destruct H as [st1 [H1 H]].
    rewrite (coords_unloop_obj_value objs st st1 k H1). cbn [bind]. now apply IH.
Qed.

(** When no line object sits at two positions of [self.lines],
    [reviseCoords] on the objects is [reviseCoords] on the lines read
    through. *)
Lemma reviseCoords_obj_value (self : @AMES.ames F) (objs objs' : list (@Line.t F))
    (slots slots' : list nat) (ns' : list (@Node.t F))
    (clusters clusters' : list nat) (pts : list (F * F))
    (resourceIdx resourceIdx' : list Z) :
  NoDup slots ->
  AMES.reviseCoords_obj (AMES.nodes self) objs slots clusters pts resourceIdx
    = Ok (ns', objs', slots', clusters', resourceIdx') ->
  AMES.reviseCoords (AMES.with_lines self (AMES.read_lines objs slots)) clusters pts resourceIdx
    = Ok (AMES.mkAmes ns' (AMES.read_lines objs' slots') (AMES.refinements self)
            (AMES.elecGrid self) (AMES.NGSystem self) (AMES.oilSystem self)
            (AMES.coalSystem self),
          clusters', resourceIdx').
Proof.
  intros Hnd H. unfold AMES.reviseCoords_obj in H. unfold AMES.reviseCoords.
  apply bind_ok in H. destruct H as [[[ns1 objs1] del_lines] [H1 H]].
  apply bind_ok in H. destruct H as [[[[slots1 c1] r1] del_buffers] [H2 H]].
  apply bind_ok in H. destruct H as [[[ns2 c2] r2] [H3 H]].
  injection H as <- <- <- <- <-.
  unfold AMES.numEndpoints, AMES.with_lines. cbn [AMES.lines AMES.nodes].
  unfold AMES.read_lines at 1. rewrite length_map.
  rewrite (coords_points_obj_value _ _ _ _ _ _ Hnd _ _ _ _ _ _ H1). cbn [bind].
  pose proof (coords_unloops_obj_value _ _ _ _ H2) as Hv. cbn [fst snd] in Hv.
  rewrite Hv. cbn [bind].
  unfold AMES.read_lines at 1. rewrite length_map. rewrite H3. cbn [bind].
  reflexivity.
Qed.

(** X15. When no line object sits at two positions of [self.lines], with
    the two ends of the line at position [i] on rows [2i] and [2i+1], the
    buffers after them and a point for every line end, the lines
    [reviseCoords] returns are the lines it was given, in their order and
    with the clusters of their two ends written in, less exactly those
    whose two ends share a cluster: no other line is lost. *)
Theorem reviseCoords_keeps_lines (ns ns' : list (@Node.t F))
    (objs objs' : list (@Line.t F)) (slots slots' : list nat)
    (clusters clusters' : list nat) (pts : list (F * F))
    (resourceIdx resourceIdx' : list Z) :
  AMES.reviseCoords_obj ns objs slots clusters pts resourceIdx
    = Ok (ns', objs', slots', clusters', resourceIdx') ->
  NoDup slots ->
  endpoints_first (length slots) resourceIdx ->
  2 * length slots <= length pts ->
  AMES.read_lines objs' slots' =
  filter (fun l => negb (loops l)) (placed clusters (AMES.read_lines objs slots)).
Proof.
  intros H Hnd Hrows Hpts.
  set (self := AMES.mkAmes ns (@nil (@Line.t F)) [] None None None None).
  pose proof (reviseCoords_obj_value self objs objs' slots slots' ns' clusters clusters'
                pts resourceIdx resourceIdx' Hnd H) as Hv.
  assert (Hlen : length (AMES.lines (AMES.with_lines self (AMES.read_lines objs slots)))
                 = length slots).
  { unfold AMES.with_lines, AMES.read_lines. cbn [AMES.lines]. apply length_map. }
  exact (reviseCoords_lines_value _ _ _ _ _ _ _ Hv
           (eq_ind_r (fun n => endpoints_first n resourceIdx) Hrows Hlen)
           (eq_ind_r (fun n => 2 * n <= length pts) Hpts Hlen)).
Qed.
End KeptLines.

(** On the example the two lines are two objects; the spur loops and
    goes; the tie line stays, from cluster 0 to cluster 1. *)
Lemma reviseCoords_keeps_lines_witness :
  exists ns' objs' slots' clusters' resourceIdx',
    AMES.reviseCoords_obj (AMES.nodes PruneExamples.system)
      (AMES.lines PruneExamples.system) [0; 1] PruneExamples.clusters
      PruneExamples.pts PruneExamples.resourceIdx
    = Ok (ns', objs', slots', clusters', resourceIdx') /\
    AMES.read_lines objs' slots' =
    filter (fun l => negb (loops l))
           (placed PruneExamples.clusters
              (AMES.read_lines (AMES.lines PruneExamples.system) [0; 1])) /\
    slots' = [1] /\
    map (@Line.lineName float) (AMES.read_lines objs' slots') = ["Tie 1"%string].
Proof.
  destruct (AMES.reviseCoords_obj (AMES.nodes PruneExamples.system)
              (AMES.lines PruneExamples.system) [0; 1] PruneExamples.clusters
              PruneExamples.pts PruneExamples.resourceIdx)
    as [[[[[ns' objs'] slots'] clusters'] resourceIdx']|e] eqn:E;
    [|vm_compute in E; discriminate].
  exists ns', objs', slots', clusters', resourceIdx'. split; [reflexivity|].
  assert (Hnd : NoDup [0; 1]) by (repeat constructor; simpl; intuition discriminate).
  assert (Hrows : endpoints_first (length [0; 1]) PruneExamples.resourceIdx)
    by (apply endpoints_firstb_spec; reflexivity).
  assert (Hpts : 2 * length [0; 1] <= length PruneExamples.pts) by (simpl; lia).
  split; [exact (reviseCoords_keeps_lines _ _ _ _ _ _ _ _ _ _ _ E Hnd Hrows Hpts)|].
  vm_compute in E. injection E as _ <- <- _ _. split; reflexivity.
Defined.

(** Why the objects matter. With one line object at both positions of
    [self.lines] (what the fall-through of [updateTransporters] leaves),
    the ends written for position 0 are overwritten by those written for
    position 1: both positions read clusters 2 and 3, and none reads 0
    and 1. *)
Example reviseCoords_shared_object :
  option_map (fun r => map (fun l => (Line.clust_origin l, Line.clust_dest l))
                           (AMES.read_lines (snd (fst (fst (fst r))))
                                            (snd (fst (fst r)))))
    (match AMES.reviseCoords_obj (@nil (@Node.t float)) [LinkExamples.tie_line] [0; 0]
             [0; 1; 2; 3] (repeat (0%float, 0%float) 4) [0; 1; 2; 3]%Z with
     | Ok r => Some r
     | Raise _ => None
     end)
  = Some [(ClId 2, ClId 3); (ClId 2, ClId 3)] /\
  map (fun l => (Line.clust_origin l, Line.clust_dest l))
      (placed [0; 1; 2; 3]
         (AMES.read_lines [LinkExamples.tie_line] [0; 0]))
  = [(ClId 0, ClId 1); (ClId 2, ClId 3)].
Proof. vm_compute. split; reflexivity. Qed.
